(* ===== verification/_CoqProject ===== *)
-Q . S2P
Prelude.v
Float64.v
NetAddr.v
NetUtil.v
K8s.v
EpUtil.v
Tracker.v
SliceUtils.v
Topology.v
PortMapping.v
Reconciler.v
ReconcileSpec.v
ProxyEndpoints.v
EndpointsSpec.v
ProxyServices.v
HostPort.v
Kernel.v
Graceful.v
IpSet.v
Proxier.v
ProxySync.v
NetLink.v
Iptables.v
ProxierSetup.v
Conntrack.v
ProxyConfig.v
Utils.v
ProxyServer.v
SliceSync.v
EpController.v
PodEvents.v
ServiceCIDR.v
Mcs.v
CrossCluster.v
ServiceReach.v
ApiOps.v
Wireguard.v
Tunnels.v
HubConfig.v
CnfManager.v
Syncer.v
CnfCommand.v
CrossDNS.v
Dedinic.v
CniPlugin.v
