(* ===== verification/Prelude.v ===== *)
(** * Fleetboard: a verification development

    Fleetboard connects Kubernetes clusters: pods get a second interface on a
    flat network, services are exported and imported across clusters, an IPVS
    proxy on every node balances the virtual addresses of imported services, and
    the clusters are joined by WireGuard tunnels.  This library models the Go code
    of the repository as Rocq functions and proves what makes it correct.

    ** Conventions

    A Go function that returns an error is a function into [outcome] (a value, an
    error, a panic, or a loop that has not ended within its fuel) or, where the
    state changed before the error counts, a function that returns the new state
    with an optional error, or a [proc], the state monad over [outcome] of this
    file (the code of the tunnels is written in it, with the notations of
    [go_scope]).  Machine integers are [Z] with their wrap-around
    written out ([wrap32], [wrapu16], ...).  A Go map is a [gmap]; [range] over
    it and the unstable [sort.Sort] go through the class [GoRuntime], so every
    theorem holds for every order the runtime may choose.  A pointer that may be
    nil is an [option].  Code outside the repository (client-go, the API server,
    the kernel, netlink, go-ipam, ...) is a class of operations, its documented
    behaviour a class of laws, and every theorem that uses the laws has a witness at a concrete
    instance.

    ** Files, parts of the program, theorems

    - [Prelude]: outcomes, integers, the runtime, lemmas on lists and maps, the
      hint database [fleet] and the tactics.
    - [Float64]: the binary64 arithmetic of the topology cache.
    - [NetAddr]: Go's [net] package as the code uses it (parsing and printing
      of IPv4 addresses and CIDRs).  [NetUtil]: [utils/netutil.go], the division of the
      tunnel network among clusters and nodes.  What the allocator returns is
      disjoint from every range in use; it finds a free subnet while fewer are in use
      than there are and than its loop has rounds; a full network makes it leave the
      network, and the bound of the loop is proved as it is.
    - [K8s]: the API objects.  [EpUtil], [Tracker], [SliceUtils], [Topology], [PortMapping],
      [Reconciler]: [pkg/controller/endpointslice], the controller that publishes the
      second-interface addresses of pods as endpoint slices.  [PortMapping]
      proves the three steps of [reconcileByPortMapping] against the specification
      "every desired endpoint exactly once, no slice above the maximum, nothing
      touched that need not be"; [Tracker] that the tracker refines the log of the controller's
      writes; [Topology] that redistribution of hints does to the slices what it reports; [Reconciler] what
      [finalize] leaves at the API server; [ReconcileSpec] composes them into
      the end-to-end theorem on [Reconcile]; [EpController] models the queue,
      the workers and every event handler ([endpointslice.go]) and lifts that
      theorem to [syncService], with the retry budget of the queue and the exact
      condition under which slice events queue a service.  [PodEvents] adds which updates of pods are
      seen: a service that an update does not queue is still served by what is published, unless the update moves
      the address in the annotation or makes a pod terminal that was not ready, which are noticed with the resync of the
      services only.
    - [ProxyEndpoints], [ProxyServices]: [pkg/proxy], the caches of the proxy.  After any
      sequence of events the service map holds what the latest version of every import says, and
      every entry of the endpoint map what the latest slices under one label of its service say: all
      there is for a service with one label, the slices of one cluster for a service imported from
      several.  [CategorizeEndpoints] is shown to choose exactly the endpoints that the
      policies, the readiness and the hints call for.  [EndpointsSpec] says what the endpoint map computed from
      the slices of a service lists: the endpoints of each port, each once, in order.
    - [HostPort], [Kernel], [Graceful], [IpSet], [Proxier]: [pkg/proxy/ipvs].  The
      kernel (IPVS, ipset, addresses) is the class [KernelOps] with
      [KernelLaws] and, where calls are assumed not to fail, [ReliableKernel].
      [Proxier] models [syncProxyRules] with its helpers; the theorems say which
      virtual and real servers exist after a sync, [Graceful] that a real server is
      removed only without connections (UDP and SCTP apart) and eventually is.  [ProxySync] composes them
      into the end-to-end theorem on [syncProxyRules]: the kernel ends with exactly the
      virtual servers, bound addresses and entries of the sets of cluster addresses that the two maps describe, and with
      the selected endpoints of every service that the endpoint map knows.  [NetLink] models the handles of [netlink_linux.go] over the
      netlink package and proves that they keep the laws [Proxier] relies on;
      [Iptables] the rules of a sync, which are shown well formed (every rule is of a
      chain of its table and jumps to a target or a lower chain of the same table); [ProxierSetup] the probe of the kernel, its
      settings and the clean-up.  [ProxyConfig] models the handlers of [pkg/proxy/config] and the
      goroutines around the proxier as a step relation: no notification of the
      informers is lost, however they interleave.  [Conntrack] and [ProxyServer] model
      [cmd/proxy/app]: the limits of connection tracking are raised and never
      lowered, and a server that is built is an IPv4 one on a prepared kernel.
    - [Utils], [SliceSync], [ServiceCIDR], [Mcs]: [utils/] and [pkg/controller/mcs], the
      export and import of services.  A successful export mirrors the local slices
      in the hub, a successful import downloads them; virtual addresses stay distinct while updates succeed, and after a failed
      update of a terminating import the address that another import has been given meanwhile is released.  [CrossCluster] composes the two handlers over several exporting
      clusters and one importer, [ServiceReach] adds the proxier of the importer: for a service that
      one cluster exports its endpoint map ends with exactly the exported endpoints.  [Syncer]: [pkg/controller/syncer] and the event handlers of the two controllers; a start that
      succeeds establishes the invariant of the virtual addresses, and slices of the hub queue no import.
    - [ApiOps]: the writes of pods and peers ([utils/utils.go], [utils/peerManager.go]).
      [Wireguard]: [pkg/tunnel]; on a device that accepts every configuration its
      peers are exactly those of the recorded connections after any run, but for clusters that were recycled and not
      connected anew, and a failed configuration is never repeated.  [Tunnels]: [pkg/controller/tunnels], the
      two controllers with their informer caches as state; ranges that are
      handed out and written are free, and two runs show how a failed step loses
      or duplicates a range.  [CnfManager]: the callbacks of the leader election
      ([pkg/cnf]); a pod that follows hands out no range, and one
      that followed, led and stopped leading goes on handing out the ranges that its successor hands out.  [CnfCommand]: the command of the CNF pod ([cmd/cnf/app], [NewCNFManager]); a
      command that gets to the election has valid options, a tunnel whose key is published, and a cluster name that is a label.
    - [HubConfig]: [pkg/config] and [utils/kubeconfig.go]; the credentials of the hub are
      stored once and give later calls the same configuration, and a pod that loses
      the race to store them never leaves its loop.
    - [CrossDNS]: [pkg/plugin]; names are parsed as they are built, an A query
      is answered with the addresses the name stands for, and a block of the
      configuration file is read or refused.
    - [Dedinic]: [pkg/dedinic], the second interface of the pods, with the wait for the
      ranges in [pkg/cnf].  After a successful configuration a link has exactly
      the wanted addresses; a request for addresses is all or nothing; interface
      names fit the kernel's limit, but three characters of the container's identifier
      tell them apart, and a run shows a second pod taking the first one's interface.
      [CniPlugin]: the plugin of the container runtime; over any run a container has its addresses exactly when the last
      event that concerns it started it.

    ** Fuel

    Loops that Go writes with a counter or over a slice are structural.  Where
    the model takes fuel ([worker], [reconcileByPortMapping]'s third loop, the
    redistribution of hints) running out of it is the value [Spin], the theorems
    on results are stated for returned values, and termination is proved where
    the code terminates: [reconcileByPortMapping_correct] shows that the fuel
    computed from the number of endpoints is enough for every positive maximum, and
    [reconcileByPortMapping_zero_max] that none is enough for zero.

    ** Not modelled

    The clients and informers that the constructors make, the mains and the declarations of flags under [cmd/], the generated
    clients, the Prometheus registration and the kubelet client of [pkg/dedinic], which nothing uses, are left out; the
    registration of handlers with an informer is modelled by the handlers.  Locks are not modelled, since
    an operation holds its lock throughout; where goroutines interleave ([ProxyConfig], [Mcs]) the
    steps are what they do under a lock. *)
From Stdlib Require Import ZArith Zify Lia.
From stdpp Require Import prelude gmap strings list sorting.

(** ** Results of Go functions

    A Go function that can fail returns [(value, error)]; one that
    dereferences a nil pointer or indexes out of range panics; a loop that is
    not structural runs on fuel and is still spinning when the fuel ends.
    [outcome] keeps the four cases apart. *)
Inductive outcome (A : Type) : Type :=
  | Ret (a : A)
  | Err (msg : string)
  | Panic
  | Spin.
Arguments Ret {A} a.
Arguments Err {A} msg.
Arguments Panic {A}.
Arguments Spin {A}.

#[export] Instance outcome_ret : MRet outcome := fun A a => Ret a.
#[export] Instance outcome_bind : MBind outcome := fun A B f o =>
  match o with
  | Ret a => f a
  | Err e => Err e
  | Panic => Panic
  | Spin => Spin
  end.

#[export] Instance outcome_eq_dec `{EqDecision A} : EqDecision (outcome A).
Proof. solve_decision. Defined.

#[export] Instance Ret_inj {A} : Inj (=) (=) (@Ret A).
Proof. by intros a b [= ->]. Qed.

(** A computation that returns has returned at every step. *)
Lemma bind_Ret {A B} (o : outcome A) (f : A → outcome B) b :
  o ≫= f = Ret b ↔ ∃ a, o = Ret a ∧ f a = Ret b.
Proof. destruct o; simpl; naive_solver. Qed.

(** [guard_err b msg k] is Go's [if b { return err }] followed by [k]. *)
Definition guard_err {A} (b : bool) (msg : string) (k : outcome A) : outcome A :=
  if b then Err msg else k.

(** [fmt.Errorf("msg: %v", err)] around an error. *)
Definition wrap_err {A} (msg : string) (o : outcome A) : outcome A :=
  match o with Err e => Err (msg +:+ ": " +:+ e) | o => o end.

(** Dereference of a pointer: nil panics. *)
Definition deref {A} (p : option A) : outcome A :=
  match p with Some a => Ret a | None => Panic end.

(** Indexing of a slice: out of range panics. *)
Definition index {A} (l : list A) (i : nat) : outcome A := deref (l !! i).

Definition is_ret {A} (o : outcome A) : bool :=
  match o with Ret _ => true | _ => false end.

(** ** Procedures

    Code that changes a state and may fail half way: the changes it made stay. *)
Definition proc (S A : Type) : Type := S → S * outcome A.

#[export] Instance proc_ret {S} : MRet (proc S) := λ A a s, (s, Ret a).
#[export] Instance proc_bind {S} : MBind (proc S) := λ A B f p s,
  match p s with
  | (s, Ret a) => f a s
  | (s, Err e) => (s, Err e)
  | (s, Panic) => (s, Panic)
  | (s, Spin) => (s, Spin)
  end.

Section procs.
Context {S : Type}.

Definition lift {A} (o : outcome A) : proc S A := λ s, (s, o).
Definition gets {A} (f : S → A) : proc S A := λ s, (s, Ret (f s)).
Definition modify (f : S → S) : proc S () := λ s, (f s, Ret ()).

(** [if err != nil] after a call: the handler gets the value or the error. *)
Definition handle {A B} (p : proc S A) (h : A + string → proc S B) : proc S B := λ s,
  match p s with
  | (s, Ret a) => h (inl a) s
  | (s, Err e) => h (inr e) s
  | (s, Panic) => (s, Panic)
  | (s, Spin) => (s, Spin)
  end.

(** A call whose error is dropped or logged. *)
Definition ignore_err {A} (p : proc S A) : proc S () := handle p (λ _, mret ()).

(** A procedure on a part of the state. *)
Definition on {T A} (get : S → T) (put : T → S → S) (p : proc T A) : proc S A := λ s,
  let '(t, r) := p (get s) in (put t s, r).

(** A call of a client: the new state and an error, if any. *)
Definition call {A E} (msg : E → string) (f : S → S * (A + E)) : proc S A := λ s,
  match f s with (s, inl a) => (s, Ret a) | (s, inr e) => (s, Err (msg e)) end.

Lemma proc_bind_Ret {A B} (p : proc S A) (f : A → proc S B) s s' b :
  (p ≫= f) s = (s', Ret b) ↔ ∃ s1 a, p s = (s1, Ret a) ∧ f a s1 = (s', Ret b).
Proof. unfold mbind, proc_bind. destruct (p s) as [s1 [a| | |]]; naive_solver. Qed.

Lemma handle_Ret {A B} (p : proc S A) (h : A + string → proc S B) s s' b :
  handle p h s = (s', Ret b) →
  (∃ s1 a, p s = (s1, Ret a) ∧ h (inl a) s1 = (s', Ret b)) ∨ (∃ s1 e, p s = (s1, Err e) ∧ h (inr e) s1 = (s', Ret b)).
Proof. unfold handle. destruct (p s) as [s1 [a| | |]]; naive_solver. Qed.

Lemma on_Ret {T A} (get : S → T) put (p : proc T A) s s' a :
  on get put p s = (s', Ret a) → ∃ t, p (get s) = (t, Ret a) ∧ s' = put t s.
Proof. unfold on. destruct (p (get s)) as [t r]. intros [= <- ->]. eauto. Qed.

Lemma lift_Ret {A} (o : outcome A) s s' a : lift o s = (s', Ret a) → o = Ret a ∧ s' = s.
Proof. unfold lift. naive_solver. Qed.
End procs.

(** ** Procedures that keep a part of the state *)
Definition keeps {S A B} (f : S → B) (p : proc S A) : Prop := ∀ s, f (fst (p s)) = f s.

Section keeps.
Context {S B : Type} (f : S → B).
Lemma keeps_ret {A} (a : A) : keeps f (mret a).
Proof. done. Qed.
Lemma keeps_lift {A} (o : outcome A) : keeps f (lift o).
Proof. done. Qed.
Lemma keeps_gets {A} (g : S → A) : keeps f (gets g).
Proof. done. Qed.
Lemma keeps_modify (g : S → S) : (∀ s, f (g s) = f s) → keeps f (modify g).
Proof. done. Qed.
Lemma keeps_bind {A C} (p : proc S A) (k : A → proc S C) : keeps f p → (∀ a, keeps f (k a)) → keeps f (p ≫= k).
Proof.
  intros Hp Hk s. specialize (Hp s). unfold mbind, proc_bind. destruct (p s) as [s' [a| | |]]; cbn in *; [|done..]. by rewrite Hk.
Qed.
Lemma keeps_handle {A C} (p : proc S A) (k : A + string → proc S C) : keeps f p → (∀ r, keeps f (k r)) → keeps f (handle p k).
Proof. intros Hp Hk s. specialize (Hp s). unfold handle. destruct (p s) as [s' [a| | |]]; cbn in *; [by rewrite Hk..|done|done]. Qed.
Lemma keeps_ignore_err {A} (p : proc S A) : keeps f p → keeps f (ignore_err p).
Proof. intros Hp. by apply keeps_handle. Qed.
Lemma keeps_on {T A} (get : S → T) put (p : proc T A) : (∀ t s, f (put t s) = f s) → keeps f (on get put p).
Proof. intros Hput s. unfold on. destruct (p (get s)) as [t r]. apply Hput. Qed.
Lemma keeps_on_part {T A D} (get : S → T) put (g : T → D) (p : proc T A) :
  keeps g p → (∀ t s, g t = g (get s) → f (put t s) = f s) → keeps f (on get put p).
Proof. intros Hp Hput s. specialize (Hp (get s)). unfold on. destruct (p (get s)) as [t r]. by apply Hput. Qed.
End keeps.
Create HintDb keeps.
#[export] Hint Resolve keeps_ret keeps_lift keeps_gets : keeps.

(** Go through the binds and matches of a procedure. *)
Ltac keep :=
  repeat first
    [ progress intros
    | solve [auto with keeps]
    | apply keeps_bind | apply keeps_ignore_err | apply keeps_handle
    | match goal with
      | |- keeps _ (match ?x with _ => _ end) => destruct x
      | |- keeps _ (if ?b then _ else _) => destruct b
      end ].

Declare Scope go_scope.
Delimit Scope go_scope with go.
Notation "'try' p 'as' r 'in' k" := (handle p (λ r, k)) (at level 20, r name, p at level 100, k at level 200) : go_scope.

(** ** The Go runtime where it is not deterministic

    [range] over a map visits the entries in an unspecified order and
    [sort.Sort] is not stable.  Both are left abstract: a development that
    is proved for every [GoRuntime] holds for every order the runtime may
    choose. *)
Definition less_order {A} (less : A → A → bool) : Prop :=
  (∀ a b, less a b = true → less b a = false) ∧
  (∀ a b c, less b a = false → less c b = false → less c a = false).

Class GoRuntime := {
  go_range : ∀ {K A : Type} `{Countable K}, gmap K A → list (K * A);
  go_range_perm : ∀ {K A : Type} `{Countable K} (m : gmap K A),
    go_range m ≡ₚ map_to_list m;
  go_sort : ∀ {A : Type}, (A → A → bool) → list A → list A;
  go_sort_perm : ∀ {A : Type} (less : A → A → bool) l, go_sort less l ≡ₚ l;
  go_sort_sorted : ∀ {A : Type} (less : A → A → bool) l,
    less_order less → StronglySorted (λ a b, less b a = false) (go_sort less l)
}.

(** A concrete runtime, used by the executable examples: maps are visited
    in the order of [map_to_list], sorting is insertion sort. *)
Fixpoint insert_sorted {A} (less : A → A → bool) (x : A) (l : list A) : list A :=
  match l with
  | [] => [x]
  | y :: l' => if less y x then y :: insert_sorted less x l' else x :: l
  end.

Definition insertion_sort {A} (less : A → A → bool) (l : list A) : list A :=
  foldr (insert_sorted less) [] l.

Lemma insert_sorted_perm {A} (less : A → A → bool) x l :
  insert_sorted less x l ≡ₚ x :: l.
Proof.
  induction l as [|y l IH]; simpl; [done|].
  destruct (less y x); [|done]. rewrite IH. by constructor.
Qed.

Lemma insertion_sort_perm {A} (less : A → A → bool) l : insertion_sort less l ≡ₚ l.
Proof.
  induction l as [|x l IH]; simpl; [done|]. by rewrite insert_sorted_perm, IH.
Qed.

Lemma insert_sorted_sorted {A} (less : A → A → bool) x l :
  less_order less →
  StronglySorted (λ a b, less b a = false) l →
  StronglySorted (λ a b, less b a = false) (insert_sorted less x l).
Proof.
  intros [Has Htr]. induction l as [|y l IH]; simpl; intros Hs.
  { by repeat constructor. }
  inversion_clear Hs as [|? ? Hs' Hall].
  destruct (less y x) eqn:Hyx.
  - constructor; [by apply IH|].
    rewrite insert_sorted_perm. constructor; [by apply Has|done].
  - constructor; [by constructor|]. constructor; [done|].
    eapply Forall_impl; [exact Hall|]. intros z Hz. simpl in Hz. eauto.
Qed.

Lemma insertion_sort_sorted {A} (less : A → A → bool) l :
  less_order less → StronglySorted (λ a b, less b a = false) (insertion_sort less l).
Proof.
  intros H. induction l as [|x l IH]; simpl; [constructor|].
  by apply insert_sorted_sorted.
Qed.

Program Definition list_runtime : GoRuntime := {|
  go_range := λ K A _ _ m, map_to_list m;
  go_sort := λ A less l, insertion_sort less l
|}.
Next Obligation. done. Qed.
Next Obligation. intros. apply insertion_sort_perm. Qed.
Next Obligation. intros. by apply insertion_sort_sorted. Qed.

(** ** Machine integers: [int] and [int64], [int32], [uint16] *)
Definition wrap64 (z : Z) : Z := ((z + 2 ^ 63) mod 2 ^ 64 - 2 ^ 63)%Z.
Definition wrap32 (z : Z) : Z := ((z + 2 ^ 31) mod 2 ^ 32 - 2 ^ 31)%Z.
Definition wrapu16 (z : Z) : Z := (z mod 2 ^ 16)%Z.
Lemma wrap64_range z : (- 2 ^ 63 ≤ wrap64 z < 2 ^ 63)%Z.
Proof. unfold wrap64. pose proof (Z.mod_pos_bound (z + 2 ^ 63) (2 ^ 64)%Z). lia. Qed.
Lemma wrap64_id z : (- 2 ^ 63 ≤ z < 2 ^ 63)%Z → wrap64 z = z.
Proof. unfold wrap64. intros Hz. rewrite Z.mod_small by lia. lia. Qed.

(** ** Strings

    [sort.Strings] compares bytes; the order is total, so its result does not
    depend on the sorting algorithm. *)
Definition str_lt (a b : string) : bool := String.ltb a b.

Lemma str_compare_le_trans (a b c : string) :
  String.compare a b ≠ Gt → String.compare b c ≠ Gt → String.compare a c ≠ Gt.
Proof.
  revert b c. induction a as [|x a IH]; intros [|y b] [|z c]; simpl; try done.
  unfold Ascii.compare.
  destruct (N.compare_spec (Ascii.N_of_ascii x) (Ascii.N_of_ascii y)) as [E|E|E]; [|..|done];
  destruct (N.compare_spec (Ascii.N_of_ascii y) (Ascii.N_of_ascii z)) as [F|F|F]; try done;
  destruct (N.compare_spec (Ascii.N_of_ascii x) (Ascii.N_of_ascii z)) as [G|G|G]; try lia; try done.
  apply IH.
Qed.

Lemma str_lt_false (a b : string) : str_lt b a = false ↔ String.compare a b ≠ Gt.
Proof.
  unfold str_lt, String.ltb. rewrite (String.compare_antisym a b).
  by destruct (String.compare b a).
Qed.

Lemma str_lt_order : less_order str_lt.
Proof.
  split.
  - intros a b E. apply str_lt_false. unfold str_lt, String.ltb in E. by destruct (String.compare a b).
  - intros a b c. rewrite !str_lt_false. apply str_compare_le_trans.
Qed.

#[export] Instance str_le_antisymm : AntiSymm (=) (λ a b, str_lt b a = false).
Proof.
  intros a b. rewrite !str_lt_false, (String.compare_antisym b a). intros H1 H2.
  apply String.compare_eq_iff. by destruct (String.compare a b).
Qed.

Definition sort_strings `{GoRuntime} (l : list string) : list string := go_sort str_lt l.

Section sort_strings.
Context `{GoRuntime}.

Lemma sort_strings_perm l : sort_strings l ≡ₚ l.
Proof. apply go_sort_perm. Qed.

Lemma sort_strings_proper l k : l ≡ₚ k → sort_strings l = sort_strings k.
Proof.
  intros E. apply (StronglySorted_unique (λ a b, str_lt b a = false)).
  - apply go_sort_sorted, str_lt_order.
  - apply go_sort_sorted, str_lt_order.
  - by rewrite !sort_strings_perm.
Qed.

Lemma sort_strings_idemp l : sort_strings (sort_strings l) = sort_strings l.
Proof. apply sort_strings_proper, sort_strings_perm. Qed.
End sort_strings.

Lemma string_app_cons x (a b : string) : String x a +:+ b = String x (a +:+ b).
Proof. done. Qed.
Lemma string_length_app (a b : string) : String.length (a +:+ b) = (String.length a + String.length b)%nat.
Proof. induction a as [|c a IH]; [done|]. rewrite string_app_cons. cbn. by rewrite IH. Qed.
Lemma string_app_inv_r (a b s : string) : a +:+ s = b +:+ s → a = b.
Proof.
  revert b. induction a as [|x a IH]; intros [|y b] E; [done| | |].
  1-2: apply (f_equal String.length) in E; rewrite !string_length_app in E; cbn in E; lia.
  rewrite !string_app_cons in E. injection E as -> E. f_equal. by apply IH.
Qed.

(** ** Sets

    A Go set is a map to the empty struct: [UnsortedList] visits its keys in
    the order of [range]. *)
Section unsorted.
Context `{GoRuntime}.

Definition UnsortedList {K} `{Countable K} (s : gset K) : list K :=
  (go_range (mapset.mapset_car s)).*1.

Lemma UnsortedList_elements {K} `{Countable K} (s : gset K) :
  UnsortedList s ≡ₚ elements s.
Proof. unfold UnsortedList. rewrite go_range_perm. by destruct s. Qed.

Lemma elem_of_UnsortedList {K} `{Countable K} (s : gset K) k :
  k ∈ UnsortedList s ↔ k ∈ s.
Proof. by rewrite UnsortedList_elements, elem_of_elements. Qed.

Lemma NoDup_UnsortedList {K} `{Countable K} (s : gset K) : NoDup (UnsortedList s).
Proof. rewrite UnsortedList_elements. apply NoDup_elements. Qed.

Lemma elem_of_go_range {K A} `{Countable K} (m : gmap K A) k a :
  (k, a) ∈ go_range m ↔ m !! k = Some a.
Proof. by rewrite go_range_perm, elem_of_map_to_list. Qed.

Lemma go_range_nil {K A} `{Countable K} (m : gmap K A) :
  go_range m = [] ↔ m = ∅.
Proof.
  rewrite <- (map_to_list_empty_iff m). split; intros E.
  - apply Permutation_nil. by rewrite <- E, go_range_perm.
  - apply Permutation_nil. by rewrite <- E, go_range_perm.
Qed.

Lemma NoDup_go_range {K A} `{Countable K} (m : gmap K A) : NoDup (go_range m).*1.
Proof. rewrite go_range_perm. apply NoDup_fst_map_to_list. Qed.

Lemma list_to_map_go_range {K A} `{Countable K} (m : gmap K A) : (list_to_map (go_range m) : gmap K A) = m.
Proof.
  transitivity (list_to_map (map_to_list m) : gmap K A); [|apply list_to_map_to_list].
  apply list_to_map_proper; [apply NoDup_go_range|apply go_range_perm].
Qed.
End unsorted.

(** ** Monadic traversal *)
Fixpoint mapO {A B} (f : A → outcome B) (l : list A) : outcome (list B) :=
  match l with
  | [] => Ret []
  | x :: l' => y ← f x; ys ← mapO f l'; Ret (y :: ys)
  end.

Lemma mapO_ret {A B} (f : A → outcome B) (g : A → B) l :
  (∀ x, x ∈ l → f x = Ret (g x)) → mapO f l = Ret (g <$> l).
Proof.
  induction l as [|x l IH]; intros Hf; simpl; [done|].
  rewrite Hf by left. simpl. rewrite IH; [done|]. intros; apply Hf; by right.
Qed.

Lemma filter_all {A} (P : A → Prop) `{∀ a, Decision (P a)} (l : list A) : (∀ a, a ∈ l → P a) → filter P l = l.
Proof.
  induction l as [|a l IH]; intros Hl; [done|]. rewrite filter_cons_True by (apply Hl; by left).
  f_equal. apply IH. intros; apply Hl; by right.
Qed.

(** ** Hints

    Permutations and duplicates of the lists the runtime hands out. *)
Create HintDb fleet.
#[export] Hint Resolve sort_strings_perm go_sort_perm go_range_perm UnsortedList_elements : fleet.
#[export] Hint Resolve NoDup_UnsortedList NoDup_go_range NoDup_fst_map_to_list : fleet.
#[export] Hint Resolve str_lt_order : fleet.

(** ** Tactics *)

(** Take the steps of a computation in the hypothesis [H] apart. *)
Ltac inv_Ret H :=
  repeat match type of H with
  | _ ≫= _ = Ret _ => let a := fresh "a" in let E := fresh "E" in apply bind_Ret in H as (a & E & H)
  end;
  try (apply (inj Ret) in H).

(** Linear arithmetic with division and modulo by constants. *)
Ltac dlia := Z.to_euclidean_division_equations; lia.
