(* ===== verification/Float64.v ===== *)
(** * [float64]

    The IEEE 754 binary64 arithmetic the topology cache and the metrics use,
    on the executable [spec_float] of the Standard Library (precision 53,
    maximal exponent 1024, round to nearest even).  Typed Go constants are
    rounded to [float64] after every operation, so constant expressions are
    evaluated with the same operations. *)
From Stdlib Require Import ZArith SpecFloat.
From stdpp Require Import prelude.
Open Scope Z_scope.

Abbreviation float64 := spec_float.

Definition f64_of_int (z : Z) : float64 := binary_normalize 53 1024 z 0 false.
Definition f64_add (x y : float64) : float64 := SFadd 53 1024 x y.
Definition f64_sub (x y : float64) : float64 := SFsub 53 1024 x y.
Definition f64_mul (x y : float64) : float64 := SFmul 53 1024 x y.
Definition f64_div (x y : float64) : float64 := SFdiv 53 1024 x y.
Definition f64_lt (x y : float64) : bool := SFltb x y.

Definition f64_zero : float64 := S754_zero false.
Definition f64_one : float64 := f64_of_int 1.
(** 0.5 and 0.2 rounded to [float64]. *)
Definition f64_half : float64 := f64_div f64_one (f64_of_int 2).
Definition f64_0_2 : float64 := f64_div f64_one (f64_of_int 5).

(** [int(math.Ceil(x))]; the conversion of a value that does not fit, an
    infinity or NaN gives the minimal [int] on amd64. *)
Definition f64_ceil_int (x : float64) : Z :=
  match x with
  | S754_zero _ => 0
  | S754_finite s m e =>
      let v := if s then Z.neg m else Z.pos m in
      let c := if 0 <=? e then v * 2 ^ e else - ((- v) / 2 ^ (- e)) in
      if (- 2 ^ 63 <=? c) && (c <? 2 ^ 63) then c else - 2 ^ 63
  | _ => - 2 ^ 63
  end.

(** [math.Max] *)
Definition f64_max (x y : float64) : float64 :=
  match x, y with
  | S754_infinity false, _ | _, S754_infinity false => S754_infinity false
  | S754_nan, _ | _, S754_nan => S754_nan
  | S754_zero true, S754_zero _ => y
  | S754_zero false, S754_zero _ => x
  | _, _ => if f64_lt y x then x else y
  end.

Example f64_constants :
  f64_0_2 = S754_finite false 7205759403792794 (-55) ∧ f64_half = S754_finite false 4503599627370496 (-53).
Proof. vm_compute. done. Qed.

Example f64_ceil_ex :
  f64_ceil_int (f64_div (f64_of_int 7) (f64_of_int 2)) = 4 ∧ f64_ceil_int (f64_of_int (-3)) = -3
  ∧ f64_ceil_int (f64_div (f64_of_int (-7)) (f64_of_int 2)) = -3 ∧ f64_ceil_int (f64_div f64_one f64_zero) = - 2 ^ 63.
Proof. vm_compute. done. Qed.
