(* ===== verification/NetAddr.v ===== *)
(** * The [net] package

    The part of Go's [net] and [net/netip] packages that [utils/netutil.go],
    [utils/endpointslice.go] and the tunnel and proxy packages use: byte
    slices as addresses, textual IPv4 and IPv6 addresses, CIDR notation, masks
    and containment.  The standard library is modelled, so nothing here is
    mapped to a source file of the repository. *)
From Stdlib Require Import Ascii.
From stdpp Require Import prelude gmap strings list pretty.
From S2P Require Import Prelude.
Open Scope Z_scope.

(** [net.IP] and [net.IPMask]: nil (the empty list) or a slice of bytes. *)
Abbreviation IP := (list Z).
Abbreviation IPMask := (list Z).

Record IPNet := mkIPNet { net_IP : IP; net_Mask : IPMask }.

#[export] Instance IPNet_eq_dec : EqDecision IPNet.
Proof. solve_decision. Defined.

Definition v4InV6Prefix : list Z := [0;0;0;0;0;0;0;0;0;0;255;255].

(** ** Characters and numbers *)
Definition char_val (c : ascii) : Z := Z.of_N (N_of_ascii c).
Definition is_digit (c : ascii) : bool := (48 <=? char_val c) && (char_val c <=? 57).
Definition digit_val (c : ascii) : Z := char_val c - 48.

Definition hex_val (c : ascii) : option Z :=
  let v := char_val c in
  if (48 <=? v) && (v <=? 57) then Some (v - 48)
  else if (97 <=? v) && (v <=? 102) then Some (v - 97 + 10)
  else if (65 <=? v) && (v <=? 70) then Some (v - 65 + 10)
  else None.

(** [strconv.Itoa] and [%d]. *)
Definition Itoa (z : Z) : string := pretty z.

(** [dtoi]: the decimal number at the front of [s] and the rest of [s];
    [None] when there is no digit or the number reaches 0xFFFFFF. *)
Fixpoint dtoi_go (n : Z) (s : string) : option (Z * string) :=
  match s with
  | EmptyString => Some (n, EmptyString)
  | String c s' =>
      if is_digit c then
        let n' := n * 10 + digit_val c in
        if 16777215 <=? n' then None else dtoi_go n' s'
      else Some (n, s)
  end.

Definition dtoi (s : string) : option (Z * string) :=
  match s with
  | String c _ => if is_digit c then dtoi_go 0 s else None
  | EmptyString => None
  end.

(** ** Textual addresses *)

(** [netip.parseIPv4Fields]: [fields] holds the finished octets, [val] and
    [digLen] the octet being read, [prevDot] whether the previous character
    was a dot or the string has just begun. *)
Fixpoint parseIPv4_go (fields : list Z) (val : Z) (digLen : nat) (prevDot : bool)
    (s : string) : option (list Z) :=
  match s with
  | EmptyString =>
      if (length fields =? 3)%nat then Some (fields ++ [val]) else None
  | String c s' =>
      if is_digit c then
        if (digLen =? 1)%nat && (val =? 0) then None
        else
          let val' := val * 10 + digit_val c in
          if 255 <? val' then None
          else parseIPv4_go fields val' (S digLen) false s'
      else if bool_decide (c = "."%char) then
        if prevDot || bool_decide (s' = EmptyString) then None
        else if (length fields =? 3)%nat then None
        else parseIPv4_go (fields ++ [val]) 0 0 true s'
      else None
  end.

Definition parseIPv4 (s : string) : option (list Z) := parseIPv4_go [] 0 0 true s.

(** The hexadecimal group at the front of [s]: its value, the number of
    digits and the rest; [None] when it has more than four digits. *)
Fixpoint hex_group (acc : Z) (off : nat) (s : string) : option (Z * nat * string) :=
  match s with
  | EmptyString => Some (acc, off, EmptyString)
  | String c s' =>
      match hex_val c with
      | Some d =>
          if (3 <? off)%nat then None else hex_group (acc * 16 + d) (S off) s'
      | None => Some (acc, off, s)
      end
  end.

(** [netip.parseIPv6] without a zone.  [out] holds the bytes read so far,
    [ell] the position of the ellipsis.  Each round consumes a group, so eight
    rounds are enough for the sixteen bytes. *)
Fixpoint parseIPv6_go (rounds : nat) (out : list Z) (ell : option nat) (s : string)
    : option (list Z * option nat * string) :=
  match rounds with
  | O => Some (out, ell, s)
  | S rounds' =>
      if (16 <=? length out)%nat then Some (out, ell, s) else
      match hex_group 0 0 s with
      | None => None
      | Some (_, O, _) => None
      | Some (acc, _, rest) =>
          match rest with
          | EmptyString => Some (out ++ [acc / 256; acc mod 256], ell, EmptyString)
          | String c rest' =>
              if bool_decide (c = "."%char) then
                if negb (bool_decide (is_Some ell)) && negb (length out =? 12)%nat then None
                else if (16 <? length out + 4)%nat then None
                else match parseIPv4 s with
                     | Some v4 => Some (out ++ v4, ell, EmptyString)
                     | None => None
                     end
              else
                let out' := out ++ [acc / 256; acc mod 256] in
                if negb (bool_decide (c = ":"%char)) then None
                else match rest' with
                     | EmptyString => None
                     | String c2 rest2 =>
                         if bool_decide (c2 = ":"%char) then
                           match ell with
                           | Some _ => None
                           | None =>
                               match rest2 with
                               | EmptyString => Some (out', Some (length out'), EmptyString)
                               | _ => parseIPv6_go rounds' out' (Some (length out')) rest2
                               end
                           end
                         else parseIPv6_go rounds' out' ell rest'
                     end
          end
      end
  end.

Definition expand_ellipsis (out : list Z) (ell : option nat) : option (list Z) :=
  if (length out <? 16)%nat then
    match ell with
    | None => None
    | Some e => Some (take e out ++ replicate (16 - length out) 0 ++ drop e out)
    end
  else match ell with Some _ => None | None => Some out end.

Definition parseIPv6 (s : string) : option (list Z) :=
  let '(ell, s1) :=
    match s with
    | String ":" (String ":" s') => (Some 0%nat, s')
    | _ => (None, s)
    end in
  match ell, s1 with
  | Some _, EmptyString => Some (replicate 16 0)
  | _, _ =>
      match parseIPv6_go 8 [] ell s1 with
      | Some (out, ell', EmptyString) => expand_ellipsis out ell'
      | _ => None
      end
  end.

(** [netip.ParseAddr]: the first of [.], [:] and [%] decides the family.  An
    address with a zone is rejected by every caller, so [%] is [None]. *)
Fixpoint has_char (c : ascii) (s : string) : bool :=
  match s with
  | EmptyString => false
  | String c' s' => bool_decide (c = c') || has_char c s'
  end.

Fixpoint first_sep (s : string) : option ascii :=
  match s with
  | EmptyString => None
  | String c s' =>
      if bool_decide (c = "."%char) || bool_decide (c = ":"%char) || bool_decide (c = "%"%char)
      then Some c else first_sep s'
  end.

Inductive addr := Addr4 (b : list Z) | Addr16 (b : list Z).

Definition ParseAddr (s : string) : option addr :=
  if has_char "%" s then None else
  match first_sep s with
  | Some "."%char => Addr4 <$> parseIPv4 s
  | Some ":"%char => Addr16 <$> parseIPv6 s
  | _ => None
  end.

Definition BitLen (a : addr) : Z := match a with Addr4 _ => 32 | Addr16 _ => 128 end.
Definition As16 (a : addr) : IP :=
  match a with Addr4 b => v4InV6Prefix ++ b | Addr16 b => b end.

(** [net.ParseIP] (and [netutils.ParseIPSloppy] up to leading zeros). *)
Definition ParseIP (s : string) : IP :=
  match ParseAddr s with Some a => As16 a | None => [] end.

(** ** Masks *)
Definition mask_byte (n : Z) : Z := 255 - Z.shiftr 255 n.

Fixpoint mask_bytes (l : nat) (n : Z) : IPMask :=
  match l with
  | O => []
  | S l' => if 8 <=? n then 255 :: mask_bytes l' (n - 8) else mask_byte n :: mask_bytes l' 0
  end.

Definition CIDRMask (ones bits : Z) : IPMask :=
  if negb ((bits =? 32) || (bits =? 128)) then []
  else if (ones <? 0) || (bits <? ones) then []
  else mask_bytes (Z.to_nat (bits / 8)) ones.

(** [simpleMaskLength]: the number of leading ones, [None] when a one follows
    a zero. *)
Fixpoint leading_ones (fuel : nat) (v : Z) : Z * Z :=
  match fuel with
  | O => (0, v)
  | S f => if Z.testbit v 7 then let '(n, v') := leading_ones f (Z.land (Z.shiftl v 1) 255) in (n + 1, v')
           else (0, v)
  end.

Fixpoint simpleMaskLength (m : IPMask) : option Z :=
  match m with
  | [] => Some 0
  | v :: m' =>
      if v =? 255 then (λ n, n + 8) <$> simpleMaskLength m'
      else let '(n, v') := leading_ones 8 v in
           if negb (v' =? 0) then None
           else if forallb (Z.eqb 0) m' then Some n else None
  end.

(** [IPMask.Size]: ones and bits, both zero for a mask that is not canonical. *)
Definition Mask_Size (m : IPMask) : Z * Z :=
  match simpleMaskLength m with
  | Some n => (n, 8 * Z.of_nat (length m))
  | None => (0, 0)
  end.

(** ** Addresses as byte slices *)
Definition To4 (ip : IP) : IP :=
  if (length ip =? 4)%nat then ip
  else if (length ip =? 16)%nat && bool_decide (take 12 ip = v4InV6Prefix) then drop 12 ip
  else [].

Definition land_bytes (a m : list Z) : list Z := zip_with Z.land a m.

Definition IP_Mask (ip : IP) (mask : IPMask) : IP :=
  let mask := if (length mask =? 16)%nat && (length ip =? 4)%nat && forallb (Z.eqb 255) (take 12 mask)
              then drop 12 mask else mask in
  let ip := if (length mask =? 4)%nat && (length ip =? 16)%nat && bool_decide (take 12 ip = v4InV6Prefix)
            then drop 12 ip else ip in
  if (length ip =? length mask)%nat then land_bytes ip mask else [].

(** [networkNumberAndMask]; [([], [])] stands for [nil, nil]. *)
Definition networkNumberAndMask (n : IPNet) : IP * IPMask :=
  let ip := match To4 (net_IP n) with [] => net_IP n | v4 => v4 end in
  let m := net_Mask n in
  if negb ((length ip =? 4)%nat || (length ip =? 16)%nat) then ([], [])
  else if (length m =? 4)%nat then
    if (length ip =? 4)%nat then (ip, m) else ([], [])
  else if (length m =? 16)%nat then
    (ip, if (length ip =? 4)%nat then drop 12 m else m)
  else ([], []).

Definition Contains (n : IPNet) (ip : IP) : bool :=
  let '(nn, m) := networkNumberAndMask n in
  let ip := match To4 ip with [] => ip | v4 => v4 end in
  (length ip =? length nn)%nat && bool_decide (land_bytes nn m = land_bytes ip m).

(** [net.ParseCIDR]. *)
Fixpoint cut_slash (s : string) : option (string * string) :=
  match s with
  | EmptyString => None
  | String c s' =>
      if bool_decide (c = "/"%char) then Some (EmptyString, s')
      else match cut_slash s' with
           | Some (a, m) => Some (String c a, m)
           | None => None
           end
  end.

Definition ParseCIDR (s : string) : outcome (IP * IPNet) :=
  match cut_slash s with
  | None => Err "invalid CIDR address"
  | Some (a, m) =>
      match ParseAddr a, dtoi m with
      | Some ad, Some (n, EmptyString) =>
          if BitLen ad <? n then Err "invalid CIDR address"
          else let mask := CIDRMask n (BitLen ad) in
               Ret (As16 ad, mkIPNet (IP_Mask (As16 ad) mask) mask)
      | _, _ => Err "invalid CIDR address"
      end
  end.

(** ** Printing *)
Definition hex_digit (z : Z) : ascii :=
  ascii_of_N (Z.to_N (if z <? 10 then 48 + z else 87 + z)).

Definition hex_byte (b : Z) : string :=
  String (hex_digit (b / 16)) (String (hex_digit (b mod 16)) EmptyString).

Definition hexString (b : list Z) : string := foldr (λ x s, hex_byte x +:+ s) EmptyString b.

Fixpoint join (sep : string) (l : list string) : string :=
  match l with
  | [] => EmptyString
  | [x] => x
  | x :: l' => x +:+ sep +:+ join sep l'
  end.

Definition string4 (b : list Z) : string := join "." (Itoa <$> b).

(** [appendHex]: lower case, no leading zeros. *)
Definition hex16 (v : Z) : string :=
  let d3 := v / 4096 in let d2 := (v / 256) mod 16 in
  let d1 := (v / 16) mod 16 in let d0 := v mod 16 in
  let s0 := String (hex_digit d0) EmptyString in
  if v <? 16 then s0 else
  let s1 := String (hex_digit d1) s0 in
  if v <? 256 then s1 else
  let s2 := String (hex_digit d2) s1 in
  if v <? 4096 then s2 else String (hex_digit d3) s2.

Fixpoint groups16 (b : list Z) : list Z :=
  match b with x :: y :: b' => (x * 256 + y) :: groups16 b' | _ => [] end.

Fixpoint zero_prefix (g : list Z) : nat :=
  match g with 0 :: g' => S (zero_prefix g') | _ => O end.

(** The first longest run of at least two zero groups: its start and length. *)
Fixpoint longest_zeros (i : nat) (g : list Z) (best : option (nat * nat)) : option (nat * nat) :=
  match g with
  | [] => best
  | _ :: g' =>
      let l := zero_prefix g in
      let best' := if (2 <=? l)%nat && (match best with Some (_, bl) => (bl <? l)%nat | None => true end)
                   then Some (i, l) else best in
      longest_zeros (S i) g' best'
  end.

Definition string6 (b : list Z) : string :=
  let g := groups16 b in
  match longest_zeros 0 g None with
  | None => join ":" (hex16 <$> g)
  | Some (i, l) => join ":" (hex16 <$> take i g) +:+ "::" +:+ join ":" (hex16 <$> drop (i + l) g)
  end.

Definition IP_String (ip : IP) : string :=
  if (length ip =? 0)%nat then "<nil>"
  else if negb ((length ip =? 4)%nat || (length ip =? 16)%nat) then "?" +:+ hexString ip
  else match To4 ip with [] => string6 ip | v4 => string4 v4 end.

Definition IPMask_String (m : IPMask) : string :=
  if (length m =? 0)%nat then "<nil>" else hexString m.

Definition IPNet_String (n : IPNet) : string :=
  let '(nn, m) := networkNumberAndMask n in
  if (length nn =? 0)%nat || (length m =? 0)%nat then "<nil>"
  else match simpleMaskLength m with
       | None => IP_String nn +:+ "/" +:+ IPMask_String m
       | Some l => IP_String nn +:+ "/" +:+ Itoa l
       end.

(** ** IPv4 addresses as 32-bit integers *)
Definition v4 (z : Z) : list Z :=
  [ z / 16777216 mod 256; z / 65536 mod 256; z / 256 mod 256; z mod 256 ].

Definition v4_val (b : list Z) : Z := foldl (λ acc x, acc * 256 + x) 0 b.

Definition is_v4 (z : Z) : Prop := 0 ≤ z < 4294967296.
Definition is_byte (z : Z) : Prop := 0 ≤ z < 256.

(** [blk z n] is the index of the [/n] block that holds [z]. *)
Definition blk (z n : Z) : Z := z / 2 ^ (32 - n).
Definition blk_base (z n : Z) : Z := blk z n * 2 ^ (32 - n).

Definition cidr4 (z n : Z) : string := string4 (v4 z) +:+ "/" +:+ Itoa n.
Definition block4 (z n : Z) : IPNet := mkIPNet (v4 (blk_base z n)) (mask_bytes 4 n).

Lemma forallb_seqZ (p : Z → bool) m n :
  forallb p (seqZ m n) = true → ∀ b, m ≤ b < m + n → p b = true.
Proof.
  intros Hp b Hb. rewrite forallb_forall in Hp.
  apply Hp, list_elem_of_In, elem_of_seqZ. lia.
Qed.

Lemma v4_bytes z : Forall is_byte (v4 z).
Proof. unfold v4, is_byte. repeat (apply Forall_cons; split; [dlia|]). apply Forall_nil_2. Qed.

Lemma v4_split z : is_v4 z →
  ∃ a b c d, is_byte a ∧ is_byte b ∧ is_byte c ∧ is_byte d ∧
    z = a * 16777216 + b * 65536 + c * 256 + d ∧ v4 z = [a; b; c; d].
Proof.
  intros Hz. exists (z / 16777216 mod 256), (z / 65536 mod 256), (z / 256 mod 256), (z mod 256).
  unfold is_v4, is_byte in *. repeat split; try dlia.
Qed.

Lemma v4_join a b c d : is_byte a → is_byte b → is_byte c → is_byte d →
  v4 (a * 16777216 + b * 65536 + c * 256 + d) = [a; b; c; d].
Proof. unfold is_byte, v4. intros. repeat f_equal; dlia. Qed.

Lemma v4_val_v4 z : is_v4 z → v4_val (v4 z) = z.
Proof. unfold is_v4, v4_val, v4. simpl. dlia. Qed.

Lemma v4_inj z w : is_v4 z → is_v4 w → v4 z = v4 w → z = w.
Proof. intros Hz Hw Heq. rewrite <-(v4_val_v4 z), <-(v4_val_v4 w) by done. by rewrite Heq. Qed.

(** *** Masks *)
Definition mask_bits (k : Z) : Prop := 0 ≤ k ≤ 32.

Lemma land_high x j : is_byte x → 0 ≤ j ≤ 8 → Z.land x (256 - 2 ^ j) = x / 2 ^ j * 2 ^ j.
Proof.
  intros Hx Hj. unfold is_byte in Hx.
  assert (Hp : forallb (λ x, forallb (λ j, Z.land x (256 - 2 ^ j) =? x / 2 ^ j * 2 ^ j)
            (seqZ 0 9)) (seqZ 0 256) = true) by (vm_compute; done).
  apply Z.eqb_eq.
  apply (forallb_seqZ (λ j, Z.land x (256 - 2 ^ j) =? x / 2 ^ j * 2 ^ j) 0 9); [|lia].
  apply (forallb_seqZ (λ x, forallb (λ j, Z.land x (256 - 2 ^ j) =? x / 2 ^ j * 2 ^ j) (seqZ 0 9)) 0 256); [done|lia].
Qed.

(** Every prefix length, one by one. *)
Ltac prefix_cases n :=
  let H := fresh in
  assert (H : n ∈ seqZ 0 33) by (apply elem_of_seqZ; unfold mask_bits in *; lia);
  cbv in H;
  repeat (apply elem_of_cons in H; destruct H as [->|H]);
  [..|by apply not_elem_of_nil in H].

(** Replace each [Z.land x m], [m] a mask byte, by a division. *)
Ltac land_div :=
  repeat match goal with
  | |- context [Z.land ?x ?m] =>
      let j := eval vm_compute in (Z.log2 (256 - m)) in
      let p := eval vm_compute in (2 ^ j) in
      replace (Z.land x m) with (x / p * p) by (symmetry; apply (land_high x j); [assumption|lia])
  end.

Ltac pow_const :=
  repeat match goal with
  | |- context [2 ^ ?e] => let p := eval vm_compute in (2 ^ e) in change (2 ^ e) with p
  end.

Lemma land_mask z n : is_v4 z → mask_bits n →
  land_bytes (v4 z) (mask_bytes 4 n) = v4 (blk_base z n).
Proof.
  intros Hz Hn. destruct (v4_split z Hz) as (a&b&c&d&Ha&Hb&Hc&Hd&->&->).
  unfold blk_base, blk.
  prefix_cases n.
  all: match goal with |- context [mask_bytes 4 ?n] =>
         let m := eval vm_compute in (mask_bytes 4 n) in change (mask_bytes 4 n) with m end.
  all: cbv [land_bytes zip_with]; land_div; pow_const; unfold v4, is_byte in *.
  all: repeat apply (f_equal2 cons); try reflexivity; dlia.
Qed.

Lemma v4_length z : length (v4 z) = 4%nat.
Proof. done. Qed.

Lemma mask4_length n : length (mask_bytes 4 n) = 4%nat.
Proof. simpl. by repeat case_match. Qed.

Lemma blk_base_v4 z n : is_v4 z → mask_bits n → is_v4 (blk_base z n).
Proof.
  unfold is_v4, mask_bits, blk_base, blk. intros Hz Hn.
  assert (0 < 2 ^ (32 - n)) by (apply Z.pow_pos_nonneg; lia).
  pose proof (Z.mul_div_le z (2 ^ (32 - n))). split; [|lia].
  pose proof (Z.div_pos z (2 ^ (32 - n))). nia.
Qed.

Lemma blk_blk_base z n : mask_bits n → blk (blk_base z n) n = blk z n.
Proof.
  unfold blk_base, blk, mask_bits. intros Hn. apply Z.div_mul, Z.pow_nonzero; lia.
Qed.

Lemma blk_base_idem z n : mask_bits n → blk_base (blk_base z n) n = blk_base z n.
Proof. intros Hn. unfold blk_base at 1. by rewrite blk_blk_base. Qed.

Lemma land_mask_eq z w n : is_v4 z → is_v4 w → mask_bits n →
  land_bytes (v4 z) (mask_bytes 4 n) = land_bytes (v4 w) (mask_bytes 4 n) ↔ blk z n = blk w n.
Proof.
  intros Hz Hw Hn. rewrite !land_mask by done. split.
  - intros Heq%v4_inj; [|by apply blk_base_v4..].
    by rewrite <-(blk_blk_base z n), <-(blk_blk_base w n), Heq.
  - intros Heq. unfold blk_base. by rewrite Heq.
Qed.

Lemma To4_v4 z : To4 (v4 z) = v4 z.
Proof. done. Qed.

Lemma To4_16 z : To4 (v4InV6Prefix ++ v4 z) = v4 z.
Proof. done. Qed.

Lemma networkNumberAndMask_v4 z n :
  networkNumberAndMask (mkIPNet (v4 z) (mask_bytes 4 n)) = (v4 z, mask_bytes 4 n).
Proof.
  unfold networkNumberAndMask. cbn [net_IP net_Mask]. rewrite To4_v4.
  cbv [v4]. rewrite mask4_length. done.
Qed.

(** Containment in a block is equality of block indices. *)
Lemma Contains_v4 z w n : is_v4 z → is_v4 w → mask_bits n →
  Contains (mkIPNet (v4 z) (mask_bytes 4 n)) (v4 w) = bool_decide (blk z n = blk w n).
Proof.
  intros Hz Hw Hn. unfold Contains. rewrite networkNumberAndMask_v4, To4_v4.
  change (match v4 w with [] => v4 w | _ :: _ => v4 w end) with (v4 w).
  rewrite !v4_length. cbn [Nat.eqb andb].
  apply bool_decide_ext. by apply land_mask_eq.
Qed.

Lemma IP_Mask_v4 z n : is_v4 z → mask_bits n →
  IP_Mask (v4InV6Prefix ++ v4 z) (mask_bytes 4 n) = v4 (blk_base z n).
Proof.
  intros Hz Hn. rewrite <-land_mask by done. pose proof (mask4_length n) as Hl.
  destruct (mask_bytes 4 n) as [|m0 [|m1 [|m2 [|m3 [|]]]]]; try discriminate Hl. done.
Qed.

(** *** Printing and parsing *)
Lemma string_app_assoc (a b c : string) : a +:+ (b +:+ c) = (a +:+ b) +:+ c.
Proof. induction a as [|x a IH]; [done|]. by apply (f_equal (String x)). Qed.


Lemma has_char_app c a b : has_char c (a +:+ b) = has_char c a || has_char c b.
Proof. induction a as [|x a IH]; [done|]. rewrite string_app_cons. cbn. by rewrite IH, orb_assoc. Qed.

Lemma cut_slash_app a m : has_char "/" a = false → cut_slash (a +:+ "/" +:+ m) = Some (a, m).
Proof.
  induction a as [|x a IH]; [done|]. rewrite string_app_cons. cbn [has_char cut_slash].
  intros [Hx Ha]%orb_false_elim. rewrite bool_decide_eq_false in Hx.
  rewrite bool_decide_false by congruence. by rewrite IH.
Qed.

Definition byte_text_ok (b : Z) : bool :=
  negb (has_char "/" (Itoa b)) && negb (has_char "%" (Itoa b)) &&
  negb (has_char ":" (Itoa b)) && negb (has_char "." (Itoa b)).

Lemma byte_text b c : is_byte b → c ∈ ["/"; "%"; ":"; "."]%char → has_char c (Itoa b) = false.
Proof.
  intros Hb Hc.
  assert (Hall : forallb byte_text_ok (seqZ 0 256) = true) by (vm_compute; done).
  pose proof (forallb_seqZ _ _ _ Hall b Hb) as Hok. unfold byte_text_ok in Hok.
  rewrite !andb_true_iff, !negb_true_iff in Hok. set_solver.
Qed.

Lemma string4_char z c : c ∈ ["/"; "%"; ":"]%char → has_char c (string4 (v4 z)) = false.
Proof.
  intros Hc. pose proof (v4_bytes z) as Hb. unfold string4, v4 in *. cbn [fmap list_fmap join].
  rewrite !Forall_cons in Hb. destruct Hb as (?&?&?&?&_).
  rewrite !has_char_app, !byte_text by (done || set_solver).
  repeat (apply elem_of_cons in Hc; destruct Hc as [->|Hc]); try done.
  by apply not_elem_of_nil in Hc.
Qed.

(** Reading one octet. *)
Lemma parse_octet b fields pd s : is_byte b →
  parseIPv4_go fields 0 0 pd (Itoa b +:+ s) = parseIPv4_go fields b (String.length (Itoa b)) false s.
Proof.
  intros Hb.
  assert (Hall : Forall (λ b, ∀ s, parseIPv4_go fields 0 0 pd (Itoa b +:+ s)
                                = parseIPv4_go fields b (String.length (Itoa b)) false s) (seqZ 0 256)).
  { cbv [seqZ Z.to_nat Pos.to_nat Pos.iter_op Init.Nat.add seq fmap list_fmap Z.add Z.of_nat].
    repeat constructor. }
  rewrite Forall_forall in Hall. apply Hall, elem_of_seqZ. unfold is_byte in Hb. lia.
Qed.

Lemma parse_dot fields v l s : (length fields < 3)%nat → s ≠ EmptyString →
  parseIPv4_go fields v l false ("." +:+ s) = parseIPv4_go (fields ++ [v]) 0 0 true s.
Proof.
  intros Hf Hs. change ("." +:+ s) with (String "." s). cbn [parseIPv4_go].
  change (is_digit ".") with false. cbn [andb orb].
  rewrite (bool_decide_true (_ = _)) by done. rewrite bool_decide_false by done.
  destruct (Nat.eqb_spec (length fields) 3); [lia|done].
Qed.

Lemma Itoa_app_nonempty b s : is_byte b → Itoa b +:+ s ≠ EmptyString.
Proof.
  intros Hb.
  assert (Hall : forallb (λ b, negb (bool_decide (Itoa b = EmptyString))) (seqZ 0 256) = true)
    by (vm_compute; done).
  pose proof (forallb_seqZ _ _ _ Hall b Hb) as Hok. cbv beta in Hok.
  rewrite negb_true_iff, bool_decide_eq_false in Hok. by destruct (Itoa b).
Qed.

Lemma Itoa_nonempty b : is_byte b → Itoa b ≠ EmptyString.
Proof. intros Hb Heq. apply (Itoa_app_nonempty b EmptyString); [done|]. by rewrite Heq. Qed.

Lemma string_app_empty (a : string) : a +:+ EmptyString = a.
Proof. induction a as [|x a IH]; [done|]. by apply (f_equal (String x)). Qed.

Lemma parseIPv4_string4 z : parseIPv4 (string4 (v4 z)) = Some (v4 z).
Proof.
  pose proof (v4_bytes z) as Hb. unfold string4. unfold v4 in *. cbn [fmap list_fmap join].
  rewrite !Forall_cons in Hb. destruct Hb as (Ha&Hb&Hc&Hd&_). unfold parseIPv4.
  rewrite parse_octet by done.
  rewrite parse_dot; [|simpl; lia|by apply Itoa_app_nonempty]. rewrite parse_octet by done.
  rewrite parse_dot; [|simpl; lia|by apply Itoa_app_nonempty]. rewrite parse_octet by done.
  rewrite parse_dot; [|simpl; lia|by apply Itoa_nonempty].
  rewrite <-(string_app_empty (Itoa (z `mod` 256))). rewrite parse_octet by done. done.
Qed.

Lemma first_sep_app a s : has_char "." a = false → has_char ":" a = false →
  has_char "%" a = false → first_sep (a +:+ "." +:+ s) = Some "."%char.
Proof.
  induction a as [|x a IH]; [done|]. rewrite string_app_cons. cbn [has_char first_sep].
  intros [H1 ?]%orb_false_elim [H2 ?]%orb_false_elim [H3 ?]%orb_false_elim.
  rewrite bool_decide_eq_false in H1, H2, H3.
  rewrite !bool_decide_false by congruence. by apply IH.
Qed.

Lemma ParseAddr_string4 z : ParseAddr (string4 (v4 z)) = Some (Addr4 (v4 z)).
Proof.
  unfold ParseAddr. rewrite string4_char by set_solver.
  assert (first_sep (string4 (v4 z)) = Some "."%char) as ->.
  { pose proof (v4_bytes z) as Hb. unfold string4, v4 in *. cbn [fmap list_fmap join].
    rewrite Forall_cons in Hb. destruct Hb as [Ha _].
    apply first_sep_app; apply byte_text; done || set_solver. }
  by rewrite parseIPv4_string4.
Qed.

Lemma dtoi_Itoa n : is_byte n → dtoi (Itoa n) = Some (n, EmptyString).
Proof.
  intros Hn.
  assert (Hall : forallb (λ n, bool_decide (dtoi (Itoa n) = Some (n, EmptyString))) (seqZ 0 256) = true)
    by (vm_compute; done).
  pose proof (forallb_seqZ _ _ _ Hall n Hn) as Hok. by apply bool_decide_eq_true in Hok.
Qed.

(** Parsing the printed form of a block gives the block. *)
Lemma ParseCIDR_cidr4 z n : is_v4 z → mask_bits n →
  ParseCIDR (cidr4 z n) = Ret (v4InV6Prefix ++ v4 z, block4 z n).
Proof.
  intros Hz Hn. unfold ParseCIDR, cidr4.
  rewrite cut_slash_app by (apply string4_char; set_solver).
  rewrite ParseAddr_string4, dtoi_Itoa by (unfold mask_bits, is_byte in *; lia).
  cbn [BitLen]. destruct (Z.ltb_spec 32 n) as [Hlt|_]; [unfold mask_bits in Hn; lia|].
  assert (CIDRMask n 32 = mask_bytes 4 n) as ->.
  { unfold CIDRMask, mask_bits in *. cbn.
    destruct (Z.ltb_spec n 0); [lia|]. destruct (Z.ltb_spec 32 n); [lia|]. done. }
  cbn [As16]. by rewrite IP_Mask_v4.
Qed.

Lemma simpleMaskLength_mask4 n : mask_bits n → simpleMaskLength (mask_bytes 4 n) = Some n.
Proof. intros Hn. prefix_cases n; vm_compute; done. Qed.

Lemma IP_String_v4 z : IP_String (v4 z) = string4 (v4 z).
Proof. done. Qed.

Lemma IPNet_String_v4 z n : mask_bits n →
  IPNet_String (mkIPNet (v4 z) (mask_bytes 4 n)) = cidr4 z n.
Proof.
  intros Hn. unfold IPNet_String. rewrite networkNumberAndMask_v4.
  rewrite mask4_length, simpleMaskLength_mask4 by done. done.
Qed.

(** Round trip: a block printed and parsed again is the same block. *)
Lemma block4_roundtrip z n : is_v4 z → mask_bits n →
  ParseCIDR (IPNet_String (block4 z n)) = Ret (v4InV6Prefix ++ v4 (blk_base z n), block4 z n).
Proof.
  intros Hz Hn. unfold block4 at 1. rewrite IPNet_String_v4 by done.
  rewrite ParseCIDR_cidr4 by (done || by apply blk_base_v4).
  unfold block4. by rewrite blk_base_idem.
Qed.

(** ** Strings that denote an IPv4 network *)

(** The network a CIDR string denotes, when it is written in IPv4: base
    address and prefix length. *)
Definition net4 (s : string) : option (Z * Z) :=
  match ParseCIDR s with
  | Ret (_, n) =>
      if (length (net_Mask n) =? 4)%nat
      then Some (v4_val (net_IP n), fst (Mask_Size (net_Mask n))) else None
  | _ => None
  end.

(** Address [a] lies in the network [s] denotes. *)
Definition addr_in (s : string) (a : Z) : Prop :=
  match net4 s with Some (z, n) => blk a n = blk z n | None => False end.

Lemma is_digit_val c : is_digit c = true → 0 ≤ digit_val c ≤ 9.
Proof. unfold is_digit, digit_val. rewrite andb_true_iff, !Z.leb_le. lia. Qed.

Lemma parseIPv4_go_bytes s fields val dl pd out :
  parseIPv4_go fields val dl pd s = Some out →
  Forall is_byte fields → is_byte val → Forall is_byte out ∧ length out = 4%nat.
Proof.
  revert fields val dl pd. induction s as [|c s IH]; intros fields val dl pd; cbn [parseIPv4_go].
  - destruct (Nat.eqb_spec (length fields) 3) as [Hl|]; [|done].
    intros [= <-] Hf Hv. rewrite Forall_app, Forall_singleton, length_app, Hl. done.
  - destruct (is_digit c) eqn:Hd.
    + repeat (case_match; [done|]). intros Hs Hf Hv. eapply IH; [exact Hs|done|].
      apply is_digit_val in Hd. rewrite Z.ltb_ge in *. unfold is_byte in *. lia.
    + repeat (case_match; try done). intros Hs Hf Hv. eapply IH; [exact Hs| |unfold is_byte; lia].
      by rewrite Forall_app, Forall_singleton.
Qed.

Lemma v4_of_bytes b : Forall is_byte b → length b = 4%nat → ∃ z, is_v4 z ∧ b = v4 z.
Proof.
  intros Hb Hl. destruct b as [|b0 [|b1 [|b2 [|b3 [|]]]]]; try discriminate Hl.
  rewrite !Forall_cons in Hb. destruct Hb as (?&?&?&?&_).
  exists (b0 * 16777216 + b1 * 65536 + b2 * 256 + b3). rewrite v4_join by done.
  split; [|done]. unfold is_v4, is_byte in *. lia.
Qed.

Lemma dtoi_go_nonneg s n : 0 ≤ n → ∀ m r, dtoi_go n s = Some (m, r) → 0 ≤ m.
Proof.
  revert n. induction s as [|c s IH]; intros n Hn m r; cbn [dtoi_go]; [intros [= <- <-]; done|].
  destruct (is_digit c) eqn:Hd; [|intros [= <- <-]; done].
  case_match; [done|]. apply IH. apply is_digit_val in Hd. lia.
Qed.

(** A string with an IPv4 network parses to exactly that block. *)
Lemma net4_parse s z n : net4 s = Some (z, n) →
  is_v4 z ∧ mask_bits n ∧ z = blk_base z n ∧ ∃ ip, ParseCIDR s = Ret (ip, block4 z n) ∧
    ∃ w, is_v4 w ∧ ip = v4InV6Prefix ++ v4 w ∧ blk w n = blk z n.
Proof.
  unfold net4, ParseCIDR. destruct (cut_slash s) as [[a m]|]; [|done].
  destruct (ParseAddr a) as [ad|] eqn:Ha; [|done].
  destruct (dtoi m) as [[k [|]]|] eqn:Hm; try done.
  assert (0 ≤ k).
  { unfold dtoi in Hm. destruct m as [|c m]; [done|]. destruct (is_digit c); [|done].
    eapply dtoi_go_nonneg; [|exact Hm]. lia. }
  destruct (Z.ltb_spec (BitLen ad) k) as [|Hk]; [done|]. cbn [net_Mask net_IP].
  destruct ad as [b|b]; cbn [BitLen As16] in *.
  - assert (mask_bits k) by (unfold mask_bits; lia).
    assert (CIDRMask k 32 = mask_bytes 4 k) as ->.
    { unfold CIDRMask. cbn. destruct (Z.ltb_spec k 0); [lia|]. destruct (Z.ltb_spec 32 k); [lia|]. done. }
    assert (∃ w, is_v4 w ∧ b = v4 w) as (w & Hw & ->).
    { unfold ParseAddr in Ha. repeat case_match; try done;
        apply fmap_Some in Ha as (b'&Hb&[= <-]); eapply parseIPv4_go_bytes in Hb as [??];
        [by apply v4_of_bytes|constructor|unfold is_byte; lia]. }
    rewrite mask4_length, IP_Mask_v4 by done. cbn [Nat.eqb].
    rewrite v4_val_v4 by by apply blk_base_v4.
    unfold Mask_Size. rewrite simpleMaskLength_mask4 by done. cbn [fst]. intros [= <- <-].
    split; [by apply blk_base_v4|]. split; [done|]. split; [by rewrite blk_base_idem|].
    exists (v4InV6Prefix ++ v4 w). unfold block4. rewrite blk_base_idem by done.
    split; [done|]. exists w. by rewrite blk_blk_base.
  - assert (CIDRMask k 128 = mask_bytes 16 k) as ->.
    { unfold CIDRMask. cbn. destruct (Z.ltb_spec k 0); [lia|]. destruct (Z.ltb_spec 128 k); [lia|]. done. }
    assert (∀ l k, length (mask_bytes l k) = l) as ->; [|done].
    intros l. induction l as [|l IH]; intros k'; [done|]. cbn. case_match; cbn; by rewrite IH.
Qed.

Lemma net4_cidr4 z n : is_v4 z → mask_bits n → net4 (cidr4 z n) = Some (blk_base z n, n).
Proof.
  intros Hz Hn. unfold net4. rewrite ParseCIDR_cidr4 by done. cbn [block4 net_Mask net_IP].
  rewrite mask4_length. cbn [Nat.eqb]. rewrite v4_val_v4 by by apply blk_base_v4.
  unfold Mask_Size. by rewrite simpleMaskLength_mask4.
Qed.

(** A coarser block index is determined by a finer one. *)
Lemma blk_coarse a n m : 0 ≤ n ≤ m → m ≤ 32 → blk a n = blk a m / 2 ^ (m - n).
Proof.
  intros Hn Hm. unfold blk. rewrite Z.div_div by (try apply Z.pow_nonzero; try apply Z.pow_pos_nonneg; lia).
  rewrite <-Z.pow_add_r by lia. do 2 f_equal. lia.
Qed.

Lemma blk_coarse_eq a b n m : 0 ≤ n ≤ m → m ≤ 32 → blk a m = blk b m → blk a n = blk b n.
Proof. intros Hn Hm Heq. by rewrite (blk_coarse a n m), (blk_coarse b n m), Heq by lia. Qed.

Lemma blk_base_coarse a n m : 0 ≤ n ≤ m → m ≤ 32 → blk (blk_base a m) n = blk a n.
Proof. intros Hn Hm. apply (blk_coarse_eq _ _ n m); [done..|]. apply blk_blk_base. unfold mask_bits. lia. Qed.

(** Two blocks share an address exactly when they agree at the coarser of the
    two prefix lengths. *)
Definition overlap4 (z n w m : Z) : bool :=
  bool_decide (blk z (Z.min n m) = blk w (Z.min n m)).

Lemma overlap4_spec z n w m : is_v4 z → is_v4 w → mask_bits n → mask_bits m →
  overlap4 z n w m = true ↔ ∃ a, is_v4 a ∧ blk a n = blk z n ∧ blk a m = blk w m.
Proof.
  unfold overlap4, mask_bits. rewrite bool_decide_eq_true. intros Hz Hw Hn Hm. split.
  - destruct (Z.le_gt_cases n m).
    + rewrite Z.min_l by lia. intros Heq. by exists w.
    + rewrite Z.min_r by lia. intros Heq. by exists z.
  - intros (a & Ha & Han & Ham). transitivity (blk a (Z.min n m)).
    + symmetry. apply (blk_coarse_eq _ _ _ n); [lia..|done].
    + apply (blk_coarse_eq _ _ _ m); [lia..|done].
Qed.

Lemma Contains_overlap z n w m : is_v4 z → is_v4 w → mask_bits n → mask_bits m →
  Contains (block4 z n) (net_IP (block4 w m)) || Contains (block4 w m) (net_IP (block4 z n))
  = overlap4 z n w m.
Proof.
  intros Hz Hw Hn Hm. unfold block4 at 1 3. cbn [block4 net_IP].
  rewrite !Contains_v4 by (done || by apply blk_base_v4). rewrite !blk_blk_base by done.
  unfold overlap4, mask_bits in *. apply eq_bool_prop_intro.
  rewrite orb_True, !bool_decide_spec.
  destruct (Z.le_gt_cases n m).
  - rewrite Z.min_l, blk_base_coarse by lia. split; [|by left]. intros [?|Heq]; [done|].
    rewrite <-(blk_base_coarse z n n), <-(blk_coarse_eq w (blk_base z n) n m) by done || lia. done.
  - rewrite Z.min_r, (blk_base_coarse z m n) by lia. split; [|by right]. intros [Heq|?]; [|done].
    rewrite <-(blk_base_coarse w m m), <-(blk_coarse_eq z (blk_base w m) m n) by done || lia. done.
Qed.
