(* ===== verification/NetUtil.v ===== *)
(** * Address allocation ([utils/netutil.go])

    The CIDR arithmetic that hands out the tunnel, cluster and node networks:
    [GetIndexIPFromCIDR], the division table, [findAvailableCIDR] and its two
    entry points.  Addresses and CIDR strings are those of [NetAddr]; a nil
    network dereferenced by the code is [Panic]. *)
From Stdlib Require Import Ascii.
From stdpp Require Import prelude gmap strings list pretty.
From S2P Require Import Prelude NetAddr.
Open Scope Z_scope.

(** ** Machine integers *)
(** [x << s] on [int]: a negative count panics, the result wraps. *)
Definition shl_int (x s : Z) : outcome Z :=
  if s <? 0 then Panic else Ret (wrap64 (Z.shiftl x s)).

(** ** [GetIndexIPFromCIDR] *)

(** [inc] adds one to a big-endian byte slice in place: the last byte is
    incremented, and a byte that wraps to zero carries into the one before. *)
Fixpoint inc_rev (r : list Z) : list Z :=
  match r with
  | [] => []
  | b :: r' => let b' := (b + 1) mod 256 in
               if 0 <? b' then b' :: r' else b' :: inc_rev r'
  end.

Definition inc (ipA : IP) : IP := reverse (inc_rev (reverse ipA)).

(** The loop [for start < index && ipnet.Contains(ipA)]; [todo] is
    [index - start]. *)
Fixpoint index_loop (todo : nat) (ipnet : IPNet) (start : Z) (ipA : IP) : Z * IP :=
  match todo with
  | O => (start, ipA)
  | S todo' =>
      if Contains ipnet ipA then index_loop todo' ipnet (start + 1) (inc ipA)
      else (start, ipA)
  end.

Definition GetIndexIPFromCIDR (cidr : string) (index : Z) : outcome string :=
  '(ip, ipnet) ← ParseCIDR cidr;
  let ipA := IP_Mask ip (net_Mask ipnet) in
  let '(start, ipA') := index_loop (Z.to_nat index) ipnet 0 ipA in
  if negb (start =? index) then Err "your index is out of the cidr"
  else Ret (IP_String ipA').

(** ** The division table *)
Definition divideTunnelNetwork (networkCIDR : string) : outcome Z :=
  '(_, network) ← ParseCIDR networkCIDR;
  let networkBits := fst (Mask_Size (net_Mask network)) in
  if (13 <=? networkBits) && (networkBits <=? 16) then Ret (networkBits + 2)
  else if (9 <=? networkBits) && (networkBits <=? 12) then Ret (networkBits + 4)
  else if networkBits <=? 8 then Ret (networkBits + 4)
  else Err "network cidr is too small".

Definition divideClusterNetwork (networkCIDR : string) : outcome Z :=
  '(_, network) ← ParseCIDR networkCIDR;
  let networkBits := fst (Mask_Size (net_Mask network)) in
  if (13 <? networkBits) && (networkBits <=? 18) then Ret 24
  else if networkBits <=? 12 then Ret 22
  else Err "network cidr is too small".

(** ** [isOverlappingCIDR]: a CIDR that does not parse is a nil network. *)
Definition isOverlappingCIDR (cidr1 cidr2 : string) : outcome bool :=
  match ParseCIDR cidr1, ParseCIDR cidr2 with
  | Ret (_, ipNet1), Ret (_, ipNet2) =>
      Ret (Contains ipNet1 (net_IP ipNet2) || Contains ipNet2 (net_IP ipNet1))
  | _, _ => Panic
  end.

(** ** [findAvailableCIDR] *)

(** [big.Int]: [SetBytes] reads a big-endian slice, [Bytes] writes the
    absolute value without leading zeros. *)
Definition SetBytes (b : list Z) : Z := foldl (λ acc x, acc * 256 + x) 0 b.

Fixpoint bytes_go (fuel : nat) (n : Z) (acc : list Z) : list Z :=
  match fuel with
  | O => acc
  | S f => if n =? 0 then acc else bytes_go f (n / 256) (n mod 256 :: acc)
  end.

(** A number has at most as many bytes as bits. *)
Definition Bytes (n : Z) : list Z :=
  bytes_go (S (Z.to_nat (Z.log2 (Z.abs n)))) (Z.abs n) [].

(** The existing CIDRs, each with its address masked to [networkBits] and its
    own mask kept, as the keys of a set. *)
Fixpoint existingCIDRSet (networkBits : Z) (existingCIDRs : list string)
    (set : gmap string bool) : outcome (gmap string bool) :=
  match existingCIDRs with
  | [] => Ret set
  | cidr :: rest =>
      if (String.length cidr =? 0)%nat then existingCIDRSet networkBits rest set
      else match ParseCIDR cidr with
           | Ret (_, ipNet) =>
               let ipNet' := mkIPNet (IP_Mask (net_IP ipNet) (CIDRMask networkBits 32)) (net_Mask ipNet) in
               existingCIDRSet networkBits rest (<[IPNet_String ipNet' := true]> set)
           | _ => Panic
           end
  end.

(** The inner loop: whether a key of the set overlaps [newCIDR]. *)
Fixpoint overlapsAny (cidrs : list string) (newCIDR : string) : outcome bool :=
  match cidrs with
  | [] => Ret false
  | cidr :: rest =>
      b ← isOverlappingCIDR cidr newCIDR;
      if (b : bool) then Ret true else overlapsAny rest newCIDR
  end.

Section find.
Context `{GoRuntime}.

(** The candidate of round [i]. *)
Definition candidateCIDR (network : IPNet) (networkBits hostBits i : Z) : string :=
  let nextIP := SetBytes (net_IP network) + wrap64 (Z.shiftl i hostBits) in
  IP_String (Bytes nextIP) +:+ "/" +:+ Itoa networkBits.

Fixpoint block_loop (rounds : nat) (i : Z) (network : IPNet) (networkBits hostBits : Z)
    (set : gmap string bool) : outcome string :=
  match rounds with
  | O => Err "no available CIDR found"
  | S rounds' =>
      let newCIDR := candidateCIDR network networkBits hostBits i in
      overlapping ← overlapsAny (go_range set).*1 newCIDR;
      if (overlapping : bool) then block_loop rounds' (i + 1) network networkBits hostBits set
      else Ret newCIDR
  end.

Definition findAvailableCIDR (networkCIDR : string) (existingCIDRs : list string)
    (networkBits : Z) : outcome string :=
  let hostBits := 32 - networkBits in
  '(_, network) ← ParseCIDR networkCIDR;
  set ← existingCIDRSet networkBits existingCIDRs ∅;
  size ← shl_int 1 hostBits;
  block_loop (Z.to_nat (wrap64 (size - 1) + 1)) 0 network networkBits hostBits set.

Definition FindTunnelAvailableCIDR (tunnelCIDR : string) (existingCIDRs : list string) : outcome string :=
  networkBits ← divideTunnelNetwork tunnelCIDR;
  findAvailableCIDR tunnelCIDR existingCIDRs networkBits.

Definition FindClusterAvailableCIDR (clusterCIDR : string) (existingCIDRs : list string) : outcome string :=
  networkBits ← divideClusterNetwork clusterCIDR;
  findAvailableCIDR clusterCIDR existingCIDRs networkBits.

End find.

(** ** The repository's own test tables, evaluated *)
Example test_hosts :
  GetIndexIPFromCIDR "10.16.0.0/16" 2 = Ret "10.16.0.2" ∧
  GetIndexIPFromCIDR "10.16.3.0/22" 2 = Ret "10.16.0.2" ∧
  GetIndexIPFromCIDR "10.16.8.0/24" 10 = Ret "10.16.8.10" ∧
  GetIndexIPFromCIDR "10.16.8.0/30" 2 = Ret "10.16.8.2" ∧
  GetIndexIPFromCIDR "10.16.8.0/30" 8 = Err "your index is out of the cidr".
Proof. vm_compute. done. Qed.

Example test_find_tunnel :
  let find := @FindTunnelAvailableCIDR list_runtime in
  find "10.0.0.0/16" [] = Ret "10.0.0.0/18" ∧
  find "10.0.0.0/12" [] = Ret "10.0.0.0/16" ∧
  find "10.0.0.0/24" [] = Err "network cidr is too small" ∧
  find "10.0.0.0/16" ["10.0.0.0/18"] = Ret "10.0.64.0/18".
Proof. vm_compute. done. Qed.

Example test_find_available :
  let find := @findAvailableCIDR list_runtime in
  find "20.112.0.0/12" ["20.112.0.0/16"; "20.112.16.0/16"; "20.112.32.0/16"] 16 = Ret "20.113.0.0/16" ∧
  find "20.112.0.0/12" ["20.113.0.0/16"; "20.112.16.0/16"; "20.115.32.0/16"] 16 = Ret "20.114.0.0/16" ∧
  find "20.112.0.0/16" ["20.112.0.0/24"; "20.112.1.0/24"; "20.112.2.0/24"] 24 = Ret "20.112.3.0/24" ∧
  find "20.112.0.0/16" [""] 24 = Ret "20.112.0.0/24".
Proof. vm_compute. done. Qed.

(** ** Lemmas *)
Lemma inc_v4 z : is_v4 z → inc (v4 z) = v4 ((z + 1) mod 4294967296).
Proof.
  intros Hz. destruct (v4_split z Hz) as (a&b&c&d&Ha&Hb&Hc&Hd&->&->).
  unfold inc, v4. cbn [reverse rev_append inc_rev]. unfold is_byte in *.
  repeat case_match; rewrite ?Z.ltb_lt, ?Z.ltb_ge in *; cbn [reverse rev_append].
  all: repeat apply (f_equal2 cons); try reflexivity; dlia.
Qed.

Lemma isOverlappingCIDR_net4 s t z n w m :
  net4 s = Some (z, n) → net4 t = Some (w, m) →
  isOverlappingCIDR s t = Ret (overlap4 z n w m).
Proof.
  intros (Hz&Hn&_&ip&Hp&_)%net4_parse (Hw&Hm&_&ip'&Hp'&_)%net4_parse.
  unfold isOverlappingCIDR. rewrite Hp, Hp'. f_equal. by apply Contains_overlap.
Qed.

Lemma overlapsAny_existsb f l new :
  (∀ x, x ∈ l → isOverlappingCIDR x new = Ret (f x)) → overlapsAny l new = Ret (existsb f l).
Proof.
  induction l as [|x l IH]; intros Hf; [done|]. cbn [overlapsAny existsb].
  rewrite Hf by by left. cbn. destruct (f x); [done|]. apply IH. intros y Hy. apply Hf. by right.
Qed.

(** The mask of an existing network does not change which candidates it
    overlaps: its address is cut down to [nb] bits, its prefix is kept. *)
Lemma masked_overlap z n nb c : mask_bits n → mask_bits nb →
  overlap4 (blk_base z nb) n c nb = overlap4 z n c nb.
Proof.
  unfold overlap4, mask_bits. intros Hn Hb. apply bool_decide_ext.
  by rewrite blk_base_coarse by lia.
Qed.

Lemma IP_Mask_4 z n : is_v4 z → mask_bits n → IP_Mask (v4 z) (CIDRMask n 32) = v4 (blk_base z n).
Proof.
  intros Hz Hn.
  assert (CIDRMask n 32 = mask_bytes 4 n) as ->.
  { unfold CIDRMask, mask_bits in *. cbn. destruct (Z.ltb_spec n 0); [lia|]. destruct (Z.ltb_spec 32 n); [lia|]. done. }
  rewrite <-land_mask by done. pose proof (mask4_length n) as Hl.
  destruct (mask_bytes 4 n) as [|m0 [|m1 [|m2 [|m3 [|]]]]]; try discriminate Hl. done.
Qed.

(** The key the set holds for the existing network [e]. *)
Definition set_key (nb : Z) (e : string) : string :=
  match net4 e with Some (z, n) => cidr4 (blk_base z nb) n | None => EmptyString end.

Definition usable (e : string) : Prop := e = EmptyString ∨ is_Some (net4 e).
#[export] Instance usable_dec e : Decision (usable e).
Proof. unfold usable. apply _. Defined.

Lemma existingCIDRSet_keys nb ex set : mask_bits nb → Forall usable ex →
  ∃ set', existingCIDRSet nb ex set = Ret set' ∧
    ∀ k, is_Some (set' !! k) ↔ is_Some (set !! k) ∨ ∃ e, e ∈ ex ∧ e ≠ EmptyString ∧ k = set_key nb e.
Proof.
  intros Hb. revert set. induction ex as [|e ex IH]; intros set Hex.
  { exists set. split; [done|]. intros k. split; [by left|]. intros [?|(?&He&_)]; [done|].
    by apply not_elem_of_nil in He. }
  apply Forall_cons in Hex as [He Hex]. cbn [existingCIDRSet].
  destruct (Nat.eqb_spec (String.length e) 0) as [Hl|Hl].
  - assert (e = EmptyString) as -> by by destruct e.
    destruct (IH set Hex) as (set'&->&Hk). exists set'. split; [done|].
    intros k. rewrite Hk. set_solver.
  - destruct He as [->|[[z n] He]]; [done|].
    destruct (net4_parse _ _ _ He) as (Hz&Hn&Hbase&ip&->&_). cbn [block4 net_IP net_Mask].
    rewrite IP_Mask_4, IPNet_String_v4 by (done || by apply blk_base_v4).
    rewrite <-Hbase. destruct (IH (<[cidr4 (blk_base z nb) n := true]> set) Hex) as (set'&->&Hk).
    exists set'. split; [done|]. intros k. rewrite Hk, lookup_insert_is_Some'.
    assert (set_key nb e = cidr4 (blk_base z nb) n) as Hkey by (unfold set_key; by rewrite He).
    assert (e ≠ EmptyString) by (by intros ->). set_solver.
Qed.

(** Some existing network shares an address with the candidate [c]. *)
Definition busy (nb : Z) (ex : list string) (c : Z) : bool :=
  existsb (λ e, match net4 e with Some (z, n) => overlap4 z n c nb | None => false end) ex.

Lemma net4_empty : net4 EmptyString = None.
Proof. done. Qed.

Section alloc.
Context `{GoRuntime}.

Lemma go_range_keys {A} (m : gmap string A) k : k ∈ (go_range m).*1 ↔ is_Some (m !! k).
Proof.
  rewrite go_range_perm, list_elem_of_fmap. split.
  - intros ([k' x]&->&Hx%elem_of_map_to_list). eauto.
  - intros [x Hx]. exists (k, x). split; [done|]. by apply elem_of_map_to_list.
Qed.

Lemma overlapsAny_busy nb ex set c : mask_bits nb → Forall usable ex → is_v4 c →
  existingCIDRSet nb ex ∅ = Ret set →
  overlapsAny (go_range set).*1 (cidr4 c nb) = Ret (busy nb ex c).
Proof.
  intros Hb Hex Hc Hset. destruct (existingCIDRSet_keys nb ex ∅ Hb Hex) as (set'&Hset'&Hk).
  rewrite Hset in Hset'. injection Hset' as <-.
  pose (f k := match net4 k with Some (z, n) => overlap4 z n (blk_base c nb) nb | None => false end).
  assert (Hkey : ∀ e, e ∈ ex → e ≠ EmptyString → is_Some (net4 (set_key nb e)) ∧
            f (set_key nb e) = match net4 e with Some (z, n) => overlap4 z n c nb | None => false end).
  { intros e He Hne. rewrite Forall_forall in Hex. destruct (Hex e He) as [->|[[z n] Hen]]; [done|].
    pose proof (net4_parse _ _ _ Hen) as (Hz&Hn&_&_). unfold f, set_key. rewrite Hen.
    rewrite net4_cidr4 by (done || by apply blk_base_v4). split; [done|].
    unfold overlap4, mask_bits in *. apply bool_decide_ext.
    rewrite (blk_base_coarse _ _ n), (blk_base_coarse _ _ nb), (blk_base_coarse c) by lia. done. }
  rewrite (overlapsAny_existsb f).
  - f_equal. apply eq_bool_prop_intro. unfold busy. rewrite !existb_True, !Exists_exists. split.
    + intros (k&Hkin&Hf). rewrite go_range_keys, Hk, lookup_empty in Hkin.
      destruct Hkin as [[? ?]|(e&He&Hne&->)]; [done|]. exists e. destruct (Hkey e He Hne) as [_ <-]. done.
    + intros (e&He&Hf). assert (e ≠ EmptyString) as Hne by (intros ->; by rewrite net4_empty in Hf).
      exists (set_key nb e). destruct (Hkey e He Hne) as [_ ->]. split; [|done].
      rewrite go_range_keys, Hk. right. eauto.
  - intros k Hkin. rewrite go_range_keys, Hk, lookup_empty in Hkin.
    destruct Hkin as [[? ?]|(e&He&Hne&->)]; [done|]. destruct (Hkey e He Hne) as [[[z n] Hn] _].
    unfold f. rewrite Hn. apply isOverlappingCIDR_net4; [done|]. by apply net4_cidr4.
Qed.

Lemma wrap64_small z : -(2 ^ 63) ≤ z < 2 ^ 63 → wrap64 z = z.
Proof. unfold wrap64. intros Hz. rewrite Z.mod_small; lia. Qed.

Lemma Bytes_v4 z : 16777216 ≤ z < 4294967296 → Bytes z = v4 z.
Proof.
  intros Hz. unfold Bytes. rewrite Z.abs_eq by lia.
  assert (24 ≤ Z.log2 z) by (apply (Z.log2_le_mono (2 ^ 24)); lia).
  replace (Z.to_nat (Z.log2 z)) with (4 + Z.to_nat (Z.log2 z - 4))%nat by lia.
  cbn [Nat.add bytes_go].
  destruct (Z.eqb_spec z 0); [lia|].
  destruct (Z.eqb_spec (z / 256) 0); [dlia|].
  destruct (Z.eqb_spec (z / 256 / 256) 0); [dlia|].
  destruct (Z.eqb_spec (z / 256 / 256 / 256) 0); [dlia|].
  destruct (Z.eqb_spec (z / 256 / 256 / 256 / 256) 0); [|dlia].
  unfold v4. repeat apply (f_equal2 cons); try reflexivity; dlia.
Qed.

Lemma candidateCIDR_cidr4 N p nb i :
  N = blk_base N p → mask_bits nb → 0 ≤ i → 16777216 ≤ N → N + i * 2 ^ (32 - nb) < 4294967296 →
  candidateCIDR (block4 N p) nb (32 - nb) i = cidr4 (N + i * 2 ^ (32 - nb)) nb.
Proof.
  intros HN Hnb Hi HN0 Hc. unfold candidateCIDR. cbn [block4 net_IP]. rewrite <-HN.
  change (SetBytes (v4 N)) with (v4_val (v4 N)).
  assert (0 < 2 ^ (32 - nb)) by (apply Z.pow_pos_nonneg; unfold mask_bits in Hnb; lia).
  rewrite v4_val_v4, Z.shiftl_mul_pow2, wrap64_small by (unfold is_v4, mask_bits in *; nia).
  rewrite Bytes_v4 by nia. done.
Qed.

Section fit.
Context (net : string) (ex : list string) (N p nb : Z).
Context (Hnet : net4 net = Some (N, p)) (HN : 16777216 ≤ N).
Context (Hnb : mask_bits nb) (Hex : Forall usable ex).

(** The address of the candidate of round [i]. *)
Local Abbreviation cand i := (N + i * 2 ^ (32 - nb)).

Lemma host_pos : 0 < 2 ^ (32 - nb).
Proof. apply Z.pow_pos_nonneg; unfold mask_bits in Hnb; lia. Qed.

Lemma find_unfold : ∃ set, existingCIDRSet nb ex ∅ = Ret set ∧
  findAvailableCIDR net ex nb = block_loop (Z.to_nat (2 ^ (32 - nb))) 0 (block4 N p) nb (32 - nb) set.
Proof.
  destruct (net4_parse _ _ _ Hnet) as (_&_&_&ip&Hp&_).
  destruct (existingCIDRSet_keys nb ex ∅ Hnb Hex) as (set&Hset&_). exists set. split; [done|].
  unfold findAvailableCIDR. rewrite Hp. cbn. rewrite Hset. cbn.
  unfold shl_int, mask_bits in *. destruct (Z.ltb_spec (32 - nb) 0); [lia|].
  cbn. rewrite Z.shiftl_mul_pow2, Z.mul_1_l by lia.
  assert (2 ^ (32 - nb) ≤ 2 ^ 32) by (apply Z.pow_le_mono_r; lia). pose proof host_pos.
  rewrite !wrap64_small by (rewrite ?wrap64_small; lia). do 2 f_equal. lia.
Qed.

(** One round on a candidate that is an IPv4 address. *)
Lemma block_loop_step rounds i set :
  existingCIDRSet nb ex ∅ = Ret set → 0 ≤ i → cand i < 4294967296 →
  block_loop (S rounds) i (block4 N p) nb (32 - nb) set =
    if busy nb ex (cand i) then block_loop rounds (i + 1) (block4 N p) nb (32 - nb) set
    else Ret (cidr4 (cand i) nb).
Proof.
  intros Hset Hi Hc. destruct (net4_parse _ _ _ Hnet) as (Hz&_&Hbase&_).
  pose proof host_pos. cbn [block_loop]. rewrite candidateCIDR_cidr4 by done.
  rewrite (overlapsAny_busy nb ex) by (done || unfold is_v4; nia). done.
Qed.

(** Rounds over busy candidates only move the index. *)
Lemma block_loop_busy k : ∀ rounds i set,
  existingCIDRSet nb ex ∅ = Ret set → 0 ≤ i → cand (i + Z.of_nat k) ≤ 4294967296 →
  (∀ j, i ≤ j < i + Z.of_nat k → busy nb ex (cand j) = true) →
  block_loop (k + rounds) i (block4 N p) nb (32 - nb) set =
  block_loop rounds (i + Z.of_nat k) (block4 N p) nb (32 - nb) set.
Proof.
  pose proof host_pos as Hh. induction k as [|k IH]; intros rounds i set Hset Hi Hc Hbusy.
  { cbn. f_equal. lia. }
  cbn [Nat.add]. rewrite block_loop_step by (done || nia).
  rewrite Hbusy by lia. rewrite IH by (done || lia || (intros; apply Hbusy; lia) || nia).
  f_equal. lia.
Qed.

(** First fit: the least free candidate is returned. *)
Lemma find_first_free k :
  0 ≤ k < 2 ^ (32 - nb) → cand k < 4294967296 →
  (∀ j, 0 ≤ j < k → busy nb ex (cand j) = true) → busy nb ex (cand k) = false →
  findAvailableCIDR net ex nb = Ret (cidr4 (cand k) nb).
Proof.
  intros Hk Hc Hbusy Hfree. pose proof host_pos. destruct find_unfold as (set&Hset&->).
  replace (Z.to_nat (2 ^ (32 - nb))) with (Z.to_nat k + S (Z.to_nat (2 ^ (32 - nb) - k - 1)))%nat by lia.
  rewrite block_loop_busy by (done || lia || (intros; apply Hbusy; lia) || (rewrite Z2Nat.id; nia)).
  rewrite Z2Nat.id by lia. rewrite Z.add_0_l, block_loop_step by (done || lia). by rewrite Hfree.
Qed.

(** All candidates busy: the allocation fails. *)
Lemma find_exhausted :
  cand (2 ^ (32 - nb)) ≤ 4294967296 →
  (∀ j, 0 ≤ j < 2 ^ (32 - nb) → busy nb ex (cand j) = true) →
  findAvailableCIDR net ex nb = Err "no available CIDR found".
Proof.
  intros Hc Hbusy. pose proof host_pos. destruct find_unfold as (set&Hset&->).
  replace (Z.to_nat (2 ^ (32 - nb))) with (Z.to_nat (2 ^ (32 - nb)) + 0)%nat by lia.
  rewrite block_loop_busy; [done|done|lia| |].
  - rewrite Z2Nat.id by lia. lia.
  - intros j Hj. apply Hbusy. lia.
Qed.

End fit.

End alloc.

(** ** Soundness of the allocation *)

Lemma ParseAddr_question s : ParseAddr (String "?" s) = None.
Proof.
  unfold ParseAddr. case_match; [done|]. repeat (case_match; try done).
Qed.

Lemma ParseCIDR_question s : ∃ e, ParseCIDR (String "?" s) = Err e.
Proof.
  unfold ParseCIDR. cbn [cut_slash]. rewrite bool_decide_false by done.
  destruct (cut_slash s) as [[a m]|]; [|by eexists]. rewrite ParseAddr_question. by eexists.
Qed.

Lemma bytes_go_length k : ∀ fuel n acc, 256 ^ Z.of_nat k ≤ n < 256 ^ (Z.of_nat k + 1) →
  (k < fuel)%nat → length (bytes_go fuel n acc) = (length acc + S k)%nat.
Proof.
  induction k as [|k IH]; intros [|fuel] n acc Hn Hf; try lia; cbn [bytes_go].
  - destruct (Z.eqb_spec n 0); [lia|]. change (256 ^ (Z.of_nat 0 + 1)) with 256 in Hn.
    assert (n / 256 = 0) as -> by (apply Z.div_small; change (256 ^ Z.of_nat 0) with 1 in Hn; lia).
    destruct fuel; cbn; lia.
  - assert (0 < 256 ^ Z.of_nat (S k)) by (apply Z.pow_pos_nonneg; lia).
    destruct (Z.eqb_spec n 0); [lia|]. rewrite IH; [cbn; lia| |lia].
    rewrite Nat2Z.inj_succ, Z.pow_succ_r, Z.add_succ_l, Z.pow_succ_r in Hn by lia.
    split; [apply Z.div_le_lower_bound; lia|apply Z.div_lt_upper_bound; lia].
Qed.

(** Beyond the 32-bit range the candidate is printed as a hexadecimal dump,
    which is no CIDR. *)
Lemma IP_String_big z : 4294967296 ≤ z < 2 ^ 63 → ∃ s, IP_String (Bytes z) = String "?" s.
Proof.
  intros Hz.
  assert (∃ k, (4 ≤ k ≤ 7)%nat ∧ 256 ^ Z.of_nat k ≤ z < 256 ^ (Z.of_nat k + 1)) as (k&Hk&Hzk).
  { destruct (Z.lt_ge_cases z (256 ^ 5)); [exists 4%nat; lia|].
    destruct (Z.lt_ge_cases z (256 ^ 6)); [exists 5%nat; lia|].
    destruct (Z.lt_ge_cases z (256 ^ 7)); [exists 6%nat; lia|]. exists 7%nat; lia. }
  assert (length (Bytes z) = S k) as Hl.
  { unfold Bytes. rewrite Z.abs_eq by lia. rewrite (bytes_go_length k); [done|done|].
    assert (32 ≤ Z.log2 z) by (apply (Z.log2_le_mono (2 ^ 32)); lia). lia. }
  unfold IP_String. rewrite Hl. eexists.
  destruct (Nat.eqb_spec (S k) 0); [lia|]. destruct (Nat.eqb_spec (S k) 4); [lia|].
  destruct (Nat.eqb_spec (S k) 16); [lia|]. done.
Qed.

Section sound.
Context `{GoRuntime}.
Context (net : string) (ex : list string) (N p nb : Z).
Context (Hnet : net4 net = Some (N, p)) (HN : 16777216 ≤ N).
Context (Hnb : 1 ≤ nb ≤ 32) (Hex : Forall usable ex).
Local Abbreviation cand i := (N + i * 2 ^ (32 - nb)).

Lemma block_loop_sound rounds : ∀ i set c,
  existingCIDRSet nb ex ∅ = Ret set → 0 ≤ i → i + Z.of_nat rounds ≤ 2 ^ (32 - nb) →
  (i = 0 ∨ (go_range set).*1 ≠ []) →
  block_loop rounds i (block4 N p) nb (32 - nb) set = Ret c →
  ∃ k, i ≤ k < 2 ^ (32 - nb) ∧ cand k < 4294967296 ∧ busy nb ex (cand k) = false ∧ c = cidr4 (cand k) nb.
Proof.
  assert (mask_bits nb) as Hb by (unfold mask_bits; lia).
  pose proof (host_pos nb Hb) as Hh. destruct (net4_parse _ _ _ Hnet) as (Hz&_&Hbase&_).
  induction rounds as [|rounds IH]; intros i set c Hset Hi Hr Hne; [done|].
  destruct (Z.lt_ge_cases (cand i) 4294967296) as [Hc|Hc].
  - rewrite (block_loop_step net ex N p nb) by done.
    destruct (busy nb ex (cand i)) eqn:Hbusy.
    + intros (k&?&?&?&?)%IH; [by exists k; split_and!; try lia|done|lia|lia|].
      right. intros Hnil.
      pose proof (overlapsAny_busy nb ex set (cand i) Hb Hex ltac:(unfold is_v4; nia) Hset) as Ho.
      rewrite Hnil, Hbusy in Ho. done.
    + intros [= <-]. exists i. split_and!; done || lia.
  - destruct Hne as [->|Hne]; [unfold is_v4 in Hz; lia|]. cbn [block_loop].
    unfold candidateCIDR. cbn [block4 net_IP]. rewrite <-Hbase.
    change (SetBytes (v4 N)) with (v4_val (v4 N)). rewrite v4_val_v4 by done.
    assert (2 ^ (32 - nb) ≤ 2 ^ 31) by (apply Z.pow_le_mono_r; lia).
    rewrite Z.shiftl_mul_pow2, wrap64_small by (unfold is_v4 in *; nia).
    destruct (IP_String_big (cand i)) as [s ->]; [unfold is_v4 in *; nia|].
    destruct ((go_range set).*1) as [|x l]; [done|]. cbn [overlapsAny].
    unfold isOverlappingCIDR. rewrite string_app_cons.
    destruct (ParseCIDR_question (s +:+ "/" +:+ Itoa nb)) as [e ->]. by repeat case_match.
Qed.

Lemma find_sound c : findAvailableCIDR net ex nb = Ret c →
  ∃ k, 0 ≤ k < 2 ^ (32 - nb) ∧ cand k < 4294967296 ∧ busy nb ex (cand k) = false ∧ c = cidr4 (cand k) nb.
Proof.
  assert (mask_bits nb) as Hb by (unfold mask_bits; lia). pose proof (host_pos nb Hb).
  destruct (find_unfold net ex N p nb Hnet Hb Hex) as (set&Hset&->).
  intros (k&?)%block_loop_sound; [by exists k|done|lia|lia|by left].
Qed.

End sound.

(** A free candidate shares no address with an existing network. *)
Lemma busy_false_disjoint nb ex c e a : mask_bits nb → is_v4 c → is_v4 a →
  busy nb ex c = false → e ∈ ex → addr_in e a → addr_in (cidr4 c nb) a → False.
Proof.
  intros Hb Hc Ha Hbusy He Hea Hca. unfold addr_in in *. rewrite net4_cidr4 in Hca by done.
  rewrite blk_blk_base in Hca by done. destruct (net4 e) as [[z n]|] eqn:Hen; [|done].
  destruct (net4_parse _ _ _ Hen) as (Hz&Hn&_).
  assert (busy nb ex c = true); [|congruence].
  unfold busy. apply existsb_exists. exists e. rewrite Hen, <-list_elem_of_In. split; [done|].
  apply overlap4_spec; [done..|]. by exists a.
Qed.

(** ** Counting: a free block exists while fewer networks are in use *)
Lemma least_free (f : Z → bool) (M : nat) :
  (∀ j, 0 ≤ j < Z.of_nat M → f j = true) ∨
  ∃ k, 0 ≤ k < Z.of_nat M ∧ f k = false ∧ ∀ j, 0 ≤ j < k → f j = true.
Proof.
  induction M as [|M IH]; [left; lia|].
  destruct IH as [Hall|(k&?&?&?)]; [|right; exists k; split_and!; done || lia].
  destruct (f (Z.of_nat M)) eqn:HM.
  - left. intros j Hj. destruct (decide (j = Z.of_nat M)) as [->|]; [done|]. apply Hall. lia.
  - right. exists (Z.of_nat M). split_and!; done || lia.
Qed.

(** The [/nb] block of an existing network. *)
Definition block_of (nb : Z) (e : string) : Z :=
  match net4 e with Some (z, _) => blk z nb | None => -1 end.

Definition fine (nb : Z) (e : string) : Prop :=
  match net4 e with Some (_, n) => nb ≤ n | None => True end.

Lemma busy_block nb ex c : mask_bits nb → Forall (fine nb) ex →
  busy nb ex c = true → blk c nb ∈ block_of nb <$> ex.
Proof.
  intros Hb Hfine Hbusy. unfold busy in Hbusy. apply existsb_exists in Hbusy as (e&He&Ho).
  rewrite <-list_elem_of_In in He. rewrite Forall_forall in Hfine. specialize (Hfine e He).
  apply list_elem_of_fmap. exists e. split; [|done]. unfold block_of, fine in *.
  destruct (net4 e) as [[z n]|]; [|done]. unfold overlap4 in Ho.
  apply bool_decide_eq_true in Ho. rewrite Z.min_r in Ho by lia. done.
Qed.

Lemma blk_cand N p nb i : N = blk_base N p → 0 ≤ p ≤ nb → nb ≤ 32 → 
  blk (N + i * 2 ^ (32 - nb)) nb = blk N nb + i.
Proof.
  intros HN Hp Hnb. unfold blk. apply Z.div_add, Z.pow_nonzero; lia.
Qed.

Lemma pigeon N p nb ex (M : nat) : N = blk_base N p → 0 ≤ p ≤ nb → nb ≤ 32 → Forall (fine nb) ex →
  (∀ j, 0 ≤ j < Z.of_nat M → busy nb ex (N + j * 2 ^ (32 - nb)) = true) → (M ≤ length ex)%nat.
Proof.
  intros HN Hp Hnb Hfine Hall.
  assert (length ((λ j : Z, (blk N nb + j)%Z) <$> seqZ 0 (Z.of_nat M)) ≤ length (block_of nb <$> ex))%nat as Hlen.
  { apply submseteq_length, NoDup_submseteq.
    - apply NoDup_fmap_2; [intros ?? ?; lia|apply NoDup_seqZ].
    - intros x (j&->&Hj%elem_of_seqZ)%list_elem_of_fmap. rewrite <-(blk_cand N p) by done.
      apply busy_block; [unfold mask_bits; lia|done|]. apply Hall. lia. }
  by rewrite !length_fmap, length_seqZ, Nat2Z.id in Hlen.
Qed.

Lemma cand_in_net N p nb k : is_v4 N → N = blk_base N p → 0 ≤ p ≤ nb → nb ≤ 32 → 0 ≤ k < 2 ^ (nb - p) →
  N + k * 2 ^ (32 - nb) < 4294967296 ∧ blk (N + k * 2 ^ (32 - nb)) p = blk N p.
Proof.
  intros HNv HN Hp Hnb Hk. unfold is_v4 in HNv.
  assert (Hpow : 2 ^ (32 - p) = 2 ^ (nb - p) * 2 ^ (32 - nb)).
  { rewrite <-Z.pow_add_r by lia. f_equal. lia. }
  assert (0 < 2 ^ (32 - nb)) by (apply Z.pow_pos_nonneg; lia).
  assert (0 < 2 ^ (32 - p)) by (apply Z.pow_pos_nonneg; lia).
  assert (k * 2 ^ (32 - nb) < 2 ^ (32 - p)) by nia.
  assert (Hblk : blk (N + k * 2 ^ (32 - nb)) p = blk N p).
  { unfold blk. rewrite HN at 1. unfold blk_base, blk.
    rewrite Z.div_add_l by lia. rewrite (Z.div_small (k * _)) by nia. lia. }
  split; [|done].
  assert (blk N p < 2 ^ p).
  { unfold blk. apply Z.div_lt_upper_bound; [lia|]. rewrite <-Z.pow_add_r by lia.
    replace (32 - p + p) with 32 by lia. lia. }
  rewrite HN. unfold blk_base.
  assert (Hp32 : 2 ^ p * 2 ^ (32 - p) = 4294967296).
  { rewrite <-Z.pow_add_r by lia. by replace (p + (32 - p)) with 32 by lia. }
  nia.
Qed.

(** ** Properties *)
Section properties.
Context `{GoRuntime}.

Lemma findAvailableCIDR_free net ex N p nb c :
  net4 net = Some (N, p) → 16777216 ≤ N → 1 ≤ nb ≤ 32 → Forall usable ex →
  findAvailableCIDR net ex nb = Ret c →
  (∃ z, net4 c = Some (z, nb)) ∧
  ∀ e a, e ∈ ex → is_v4 a → addr_in e a → addr_in c a → False.
Proof.
  intros Hnet HN Hnb Hex Hfind.
  destruct (find_sound net ex N p nb Hnet HN Hnb Hex c Hfind) as (k&Hk&Hc&Hfree&->).
  assert (mask_bits nb) as Hb by (unfold mask_bits; lia). pose proof (host_pos nb Hb).
  assert (is_v4 (N + k * 2 ^ (32 - nb))) as Hv by (unfold is_v4; nia).
  split; [eexists; by apply net4_cidr4|].
  intros e a He Ha. by apply (busy_false_disjoint nb ex (N + k * 2 ^ (32 - nb))).
Qed.

(** C11: whatever [findAvailableCIDR] returns is a network of the requested
    size that shares no address with any network already in use, for every
    order in which the runtime visits the set of existing networks. *)
Theorem findAvailableCIDR_disjoint net ex N p nb c :
  net4 net = Some (N, p) → 16777216 ≤ N → 1 ≤ nb ≤ 32 → Forall usable ex →
  findAvailableCIDR net ex nb = Ret c →
  (∃ z, net4 c = Some (z, nb)) ∧
  ∀ e a, e ∈ ex → is_v4 a → addr_in e a → addr_in c a → False.
Proof. apply findAvailableCIDR_free. Qed.

(** C18: as long as fewer networks are in use, each of them within one subnet, than
    the network has subnets of the wanted size, and fewer than the loop has rounds (one
    per address of a subnet), the allocation succeeds, the result lies inside the
    network, and it shares no address with a network in use. *)
Theorem findAvailableCIDR_within net ex N p nb :
  net4 net = Some (N, p) → 16777216 ≤ N → p ≤ nb → 1 ≤ nb ≤ 32 →
  Forall usable ex → Forall (fine nb) ex →
  Z.of_nat (length ex) < 2 ^ (nb - p) → Z.of_nat (length ex) < 2 ^ (32 - nb) →
  ∃ c, findAvailableCIDR net ex nb = Ret c ∧
    (∀ a, is_v4 a → addr_in c a → addr_in net a) ∧
    (∀ e a, e ∈ ex → is_v4 a → addr_in e a → addr_in c a → False).
Proof.
  intros Hnet HN Hpn Hnb Hex Hfine Hlen1 Hlen2.
  destruct (net4_parse _ _ _ Hnet) as (Hz&Hp&Hbase&_). unfold mask_bits in Hp.
  assert (mask_bits nb) as Hb by (unfold mask_bits; lia).
  destruct (least_free (λ i, busy nb ex (N + i * 2 ^ (32 - nb))) (S (length ex))) as [Hall|(k&Hk&Hfree&Hmin)].
  { apply (pigeon N p nb ex (S (length ex))) in Hall; [lia|done|lia..|done]. }
  assert (0 ≤ k < 2 ^ (nb - p)) as Hkp by lia.
  destruct (cand_in_net N p nb k) as [Hc Hin]; [done|done|lia|lia|done|].
  pose proof (host_pos nb Hb).
  assert (is_v4 (N + k * 2 ^ (32 - nb))) as Hv by (unfold is_v4; nia).
  exists (cidr4 (N + k * 2 ^ (32 - nb)) nb). split.
  { apply (find_first_free net ex N p nb); (done || lia). }
  split.
  - intros a Ha. unfold addr_in. rewrite net4_cidr4, Hnet, blk_blk_base by done.
    intros Hblk. rewrite <-Hin. apply (blk_coarse_eq _ _ p nb); [lia|lia|done].
  - intros e a He Ha. by apply (busy_false_disjoint nb ex (N + k * 2 ^ (32 - nb))).
Qed.

End properties.

Lemma findAvailableCIDR_disjoint_witness :
  (∃ z, net4 "20.113.0.0/16" = Some (z, 16)) ∧
  ∀ e a, e ∈ ["20.112.0.0/16"; ""; "20.112.16.0/16"] → is_v4 a →
    addr_in e a → addr_in "20.113.0.0/16" a → False.
Proof.
  apply (@findAvailableCIDR_disjoint list_runtime "20.112.0.0/12" _ 342884352 12).
  - vm_compute. reflexivity.
  - lia.
  - lia.
  - apply (bool_decide_unpack (Forall usable _)). vm_compute. exact I.
  - vm_compute. reflexivity.
Defined.

Lemma findAvailableCIDR_within_witness :
  ∃ c, @findAvailableCIDR list_runtime "10.0.0.0/16" ["10.0.0.0/18"; "10.0.64.0/18"] 18 = Ret c ∧
    (∀ a, is_v4 a → addr_in c a → addr_in "10.0.0.0/16" a) ∧
    (∀ e a, e ∈ ["10.0.0.0/18"; "10.0.64.0/18"] → is_v4 a → addr_in e a → addr_in c a → False).
Proof.
  apply (@findAvailableCIDR_within list_runtime "10.0.0.0/16" _ 167772160 16 18); try lia.
  - vm_compute. reflexivity.
  - apply (bool_decide_unpack (Forall usable _)). vm_compute. exact I.
  - repeat constructor; vm_compute; discriminate.
  - vm_compute. reflexivity.
  - vm_compute. reflexivity.
Defined.

(** ** [GetIndexIPFromCIDR] on IPv4 networks *)
Lemma Contains_offset z n cur : is_v4 z → mask_bits n → z = blk_base z n →
  0 ≤ cur ≤ 2 ^ (32 - n) → z + cur < 4294967296 →
  Contains (block4 z n) (v4 (z + cur)) = bool_decide (cur < 2 ^ (32 - n)).
Proof.
  intros Hz Hn Hb Hcur Hc. unfold block4.
  rewrite Contains_v4, blk_blk_base by (done || by apply blk_base_v4 || (unfold is_v4 in *; lia)).
  apply bool_decide_ext. unfold blk. rewrite Hb at 2. unfold blk_base, blk.
  assert (0 < 2 ^ (32 - n)) by (apply Z.pow_pos_nonneg; unfold mask_bits in Hn; lia).
  rewrite Z.div_add_l by lia. destruct (Z.lt_ge_cases cur (2 ^ (32 - n))).
  - rewrite (Z.div_small cur) by lia. lia.
  - assert (cur = 2 ^ (32 - n)) as -> by lia. rewrite Z.div_same by lia. lia.
Qed.

Lemma index_loop_v4 z n todo : is_v4 z → mask_bits n → z = blk_base z n →
  z + 2 ^ (32 - n) < 4294967296 → ∀ start cur, 0 ≤ cur ≤ 2 ^ (32 - n) →
  index_loop todo (block4 z n) start (v4 (z + cur)) =
    let steps := Z.min (Z.of_nat todo) (2 ^ (32 - n) - cur) in (start + steps, v4 (z + cur + steps)).
Proof.
  intros Hz Hn Hb Hlast. induction todo as [|todo IH]; intros start cur Hcur; cbn [index_loop].
  { rewrite Z.min_l by lia. cbn. by rewrite !Z.add_0_r. }
  rewrite Contains_offset by (done || lia). case_bool_decide.
  - rewrite inc_v4, Z.mod_small by (unfold is_v4 in *; lia).
    replace (z + cur + 1) with (z + (cur + 1)) by lia. rewrite IH by lia. cbn zeta.
    f_equal; [lia|]. f_equal. lia.
  - replace (2 ^ (32 - n) - cur) with 0 by lia. rewrite Z.min_r by lia. cbn. by rewrite !Z.add_0_r.
Qed.

(** [GetIndexIPFromCIDR] on an IPv4 network that does not end the address
    space returns the base address plus the index, and it does so for every
    index up to and including the size of the network: the index equal to the
    size yields the first address after the network.  A larger or negative
    index is an error. *)
Theorem GetIndexIPFromCIDR_spec cidr z n index :
  net4 cidr = Some (z, n) → z + 2 ^ (32 - n) < 4294967296 →
  GetIndexIPFromCIDR cidr index =
    if (0 <=? index) && (index <=? 2 ^ (32 - n)) then Ret (string4 (v4 (z + index)))
    else Err "your index is out of the cidr".
Proof.
  intros Hc Hlast. destruct (net4_parse _ _ _ Hc) as (Hz&Hn&Hb&ip&Hp&w&Hw&->&Hblk).
  unfold GetIndexIPFromCIDR. rewrite Hp. cbn [mbind outcome_bind].
  change (net_Mask (block4 z n)) with (mask_bytes 4 n). rewrite IP_Mask_v4 by done.
  assert (blk_base w n = z) as -> by (rewrite Hb; unfold blk_base; by rewrite Hblk).
  assert (0 < 2 ^ (32 - n)) by (apply Z.pow_pos_nonneg; unfold mask_bits in Hn; lia).
  pose proof (index_loop_v4 z n (Z.to_nat index) Hz Hn Hb Hlast 0 0) as Hloop.
  rewrite Z.add_0_r in Hloop. rewrite Hloop by lia. cbn zeta.
  destruct (Z.leb_spec 0 index), (Z.leb_spec index (2 ^ (32 - n))); cbn [andb];
    destruct (Z.eqb_spec (0 + Z.min (Z.of_nat (Z.to_nat index)) (2 ^ (32 - n) - 0)) index); cbn [negb];
    try lia; try done.
  rewrite IP_String_v4. do 3 f_equal. lia.
Qed.

Lemma GetIndexIPFromCIDR_spec_witness :
  GetIndexIPFromCIDR "10.16.8.0/30" 4 = Ret "10.16.8.4".
Proof.
  rewrite (GetIndexIPFromCIDR_spec "10.16.8.0/30" 168822784 30 4); vm_compute; reflexivity.
Defined.

(** ** The division table *)
Lemma divide_bits net N p : net4 net = Some (N, p) →
  ∃ ip, ParseCIDR net = Ret (ip, block4 N p) ∧ fst (Mask_Size (net_Mask (block4 N p))) = p.
Proof.
  intros (_&Hn&_&ip&Hp&_)%net4_parse. exists ip. split; [done|].
  unfold Mask_Size. cbn [block4 net_Mask]. by rewrite simpleMaskLength_mask4.
Qed.

(** A cluster network cut from a tunnel network by [divideTunnelNetwork]
    is accepted by [divideClusterNetwork], which then leaves room for at least
    64 nodes, for every tunnel prefix of the table except [/9]: the [/13] it
    yields falls in the gap between the two cases and is refused. *)
Theorem divide_compose net N p sub cluster M :
  net4 net = Some (N, p) → 1 ≤ p → divideTunnelNetwork net = Ret sub → net4 cluster = Some (M, sub) →
  if p =? 9 then divideClusterNetwork cluster = Err "network cidr is too small"
  else ∃ node, divideClusterNetwork cluster = Ret node ∧ 2 ^ 6 ≤ 2 ^ (node - sub).
Proof.
  intros (ip&Hp&Hs)%divide_bits Hp1 Hdiv (ip'&Hp'&Hs')%divide_bits.
  unfold divideTunnelNetwork in Hdiv. rewrite Hp in Hdiv. cbn [mbind outcome_bind] in Hdiv. rewrite Hs in Hdiv.
  unfold divideClusterNetwork. rewrite Hp'. cbn [mbind outcome_bind]. rewrite Hs'.
  assert (∀ node, 6 ≤ node - sub → 2 ^ 6 ≤ 2 ^ (node - sub)) as Hpow by (intros; apply Z.pow_le_mono_r; lia).
  destruct (Z.eqb_spec p 9) as [->|Hp9].
  - cbn in Hdiv. injection Hdiv as <-. done.
  - repeat case_match; try done; simplify_eq/=;
      rewrite ?andb_true_iff, ?andb_false_iff, ?Z.leb_le, ?Z.leb_gt, ?Z.ltb_lt, ?Z.ltb_ge in *; try lia;
      eexists; (split; [done|apply Hpow; lia]).
Qed.

(** C17: the overlap test looks only at the first address of either network; on IPv4
    networks this decides whether the two share any address at all. *)
Theorem isOverlappingCIDR_iff s t z n w m :
  net4 s = Some (z, n) → net4 t = Some (w, m) →
  ∃ b, isOverlappingCIDR s t = Ret b ∧ (b = true ↔ ∃ a, is_v4 a ∧ addr_in s a ∧ addr_in t a).
Proof.
  intros Hs Ht. exists (overlap4 z n w m). split; [by apply isOverlappingCIDR_net4|].
  destruct (net4_parse _ _ _ Hs) as (Hz & Hn & _), (net4_parse _ _ _ Ht) as (Hw & Hm & _).
  unfold addr_in. rewrite Hs, Ht. by apply overlap4_spec.
Qed.

Lemma isOverlappingCIDR_iff_witness :
  isOverlappingCIDR "10.0.0.0/8" "10.1.2.0/24" = Ret true ∧ ∃ a, is_v4 a ∧ addr_in "10.0.0.0/8" a ∧ addr_in "10.1.2.0/24" a.
Proof.
  destruct (isOverlappingCIDR_iff "10.0.0.0/8" "10.1.2.0/24" 167772160 8 167838208 24) as (b & Eb & Hb);
    [vm_compute; reflexivity|vm_compute; reflexivity|].
  assert (E : isOverlappingCIDR "10.0.0.0/8" "10.1.2.0/24" = Ret true) by (vm_compute; reflexivity).
  split; [exact E|]. apply Hb. rewrite E in Eb. by injection Eb.
Defined.

(** The ranges that the two divisions hand out are free. *)
Section divided.
Context `{GoRuntime}.

Definition free_of (c : string) (ex : list string) : Prop :=
  (∃ z nb, net4 c = Some (z, nb)) ∧ ∀ e a, e ∈ ex → is_v4 a → addr_in e a → addr_in c a → False.

Lemma FindTunnelAvailableCIDR_free net ex N p c :
  net4 net = Some (N, p) → 16777216 ≤ N → Forall usable ex → FindTunnelAvailableCIDR net ex = Ret c → free_of c ex.
Proof.
  intros Hnet HN Hex. unfold FindTunnelAvailableCIDR. intros (nb & Hdiv & Hf)%bind_Ret.
  destruct (net4_parse _ _ _ Hnet) as (_ & Hp & _). unfold mask_bits in Hp.
  destruct (divide_bits _ _ _ Hnet) as (ip & Hpc & Hs). unfold divideTunnelNetwork in Hdiv.
  rewrite Hpc in Hdiv. cbn [mbind outcome_bind] in Hdiv. rewrite Hs in Hdiv.
  destruct (findAvailableCIDR_free net ex N p nb c Hnet HN) as [[z Hz] Hd]; [|done|done|split; [by eexists _, _|done]].
  repeat case_match; simplify_eq/=; rewrite ?andb_true_iff, ?Z.leb_le in *; lia.
Qed.

Lemma FindClusterAvailableCIDR_free net ex N p c :
  net4 net = Some (N, p) → 16777216 ≤ N → Forall usable ex → FindClusterAvailableCIDR net ex = Ret c → free_of c ex.
Proof.
  intros Hnet HN Hex. unfold FindClusterAvailableCIDR. intros (nb & Hdiv & Hf)%bind_Ret.
  destruct (divide_bits _ _ _ Hnet) as (ip & Hpc & Hs). unfold divideClusterNetwork in Hdiv.
  rewrite Hpc in Hdiv. cbn [mbind outcome_bind] in Hdiv. rewrite Hs in Hdiv.
  destruct (findAvailableCIDR_free net ex N p nb c Hnet HN) as [[z Hz] Hd]; [|done|done|split; [by eexists _, _|done]].
  repeat case_match; simplify_eq/=; lia.
Qed.
End divided.

Lemma divide_compose_witness :
  ∃ node, divideClusterNetwork "10.0.0.0/18" = Ret node ∧ 2 ^ 6 ≤ 2 ^ (node - 18).
Proof.
  apply (divide_compose "10.0.0.0/16" 167772160 16 18 "10.0.0.0/18" 167772160);
    vm_compute; first [reflexivity | discriminate].
Defined.

(** The address of a block is in it: a block whose address is in use is busy. *)
Lemma busy_addr nb ex e c : mask_bits nb → is_v4 c → e ∈ ex → addr_in e c → busy nb ex c = true.
Proof.
  intros Hnb Hc He Ha. unfold busy, addr_in in *. apply existsb_exists. exists e. split; [by apply list_elem_of_In|].
  destruct (net4 e) as [[z n]|] eqn:En; [|done]. destruct (net4_parse _ _ _ En) as (Hz & Hn & _).
  apply overlap4_spec; [done..|]. by exists c.
Qed.

(** A block at or past the end of a network shares no address with it. *)
Lemma cand_past_net N p nb k a : N = blk_base N p → 0 ≤ p ≤ nb → nb ≤ 32 → 2 ^ (nb - p) ≤ k →
  blk a nb = blk (N + k * 2 ^ (32 - nb)) nb → blk a p ≠ blk N p.
Proof.
  intros HN Hp Hnb Hk Ha Hb. apply (blk_coarse_eq _ _ p nb) in Ha; [|lia..]. rewrite Hb in Ha. unfold blk in Ha.
  assert (Hpow : 2 ^ (32 - p) = 2 ^ (nb - p) * 2 ^ (32 - nb)) by (rewrite <-Z.pow_add_r by lia; f_equal; lia).
  assert (0 < 2 ^ (32 - nb)) by (apply Z.pow_pos_nonneg; lia). assert (0 < 2 ^ (32 - p)) by (apply Z.pow_pos_nonneg; lia).
  assert (N / 2 ^ (32 - p) + 1 ≤ (N + k * 2 ^ (32 - nb)) / 2 ^ (32 - p)); [|lia].
  rewrite <-Z.div_add by lia. apply Z.div_le_mono; nia.
Qed.

(** C31: when every address of the network is in use, [findAvailableCIDR] does not
    fail but leaves the network: as long as the loop has more rounds than networks
    are in use, and the blocks it tries are IPv4 addresses, it goes on past
    the end of the network and hands out a block that is in no use but has no
    address in common with the network. *)
Theorem findAvailableCIDR_escapes `{GoRuntime} net ex N p nb :
  net4 net = Some (N, p) → 16777216 ≤ N → p ≤ nb → 1 ≤ nb ≤ 32 →
  Forall usable ex → Forall (fine nb) ex →
  (∀ a, is_v4 a → addr_in net a → ∃ e, e ∈ ex ∧ addr_in e a) →
  Z.of_nat (length ex) < 2 ^ (32 - nb) → N + Z.of_nat (length ex) * 2 ^ (32 - nb) < 4294967296 →
  ∃ c, findAvailableCIDR net ex nb = Ret c ∧
    (∀ a, is_v4 a → addr_in c a → addr_in net a → False) ∧
    (∀ e a, e ∈ ex → is_v4 a → addr_in e a → addr_in c a → False).
Proof.
  intros Hnet HN Hpn Hnb Hex Hfine Hfull Hrounds Hspace.
  destruct (net4_parse _ _ _ Hnet) as (Hz&Hp&Hbase&_). unfold mask_bits in Hp.
  assert (mask_bits nb) as Hb by (unfold mask_bits; lia). pose proof (host_pos nb Hb).
  destruct (least_free (λ i, busy nb ex (N + i * 2 ^ (32 - nb))) (S (length ex))) as [Hall|(k&Hk&Hfree&Hmin)].
  { apply (pigeon N p nb ex (S (length ex))) in Hall; [lia|done|lia..|done]. }
  assert (is_v4 (N + k * 2 ^ (32 - nb))) as Hv by (unfold is_v4; nia).
  assert (2 ^ (nb - p) ≤ k) as Hkp.
  { destruct (Z.lt_ge_cases k (2 ^ (nb - p))) as [Hlt|]; [|done].
    destruct (cand_in_net N p nb k) as [Hc Hin]; [done|done|lia|lia|lia|].
    destruct (Hfull _ Hv) as (e & He & Ha); [unfold addr_in; by rewrite Hnet|].
    by rewrite (busy_addr nb ex e) in Hfree. }
  exists (cidr4 (N + k * 2 ^ (32 - nb)) nb). split; [apply (find_first_free net ex N p nb); (done || lia || (unfold is_v4 in Hv; lia))|]. split.
  - intros a Ha. unfold addr_in. rewrite net4_cidr4, Hnet, blk_blk_base by done. intros Hblk.
    apply (cand_past_net N p nb k); (done || lia).
  - intros e a He Ha. by apply (busy_false_disjoint nb ex (N + k * 2 ^ (32 - nb))).
Qed.

(** Four subnets of a /16 leave nothing: the next range is taken from its neighbour. *)
Definition full_net : list string := ["10.0.0.0/18"; "10.0.64.0/18"; "10.0.128.0/18"; "10.0.192.0/18"].
Lemma full_net_full a : is_v4 a → addr_in "10.0.0.0/16" a → ∃ e, e ∈ full_net ∧ addr_in e a.
Proof.
  intros Ha. unfold addr_in at 1. assert (net4 "10.0.0.0/16" = Some (167772160, 16)) as -> by (vm_compute; reflexivity).
  intros Hb. assert (167772160 ≤ a < 167772160 + 65536) as Hr by (unfold blk in Hb; change (2 ^ (32 - 16)) with 65536 in Hb; dlia).
  assert (∀ e z, e ∈ full_net → net4 e = Some (z, 18) → z / 16384 = a / 16384 → ∃ e, e ∈ full_net ∧ addr_in e a) as Hin.
  { intros e z He Hz Hd. exists e. split; [done|]. unfold addr_in. rewrite Hz. unfold blk. change (2 ^ (32 - 18)) with 16384. done. }
  assert (a / 16384 = 10240 ∨ a / 16384 = 10241 ∨ a / 16384 = 10242 ∨ a / 16384 = 10243) as Hd by dlia.
  destruct Hd as [Hd|[Hd|[Hd|Hd]]].
  - apply (Hin "10.0.0.0/18" 167772160); [set_solver|vm_compute; reflexivity|by rewrite Hd].
  - apply (Hin "10.0.64.0/18" 167788544); [set_solver|vm_compute; reflexivity|by rewrite Hd].
  - apply (Hin "10.0.128.0/18" 167804928); [set_solver|vm_compute; reflexivity|by rewrite Hd].
  - apply (Hin "10.0.192.0/18" 167821312); [set_solver|vm_compute; reflexivity|by rewrite Hd].
Qed.

Lemma findAvailableCIDR_escapes_witness :
  ∃ c, @findAvailableCIDR list_runtime "10.0.0.0/16" full_net 18 = Ret c ∧
    (∀ a, is_v4 a → addr_in c a → addr_in "10.0.0.0/16" a → False) ∧
    (∀ e a, e ∈ full_net → is_v4 a → addr_in e a → addr_in c a → False).
Proof.
  apply (@findAvailableCIDR_escapes list_runtime "10.0.0.0/16" full_net 167772160 16 18); try lia.
  - vm_compute. reflexivity.
  - apply (bool_decide_unpack (Forall usable _)). vm_compute. exact I.
  - repeat constructor; vm_compute; discriminate.
  - exact full_net_full.
  - vm_compute. reflexivity.
  - vm_compute. reflexivity.
Defined.

(** The loop of [findAvailableCIDR] tries as many blocks as one block has
    addresses, not as many as the network has subnets: a [/14] cluster network
    whose first 256 node blocks are in use is reported full although the next
    block is free. *)
Theorem findAvailableCIDR_round_limit :
  @findAvailableCIDR list_runtime "10.0.0.0/14" ["10.0.0.0/16"] 24 = Err "no available CIDR found" ∧
  divideClusterNetwork "10.0.0.0/14" = Ret 24 ∧
  busy 24 ["10.0.0.0/16"] (v4_val [10; 1; 0; 0]) = false ∧
  addr_in "10.0.0.0/14" (v4_val [10; 1; 0; 0]).
Proof. vm_compute. done. Qed.
