(* ===== verification/K8s.v ===== *)
(** * Kubernetes objects

    The Kubernetes and multi-cluster API types the components read and write,
    as records with the fields the repository uses.  The types come from
    [k8s.io/api] and [sigs.k8s.io/mcs-api], so nothing here is mapped to a
    source file; the behaviour of the API server and of the informer caches
    is passed to the components that use it as a parameter. *)
From Stdlib Require Import Ascii.
From stdpp Require Import prelude gmap strings list pretty.
From S2P Require Import Prelude.
Open Scope Z_scope.

(** ** Go values *)

(** A [map[string]string] that may be nil: [reflect.DeepEqual] tells a nil map
    from an empty one, lookups do not. *)
Abbreviation GoMap := (option (gmap string string)).

Definition mget (m : GoMap) (k : string) : option string := m ≫= (.!! k).
Definition mstr (m : GoMap) (k : string) : string := default EmptyString (mget m k).
Definition mentries (m : GoMap) : gmap string string := default ∅ m.

(** [time.Time] in nanoseconds; the zero time is 0. *)
Abbreviation Time := Z (only parsing).
Definition IsZero (t : Time) : bool := t =? 0.
Definition After (t u : Time) : bool := u <? t.
Definition Before (t u : Time) : bool := t <? u.

Record NamespacedName := mkNN { nn_Namespace : string; nn_Name : string }.
#[export] Instance NamespacedName_eq_dec : EqDecision NamespacedName.
Proof. solve_decision. Defined.
#[export] Instance NamespacedName_countable : Countable NamespacedName.
Proof.
  refine (inj_countable' (λ n, (nn_Namespace n, nn_Name n)) (λ p, mkNN p.1 p.2) _). by intros [].
Defined.

Definition NN_String (n : NamespacedName) : string := nn_Namespace n +:+ "/" +:+ nn_Name n.

(** ** Metadata *)
Record OwnerReference := mkOwner {
  or_APIVersion : string; or_Kind : string; or_Name : string; or_UID : string;
  or_Controller : option bool; or_BlockOwnerDeletion : option bool }.
#[export] Instance OwnerReference_eq_dec : EqDecision OwnerReference.
Proof. solve_decision. Defined.

Record ObjectMeta := mkMeta {
  Name : string; GenerateName : string; Namespace : string; UID : string;
  ResourceVersion : string; Generation : Z; CreationTimestamp : Time;
  DeletionTimestamp : option Time; Labels : GoMap; Annotations : GoMap;
  OwnerReferences : list OwnerReference; Finalizers : list string }.
#[export] Instance ObjectMeta_eq_dec : EqDecision ObjectMeta.
Proof. solve_decision. Defined.

Definition emptyMeta : ObjectMeta :=
  mkMeta EmptyString EmptyString EmptyString EmptyString EmptyString 0 0 None None None [] [].

Definition set_Name (n : string) (m : ObjectMeta) : ObjectMeta :=
  mkMeta n (GenerateName m) (Namespace m) (UID m) (ResourceVersion m) (Generation m)
    (CreationTimestamp m) (DeletionTimestamp m) (Labels m) (Annotations m) (OwnerReferences m) (Finalizers m).
Definition set_Labels (l : GoMap) (m : ObjectMeta) : ObjectMeta :=
  mkMeta (Name m) (GenerateName m) (Namespace m) (UID m) (ResourceVersion m) (Generation m)
    (CreationTimestamp m) (DeletionTimestamp m) l (Annotations m) (OwnerReferences m) (Finalizers m).
Definition set_Annotations (a : GoMap) (m : ObjectMeta) : ObjectMeta :=
  mkMeta (Name m) (GenerateName m) (Namespace m) (UID m) (ResourceVersion m) (Generation m)
    (CreationTimestamp m) (DeletionTimestamp m) (Labels m) a (OwnerReferences m) (Finalizers m).
Definition set_Finalizers (f : list string) (m : ObjectMeta) : ObjectMeta :=
  mkMeta (Name m) (GenerateName m) (Namespace m) (UID m) (ResourceVersion m) (Generation m)
    (CreationTimestamp m) (DeletionTimestamp m) (Labels m) (Annotations m) (OwnerReferences m) f.

(** ** Endpoint slices *)
Record ObjectReference := mkRef {
  ref_Kind : string; ref_Namespace : string; ref_Name : string; ref_UID : string;
  ref_APIVersion : string; ref_ResourceVersion : string; ref_FieldPath : string }.
#[export] Instance ObjectReference_eq_dec : EqDecision ObjectReference.
Proof. solve_decision. Defined.

(** [Hints] is a pointer to the list of zones ([ForZones]). *)
Record Endpoint := mkEp {
  Addresses : list string;
  Ready : option bool; Serving : option bool; Terminating : option bool;
  Hostname : option string; TargetRef : option ObjectReference;
  NodeName : option string; Zone : option string; Hints : option (list string) }.
#[export] Instance Endpoint_eq_dec : EqDecision Endpoint.
Proof. solve_decision. Defined.

Definition set_Addresses (a : list string) (e : Endpoint) : Endpoint :=
  mkEp a (Ready e) (Serving e) (Terminating e) (Hostname e) (TargetRef e) (NodeName e) (Zone e) (Hints e).
Definition set_Hints (h : option (list string)) (e : Endpoint) : Endpoint :=
  mkEp (Addresses e) (Ready e) (Serving e) (Terminating e) (Hostname e) (TargetRef e) (NodeName e) (Zone e) h.

Record EndpointPort := mkPort {
  ep_Name : option string; ep_Protocol : option string; ep_Port : option Z; ep_AppProtocol : option string }.
#[export] Instance EndpointPort_eq_dec : EqDecision EndpointPort.
Proof. solve_decision. Defined.

Record EndpointSlice := mkSlice {
  es_meta : ObjectMeta; es_AddressType : string; es_Endpoints : list Endpoint; es_Ports : list EndpointPort }.
#[export] Instance EndpointSlice_eq_dec : EqDecision EndpointSlice.
Proof. solve_decision. Defined.

Definition set_meta (f : ObjectMeta → ObjectMeta) (s : EndpointSlice) : EndpointSlice :=
  mkSlice (f (es_meta s)) (es_AddressType s) (es_Endpoints s) (es_Ports s).
Definition set_Endpoints (l : list Endpoint) (s : EndpointSlice) : EndpointSlice :=
  mkSlice (es_meta s) (es_AddressType s) l (es_Ports s).
Definition es_Name (s : EndpointSlice) : string := Name (es_meta s).

(** Label keys of [k8s.io/api]. *)
Definition LabelServiceName : string := "kubernetes.io/service-name".
Definition LabelManagedBy : string := "endpointslice.kubernetes.io/managed-by".
Definition IsHeadlessService : string := "service.kubernetes.io/headless".
Definition LabelTopologyZone : string := "topology.kubernetes.io/zone".
Definition EndpointsLastChangeTriggerTime : string := "endpoints.kubernetes.io/last-change-trigger-time".
Definition DeprecatedAnnotationTopologyAwareHints : string := "service.kubernetes.io/topology-aware-hints".
Definition AnnotationTopologyMode : string := "service.kubernetes.io/topology-mode".

(** ** Pods, services and nodes *)
Record ContainerPort := mkCPort { cp_Name : string; cp_Protocol : string; cp_ContainerPort : Z }.
Record Container := mkContainer { c_Command : list string; c_Args : list string; c_Ports : list ContainerPort }.
Record Condition := mkCond { cond_Type : string; cond_Status : string; cond_LastTransitionTime : Time }.

Record Pod := mkPod {
  pod_meta : ObjectMeta;
  pod_NodeName : string; pod_Hostname : string; pod_Subdomain : string; pod_RestartPolicy : string;
  pod_Containers : list Container;
  pod_Phase : string; pod_Reason : string; pod_PodIP : string; pod_PodIPs : list string;
  pod_Conditions : list Condition }.

Definition set_pod_meta (f : ObjectMeta → ObjectMeta) (p : Pod) : Pod :=
  mkPod (f (pod_meta p)) (pod_NodeName p) (pod_Hostname p) (pod_Subdomain p) (pod_RestartPolicy p)
    (pod_Containers p) (pod_Phase p) (pod_Reason p) (pod_PodIP p) (pod_PodIPs p) (pod_Conditions p).

Inductive IntOrString := IntVal (z : Z) | StrVal (s : string).

Record ServicePort := mkSvcPort {
  sp_Name : string; sp_Protocol : string; sp_AppProtocol : option string; sp_Port : Z;
  sp_TargetPort : IntOrString; sp_NodePort : Z }.

Record Service := mkService {
  svc_meta : ObjectMeta; svc_Ports : list ServicePort; svc_ClusterIP : string; svc_Type : string;
  svc_Selector : GoMap; svc_PublishNotReadyAddresses : bool; svc_IPFamilies : list string }.

Record Node := mkNode { node_meta : ObjectMeta; node_Conditions : list Condition; node_CPU : Z }.

Definition ClusterIPNone : string := "None".

(** ** Errors of the API server and the client for endpoint slices

    Every call takes the state of the world and returns the next one, so the
    order of the calls is visible and a failed call may have any effect.
    [SliceServer] states what the components rely on when a call succeeds. *)
Inductive ErrReason := ReasonNotFound | ReasonAlreadyExists | ReasonConflict | ReasonNamespaceTerminating | ReasonOther.
#[export] Instance ErrReason_eq_dec : EqDecision ErrReason.
Proof. solve_decision. Defined.
Record ApiError := mkErr { err_reason : ErrReason; err_msg : string }.

Definition IsNotFound (e : ApiError) : bool := bool_decide (err_reason e = ReasonNotFound).
Definition IsAlreadyExists (e : ApiError) : bool := bool_decide (err_reason e = ReasonAlreadyExists).
Definition IsConflict (e : ApiError) : bool := bool_decide (err_reason e = ReasonConflict).

Class SliceClient (W : Type) := {
  api_create : W → string → EndpointSlice → W * (EndpointSlice + ApiError);
  api_update : W → string → EndpointSlice → W * (EndpointSlice + ApiError);
  api_delete : W → string → string → W * option ApiError
}.

(** Two slices with the same contents; the server sets the other metadata. *)
Definition same_contents (s t : EndpointSlice) : Prop :=
  es_Endpoints s = es_Endpoints t ∧ es_Ports s = es_Ports t ∧ es_AddressType s = es_AddressType t ∧
  Labels (es_meta s) = Labels (es_meta t) ∧ OwnerReferences (es_meta s) = OwnerReferences (es_meta t).

Class SliceServer (W : Type) `{SliceClient W} := {
  api_slices : W → string → gmap string EndpointSlice;
  api_create_ok : ∀ w ns s w' c, api_create w ns s = (w', inl c) →
    api_slices w ns !! es_Name c = None ∧ es_Name c ≠ EmptyString ∧ same_contents c s ∧
    api_slices w' ns = <[es_Name c := c]> (api_slices w ns) ∧
    (es_Name s ≠ EmptyString → es_Name c = es_Name s);
  api_update_ok : ∀ w ns s w' c, api_update w ns s = (w', inl c) →
    is_Some (api_slices w ns !! es_Name s) ∧ es_Name c = es_Name s ∧ same_contents c s ∧
    api_slices w' ns = <[es_Name s := c]> (api_slices w ns);
  api_delete_ok : ∀ w ns n w', api_delete w ns n = (w', None) →
    api_slices w' ns = delete n (api_slices w ns)
}.

(** ** A concrete server, for examples: the slices of every namespace. *)
Abbreviation demo_world := (gmap string (gmap string EndpointSlice)).
(** The slices filed under their names. *)
Definition named_slices (m : gmap string EndpointSlice) : gmap string EndpointSlice :=
  filter (λ ns, es_Name (snd ns) = fst ns) m.
Definition demo_slices (w : demo_world) (ns : string) : gmap string EndpointSlice := named_slices (default ∅ (w !! ns)).

Lemma named_slices_lookup m n s : named_slices m !! n = Some s → es_Name s = n.
Proof. intros E. apply map_lookup_filter_Some in E as [_ E]. exact E. Qed.

Lemma named_slices_id m : (∀ n s, m !! n = Some s → es_Name s = n) → named_slices m = m.
Proof. intros Hm. apply map_filter_id. intros n s Hn. exact (Hm _ _ Hn). Qed.

Lemma demo_slices_set w ns m : (∀ n s, m !! n = Some s → es_Name s = n) → demo_slices (<[ns := m]> w) ns = m.
Proof. intros Hm. unfold demo_slices. rewrite lookup_insert_eq. by apply named_slices_id. Qed.

Lemma demo_slices_insert w ns n c : es_Name c = n →
  demo_slices (<[ns := <[n := c]> (demo_slices w ns)]> w) ns = <[n := c]> (demo_slices w ns).
Proof.
  intros Hc. apply demo_slices_set. intros n' s'. rewrite lookup_insert_Some.
  intros [[<- <-]|[_ Hs]]; [done|]. by apply named_slices_lookup in Hs.
Qed.

Lemma demo_slices_delete w ns n :
  demo_slices (<[ns := delete n (demo_slices w ns)]> w) ns = delete n (demo_slices w ns).
Proof.
  apply demo_slices_set. intros n' s'. rewrite lookup_delete_Some. intros [_ Hs]. by apply named_slices_lookup in Hs.
Qed.

Definition demo_name (w : demo_world) (ns : string) (s : EndpointSlice) : string :=
  if bool_decide (es_Name s = EmptyString)
  then GenerateName (es_meta s) +:+ pretty (size (demo_slices w ns)) else es_Name s.

Definition demo_client : SliceClient demo_world := {|
  api_create := λ w ns s,
    let n := demo_name w ns s in
    if bool_decide (n = EmptyString) || bool_decide (is_Some (demo_slices w ns !! n))
    then (w, inr (mkErr ReasonAlreadyExists "already exists"))
    else let c := set_meta (set_Name n) s in (<[ns := <[n := c]> (demo_slices w ns)]> w, inl c);
  api_update := λ w ns s,
    if bool_decide (is_Some (demo_slices w ns !! es_Name s))
    then (<[ns := <[es_Name s := s]> (demo_slices w ns)]> w, inl s)
    else (w, inr (mkErr ReasonNotFound "not found"));
  api_delete := λ w ns n,
    if bool_decide (is_Some (demo_slices w ns !! n))
    then (<[ns := delete n (demo_slices w ns)]> w, None)
    else (w, Some (mkErr ReasonNotFound "not found"))
|}.

Program Definition demo_server : @SliceServer demo_world demo_client := {| api_slices := demo_slices |}.
Next Obligation.
  simpl. intros w ns s w' c. destruct (bool_decide _) eqn:E1; simpl; [done|].
  destruct (bool_decide (is_Some _)) eqn:E2; simpl; [done|]. intros [= <- <-].
  apply bool_decide_eq_false in E1, E2. split_and!.
  - by apply eq_None_not_Some.
  - done.
  - by destruct s.
  - by apply demo_slices_insert.
  - unfold demo_name. intros Hs. by rewrite bool_decide_eq_false_2.
Qed.
Next Obligation.
  simpl. intros w ns s w' c. case_bool_decide; [|done]. intros [= <- <-]. split_and!; [done|done|done|].
  by apply demo_slices_insert.
Qed.
Next Obligation.
  simpl. intros w ns n w'. case_bool_decide; [|done]. intros [= <-]. apply demo_slices_delete.
Qed.

(** ** [ServiceImport] of the multi-cluster services API *)
Record ImportPort := mkImportPort { ip_Name : string; ip_Protocol : string; ip_AppProtocol : option string; ip_Port : Z }.
Record ServiceImport := mkSImport {
  sim_meta : ObjectMeta; sim_Ports : list ImportPort; sim_IPs : list string; sim_Type : string }.
Definition ClusterSetIP : string := "ClusterSetIP".
Definition Headless : string := "Headless".
