(* ===== verification/EpUtil.v ===== *)
(** * Endpoint sets and pod predicates

    [pkg/controller/endpointslice/util/endpointset.go] and
    [controller_utils.go]: the hash-indexed set of endpoints the reconciler
    works on, the predicates that decide which pods are endpoints, and the
    computation of the services a pod change affects. *)
From stdpp Require Import prelude gmap strings list sorting.
From S2P Require Import Prelude K8s.
Open Scope Z_scope.

(** ** Objects that are hashed *)
Record endpointHashObj := mkHashObj {
  ho_Addresses : list string; ho_Hostname : string; ho_Namespace : string; ho_Name : string }.

Inductive Spewable :=
  | SpewEndpoint (o : endpointHashObj)
  | SpewPort (p : EndpointPort)
  | SpewPorts (ps : list EndpointPort).

(** ** Library functions the controller calls

    [spew_print] is the spew printer with the configuration of
    [deepHashObject], [md5_hex] the hexadecimal MD5 digest; neither is assumed
    to be injective.  [selector_matches] is
    [labels.ValidatedSetSelector(sel).Matches], [meta_key] is
    [cache.DeletionHandlingMetaNamespaceKeyFunc]. *)
Class EpLib := {
  spew_print : Spewable → string;
  md5_hex : string → string;
  selector_matches : gmap string string → GoMap → bool;
  meta_key : ObjectMeta → outcome string
}.

(** An [EndpointSet] maps the hash of an endpoint to the endpoint. *)
Abbreviation EndpointSet := (gmap string Endpoint).

Section util.
Context `{GoRuntime} `{EpLib}.

(** ** Hashing *)
Definition deepHashObjectToString (o : Spewable) : string := md5_hex (spew_print o).

(** [hashEndpoint] sorts the addresses of its argument in place: the endpoint
    is returned with the hash. *)
Definition hashEndpoint (endpoint : Endpoint) : string * Endpoint :=
  let endpoint := set_Addresses (sort_strings (Addresses endpoint)) endpoint in
  let hashObj := mkHashObj (Addresses endpoint) (default EmptyString (Hostname endpoint))
    (default EmptyString (ref_Namespace <$> TargetRef endpoint))
    (default EmptyString (ref_Name <$> TargetRef endpoint)) in
  (deepHashObjectToString (SpewEndpoint hashObj), endpoint).

(** [portsInOrder.Less] *)
Definition portsInOrder_Less (p q : EndpointPort) : bool :=
  str_lt (deepHashObjectToString (SpewPort p)) (deepHashObjectToString (SpewPort q)).

(** [NewPortMapKey] sorts the ports in place: the sorted ports are returned
    with the key. *)
Definition NewPortMapKey (endpointPorts : list EndpointPort) : string * list EndpointPort :=
  let sorted := go_sort portsInOrder_Less endpointPorts in
  (deepHashObjectToString (SpewPorts sorted), sorted).

(** ** [EndpointSet] operations *)
Definition EndpointSet_Insert (s : EndpointSet) (items : list Endpoint) : EndpointSet :=
  foldl (λ s item, let '(h, item') := hashEndpoint item in <[h := item']> s) s items.

Definition EndpointSet_Delete (s : EndpointSet) (items : list Endpoint) : EndpointSet :=
  foldl (λ s item, delete (fst (hashEndpoint item)) s) s items.

Definition EndpointSet_Has (s : EndpointSet) (item : Endpoint) : bool :=
  bool_decide (is_Some (s !! fst (hashEndpoint item))).

Definition EndpointSet_Get (s : EndpointSet) (item : Endpoint) : option Endpoint :=
  s !! fst (hashEndpoint item).

Definition EndpointSet_UnsortedList (s : EndpointSet) : list Endpoint := (go_range s).*2.

(** [PopAny]: the first entry [range] visits, removed by its own hash. *)
Definition EndpointSet_PopAny (s : EndpointSet) : option (Endpoint * EndpointSet) :=
  match go_range s with
  | [] => None
  | (_, endpoint) :: _ => Some (endpoint, EndpointSet_Delete s [endpoint])
  end.

Definition EndpointSet_Len (s : EndpointSet) : nat := size s.

(** ** Pods *)
Definition getPodReadyCondition (pod : Pod) : option Condition :=
  list_find (λ c, cond_Type c = "Ready") (pod_Conditions pod) ≫= λ p, Some (snd p).

Definition isPodReadyConditionTrue (pod : Pod) : bool :=
  match getPodReadyCondition pod with
  | Some c => bool_decide (cond_Status c = "True")
  | None => false
  end.

Definition IsPodReady (pod : Pod) : bool := isPodReadyConditionTrue pod.

Definition isPodPhaseTerminal (phase : string) : bool :=
  bool_decide (phase = "Failed") || bool_decide (phase = "Succeeded").

Definition isPodTerminal (pod : Pod) : bool := isPodPhaseTerminal (pod_Phase pod).

Definition ShouldPodBeInEndpoints (pod : Pod) (includeTerminating : bool) : bool :=
  if isPodTerminal pod then false
  else if (String.length (pod_PodIP pod) =? 0)%nat && (length (pod_PodIPs pod) =? 0)%nat then false
  else if negb includeTerminating && bool_decide (is_Some (DeletionTimestamp (pod_meta pod))) then false
  else true.

Definition ShouldSetHostname (pod : Pod) (svc : Service) : bool :=
  (0 <? String.length (pod_Hostname pod))%nat
  && bool_decide (pod_Subdomain pod = Name (svc_meta svc))
  && bool_decide (Namespace (svc_meta svc) = Namespace (pod_meta pod)).

Definition hostNameAndDomainAreEqual (pod1 pod2 : Pod) : bool :=
  bool_decide (pod_Hostname pod1 = pod_Hostname pod2) && bool_decide (pod_Subdomain pod1 = pod_Subdomain pod2).

(** The deletion timestamps are compared as pointers: two versions of a pod
    never share one, so they are equal only when both are nil. *)
Definition timestampPtrChanged (t u : option Time) : bool :=
  match t, u with None, None => false | _, _ => true end.

Fixpoint podIPsDiffer (old new : list string) : outcome bool :=
  match old, new with
  | [], _ => Ret false
  | _ :: _, [] => Panic
  | a :: old', b :: new' => if bool_decide (a ≠ b) then Ret true else podIPsDiffer old' new'
  end.

Definition podEndpointsChanged (oldPod newPod : Pod) : outcome (bool * bool) :=
  let labelsChanged := bool_decide (Labels (pod_meta newPod) ≠ Labels (pod_meta oldPod))
                       || negb (hostNameAndDomainAreEqual newPod oldPod) in
  if timestampPtrChanged (DeletionTimestamp (pod_meta newPod)) (DeletionTimestamp (pod_meta oldPod))
  then Ret (true, labelsChanged)
  else if xorb (IsPodReady oldPod) (IsPodReady newPod) then Ret (true, labelsChanged)
  else if negb (length (pod_PodIPs oldPod) =? length (pod_PodIPs newPod))%nat then Ret (true, labelsChanged)
  else d ← podIPsDiffer (pod_PodIPs oldPod) (pod_PodIPs newPod); Ret (d, labelsChanged).

(** ** Services of a pod *)
Fixpoint memberships_loop (podLabels : GoMap) (services : list Service) (set : gset string) : outcome (gset string) :=
  match services with
  | [] => Ret set
  | service :: rest =>
      match svc_Selector service with
      | None => memberships_loop podLabels rest set
      | Some sel =>
          key ← meta_key (svc_meta service);
          memberships_loop podLabels rest (if selector_matches sel podLabels then {[key]} ∪ set else set)
      end
  end.

(** [lister ns] lists the services of a namespace. *)
Definition GetPodServiceMemberships (lister : string → outcome (list Service)) (pod : Pod) : outcome (gset string) :=
  services ← lister (Namespace (pod_meta pod));
  memberships_loop (Labels (pod_meta pod)) services ∅.

Definition determineNeededServiceUpdates (oldServices services : gset string) (podChanged : bool) : gset string :=
  if podChanged then services ∪ oldServices
  else (services ∖ oldServices) ∪ (oldServices ∖ services).

(** Errors of the lister are logged: for the new pod nothing is updated, for
    the old one its services count as empty. *)
Definition GetServicesToUpdateOnPodChange (lister : string → outcome (list Service)) (oldPod newPod : Pod)
    : outcome (gset string) :=
  if bool_decide (ResourceVersion (pod_meta newPod) = ResourceVersion (pod_meta oldPod)) then Ret ∅
  else
    '(podChanged, labelsChanged) ← podEndpointsChanged oldPod newPod;
    if negb podChanged && negb labelsChanged then Ret ∅
    else match GetPodServiceMemberships lister newPod with
         | Ret services =>
             if labelsChanged : bool then
               match GetPodServiceMemberships lister oldPod with
               | Ret oldServices => Ret (determineNeededServiceUpdates oldServices services podChanged)
               | Err _ => Ret (determineNeededServiceUpdates ∅ services podChanged)
               | Panic => Panic
               | Spin => Spin
               end
             else Ret services
         | Err _ => Ret ∅
         | Panic => Panic
         | Spin => Spin
         end.

(** What an informer hands to a delete handler. *)
Inductive DeletedObj :=
  | DeletedPod (p : Pod)
  | DeletedFinalStateUnknown (obj : option Pod)
  | DeletedOther.

Definition GetPodFromDeleteAction (obj : DeletedObj) : option Pod :=
  match obj with
  | DeletedPod p => Some p
  | DeletedFinalStateUnknown (Some p) => Some p
  | DeletedFinalStateUnknown None => None
  | DeletedOther => None
  end.

(** ** Comparison of endpoints beyond their hash *)
Definition ptrChanged {A} `{EqDecision A} (p q : option A) : bool :=
  if negb (eqb (bool_decide (p = None)) (bool_decide (q = None))) then true
  else match p, q with
       | Some a, Some b => bool_decide (a ≠ b)
       | _, _ => false
       end.

Definition boolPtrChanged : option bool → option bool → bool := ptrChanged.
Definition stringPtrChanged : option string → option string → bool := ptrChanged.

Definition ref_ignore_rv (r : ObjectReference) : ObjectReference :=
  mkRef (ref_Kind r) (ref_Namespace r) (ref_Name r) (ref_UID r) (ref_APIVersion r) EmptyString (ref_FieldPath r).

Definition EndpointsEqualBeyondHash (ep1 ep2 : Endpoint) : bool :=
  if stringPtrChanged (NodeName ep1) (NodeName ep2) then false
  else if stringPtrChanged (Zone ep1) (Zone ep2) then false
  else if boolPtrChanged (Ready ep1) (Ready ep2) then false
  else if boolPtrChanged (Serving ep1) (Serving ep2) then false
  else if boolPtrChanged (Terminating ep1) (Terminating ep2) then false
  else if bool_decide (ref_ignore_rv <$> TargetRef ep1 ≠ ref_ignore_rv <$> TargetRef ep2) then false
  else true.

(** ** Lemmas: hashing *)
Definition ep_hash (e : Endpoint) : string := fst (hashEndpoint e).
Definition ep_sorted (e : Endpoint) : Endpoint := snd (hashEndpoint e).

Lemma ep_sorted_idemp e : ep_sorted (ep_sorted e) = ep_sorted e.
Proof. unfold ep_sorted, hashEndpoint, set_Addresses; simpl. by rewrite sort_strings_idemp. Qed.

Lemma ep_hash_sorted e : ep_hash (ep_sorted e) = ep_hash e.
Proof. unfold ep_hash, ep_sorted, hashEndpoint, set_Addresses; simpl. by rewrite sort_strings_idemp. Qed.

(** The set invariant: an entry is stored under its own hash, with its
    addresses sorted. *)
Definition es_wf (s : EndpointSet) : Prop :=
  map_Forall (λ h e, ep_hash e = h ∧ ep_sorted e = e) s.

Lemma es_wf_empty : es_wf ∅.
Proof. apply map_Forall_empty. Qed.

Lemma es_wf_delete s h : es_wf s → es_wf (delete h s).
Proof. intros Hs. by apply map_Forall_delete. Qed.

Lemma EndpointSet_Insert_wf s items : es_wf s → es_wf (EndpointSet_Insert s items).
Proof.
  revert s. induction items as [|e items IH]; intros s Hs; [done|].
  simpl. apply IH, map_Forall_insert_2; [|done].
  split; [apply ep_hash_sorted|apply ep_sorted_idemp].
Qed.

Lemma EndpointSet_Delete_wf s items : es_wf s → es_wf (EndpointSet_Delete s items).
Proof.
  revert s. induction items as [|e items IH]; intros s Hs; [done|].
  simpl. by apply IH, es_wf_delete.
Qed.

Lemma EndpointSet_Insert_dom s items :
  dom (EndpointSet_Insert s items) = list_to_set (ep_hash <$> items) ∪ dom s.
Proof.
  revert s. induction items as [|e items IH]; intros s; [set_solver|].
  change (dom (EndpointSet_Insert (<[ep_hash e := ep_sorted e]> s) items) =
    list_to_set (ep_hash e :: (ep_hash <$> items)) ∪ dom s).
  rewrite IH, dom_insert_L. set_solver.
Qed.

(** [PopAny] removes exactly the entry it returns. *)
Lemma EndpointSet_PopAny_spec s :
  es_wf s → s ≠ ∅ →
  ∃ e, EndpointSet_PopAny s = Some (e, delete (ep_hash e) s) ∧ s !! ep_hash e = Some e.
Proof.
  intros Hwf Hne. unfold EndpointSet_PopAny.
  destruct (go_range s) as [|[h e] l] eqn:E; [by apply go_range_nil in E|].
  assert (s !! h = Some e) as Hl. { apply elem_of_go_range. rewrite E. by left. }
  destruct (Hwf _ _ Hl) as [Hh _]. exists e. simpl. fold (ep_hash e). by subst h.
Qed.

Lemma ptrChanged_false {A} `{EqDecision A} (p q : option A) : ptrChanged p q = false ↔ p = q.
Proof. unfold ptrChanged. destruct p, q; simpl; repeat case_bool_decide; naive_solver. Qed.

Lemma EndpointsEqualBeyondHash_spec e f :
  EndpointsEqualBeyondHash e f = true ↔
  NodeName e = NodeName f ∧ Zone e = Zone f ∧ Ready e = Ready f ∧ Serving e = Serving f ∧
  Terminating e = Terminating f ∧ ref_ignore_rv <$> TargetRef e = ref_ignore_rv <$> TargetRef f.
Proof.
  unfold EndpointsEqualBeyondHash, stringPtrChanged, boolPtrChanged.
  repeat match goal with |- context [ptrChanged ?p ?q] =>
    let E := fresh in destruct (ptrChanged p q) eqn:E;
    [assert (p ≠ q) by (rewrite <- ptrChanged_false; congruence) | apply ptrChanged_false in E] end;
  repeat case_bool_decide; naive_solver.
Qed.

(** ** Which services a pod change affects *)
Lemma podIPsDiffer_spec old new :
  length old = length new → podIPsDiffer old new = Ret (bool_decide (old ≠ new)).
Proof.
  revert new. induction old as [|a old IH]; intros [|b new]; simpl; intros Hl; try done.
  rewrite IH by lia. repeat case_bool_decide; naive_solver.
Qed.

(** What makes the endpoints of a pod change. *)
Definition pod_changed (oldPod newPod : Pod) : bool :=
  timestampPtrChanged (DeletionTimestamp (pod_meta newPod)) (DeletionTimestamp (pod_meta oldPod))
  || xorb (IsPodReady oldPod) (IsPodReady newPod)
  || bool_decide (pod_PodIPs oldPod ≠ pod_PodIPs newPod).

Lemma podEndpointsChanged_spec oldPod newPod :
  ∃ labelsChanged, podEndpointsChanged oldPod newPod = Ret (pod_changed oldPod newPod, labelsChanged) ∧
    (labelsChanged = false → Labels (pod_meta newPod) = Labels (pod_meta oldPod)).
Proof.
  unfold podEndpointsChanged, pod_changed. eexists. split.
  - destruct (timestampPtrChanged _ _); [done|]. destruct (xorb _ _); [done|]. simpl.
    destruct (Nat.eqb_spec (length (pod_PodIPs oldPod)) (length (pod_PodIPs newPod))) as [E|E]; simpl.
    + by rewrite podIPsDiffer_spec.
    + rewrite (bool_decide_true (pod_PodIPs oldPod ≠ pod_PodIPs newPod)); [done|]. intros F. by rewrite F in E.
  - intros [E%bool_decide_eq_false _]%orb_false_iff. by apply dec_stable.
Qed.

(** An update of a pod requeues the right services.  With the services the
    old and the new version of the pod belong to, the result is their union
    when the pod's readiness, addresses or deletion changed and their symmetric
    difference when only its labels did; in particular every service whose
    membership changed is requeued, also when the code only looks at the new
    pod. *)
Theorem GetServicesToUpdateOnPodChange_spec lister oldPod newPod olds news :
  Namespace (pod_meta oldPod) = Namespace (pod_meta newPod) →
  ResourceVersion (pod_meta newPod) ≠ ResourceVersion (pod_meta oldPod) →
  GetPodServiceMemberships lister oldPod = Ret olds →
  GetPodServiceMemberships lister newPod = Ret news →
  GetServicesToUpdateOnPodChange lister oldPod newPod =
    Ret (if pod_changed oldPod newPod then news ∪ olds else (news ∖ olds) ∪ (olds ∖ news)).
Proof.
  intros Hns Hrv Ho Hn. unfold GetServicesToUpdateOnPodChange. rewrite bool_decide_false by done.
  destruct (podEndpointsChanged_spec oldPod newPod) as (lc & -> & Hlc). simpl.
  rewrite Ho, Hn. unfold determineNeededServiceUpdates.
  destruct lc; [by rewrite andb_false_r|].
  assert (olds = news) as ->.
  { unfold GetPodServiceMemberships in Ho, Hn. rewrite Hns, <- Hlc in Ho by done. congruence. }
  destruct (pod_changed oldPod newPod); simpl; f_equal; set_solver.
Qed.

End util.

(** ** Witness data *)
Definition demo_lib : EpLib := {|
  spew_print := λ o, match o with
    | SpewEndpoint o => foldr String.append EmptyString (ho_Addresses o) +:+ ";" +:+ ho_Hostname o +:+ ";"
                        +:+ ho_Namespace o +:+ ";" +:+ ho_Name o
    | SpewPort p => default EmptyString (ep_Name p)
    | SpewPorts ps => foldr (λ p a, default EmptyString (ep_Name p) +:+ "," +:+ a) EmptyString ps
    end;
  md5_hex := λ s, s;
  selector_matches := λ sel l, bool_decide (map_Forall (λ k v, mget l k = Some v) sel);
  meta_key := λ m, Ret (Namespace m +:+ "/" +:+ Name m)
|}.

Definition demo_pod (rv : string) (app : string) : Pod :=
  mkPod (mkMeta "p" EmptyString "ns" "u" rv 0 0 None (Some {["app" := app]}) None [] [])
    "n1" EmptyString EmptyString "Always" [] "Running" EmptyString "10.0.0.1" ["10.0.0.1"] [].

Definition demo_service (n app : string) : Service :=
  mkService (mkMeta n EmptyString "ns" n "1" 0 0 None None None [] []) [] EmptyString "ClusterIP"
    (Some {["app" := app]}) false [].

Definition demo_lister (ns : string) : outcome (list Service) :=
  Ret [demo_service "a" "x"; demo_service "b" "y"; demo_service "c" "z"].

Lemma GetServicesToUpdateOnPodChange_spec_witness :
  @GetServicesToUpdateOnPodChange demo_lib demo_lister (demo_pod "1" "x") (demo_pod "2" "y") = Ret {["ns/a"; "ns/b"]}.
Proof.
  rewrite (@GetServicesToUpdateOnPodChange_spec demo_lib demo_lister (demo_pod "1" "x") (demo_pod "2" "y")
    {["ns/a"]} {["ns/b"]}); [vm_compute; reflexivity| |discriminate| |]; vm_compute; reflexivity.
Defined.
