(* ===== verification/Tracker.v ===== *)
(** * What the controller remembers between syncs

    Three pieces of state of the endpoint slice controller:
    [pkg/controller/endpointslice/util/endpointslice_tracker.go] (the
    generations the controller has written), [util/trigger_time_tracker.go]
    (the times that triggered the last sync) and [metrics/cache.go] (the
    totals exported as metrics). *)
From stdpp Require Import prelude gmap strings list.
From S2P Require Import Prelude Float64 K8s EpUtil.
Open Scope Z_scope.

(** ** [EndpointSliceTracker] *)
Definition deletionExpected : Z := -1.

Abbreviation GenerationsBySlice := (gmap string Z).
Record EndpointSliceTracker := mkTracker { generationsByService : gmap NamespacedName GenerationsBySlice }.

Definition NewEndpointSliceTracker : EndpointSliceTracker := mkTracker ∅.

Definition getServiceNN (s : EndpointSlice) : NamespacedName :=
  mkNN (Namespace (es_meta s)) (mstr (Labels (es_meta s)) LabelServiceName).

Definition GenerationsForSliceUnsafe (est : EndpointSliceTracker) (s : EndpointSlice) : option GenerationsBySlice :=
  generationsByService est !! getServiceNN s.

Definition Tracker_Has (est : EndpointSliceTracker) (s : EndpointSlice) : bool :=
  match GenerationsForSliceUnsafe est s with
  | None => false
  | Some gfs => bool_decide (is_Some (gfs !! UID (es_meta s)))
  end.

Definition ShouldSync (est : EndpointSliceTracker) (s : EndpointSlice) : bool :=
  match GenerationsForSliceUnsafe est s with
  | None => true
  | Some gfs => match gfs !! UID (es_meta s) with
                | None => true
                | Some g => g <? Generation (es_meta s)
                end
  end.

(** The first loop of [StaleSlices]: [None] is its early return. *)
Fixpoint provided_loop (gfs : GenerationsBySlice) (slices : list EndpointSlice) (provided : gmap string Z)
    : option (gmap string Z) :=
  match slices with
  | [] => Some provided
  | s :: rest =>
      let uid := UID (es_meta s) in
      let provided := <[uid := Generation (es_meta s)]> provided in
      match gfs !! uid with
      | Some g => if (g =? deletionExpected) || (Generation (es_meta s) <? g) then None
                  else provided_loop gfs rest provided
      | None => provided_loop gfs rest provided
      end
  end.

Section tracker.
Context `{GoRuntime}.

Definition StaleSlices (est : EndpointSliceTracker) (service : Service) (slices : list EndpointSlice) : bool :=
  match generationsByService est !! mkNN (Namespace (svc_meta service)) (Name (svc_meta service)) with
  | None => false
  | Some gfs =>
      match provided_loop gfs slices ∅ with
      | None => true
      | Some provided =>
          existsb (λ '(uid, generation), negb (generation =? deletionExpected)
                                         && bool_decide (provided !! uid = None)) (go_range gfs)
      end
  end.

End tracker.

(** [gfs] is created when the service is not tracked and then written. *)
Definition set_generation (est : EndpointSliceTracker) (s : EndpointSlice) (g : Z) : EndpointSliceTracker :=
  let gfs := default ∅ (GenerationsForSliceUnsafe est s) in
  mkTracker (<[getServiceNN s := <[UID (es_meta s) := g]> gfs]> (generationsByService est)).

Definition Tracker_Update (est : EndpointSliceTracker) (s : EndpointSlice) : EndpointSliceTracker :=
  set_generation est s (Generation (es_meta s)).

Definition ExpectDeletion (est : EndpointSliceTracker) (s : EndpointSlice) : EndpointSliceTracker :=
  set_generation est s deletionExpected.

Definition Tracker_DeleteService (est : EndpointSliceTracker) (namespace name : string) : EndpointSliceTracker :=
  mkTracker (delete (mkNN namespace name) (generationsByService est)).

Definition HandleDeletion (est : EndpointSliceTracker) (s : EndpointSlice) : EndpointSliceTracker * bool :=
  match GenerationsForSliceUnsafe est s with
  | Some gfs =>
      let est' := mkTracker (<[getServiceNN s := delete (UID (es_meta s)) gfs]> (generationsByService est)) in
      match gfs !! UID (es_meta s) with
      | Some g => (est', negb (negb (g =? deletionExpected)))
      | None => (est', true)
      end
  | None => (est, true)
  end.

(** ** The tracker refines a log of the controller's writes

    [TEvent] is a call of the tracker; the abstract state keeps, for every
    service and slice, the last relevant event. *)
Inductive TEvent :=
  | TUpdate (s : EndpointSlice)
  | TExpectDeletion (s : EndpointSlice)
  | THandleDeletion (s : EndpointSlice)
  | TDeleteService (namespace name : string).

Definition tracker_step (est : EndpointSliceTracker) (e : TEvent) : EndpointSliceTracker :=
  match e with
  | TUpdate s => Tracker_Update est s
  | TExpectDeletion s => ExpectDeletion est s
  | THandleDeletion s => fst (HandleDeletion est s)
  | TDeleteService ns n => Tracker_DeleteService est ns n
  end.

Definition tracker_run (est : EndpointSliceTracker) (es : list TEvent) : EndpointSliceTracker :=
  foldl tracker_step est es.

(** What the log says about a slice of a service, newest event first. *)
Fixpoint expected (log : list TEvent) (nn : NamespacedName) (uid : string) : option Z :=
  match log with
  | [] => None
  | e :: older =>
      match e with
      | TUpdate s => if bool_decide (getServiceNN s = nn ∧ UID (es_meta s) = uid)
                     then Some (Generation (es_meta s)) else expected older nn uid
      | TExpectDeletion s => if bool_decide (getServiceNN s = nn ∧ UID (es_meta s) = uid)
                             then Some deletionExpected else expected older nn uid
      | THandleDeletion s => if bool_decide (getServiceNN s = nn ∧ UID (es_meta s) = uid)
                             then None else expected older nn uid
      | TDeleteService ns n => if bool_decide (mkNN ns n = nn) then None else expected older nn uid
      end
  end.

Definition tracked (est : EndpointSliceTracker) (nn : NamespacedName) (uid : string) : option Z :=
  generationsByService est !! nn ≫= (.!! uid).

Lemma tracked_set_generation est s g nn uid :
  tracked (set_generation est s g) nn uid =
  if bool_decide (getServiceNN s = nn ∧ UID (es_meta s) = uid) then Some g else tracked est nn uid.
Proof.
  unfold tracked, set_generation, GenerationsForSliceUnsafe. simpl.
  destruct (decide (getServiceNN s = nn)) as [<-|Hn].
  - rewrite lookup_insert_eq. simpl. destruct (decide (UID (es_meta s) = uid)) as [<-|Hu].
    + by rewrite lookup_insert_eq, bool_decide_true.
    + rewrite lookup_insert_ne, bool_decide_false by naive_solver.
      by destruct (generationsByService est !! getServiceNN s).
  - by rewrite lookup_insert_ne, bool_decide_false by naive_solver.
Qed.

Lemma tracked_step est e nn uid :
  tracked (tracker_step est e) nn uid =
  match e with
  | TUpdate s => if bool_decide (getServiceNN s = nn ∧ UID (es_meta s) = uid)
                 then Some (Generation (es_meta s)) else tracked est nn uid
  | TExpectDeletion s => if bool_decide (getServiceNN s = nn ∧ UID (es_meta s) = uid)
                         then Some deletionExpected else tracked est nn uid
  | THandleDeletion s => if bool_decide (getServiceNN s = nn ∧ UID (es_meta s) = uid)
                         then None else tracked est nn uid
  | TDeleteService ns n => if bool_decide (mkNN ns n = nn) then None else tracked est nn uid
  end.
Proof.
  destruct e as [s|s|s|ns n]; simpl; try apply tracked_set_generation.
  - unfold HandleDeletion, GenerationsForSliceUnsafe, tracked.
    destruct (generationsByService est !! getServiceNN s) as [gfs|] eqn:E.
    + assert (∀ b : bool, fst (mkTracker (<[getServiceNN s:=delete (UID (es_meta s)) gfs]> (generationsByService est)), b)
        = mkTracker (<[getServiceNN s:=delete (UID (es_meta s)) gfs]> (generationsByService est))) as Hfst by done.
      case_match; rewrite Hfst; simpl;
      (destruct (decide (getServiceNN s = nn)) as [<-|Hn];
        [rewrite lookup_insert_eq, E; simpl; destruct (decide (UID (es_meta s) = uid)) as [<-|Hu];
          [by rewrite lookup_delete_eq, bool_decide_true
          |by rewrite lookup_delete_ne, bool_decide_false by naive_solver]
        |by rewrite lookup_insert_ne, bool_decide_false by naive_solver]).
    + simpl. case_bool_decide as Hb; [|done]. destruct Hb as [<- _]. by rewrite E.
  - unfold Tracker_DeleteService, tracked. simpl. case_bool_decide as Hb.
    + subst. by rewrite lookup_delete_eq.
    + by rewrite lookup_delete_ne.
Qed.

Lemma tracker_refines log nn uid :
  tracked (tracker_run NewEndpointSliceTracker (rev log)) nn uid = expected log nn uid.
Proof.
  induction log as [|e log IH]; simpl; [done|].
  unfold tracker_run. rewrite foldl_app. simpl. rewrite tracked_step.
  unfold tracker_run in IH. rewrite IH. by destruct e.
Qed.

Lemma Tracker_Has_tracked est s :
  Tracker_Has est s = bool_decide (is_Some (tracked est (getServiceNN s) (UID (es_meta s)))).
Proof.
  unfold Tracker_Has, GenerationsForSliceUnsafe, tracked. by destruct (_ !! getServiceNN s).
Qed.

Lemma ShouldSync_tracked est s :
  ShouldSync est s = match tracked est (getServiceNN s) (UID (es_meta s)) with
                     | None => true
                     | Some g => g <? Generation (es_meta s)
                     end.
Proof. unfold ShouldSync, GenerationsForSliceUnsafe, tracked. by destruct (_ !! getServiceNN s). Qed.

Lemma HandleDeletion_tracked est s :
  snd (HandleDeletion est s) = match tracked est (getServiceNN s) (UID (es_meta s)) with
                               | None => true
                               | Some g => g =? deletionExpected
                               end.
Proof.
  unfold HandleDeletion, GenerationsForSliceUnsafe, tracked. destruct (_ !! getServiceNN s) as [gfs|]; simpl; [|done].
  destruct (gfs !! _); simpl; [by rewrite negb_involutive|done].
Qed.

(** The three reasons of [StaleSlices]' comment. *)
Definition stale_slice (exp : string → option Z) (s : EndpointSlice) : Prop :=
  ∃ g, exp (UID (es_meta s)) = Some g ∧ (g = deletionExpected ∨ Generation (es_meta s) < g).

Definition missing_slice (exp : string → option Z) (slices : list EndpointSlice) : Prop :=
  ∃ uid g, exp uid = Some g ∧ g ≠ deletionExpected ∧ uid ∉ (λ s, UID (es_meta s)) <$> slices.

Lemma provided_loop_None gfs slices provided :
  provided_loop gfs slices provided = None ↔ Exists (stale_slice (gfs !!.)) slices.
Proof.
  revert provided. induction slices as [|s slices IH]; intros provided; simpl.
  { by rewrite Exists_nil. }
  rewrite Exists_cons. unfold stale_slice at 1. destruct (gfs !! UID (es_meta s)) as [g|].
  - destruct (Z.eqb_spec g deletionExpected); [simpl; naive_solver|].
    destruct (Z.ltb_spec (Generation (es_meta s)) g); simpl; [naive_solver|].
    rewrite IH. split; [naive_solver|]. intros [(?&[= <-]&[?|?])|?]; [done|lia|done].
  - rewrite IH. naive_solver.
Qed.

Lemma provided_loop_Some gfs slices provided provided' :
  provided_loop gfs slices provided = Some provided' →
  ∀ uid, provided' !! uid = None ↔ provided !! uid = None ∧ uid ∉ (λ s, UID (es_meta s)) <$> slices.
Proof.
  revert provided. induction slices as [|s slices IH]; intros provided; simpl.
  { intros [= ->] uid. split; [|naive_solver]. intros; split; [done|apply not_elem_of_nil]. }
  intros Hp uid.
  assert (provided_loop gfs slices (<[UID (es_meta s):=Generation (es_meta s)]> provided) = Some provided') as Hp'.
  { repeat case_match; done. }
  rewrite (IH _ Hp'), not_elem_of_cons, lookup_insert_None. naive_solver.
Qed.

Section stale.
Context `{GoRuntime}.

(** C20: the tracker after any sequence of calls answers [StaleSlices] from the
    last write of every slice: it is true exactly when one of the provided
    slices is older than the last write, or is expected to be deleted, or when
    a slice that was written is missing from the provided ones. *)
Theorem StaleSlices_spec log service slices :
  let exp := expected log (mkNN (Namespace (svc_meta service)) (Name (svc_meta service))) in
  StaleSlices (tracker_run NewEndpointSliceTracker (rev log)) service slices = true ↔
  Exists (stale_slice exp) slices ∨ missing_slice exp slices.
Proof.
  set (nn := mkNN (Namespace (svc_meta service)) (Name (svc_meta service))). intros exp.
  set (est := tracker_run NewEndpointSliceTracker (rev log)).
  assert (∀ uid, exp uid = tracked est nn uid) as Hexp by (intros; symmetry; apply tracker_refines).
  unfold StaleSlices. fold nn. unfold tracked in Hexp.
  destruct (generationsByService est !! nn) as [gfs|]; simpl in Hexp; last first.
  { split; [done|]. intros [(s & _ & g & E & _)%Exists_exists|(u & g & E & _)];
      by rewrite Hexp in E. }
  assert (Exists (stale_slice exp) slices ↔ Exists (stale_slice (gfs !!.)) slices) as ->.
  { split; intros Hs; (eapply Exists_impl; [exact Hs|]);
      intros s (g & E & ?); exists g; [rewrite <- Hexp|rewrite Hexp]; done. }
  rewrite <- (provided_loop_None gfs slices ∅).
  destruct (provided_loop gfs slices ∅) as [p|] eqn:Ep; [|naive_solver].
  pose proof (provided_loop_Some _ _ _ _ Ep) as Hp.
  rewrite existsb_exists. split.
  - intros ([uid g] & Hin%list_elem_of_In%elem_of_go_range & Hb). right.
    apply andb_true_iff in Hb as [Hg Hb%bool_decide_eq_true]. exists uid, g.
    rewrite Hexp. apply Hp in Hb as [_ Hb]. split; [done|]. split; [|done].
    intros ->. done.
  - intros [?|(uid & g & E & Hg & Hn)]; [done|]. exists (uid, g).
    rewrite Hexp in E. split; [by apply list_elem_of_In, elem_of_go_range|].
    rewrite bool_decide_true by (apply Hp; by rewrite lookup_empty).
    rewrite andb_true_r. by apply negb_true_iff, Z.eqb_neq.
Qed.
End stale.

(** ** [TriggerTimeTracker] *)
Record ServiceState := mkServiceState {
  lastServiceTriggerTime : Time; lastPodTriggerTimes : gmap string Time }.
Record TriggerTimeTracker := mkTTT { ServiceStates : gmap NamespacedName ServiceState }.

Definition NewTriggerTimeTracker : TriggerTimeTracker := mkTTT ∅.

Definition getPodTriggerTime (pod : Pod) : Time :=
  match getPodReadyCondition pod with
  | Some c => cond_LastTransitionTime c
  | None => 0
  end.

Definition getServiceTriggerTime (service : Service) : Time := CreationTimestamp (svc_meta service).

Definition min_time (currentMin newValue : Time) : Time :=
  if IsZero currentMin || Before newValue currentMin then newValue else currentMin.

(** One round of the loop over the pods: the times seen and the minimum of
    those that changed. *)
Definition pod_time_step (state : ServiceState) (acc : gmap string Time * Time) (pod : Pod) : gmap string Time * Time :=
  let '(podTriggerTimes, minChanged) := acc in
  let t := getPodTriggerTime pod in
  if IsZero t then acc
  else (<[Name (pod_meta pod) := t]> podTriggerTimes,
        if After t (default 0 (lastPodTriggerTimes state !! Name (pod_meta pod)))
        then min_time minChanged t else minChanged).

Definition ComputeEndpointLastChangeTriggerTime (t : TriggerTimeTracker) (namespace : string) (service : Service)
    (pods : list Pod) : TriggerTimeTracker * Time :=
  let key := mkNN namespace (Name (svc_meta service)) in
  let known := ServiceStates t !! key in
  let state := default (mkServiceState 0 ∅) known in
  let '(podTriggerTimes, minChanged) := foldl (pod_time_step state) (∅, 0) pods in
  let serviceTriggerTime := getServiceTriggerTime service in
  let minChanged := if After serviceTriggerTime (lastServiceTriggerTime state)
                    then min_time minChanged serviceTriggerTime else minChanged in
  let state' := mkServiceState serviceTriggerTime podTriggerTimes in
  (mkTTT (<[key := state']> (ServiceStates t)),
   if bool_decide (is_Some known) then minChanged else CreationTimestamp (svc_meta service)).

Definition TTT_DeleteService (t : TriggerTimeTracker) (namespace name : string) : TriggerTimeTracker :=
  mkTTT (delete (mkNN namespace name) (ServiceStates t)).

(** The trigger times that changed since the last sync. *)
Definition changed_times (state : ServiceState) (service : Service) (pods : list Pod) : list Time :=
  filter (λ t, t ≠ 0) (omap (λ pod,
    let t := getPodTriggerTime pod in
    if After t (default 0 (lastPodTriggerTimes state !! Name (pod_meta pod))) then Some t else None) pods)
  ++ (if After (getServiceTriggerTime service) (lastServiceTriggerTime state)
      then [getServiceTriggerTime service] else []).

(** [t] is the least element of [l], or zero when [l] is empty. *)
Definition least (l : list Time) (t : Time) : Prop :=
  (l = [] ∧ t = 0) ∨ (t ∈ l ∧ Forall (λ c, t ≤ c) l).

Lemma least_snoc l t x :
  Forall (λ c, c ≠ 0) l → least l t → least (l ++ [x]) (min_time t x).
Proof.
  intros Hnz [[-> ->]|[Hin Hall]]; right; unfold min_time.
  - simpl. split; [by left|by repeat constructor].
  - assert (t ≠ 0) as Ht by (rewrite Forall_forall in Hnz; by apply Hnz).
    unfold IsZero, Before. destruct (Z.eqb_spec t 0); [done|]. simpl.
    destruct (Z.ltb_spec x t).
    + split; [set_solver|]. apply Forall_app. split; [|by repeat constructor].
      eapply Forall_impl; [done|]. simpl. lia.
    + split; [set_solver|]. apply Forall_app. split; [done|]. by repeat constructor.
Qed.

Lemma pod_times_least state pods seen l t :
  Forall (λ c, c ≠ 0) l → least l t →
  least (l ++ filter (λ t, t ≠ 0) (omap (λ pod,
    let t := getPodTriggerTime pod in
    if After t (default 0 (lastPodTriggerTimes state !! Name (pod_meta pod))) then Some t else None) pods))
    (snd (foldl (pod_time_step state) (seen, t) pods)).
Proof.
  revert seen l t. induction pods as [|pod pods IH]; intros seen l t Hnz Hl.
  { simpl. by rewrite app_nil_r. }
  simpl. unfold IsZero. destruct (Z.eqb_spec (getPodTriggerTime pod) 0) as [E|E].
  - rewrite E. destruct (After 0 _); [rewrite filter_cons_False by naive_solver|]; by apply IH.
  - destruct (After _ _); [|by apply IH].
    rewrite filter_cons_True by done.
    rewrite (cons_middle (getPodTriggerTime pod)), app_assoc. apply IH.
    + apply Forall_app. by repeat constructor.
    + by apply least_snoc.
Qed.

(** The trigger time of a service that was synced before is the least of
    the trigger times that changed since, and zero (no annotation) when none
    did; a service seen for the first time gets its creation time. *)
Theorem ComputeEndpointLastChangeTriggerTime_spec t namespace service pods :
  let time := snd (ComputeEndpointLastChangeTriggerTime t namespace service pods) in
  match ServiceStates t !! mkNN namespace (Name (svc_meta service)) with
  | Some state => least (changed_times state service pods) time
  | None => time = CreationTimestamp (svc_meta service)
  end.
Proof.
  unfold ComputeEndpointLastChangeTriggerTime. destruct (ServiceStates t !! _) as [state|]; simpl.
  - destruct (foldl (pod_time_step state) (∅, 0) pods) as [seen m] eqn:E. simpl.
    pose proof (pod_times_least state pods ∅ [] 0) as Hp. rewrite E in Hp. simpl in Hp.
    specialize (Hp (Forall_nil_2 _) (or_introl (conj eq_refl eq_refl))).
    unfold changed_times. destruct (After _ (lastServiceTriggerTime state)).
    + apply least_snoc; [|done]. apply Forall_forall. intros x Hx. by apply list_elem_of_filter in Hx as [? _].
    + by rewrite app_nil_r.
  - by destruct (foldl _ _ pods).
Qed.

(** ** [metrics.Cache] *)
Record EfficiencyInfo := mkEff { eff_Endpoints : Z; eff_Slices : Z }.
Record ServicePortCache := mkSPC { spc_items : gmap string EfficiencyInfo }.
Record Cache := mkCache {
  maxEndpointsPerSlice : Z; numEndpoints : Z; numSlicesActual : Z; numSlicesDesired : Z;
  cache : gmap NamespacedName ServicePortCache }.

Definition NewCache (endpointsPerSlice : Z) : Cache := mkCache endpointsPerSlice 0 0 0 ∅.
Definition NewServicePortCache : ServicePortCache := mkSPC ∅.

Definition SPC_Set (spc : ServicePortCache) (pmKey : string) (eInfo : EfficiencyInfo) : ServicePortCache :=
  mkSPC (<[pmKey := eInfo]> (spc_items spc)).

Definition numDesiredSlices (numEndpoints maxEndpointsPerSlice : Z) : Z :=
  if numEndpoints =? 0 then 0
  else if numEndpoints <=? maxEndpointsPerSlice then 1
  else f64_ceil_int (f64_div (f64_of_int numEndpoints) (f64_of_int maxEndpointsPerSlice)).

Example numDesiredSlices_ex :
  numDesiredSlices 0 100 = 0 ∧ numDesiredSlices 100 100 = 1 ∧ numDesiredSlices 101 100 = 2
  ∧ numDesiredSlices 1000 3 = 334 ∧ numDesiredSlices 999 3 = 333.
Proof. vm_compute. repeat split. Qed.

Section cache.
Context `{GoRuntime}.

Definition totals_step (max : Z) (acc : Z * Z * Z) (eInfo : EfficiencyInfo) : Z * Z * Z :=
  let '(actualSlices, desiredSlices, endpoints) := acc in
  (actualSlices + eff_Slices eInfo, desiredSlices + numDesiredSlices (eff_Endpoints eInfo) max,
   endpoints + eff_Endpoints eInfo).

Definition totals (spc : ServicePortCache) (max : Z) : Z * Z * Z :=
  let '(actualSlices, desiredSlices, endpoints) :=
    foldl (totals_step max) (0, 0, 0) (go_range (spc_items spc)).*2 in
  (actualSlices, if desiredSlices =? 0 then 1 else desiredSlices, endpoints).

Definition UpdateServicePortCache (c : Cache) (serviceNN : NamespacedName) (spCache : ServicePortCache) : Cache :=
  let '(prevActualSlices, prevDesiredSlices, prevEndpoints) :=
    match cache c !! serviceNN with
    | Some existing => totals existing (maxEndpointsPerSlice c)
    | None => (0, 0, 0)
    end in
  let '(currActualSlices, currDesiredSlices, currEndpoints) := totals spCache (maxEndpointsPerSlice c) in
  mkCache (maxEndpointsPerSlice c)
    (numEndpoints c + currEndpoints - prevEndpoints)
    (numSlicesActual c + (currActualSlices - prevActualSlices))
    (numSlicesDesired c + (currDesiredSlices - prevDesiredSlices))
    (<[serviceNN := spCache]> (cache c)).

Definition Cache_DeleteService (c : Cache) (serviceNN : NamespacedName) : Cache :=
  match cache c !! serviceNN with
  | Some spCache =>
      let '(actualSlices, desiredSlices, endpoints) := totals spCache (maxEndpointsPerSlice c) in
      mkCache (maxEndpointsPerSlice c) (numEndpoints c - endpoints) (numSlicesActual c - actualSlices)
        (numSlicesDesired c - desiredSlices) (delete serviceNN (cache c))
  | None => c
  end.

(** *** The totals are the sums over the services *)
Inductive CacheOp :=
  | COUpdate (nn : NamespacedName) (spc : ServicePortCache)
  | CODelete (nn : NamespacedName).

Definition cache_step (c : Cache) (op : CacheOp) : Cache :=
  match op with
  | COUpdate nn spc => UpdateServicePortCache c nn spc
  | CODelete nn => Cache_DeleteService c nn
  end.

Definition zsum (f : ServicePortCache → Z) (m : gmap NamespacedName ServicePortCache) : Z :=
  map_fold (λ _ spc acc, f spc + acc) 0 m.

Lemma zsum_insert f m nn spc :
  m !! nn = None → zsum f (<[nn := spc]> m) = f spc + zsum f m.
Proof. intros Hn. unfold zsum. rewrite map_fold_insert_L; [done|intros; lia|done]. Qed.

Lemma zsum_delete f m nn spc :
  m !! nn = Some spc → zsum f m = f spc + zsum f (delete nn m).
Proof.
  intros Hn. rewrite <- (insert_delete_id m nn spc) at 1 by done.
  apply zsum_insert, lookup_delete_eq.
Qed.

Lemma zsum_replace f m nn spc :
  zsum f (<[nn := spc]> m) = zsum f m + f spc - default 0 (f <$> m !! nn).
Proof.
  destruct (m !! nn) as [old|] eqn:E; simpl.
  - rewrite <- insert_delete_eq, zsum_insert by apply lookup_delete_eq.
    rewrite (zsum_delete f m nn old) by done. lia.
  - rewrite zsum_insert by done. lia.
Qed.

Definition cache_inv (c : Cache) : Prop :=
  numSlicesActual c = zsum (λ spc, fst (fst (totals spc (maxEndpointsPerSlice c)))) (cache c) ∧
  numSlicesDesired c = zsum (λ spc, snd (fst (totals spc (maxEndpointsPerSlice c)))) (cache c) ∧
  numEndpoints c = zsum (λ spc, snd (totals spc (maxEndpointsPerSlice c))) (cache c).

Lemma cache_step_inv c op : cache_inv c → cache_inv (cache_step c op).
Proof.
  intros (Ha & Hd & He). destruct op as [nn spc|nn]; simpl.
  - unfold UpdateServicePortCache, cache_inv.
    destruct (cache c !! nn) as [old|] eqn:E;
      [destruct (totals old _) as [[oa od] oe] eqn:Eo|];
      destruct (totals spc _) as [[a d] e] eqn:Es; simpl;
      rewrite !zsum_replace, E; simpl; rewrite ?Eo, ?Es; simpl; lia.
  - unfold Cache_DeleteService, cache_inv. destruct (cache c !! nn) as [old|] eqn:E; [|done].
    rewrite (zsum_delete _ _ _ _ E) in Ha. rewrite (zsum_delete _ _ _ _ E) in Hd. rewrite (zsum_delete _ _ _ _ E) in He.
    destruct (totals old _) as [[oa od] oe] eqn:Eo; simpl in *. lia.
Qed.

(** Whatever services are synced and deleted, in whatever order, the three
    totals exported as metrics are the sums of the totals of the services in
    the cache. *)
Theorem Cache_totals_correct max ops : cache_inv (foldl cache_step (NewCache max) ops).
Proof.
  assert (∀ c, cache_inv c → cache_inv (foldl cache_step c ops)) as Hrun.
  { induction ops as [|op ops IH]; [done|]. intros c Hc. simpl. by apply IH, cache_step_inv. }
  by apply Hrun.
Qed.
End cache.
