(* ===== verification/SliceUtils.v ===== *)
(** * Building endpoint slices

    [pkg/controller/endpointslice/utils.go]: the endpoint of a pod, the ports
    of a service on a pod, the labels and metadata of a slice and the choice of
    a slice to fill. *)
From Stdlib Require Import Ascii.
From stdpp Require Import prelude gmap strings list.
From S2P Require Import Prelude NetAddr K8s EpUtil.
Open Scope Z_scope.

(** Functions of the Kubernetes libraries.  [NewControllerRef] is
    [metav1.NewControllerRef]: the reference it builds names its argument. *)
Class SliceLib := {
  NameIsDNSSubdomain : string → bool → list string;
  NewControllerRef : ObjectMeta → string → string → OwnerReference;
  NewControllerRef_UID : ∀ m v k, or_UID (NewControllerRef m v k) = UID m;
  NewControllerRef_Kind : ∀ m v k, or_Kind (NewControllerRef m v k) = k;
  NewControllerRef_APIVersion : ∀ m v k, or_APIVersion (NewControllerRef m v k) = v;
  IsIPv6String : string → bool;
  FormatRFC3339Nano : Time → string;
  upstream_IsPodReady : Pod → bool;
  upstream_ShouldSetHostname : Pod → Service → bool
}.

Definition FleetboardParallelIP : string := "router.fleetboard.io/parallel_ip".

Definition GetDedicatedCNIIP (pod : Pod) : outcome IP :=
  match mget (Annotations (pod_meta pod)) FleetboardParallelIP with
  | Some val => if (0 <? String.length val)%nat then Ret (ParseIP val) else Err "there is no dedicated ip"
  | None => Err "there is no dedicated ip"
  end.

Definition getEndpointAddresses (pod : Pod) : list string :=
  match GetDedicatedCNIIP pod with
  | Ret ip => [IP_String ip]
  | _ => []
  end.

(** [findPort]: the scan of the containers' ports for a named target port. *)
Fixpoint find_port_in (ports : list ContainerPort) (name proto : string) : option Z :=
  match ports with
  | [] => None
  | port :: rest =>
      if bool_decide (cp_Name port = name) && bool_decide (cp_Protocol port = proto)
      then Some (cp_ContainerPort port) else find_port_in rest name proto
  end.

Fixpoint find_port_containers (cs : list Container) (name proto : string) : option Z :=
  match cs with
  | [] => None
  | c :: rest => match find_port_in (c_Ports c) name proto with
                 | Some p => Some p
                 | None => find_port_containers rest name proto
                 end
  end.

Definition findPort (pod : Pod) (svcPort : ServicePort) : outcome Z :=
  match sp_TargetPort svcPort with
  | StrVal name => match find_port_containers (pod_Containers pod) name (sp_Protocol svcPort) with
                   | Some p => Ret p
                   | None => Err ("no suitable port for manifest: " +:+ UID (pod_meta pod))
                   end
  | IntVal z => Ret z
  end.

Fixpoint endpoint_ports_loop (pod : Pod) (ports : list ServicePort) : list EndpointPort :=
  match ports with
  | [] => []
  | servicePort :: rest =>
      match findPort pod servicePort with
      | Ret portNum =>
          mkPort (Some (sp_Name servicePort)) (Some (sp_Protocol servicePort)) (Some (wrap32 portNum))
            (sp_AppProtocol servicePort) :: endpoint_ports_loop pod rest
      | _ => endpoint_ports_loop pod rest
      end
  end.

Definition getEndpointPorts (service : Service) (pod : Pod) : list EndpointPort :=
  if (length (svc_Ports service) =? 0)%nat && bool_decide (svc_ClusterIP service = ClusterIPNone) then []
  else endpoint_ports_loop pod (svc_Ports service).

Definition ownedBy (s : EndpointSlice) (svc : Service) : bool :=
  existsb (λ o, bool_decide (or_UID o = UID (svc_meta svc)) && bool_decide (or_Kind o = "Service")
                && bool_decide (or_APIVersion o = "v1")) (OwnerReferences (es_meta s)).

(** The loop of [getSliceToFill]: [closestDiff] and [closestSlice] so far. *)
Fixpoint slice_to_fill_loop (slices : list EndpointSlice) (num max closestDiff : Z)
    (closestSlice : option EndpointSlice) : option EndpointSlice :=
  match slices with
  | [] => closestSlice
  | s :: rest =>
      let currentDiff := max - (num + Z.of_nat (length (es_Endpoints s))) in
      if (0 <=? currentDiff) && (currentDiff <? closestDiff) then
        if currentDiff =? 0 then Some s
        else slice_to_fill_loop rest num max currentDiff (Some s)
      else slice_to_fill_loop rest num max closestDiff closestSlice
  end.

Definition getSliceToFill (slices : list EndpointSlice) (numEndpoints maxEndpoints : Z) : option EndpointSlice :=
  slice_to_fill_loop slices numEndpoints maxEndpoints maxEndpoints None.

Definition ServiceControllerKey (s : option EndpointSlice) : outcome string :=
  match s with
  | None => Err "nil EndpointSlice passed to ServiceControllerKey()"
  | Some s =>
      match mget (Labels (es_meta s)) LabelServiceName with
      | Some serviceName =>
          if bool_decide (serviceName = EmptyString)
          then Err ("EndpointSlice missing " +:+ LabelServiceName +:+ " label")
          else Ret (Namespace (es_meta s) +:+ "/" +:+ serviceName)
      | None => Err ("EndpointSlice missing " +:+ LabelServiceName +:+ " label")
      end
  end.

Definition isReservedLabelKey (label : string) : bool :=
  bool_decide (label = LabelServiceName) || bool_decide (label = LabelManagedBy)
  || bool_decide (label = IsHeadlessService).

(** The labels of a map without the reserved ones. *)
Definition copyLabels (m : GoMap) : gmap string string :=
  filter (λ kv, isReservedLabelKey (fst kv) = false) (mentries m).

Definition setEndpointSliceLabels (epSlice : EndpointSlice) (service : Service) (controllerName : string)
    : gmap string string * bool :=
  let epLabels := copyLabels (Labels (es_meta epSlice)) in
  let svcLabels := copyLabels (Labels (svc_meta service)) in
  let updated := bool_decide (epLabels ≠ svcLabels) in
  (<[IsHeadlessService := "true"]> (<[LabelManagedBy := controllerName]>
     (<[LabelServiceName := Name (svc_meta service)]> svcLabels)), updated).

(** [endpointSliceEndpointLen.Less] *)
Definition endpointLen_Less (s t : EndpointSlice) : bool :=
  (length (es_Endpoints t) <? length (es_Endpoints s))%nat.

Definition AddressTypeIPv4 : string := "IPv4".
Definition AddressTypeIPv6 : string := "IPv6".

Definition unchangedSlices (existingSlices slicesToUpdate slicesToDelete : list EndpointSlice) : list EndpointSlice :=
  let changedSliceNames : gset string :=
    list_to_set (es_Name <$> slicesToUpdate) ∪ list_to_set (es_Name <$> slicesToDelete) in
  filter (λ s, es_Name s ∉ changedSliceNames) existingSlices.

Definition hintsEnabled (annotations : GoMap) : bool :=
  match (match mget annotations DeprecatedAnnotationTopologyAwareHints with
         | Some val => Some val
         | None => mget annotations AnnotationTopologyMode
         end) with
  | Some val => bool_decide (val = "Auto") || bool_decide (val = "auto")
  | None => false
  end.

(** ** Definitions that call the libraries *)
Section slices.
Context `{SliceLib}.

Definition podToEndpoint (pod : Pod) (node : option Node) (service : Service) : Endpoint :=
  let serving := upstream_IsPodReady pod in
  let terminating := bool_decide (is_Some (DeletionTimestamp (pod_meta pod))) in
  let ready := svc_PublishNotReadyAddresses service || (serving && negb terminating) in
  mkEp (getEndpointAddresses pod) (Some ready) (Some serving) (Some terminating)
    (if upstream_ShouldSetHostname pod service then Some (pod_Hostname pod) else None)
    (Some (mkRef "Pod" (Namespace (pod_meta pod)) (Name (pod_meta pod)) (UID (pod_meta pod))
             EmptyString EmptyString EmptyString))
    (if bool_decide (pod_NodeName pod = EmptyString) then None else Some (pod_NodeName pod))
    (match node with
     | Some n => let zone := mstr (Labels (node_meta n)) LabelTopologyZone in
                 if bool_decide (zone = EmptyString) then None else Some zone
     | None => None
     end)
    None.

Definition getEndpointSlicePrefix (serviceName : string) : string :=
  let prefix := serviceName +:+ "-" in
  if negb (length (NameIsDNSSubdomain prefix true) =? 0)%nat then serviceName else prefix.

Record endpointMeta := mkEndpointMeta { em_ports : list EndpointPort; em_addressType : string }.

Definition newEndpointSlice (service : Service) (em : endpointMeta) (controllerName : string) : EndpointSlice :=
  let ownerRef := NewControllerRef (svc_meta service) "v1" "Service" in
  let epSlice := mkSlice
    (mkMeta EmptyString (getEndpointSlicePrefix (Name (svc_meta service))) (Namespace (svc_meta service))
       EmptyString EmptyString 0 0 None (Some ∅) None [ownerRef] [])
    (em_addressType em) [] (em_ports em) in
  let '(labels, _) := setEndpointSliceLabels epSlice service controllerName in
  set_meta (set_Labels (Some (<[IsHeadlessService := "true"]> labels))) epSlice.

Definition addTriggerTimeAnnotation (s : EndpointSlice) (triggerTime : Time) : EndpointSlice :=
  let annotations := mentries (Annotations (es_meta s)) in
  set_meta (set_Annotations (Some
    (if negb (IsZero triggerTime)
     then <[EndpointsLastChangeTriggerTime := FormatRFC3339Nano triggerTime]> annotations
     else delete EndpointsLastChangeTriggerTime annotations))) s.

Definition getAddressTypesForService (service : Service) : gset string :=
  let supported : gset string := foldl (λ acc family,
    let acc := if bool_decide (family = "IPv4") then {[AddressTypeIPv4]} ∪ acc else acc in
    if bool_decide (family = "IPv6") then {[AddressTypeIPv6]} ∪ acc else acc) ∅ (svc_IPFamilies service) in
  if (0 <? size supported)%nat then supported
  else if (0 <? String.length (svc_ClusterIP service))%nat && bool_decide (svc_ClusterIP service ≠ ClusterIPNone)
  then {[ if IsIPv6String (svc_ClusterIP service) then AddressTypeIPv6 else AddressTypeIPv4 ]}
  else {[AddressTypeIPv4; AddressTypeIPv6]}.

(** ** Lemmas *)

(** The slice found by the loop either was there before or is one of the list
    that fits, and no slice of the list fits more tightly. *)
Definition fits (num max : Z) (s : EndpointSlice) : Prop := num + Z.of_nat (length (es_Endpoints s)) ≤ max.
Definition slack (num max : Z) (s : EndpointSlice) : Z := max - (num + Z.of_nat (length (es_Endpoints s))).

Lemma slice_to_fill_loop_spec slices num max cd cs :
  (∀ s, cs = Some s → slack num max s = cd ∧ 0 ≤ cd) →
  match slice_to_fill_loop slices num max cd cs with
  | Some s => (Some s = cs ∨ s ∈ slices) ∧ 0 ≤ slack num max s ∧ (slack num max s ≤ cd ∨ cs = None) ∧
              (cs = None → slack num max s < cd) ∧
              Forall (λ t, 0 ≤ slack num max t → slack num max s ≤ slack num max t) slices
  | None => cs = None ∧ Forall (λ t, ¬ (0 ≤ slack num max t < cd)) slices
  end.
Proof.
  revert cd cs. induction slices as [|s rest IH]; intros cd cs Hcs; simpl.
  { destruct cs as [s|]; [|done]. destruct (Hcs s eq_refl) as [-> ?]. split_and!; [by left|lia|left; lia|done|constructor]. }
  fold (slack num max s).
  destruct (Z.leb_spec 0 (slack num max s)) as [H0|H0]; simpl.
  - destruct (Z.ltb_spec (slack num max s) cd) as [H1|H1].
    + destruct (Z.eqb_spec (slack num max s) 0) as [H2|H2].
      * split_and!; [right; by left|lia|left; lia|by intros|]. constructor; [lia|]. apply Forall_true. lia.
      * specialize (IH (slack num max s) (Some s)). case_match.
        -- destruct IH as (Hin & Hp & Hle & _ & Hall); [naive_solver|].
           destruct Hle as [Hle|]; [|done]. split_and!; [|done|left; lia|intros; lia|constructor; [intros; lia|done]].
           destruct Hin as [[= ->]|?]; right; [by left|by right].
        -- destruct IH as [? _]; [naive_solver|done].
    + specialize (IH cd cs Hcs). case_match.
      * destruct IH as (Hin & Hp & Hle & Hlt & Hall). split_and!; [|done..|].
        { destruct Hin; [by left|right; by right]. }
        constructor; [|done]. intros _. destruct cs as [c|]; [|specialize (Hlt eq_refl); lia].
        destruct Hle as [?|?]; [lia|done].
      * destruct IH as [-> Hall]. split; [done|]. constructor; [lia|done].
  - specialize (IH cd cs Hcs). case_match.
    + destruct IH as (Hin & Hp & Hle & Hlt & Hall). split_and!; [|done..|].
      { destruct Hin; [by left|right; by right]. } constructor; [lia|done].
    + destruct IH as [-> Hall]. split; [done|]. constructor; [lia|done].
Qed.

(** [getSliceToFill] is a best fit: the slice it returns is one of those
    given, has room for the endpoints, and none that has room would be left
    with less; it returns none only when no slice fits, or only an empty one
    would (for which a new slice serves as well). *)
Theorem getSliceToFill_best_fit slices num max :
  0 ≤ num →
  match getSliceToFill slices num max with
  | Some s => s ∈ slices ∧ fits num max s ∧
              Forall (λ t, fits num max t → (length (es_Endpoints t) ≤ length (es_Endpoints s))%nat) slices
  | None => Forall (λ t, fits num max t → num = 0 ∧ es_Endpoints t = []) slices
  end.
Proof.
  intros Hn. unfold getSliceToFill.
  pose proof (slice_to_fill_loop_spec slices num max max None) as Hs. case_match.
  - destruct Hs as (Hin & Hp & _ & _ & Hall); [done|]. destruct Hin as [|Hin]; [done|].
    unfold fits, slack in *. split_and!; [done|lia|]. eapply Forall_impl; [exact Hall|]. simpl. lia.
  - destruct Hs as [_ Hall]; [done|]. eapply Forall_impl; [exact Hall|].
    intros t Ht Hf. unfold fits, slack in *. destruct (es_Endpoints t); simpl in *; [|lia]. split; [lia|done].
Qed.

Lemma newEndpointSlice_ownedBy service em c : ownedBy (newEndpointSlice service em c) service = true.
Proof.
  unfold ownedBy. simpl. rewrite NewControllerRef_UID, NewControllerRef_Kind, NewControllerRef_APIVersion.
  by rewrite !bool_decide_true.
Qed.

Lemma copyLabels_reserved (m : gmap string string) k v :
  isReservedLabelKey k = true → copyLabels (Some (<[k := v]> m)) = copyLabels (Some m).
Proof.
  intros Hk. unfold copyLabels. simpl. apply map_eq. intros j.
  rewrite !map_lookup_filter. destruct (decide (k = j)) as [->|Hj].
  - rewrite lookup_insert_eq. simpl.
    destruct (m !! j); simpl; repeat case_guard; simpl in *; congruence.
  - by rewrite lookup_insert_ne.
Qed.

Lemma copyLabels_idemp m : copyLabels (Some (copyLabels m)) = copyLabels m.
Proof.
  unfold copyLabels. simpl. apply map_filter_id. intros k v [_ Hk]%map_lookup_filter_Some. done.
Qed.

(** The labels a slice is given are the ones it is expected to have. *)
Lemma setEndpointSliceLabels_stable s service c :
  snd (setEndpointSliceLabels
    (set_meta (set_Labels (Some (fst (setEndpointSliceLabels s service c)))) s) service c) = false.
Proof.
  simpl. rewrite !copyLabels_reserved by done. rewrite copyLabels_idemp.
  apply bool_decide_false. intros Hn. by apply Hn.
Qed.

End slices.

(** ** Witness data *)
Program Definition demo_slicelib : SliceLib := {|
  NameIsDNSSubdomain := λ _ _, [];
  NewControllerRef := λ m v k, mkOwner v k (Name m) (UID m) (Some true) (Some true);
  IsIPv6String := λ s, has_char ":"%char s;
  FormatRFC3339Nano := λ t, Itoa t;
  upstream_IsPodReady := IsPodReady;
  upstream_ShouldSetHostname := ShouldSetHostname
|}.
Next Obligation. done. Qed.
Next Obligation. done. Qed.
Next Obligation. done. Qed.

Definition demo_ep (addr pod : string) : Endpoint :=
  mkEp [addr] (Some true) (Some true) (Some false) None
    (Some (mkRef "Pod" "ns" pod pod EmptyString EmptyString EmptyString)) (Some "n1") (Some "z1") None.

Definition demo_slice (name : string) (eps : list Endpoint) : EndpointSlice :=
  mkSlice (mkMeta name EmptyString "ns" name "1" 1 0 None
    (Some {[LabelServiceName := "a"; LabelManagedBy := "fleetboard"; IsHeadlessService := "true"]}) None
    [mkOwner "v1" "Service" "a" "a" None None] [])
    AddressTypeIPv4 eps [].

Lemma getSliceToFill_best_fit_witness :
  getSliceToFill [demo_slice "s1" []; demo_slice "s2" [demo_ep "10.0.0.1" "p1"]] 2 3
    = Some (demo_slice "s2" [demo_ep "10.0.0.1" "p1"]) ∧
  fits 2 3 (demo_slice "s2" [demo_ep "10.0.0.1" "p1"]).
Proof.
  split; [vm_compute; reflexivity|].
  pose proof (getSliceToFill_best_fit [demo_slice "s1" []; demo_slice "s2" [demo_ep "10.0.0.1" "p1"]] 2 3
    ltac:(lia)) as (_ & Hf & _). exact Hf.
Defined.
