(* ===== verification/Topology.v ===== *)
(** * Topology aware hints

    [pkg/controller/endpointslice/topologycache]: the distribution of CPU over
    zones ([topologycache.go]), the slices of a service being reconciled
    ([sliceinfo.go]) and the assignment of zone hints to endpoints
    ([utils.go]).  Quantities of CPU are integers; [MilliValue] is the
    conversion of [resource.Quantity].  Slices that are going to be written are
    private copies, so the in-place updates of their endpoints are updates of
    the lists. *)
From stdpp Require Import prelude gmap strings list.
From S2P Require Import Prelude Float64 NetAddr K8s EpUtil.
Open Scope Z_scope.

Class QuantityLib := { MilliValue : Z → Z }.

Definition overloadThreshold : float64 := f64_0_2.

(** ** State *)
Abbreviation EndpointZoneInfo := (gmap string Z).

(** [cpuByZone] and [cpuRatiosByZone] are nil when the nodes do not tell. *)
Record TopologyCache := mkTopo {
  sufficientNodeInfo : bool;
  cpuByZone : option (gmap string Z);
  cpuRatiosByZone : option (gmap string float64);
  endpointsByService : gmap string (gmap string EndpointZoneInfo);
  hintsPopulatedByService : gset string }.

Record allocation := mkAlloc { al_minimum : Z; al_maximum : Z; al_desired : float64 }.
Record SliceInfo := mkSI {
  si_ServiceKey : string; si_AddressType : string;
  si_ToCreate : list EndpointSlice; si_ToUpdate : list EndpointSlice; si_Unchanged : list EndpointSlice }.
Record EventBuilder := mkEvent { ev_EventType : string; ev_Reason : string; ev_Message : string }.

Definition NewTopologyCache : TopologyCache := mkTopo false (Some ∅) (Some ∅) ∅ ∅.

Definition NoZoneSpecified : string := "One or more endpoints do not have a zone specified".
Definition NoAllocatedHintsForZones : string := "No hints allocated for zones".
Definition TopologyAwareHintsEnabled : string := "Topology Aware Hints has been enabled".
Definition TopologyAwareHintsDisabled : string := "Topology Aware Hints has been disabled".
Definition InsufficientNodeInfo : string :=
  "Insufficient Node information: allocatable CPU or zone not specified on one or more nodes".
Definition NodesReadyInOneZoneOnly : string := "Nodes only ready in one zone".
Definition InsufficientNumberOfEndpoints : string := "Insufficient number of endpoints".
Definition MinAllocationExceedsOverloadThreshold : string :=
  "Unable to allocate minimum required endpoints to each zone without exceeding overload threshold".

Definition FormatWithAddressType (s addressType : string) : string :=
  s +:+ ", addressType: " +:+ addressType.

Definition disabledEvent (msg : string) : EventBuilder := mkEvent "Warning" "TopologyAwareHintsDisabled" msg.

(** ** Endpoints and nodes *)
Definition EndpointReady (e : Endpoint) : bool := match Ready e with Some b => b | None => false end.

Definition numReadyEndpoints (l : list Endpoint) : Z :=
  foldl (λ total ep, match Ready ep with Some true => total + 1 | _ => total end) 0 l.

Fixpoint nodeReadyIn (cs : list Condition) : bool :=
  match cs with
  | [] => false
  | c :: rest => if bool_decide (cond_Type c = "Ready") then bool_decide (cond_Status c = "True") else nodeReadyIn rest
  end.
Definition isNodeReady (node : Node) : bool := nodeReadyIn (node_Conditions node).

Definition hasExcludedLabels (labels : GoMap) : bool :=
  if (size (mentries labels) =? 0)%nat then false
  else bool_decide (is_Some (mget labels "node-role.kubernetes.io/control-plane"))
       || bool_decide (is_Some (mget labels "node-role.kubernetes.io/master")).

(** ** Removing hints *)
Definition clear_hints (s : EndpointSlice) : EndpointSlice :=
  set_Endpoints (set_Hints None <$> es_Endpoints s) s.

Definition has_hints (s : EndpointSlice) : bool :=
  existsb (λ e, bool_decide (is_Some (Hints e))) (es_Endpoints s).

(** The loop over the unchanged slices: those with hints move to the updates
    without them. *)
Fixpoint remove_unchanged (unchanged toUpdate kept : list EndpointSlice) : list EndpointSlice * list EndpointSlice :=
  match unchanged with
  | [] => (toUpdate, kept)
  | s :: rest => if has_hints s then remove_unchanged rest (toUpdate ++ [clear_hints s]) kept
                 else remove_unchanged rest toUpdate (kept ++ [s])
  end.

Definition RemoveHintsFromSlices (si : SliceInfo) : SliceInfo :=
  let '(toUpdate, unchanged) :=
    remove_unchanged (si_Unchanged si) (clear_hints <$> si_ToUpdate si) [] in
  mkSI (si_ServiceKey si) (si_AddressType si) (clear_hints <$> si_ToCreate si) toUpdate unchanged.

(** ** Reading hints *)

(** The hints of a list of zones; [None] when one of them has no allocation. *)
Fixpoint count_zones (zones : list string) (allocations : gmap string allocation) (hintsByZone : gmap string Z)
    : option (gmap string Z) :=
  match zones with
  | [] => Some hintsByZone
  | zone :: rest =>
      match allocations !! zone with
      | None => None
      | Some _ => count_zones rest allocations (<[zone := default 0 (hintsByZone !! zone) + 1]> hintsByZone)
      end
  end.

Fixpoint count_hints (eps : list Endpoint) (allocations : gmap string allocation) (hintsByZone : gmap string Z)
    : option (gmap string Z) :=
  match eps with
  | [] => Some hintsByZone
  | ep :: rest =>
      if negb (EndpointReady ep) then count_hints rest allocations hintsByZone
      else match Hints ep with
           | None | Some [] => None
           | Some zones => h ← count_zones zones allocations hintsByZone; count_hints rest allocations h
           end
  end.

Section topology.
Context `{GoRuntime} `{QuantityLib}.

Definition getHintsByZone (slice : EndpointSlice) (allocatedHintsByZone : EndpointZoneInfo)
    (allocations : gmap string allocation) : option (gmap string Z) :=
  hintsByZone ← count_hints (es_Endpoints slice) allocations ∅;
  if existsb (λ '(zone, numHints),
       match allocations !! zone with
       | None => true
       | Some a => al_maximum a <? numHints + default 0 (allocatedHintsByZone !! zone)
       end) (go_range hintsByZone)
  then None else Some hintsByZone.

Definition add_counts (m : EndpointZoneInfo) (d : list (string * Z)) : EndpointZoneInfo :=
  foldl (λ m '(zone, n), <[zone := default 0 (m !! zone) + n]> m) m d.

(** [getTotalReadyEndpoints] *)
Definition getTotalReadyEndpoints (si : SliceInfo) : Z :=
  let count := foldl (λ n s, n + numReadyEndpoints (es_Endpoints s)) in
  count (count (count 0 (si_ToCreate si)) (si_ToUpdate si)) (si_Unchanged si).

Fixpoint allocated_loop (unchanged : list EndpointSlice) (allocations : gmap string allocation)
    (allocated : EndpointZoneInfo) (toUpdate kept : list EndpointSlice)
    : EndpointZoneInfo * list EndpointSlice * list EndpointSlice :=
  match unchanged with
  | [] => (allocated, toUpdate, kept)
  | slice :: rest =>
      match getHintsByZone slice allocated allocations with
      | None => allocated_loop rest allocations allocated (toUpdate ++ [slice]) kept
      | Some hintsByZone =>
          allocated_loop rest allocations (add_counts allocated (go_range hintsByZone)) toUpdate (kept ++ [slice])
      end
  end.

Definition getAllocatedHintsByZone (si : SliceInfo) (allocations : gmap string allocation)
    : EndpointZoneInfo * SliceInfo :=
  let '(allocated, toUpdate, kept) := allocated_loop (si_Unchanged si) allocations ∅ (si_ToUpdate si) [] in
  (allocated, mkSI (si_ServiceKey si) (si_AddressType si) (si_ToCreate si) toUpdate kept).

(** ** Allocation of endpoints to zones *)
Fixpoint alloc_loop (zones : list (string * float64)) (numEndpoints remaining minTotal : Z)
    (allocations : gmap string allocation) : option (Z * gmap string allocation) :=
  match zones with
  | [] => Some (minTotal, allocations)
  | (zone, ratio) :: rest =>
      let desired := f64_mul ratio (f64_of_int numEndpoints) in
      let minimum := f64_ceil_int (f64_mul desired (f64_div f64_one (f64_add f64_one overloadThreshold))) in
      let allocations := <[zone := mkAlloc minimum 0 (f64_max desired (f64_of_int minimum))]> allocations in
      let remaining := remaining - minimum in
      if remaining <? 0 then None
      else alloc_loop rest numEndpoints remaining (minTotal + minimum) allocations
  end.

Definition endpointsAndZones (msg : string) (numEndpoints : Z) (zones : nat) : string :=
  msg +:+ " (" +:+ Itoa numEndpoints +:+ " endpoints, " +:+ Itoa (Z.of_nat zones) +:+ " zones)".

Definition getAllocations (t : TopologyCache) (numEndpoints : Z) : gmap string allocation + EventBuilder :=
  match cpuRatiosByZone t with
  | None => inr (disabledEvent InsufficientNodeInfo)
  | Some ratios =>
      if (size ratios <? 2)%nat then inr (disabledEvent NodesReadyInOneZoneOnly)
      else if numEndpoints <? Z.of_nat (size ratios) then
        inr (disabledEvent (endpointsAndZones InsufficientNumberOfEndpoints numEndpoints (size ratios)))
      else match alloc_loop (go_range ratios) numEndpoints numEndpoints 0 ∅ with
           | None => inr (disabledEvent
               (endpointsAndZones MinAllocationExceedsOverloadThreshold numEndpoints (size ratios)))
           | Some (minTotal, allocations) =>
               inl ((λ a, mkAlloc (al_minimum a) (al_minimum a + numEndpoints - minTotal) (al_desired a)) <$> allocations)
           end
  end.

(** ** Redistribution *)
Definition getMost (zones : gmap string float64) : string * float64 :=
  foldl (λ '(zone, num) '(z, n), if f64_lt num n then (z, n) else (zone, num)) (EmptyString, f64_zero) (go_range zones).

(** The zones that have too many and too few hints, as floats. *)
Definition surplus_step (allocated : EndpointZoneInfo) (acc : gmap string float64 * gmap string float64)
    (za : string * allocation) : gmap string float64 * gmap string float64 :=
  let '(giving, receiving) := acc in
  let '(zone, a) := za in
  let hints := f64_of_int (default 0 (allocated !! zone)) in
  let target := al_desired a in
  if f64_lt target hints then (<[zone := f64_sub hints target]> giving, receiving)
  else if f64_lt hints target then (giving, <[zone := f64_sub target hints]> receiving)
  else acc.

Fixpoint match_loop (fuel : nat) (givingDesired receivingDesired : gmap string float64)
    (givingZones receivingZones : gmap string Z) : outcome (gmap string Z * gmap string Z) :=
  match fuel with
  | O => Spin
  | S fuel =>
      let '(givingZone, numToGive) := getMost givingDesired in
      let '(receivingZone, numToReceive) := getMost receivingDesired in
      if bool_decide (givingZone = EmptyString) || bool_decide (receivingZone = EmptyString)
         || (f64_lt numToGive f64_one && f64_lt numToReceive f64_one)
         || f64_lt numToGive f64_half || f64_lt numToReceive f64_half
      then Ret (givingZones, receivingZones)
      else
        let dec m z := <[z := f64_sub (default f64_zero (m !! z)) f64_one]> m in
        let inc (m : gmap string Z) z := <[z := default 0 (m !! z) + 1]> m in
        match_loop fuel (dec givingDesired givingZone) (dec receivingDesired receivingZone)
          (inc givingZones givingZone) (inc receivingZones receivingZone)
  end.

Definition getGivingAndReceivingZones (fuel : nat) (allocations : gmap string allocation)
    (allocated : EndpointZoneInfo) : outcome (gmap string Z * gmap string Z) :=
  let '(giving, receiving) := foldl (surplus_step allocated) (∅, ∅) (go_range allocations) in
  match_loop fuel giving receiving ∅ ∅.

(** State of [redistributeHints]: zones left to give, zones left to receive,
    changes made. *)
Definition redis : Type := gmap string Z * gmap string Z * gmap string Z.

Definition take_one (m : gmap string Z) (z : string) (n : Z) : gmap string Z :=
  if n =? 1 then delete z m else <[z := default 0 (m !! z) - 1]> m.
Definition bump (m : gmap string Z) (z : string) (d : Z) : gmap string Z :=
  <[z := default 0 (m !! z) + d]> m.

(** The zone of an endpoint, when it is set. *)
Definition ep_zone (e : Endpoint) : option string :=
  match Zone e with
  | Some z => if bool_decide (z = EmptyString) then None else Some z
  | None => None
  end.

(** One endpoint.  Once a map is empty it stays empty, so the early return of
    the loop leaves every later endpoint as it is. *)
Definition redistribute_endpoint (st : redis) (e : Endpoint) : redis * Endpoint :=
  let '(giving, receiving, redistributions) := st in
  if negb (EndpointReady e) then (st, e)
  else if (size giving =? 0)%nat || (size receiving =? 0)%nat then (st, e)
  else match ep_zone e with
       | None => (st, e)
       | Some givingZone =>
           match giving !! givingZone with
           | Some numToGive =>
               if 0 <? numToGive then
                 match list_find (λ zn : string * Z, 0 < snd zn) (go_range receiving) with
                 | Some (_, (receivingZone, numToReceive)) =>
                     ((take_one giving givingZone numToGive, take_one receiving receivingZone numToReceive,
                       bump (bump redistributions receivingZone 1) givingZone (-1)),
                      set_Hints (Some [receivingZone]) e)
                 | None => (st, e)
                 end
               else (st, e)
           | None => (st, e)
           end
       end.

Fixpoint redistribute_endpoints (st : redis) (eps : list Endpoint) : redis * list Endpoint :=
  match eps with
  | [] => (st, [])
  | e :: rest => let '(st, e') := redistribute_endpoint st e in
                 let '(st, rest') := redistribute_endpoints st rest in (st, e' :: rest')
  end.

Fixpoint redistribute_slices (st : redis) (slices : list EndpointSlice) : redis * list EndpointSlice :=
  match slices with
  | [] => (st, [])
  | s :: rest => let '(st, eps) := redistribute_endpoints st (es_Endpoints s) in
                 let '(st, rest') := redistribute_slices st rest in (st, set_Endpoints eps s :: rest')
  end.

(** [redistributeHints]: the changes and the slices. *)
Definition redistributeHints (slices : list EndpointSlice) (givingZones receivingZones : gmap string Z)
    : gmap string Z * list EndpointSlice :=
  let '((_, _, redistributions), slices) := redistribute_slices (givingZones, receivingZones, ∅) slices in
  (redistributions, slices).

(** ** Operations of the cache *)
Definition setHintsLocked (t : TopologyCache) (serviceKey addrType : string) (allocated : EndpointZoneInfo) : TopologyCache :=
  mkTopo (sufficientNodeInfo t) (cpuByZone t) (cpuRatiosByZone t)
    (<[serviceKey := <[addrType := allocated]> (default ∅ (endpointsByService t !! serviceKey))]> (endpointsByService t))
    ({[serviceKey]} ∪ hintsPopulatedByService t).

Definition SetHints := setHintsLocked.

Definition RemoveHints (t : TopologyCache) (serviceKey addrType : string) : TopologyCache :=
  let ebs := match endpointsByService t !! serviceKey with
             | Some m => <[serviceKey := delete addrType m]> (endpointsByService t)
             | None => endpointsByService t
             end in
  let ebs := if (size (default ∅ (ebs !! serviceKey)) =? 0)%nat then delete serviceKey ebs else ebs in
  mkTopo (sufficientNodeInfo t) (cpuByZone t) (cpuRatiosByZone t) ebs
    (hintsPopulatedByService t ∖ {[serviceKey]}).

Definition HasPopulatedHints (t : TopologyCache) (serviceKey : string) : bool :=
  bool_decide (serviceKey ∈ hintsPopulatedByService t).

(** The loop of [SetNodes]; [None] is its [break]. *)
Fixpoint nodes_loop (nodes : list Node) (cpu : gmap string Z) (totalCPU : Z) : option (gmap string Z) * Z :=
  match nodes with
  | [] => (Some cpu, totalCPU)
  | node :: rest =>
      if hasExcludedLabels (Labels (node_meta node)) then nodes_loop rest cpu totalCPU
      else if negb (isNodeReady node) then nodes_loop rest cpu totalCPU
      else match mget (Labels (node_meta node)) LabelTopologyZone with
           | Some zone =>
               if bool_decide (zone = EmptyString) || (node_CPU node =? 0) then (None, totalCPU)
               else nodes_loop rest (<[zone := default 0 (cpu !! zone) + node_CPU node]> cpu) (totalCPU + node_CPU node)
           | None => (None, totalCPU)
           end
  end.

Definition SetNodes (t : TopologyCache) (nodes : list Node) : TopologyCache :=
  let '(cpu, totalCPU) := nodes_loop nodes ∅ 0 in
  let insufficient := mkTopo false None None (endpointsByService t) (hintsPopulatedByService t) in
  match cpu with
  | None => insufficient
  | Some cpu =>
      if (totalCPU =? 0) || (size cpu <? 2)%nat then insufficient
      else mkTopo true (Some cpu)
             (Some ((λ c, f64_div (f64_of_int (MilliValue c)) (f64_of_int (MilliValue totalCPU))) <$> cpu))
             (endpointsByService t) (hintsPopulatedByService t)
  end.

Definition serviceOverloaded (ezi : EndpointZoneInfo) (zoneRatios : option (gmap string float64)) : bool :=
  if (size ezi =? 0)%nat then false
  else
    let ratios := default ∅ zoneRatios in
    if (size ratios =? 0)%nat then true
    else
      let totalEndpoints := foldl (λ t zn, f64_add t (f64_of_int (snd zn))) f64_zero (go_range ezi) in
      existsb (λ '(zone, ratio),
        match ezi !! zone with
        | None => true
        | Some svcEndpoints =>
            svcEndpoints <? f64_ceil_int (f64_mul (f64_mul totalEndpoints ratio)
                                            (f64_div f64_one (f64_add f64_one overloadThreshold)))
        end) (go_range ratios).

Definition GetOverloadedServices (t : TopologyCache) : list string :=
  omap (λ '(svcKey, eziByAddrType),
    if existsb (λ '(_, ezi), serviceOverloaded ezi (cpuRatiosByZone t)) (go_range eziByAddrType)
    then Some svcKey else None) (go_range (endpointsByService t)).

(** ** [AddHints] *)

(** Step 1: same-zone hints; [None] when a ready endpoint has no zone. *)
Fixpoint assign_endpoints (eps : list Endpoint) (allocated : EndpointZoneInfo) : option (EndpointZoneInfo * list Endpoint) :=
  match eps with
  | [] => Some (allocated, [])
  | e :: rest =>
      if negb (EndpointReady e) then
        '(allocated, rest') ← assign_endpoints rest allocated; Some (allocated, e :: rest')
      else zone ← ep_zone e;
           '(allocated, rest') ← assign_endpoints rest (bump allocated zone 1);
           Some (allocated, set_Hints (Some [zone]) e :: rest')
  end.

Fixpoint assign_slices (slices : list EndpointSlice) (allocated : EndpointZoneInfo)
    : option (EndpointZoneInfo * list EndpointSlice) :=
  match slices with
  | [] => Some (allocated, [])
  | s :: rest => '(allocated, eps) ← assign_endpoints (es_Endpoints s) allocated;
                 '(allocated, rest') ← assign_slices rest allocated;
                 Some (allocated, set_Endpoints eps s :: rest')
  end.

Definition remove_and_return (t : TopologyCache) (si : SliceInfo) (msg : string)
    : outcome (TopologyCache * SliceInfo * list EventBuilder) :=
  Ret (RemoveHints t (si_ServiceKey si) (si_AddressType si), RemoveHintsFromSlices si,
       [disabledEvent (FormatWithAddressType msg (si_AddressType si))]).

(** The cache, the slices (to create, to update and unchanged) and the events. *)
Definition AddHints (fuel : nat) (t : TopologyCache) (si : SliceInfo)
    : outcome (TopologyCache * SliceInfo * list EventBuilder) :=
  match getAllocations t (getTotalReadyEndpoints si) with
  | inr ev => remove_and_return t si (ev_Message ev)
  | inl allocations =>
      let '(allocated, si) := getAllocatedHintsByZone si allocations in
      match assign_slices (si_ToCreate si ++ si_ToUpdate si) allocated with
      | None => remove_and_return t si NoZoneSpecified
      | Some (allocated, slices) =>
          '(givingZones, receivingZones) ← getGivingAndReceivingZones fuel allocations allocated;
          let '(redistributions, slices) := redistributeHints slices givingZones receivingZones in
          let allocated := add_counts allocated (go_range redistributions) in
          let si := mkSI (si_ServiceKey si) (si_AddressType si) (take (length (si_ToCreate si)) slices)
                      (drop (length (si_ToCreate si)) slices) (si_Unchanged si) in
          if (size allocated =? 0)%nat then remove_and_return t si NoAllocatedHintsForZones
          else Ret (setHintsLocked t (si_ServiceKey si) (si_AddressType si) allocated, si,
                    if HasPopulatedHints t (si_ServiceKey si) then []
                    else [mkEvent "Normal" "TopologyAwareHintsEnabled"
                            (FormatWithAddressType TopologyAwareHintsEnabled (si_AddressType si))])
      end
  end.

(** ** Hints are the only thing that changes *)
Definition no_hint : Endpoint → Endpoint := set_Hints None.

Lemma no_hint_set h e : no_hint (set_Hints h e) = no_hint e.
Proof. by destruct e. Qed.

Lemma clear_hints_set s eps :
  no_hint <$> eps = no_hint <$> es_Endpoints s → clear_hints (set_Endpoints eps s) = clear_hints s.
Proof. unfold clear_hints, no_hint. destruct s; simpl. by intros ->. Qed.

Lemma clear_hints_idemp s : clear_hints (clear_hints s) = clear_hints s.
Proof.
  apply clear_hints_set. rewrite <- list_fmap_compose. apply list_fmap_ext.
  intros; by apply no_hint_set.
Qed.

(** [si'] holds the slices of [si]: none to create is lost or invented, and a
    slice is still unchanged or has moved to the updates. *)
Definition hints_only (si si' : SliceInfo) : Prop :=
  clear_hints <$> si_ToCreate si' = clear_hints <$> si_ToCreate si ∧
  ∃ moved, si_Unchanged si ≡ₚ moved ++ si_Unchanged si' ∧
    clear_hints <$> si_ToUpdate si' = clear_hints <$> (si_ToUpdate si ++ moved).

Definition hinted (e : Endpoint) : Prop := EndpointReady e = true → ∃ z, Hints e = Some [z].
Definition hinted_some (e : Endpoint) : Prop := EndpointReady e = true → ∃ z zs, Hints e = Some (z :: zs).
Definition unhinted (e : Endpoint) : Prop := Hints e = None.

Definition all_endpoints (P : Endpoint → Prop) (slices : list EndpointSlice) : Prop :=
  Forall (λ s, Forall P (es_Endpoints s)) slices.

(** No endpoint of the service has a hint, or every ready one does, exactly
    one zone on the slices that are written. *)
Definition hints_uniform (si : SliceInfo) : Prop :=
  all_endpoints unhinted (si_ToCreate si ++ si_ToUpdate si ++ si_Unchanged si) ∨
  all_endpoints hinted (si_ToCreate si ++ si_ToUpdate si) ∧ all_endpoints hinted_some (si_Unchanged si).

Lemma all_endpoints_app P l k : all_endpoints P (l ++ k) ↔ all_endpoints P l ∧ all_endpoints P k.
Proof. apply Forall_app. Qed.

Lemma clear_hints_unhinted l : all_endpoints unhinted (clear_hints <$> l).
Proof.
  apply Forall_fmap, Forall_true. intros s. simpl. apply Forall_fmap, Forall_true. by intros [].
Qed.

Lemma has_hints_false s : has_hints s = false → Forall unhinted (es_Endpoints s).
Proof.
  unfold has_hints. induction (es_Endpoints s) as [|e l IH]; simpl; [done|].
  intros [Hb%bool_decide_eq_false ?]%orb_false_iff. constructor; [|by apply IH].
  by apply eq_None_not_Some.
Qed.

Lemma remove_unchanged_spec un up kept up' kept' :
  remove_unchanged un up kept = (up', kept') →
  ∃ moved rest, up' = up ++ (clear_hints <$> moved) ∧ kept' = kept ++ rest ∧ un ≡ₚ moved ++ rest ∧
    all_endpoints unhinted rest.
Proof.
  revert up kept. induction un as [|s un IH]; intros up kept; simpl.
  { intros [= <- <-]. exists [], []. split_and!; simpl; rewrite ?app_nil_r; done || constructor. }
  destruct (has_hints s) eqn:Hs; intros (moved & rest & -> & -> & Hp & Hu)%IH.
  - exists (s :: moved), rest. rewrite Hp. by rewrite <- app_assoc.
  - exists moved, (s :: rest). rewrite Hp, <- app_assoc. split_and!; [done..| |].
    + by rewrite Permutation_middle.
    + constructor; [by apply has_hints_false|done].
Qed.

Lemma RemoveHintsFromSlices_spec si :
  hints_only si (RemoveHintsFromSlices si) ∧
  all_endpoints unhinted (si_ToCreate (RemoveHintsFromSlices si) ++
    si_ToUpdate (RemoveHintsFromSlices si) ++ si_Unchanged (RemoveHintsFromSlices si)).
Proof.
  unfold RemoveHintsFromSlices. destruct (remove_unchanged _ _ _) as [up kept] eqn:E.
  apply remove_unchanged_spec in E as (moved & rest & -> & -> & Hp & Hu). simpl.
  assert (∀ l : list EndpointSlice, clear_hints <$> (clear_hints <$> l) = clear_hints <$> l) as Hcc.
  { intros l. rewrite <- list_fmap_compose. apply list_fmap_ext. intros; apply clear_hints_idemp. }
  split.
  - split; simpl; [apply Hcc|]. exists moved. split; [done|]. by rewrite !fmap_app, !Hcc.
  - rewrite !all_endpoints_app. auto using clear_hints_unhinted.
Qed.

Lemma hints_only_trans si1 si2 si3 : hints_only si1 si2 → hints_only si2 si3 → hints_only si1 si3.
Proof.
  intros [Hc (m & Hp & Hu)] [Hc' (m' & Hp' & Hu')]. split; [congruence|].
  exists (m ++ m'). split; [by rewrite Hp, Hp', app_assoc|].
  rewrite Hu', !fmap_app, Hu, fmap_app. by rewrite app_assoc.
Qed.

(** *** Unchanged slices that keep their hints have them *)
Lemma count_hints_hinted eps allocations h h' :
  count_hints eps allocations h = Some h' → Forall hinted_some eps.
Proof.
  revert h. induction eps as [|e eps IH]; intros h; simpl; [done|].
  destruct (EndpointReady e) eqn:Er; simpl.
  - destruct (Hints e) as [[|z zs]|] eqn:Eh; try done.
    destruct (count_zones _ _ _); simpl; [|done]. intros ?%IH. constructor; [|done]. intros _. eauto.
  - intros ?%IH. constructor; [|done]. unfold hinted_some. by rewrite Er.
Qed.

Lemma allocated_loop_spec un al acc up kept acc' up' kept' :
  allocated_loop un al acc up kept = (acc', up', kept') →
  ∃ moved rest, up' = up ++ moved ∧ kept' = kept ++ rest ∧ un ≡ₚ moved ++ rest ∧ all_endpoints hinted_some rest.
Proof.
  revert acc up kept. induction un as [|s un IH]; intros acc up kept; simpl.
  { intros [= <- <- <-]. exists [], []. split_and!; simpl; rewrite ?app_nil_r; done || constructor. }
  destruct (getHintsByZone s acc al) as [h|] eqn:Eh; intros (moved & rest & -> & -> & Hp & Hu)%IH.
  - exists moved, (s :: rest). rewrite Hp, <- app_assoc. split_and!; [done..| |].
    + by rewrite Permutation_middle.
    + constructor; [|done]. unfold getHintsByZone in Eh.
      destruct (count_hints _ _ _) eqn:Ec; [|done]. by eapply count_hints_hinted.
  - exists (s :: moved), rest. rewrite Hp. by rewrite <- app_assoc.
Qed.

Lemma getAllocatedHintsByZone_spec si al acc si' :
  getAllocatedHintsByZone si al = (acc, si') → hints_only si si' ∧ all_endpoints hinted_some (si_Unchanged si').
Proof.
  unfold getAllocatedHintsByZone. destruct (allocated_loop _ _ _ _ _) as [[a u] k] eqn:E. intros [= <- <-].
  apply allocated_loop_spec in E as (moved & rest & -> & -> & Hp & Hu). simpl.
  split; [|done]. split; [done|]. by exists moved.
Qed.

(** *** Step 1 and the redistribution *)
Lemma assign_endpoints_spec eps acc acc' eps' :
  assign_endpoints eps acc = Some (acc', eps') → no_hint <$> eps' = no_hint <$> eps ∧ Forall hinted eps'.
Proof.
  revert acc acc' eps'. induction eps as [|e eps IH]; intros acc acc' eps'; simpl.
  { intros [= <- <-]. by repeat constructor. }
  destruct (EndpointReady e) eqn:Er; simpl.
  - destruct (ep_zone e) as [z|]; simpl; [|done].
    destruct (assign_endpoints eps _) as [[a r]|] eqn:E; simpl; [|done]. intros [= <- <-].
    apply IH in E as [Hn Hf]. split; [by rewrite !fmap_cons, Hn, no_hint_set|].
    constructor; [|done]. intros _. exists z. by destruct e.
  - destruct (assign_endpoints eps _) as [[a r]|] eqn:E; simpl; [|done]. intros [= <- <-].
    apply IH in E as [Hn Hf]. split; [by rewrite !fmap_cons, Hn|]. constructor; [|done].
    unfold hinted. by rewrite Er.
Qed.

Lemma assign_slices_spec slices acc acc' slices' :
  assign_slices slices acc = Some (acc', slices') →
  clear_hints <$> slices' = clear_hints <$> slices ∧ all_endpoints hinted slices'.
Proof.
  revert acc acc' slices'. induction slices as [|s slices IH]; intros acc acc' slices'; simpl.
  { intros [= <- <-]. by repeat constructor. }
  destruct (assign_endpoints _ _) as [[a eps]|] eqn:Ee; simpl; [|done].
  destruct (assign_slices slices a) as [[a' r]|] eqn:E; simpl; [|done]. intros [= <- <-].
  apply IH in E as [Hc Hf]. apply assign_endpoints_spec in Ee as [Hn He].
  split; [|by constructor; [destruct s|]]. by rewrite !fmap_cons, Hc, clear_hints_set.
Qed.

Lemma redistribute_endpoint_spec st e st' e' :
  redistribute_endpoint st e = (st', e') → hinted e → no_hint e' = no_hint e ∧ hinted e'.
Proof.
  unfold redistribute_endpoint. destruct st as [[g r] d]. intros E Hh.
  repeat case_match; simplify_eq; try done.
  split; [apply no_hint_set|]. intros _. eexists. by destruct e.
Qed.

Lemma redistribute_endpoints_spec st eps st' eps' :
  redistribute_endpoints st eps = (st', eps') → Forall hinted eps →
  no_hint <$> eps' = no_hint <$> eps ∧ Forall hinted eps'.
Proof.
  revert st st' eps'. induction eps as [|e eps IH]; intros st st' eps'; simpl.
  { intros [= <- <-]. by repeat constructor. }
  destruct (redistribute_endpoint st e) as [st1 e1] eqn:E1.
  destruct (redistribute_endpoints st1 eps) as [st2 eps2] eqn:E2. intros [= <- <-].
  intros [He Heps]%Forall_cons. destruct (redistribute_endpoint_spec _ _ _ _ E1 He) as [Hn ?].
  destruct (IH _ _ _ E2 Heps) as [Hns ?]. split; [by rewrite !fmap_cons, Hn, Hns|by constructor].
Qed.

Lemma redistribute_slices_spec st slices st' slices' :
  redistribute_slices st slices = (st', slices') → all_endpoints hinted slices →
  clear_hints <$> slices' = clear_hints <$> slices ∧ all_endpoints hinted slices'.
Proof.
  revert st st' slices'. induction slices as [|s slices IH]; intros st st' slices'; simpl.
  { intros [= <- <-]. by repeat constructor. }
  destruct (redistribute_endpoints st _) as [st1 eps] eqn:E1.
  destruct (redistribute_slices st1 slices) as [st2 r] eqn:E2. intros [= <- <-].
  intros [He Hs]%Forall_cons. destruct (redistribute_endpoints_spec _ _ _ _ E1 He) as [Hn ?].
  destruct (IH _ _ _ E2 Hs) as [Hc ?]. split; [|by constructor; [destruct s|]].
  by rewrite !fmap_cons, Hc, clear_hints_set.
Qed.

Lemma remove_and_return_spec t si si0 msg t' si' evs :
  hints_only si0 si → remove_and_return t si msg = Ret (t', si', evs) → hints_only si0 si' ∧ hints_uniform si'.
Proof.
  intros Hs. unfold remove_and_return. intros E. injection E as <- <- <-.
  destruct (RemoveHintsFromSlices_spec si) as [Hh Hu]. split; [by eapply hints_only_trans|by left].
Qed.

Lemma AddHints_spec fuel t si t' si' evs :
  AddHints fuel t si = Ret (t', si', evs) → hints_only si si' ∧ hints_uniform si'.
Proof.
  assert (hints_only si si) as Hrefl by (split; [done|exists []; by rewrite app_nil_r]).
  unfold AddHints. destruct (getAllocations _ _) as [al|ev]; [|by apply remove_and_return_spec].
  destruct (getAllocatedHintsByZone si al) as [acc si1] eqn:E1.
  apply getAllocatedHintsByZone_spec in E1 as [Hs1 Hu1].
  destruct (assign_slices _ _) as [[acc2 slices]|] eqn:E2; [|by apply remove_and_return_spec].
  apply assign_slices_spec in E2 as [Hc2 Hh2].
  destruct (getGivingAndReceivingZones _ _ _) as [[g r]| | |]; simpl; try done.
  destruct (redistributeHints slices g r) as [d slices3] eqn:E3.
  unfold redistributeHints in E3. destruct (redistribute_slices _ _) as [[[g' r'] d'] s'] eqn:E4.
  injection E3 as -> ->. apply redistribute_slices_spec in E4 as [Hc3 Hh3]; [|done].
  set (si2 := mkSI _ _ _ _ _).
  assert (hints_only si1 si2) as Hs2.
  { rewrite Hc2 in Hc3. split; simpl.
    - rewrite fmap_take, Hc3, fmap_app, take_app_length'; [done|by rewrite length_fmap].
    - exists []. split; [done|]. rewrite app_nil_r, fmap_drop, Hc3, fmap_app, drop_app_length'; [done|].
      by rewrite length_fmap. }
  assert (hints_only si si2) as Hs by by eapply hints_only_trans.
  destruct (_ =? 0)%nat; [by apply remove_and_return_spec|].
  intros E. injection E as <- <- <-. split; [done|]. right. split; [|done].
  simpl. by rewrite take_drop.
Qed.

(** *** Redistribution conserves the number of hints *)
Definition gsum (m : gmap string Z) : Z := map_fold (λ _ n acc, n + acc) 0 m.

Lemma gsum_bump m z d : gsum (bump m z d) = gsum m + d.
Proof.
  unfold bump, gsum. destruct (m !! z) as [n|] eqn:E; simpl.
  - rewrite <- insert_delete_eq, map_fold_insert_L; [|intros; lia|apply lookup_delete_eq].
    rewrite (map_fold_delete_L _ _ z n m); [lia|intros; lia|done].
  - rewrite map_fold_insert_L; [lia|intros; lia|done].
Qed.

Lemma redistribute_endpoint_gsum st e :
  gsum (snd (fst (redistribute_endpoint st e))) = gsum (snd st).
Proof.
  unfold redistribute_endpoint. destruct st as [[g r] d].
  repeat case_match; simpl; try done. rewrite !gsum_bump. lia.
Qed.

Lemma redistribute_endpoints_gsum st eps :
  gsum (snd (fst (redistribute_endpoints st eps))) = gsum (snd st).
Proof.
  revert st. induction eps as [|e eps IH]; intros st; simpl; [done|].
  destruct (redistribute_endpoint st e) as [st1 e1] eqn:E1.
  pose proof (redistribute_endpoint_gsum st e) as H1. rewrite E1 in H1. simpl in H1.
  specialize (IH st1). destruct (redistribute_endpoints st1 eps). simpl in *. congruence.
Qed.

Lemma redistribute_slices_gsum st slices :
  gsum (snd (fst (redistribute_slices st slices))) = gsum (snd st).
Proof.
  revert st. induction slices as [|s slices IH]; intros st; simpl; [done|].
  destruct (redistribute_endpoints st (es_Endpoints s)) as [st1 e1] eqn:E1.
  pose proof (redistribute_endpoints_gsum st (es_Endpoints s)) as H1. rewrite E1 in H1. simpl in H1.
  specialize (IH st1). destruct (redistribute_slices st1 slices). simpl in *. congruence.
Qed.

(** *** What the changes say happens to the hints *)
Definition amount (m : gmap string Z) (z : string) : Z := default 0 (m !! z).
Definition hinted_to (z : string) (e : Endpoint) : Z := if EndpointReady e && bool_decide (Hints e = Some [z]) then 1 else 0.
Definition endpoints_of (slices : list EndpointSlice) : list Endpoint := mjoin (es_Endpoints <$> slices).
(** The ready endpoints that are hinted to zone [z]. *)
Definition count_to (z : string) (eps : list Endpoint) : Z := foldr (λ e n, hinted_to z e + n) 0 eps.
Definition hints_to (z : string) (slices : list EndpointSlice) : Z := count_to z (endpoints_of slices).
(** The hint that step 1 gives a ready endpoint: its own zone. *)
Definition own_hint (e : Endpoint) : Prop := EndpointReady e = true → ∃ z, ep_zone e = Some z ∧ Hints e = Some [z].

Definition natural (m : gmap string Z) : Prop := ∀ z, 0 ≤ amount m z.
Definition apart (g r : gmap string Z) : Prop := ∀ z, amount g z = 0 ∨ amount r z = 0.

Lemma amount_take m z n x : m !! z = Some n → amount (take_one m z n) x = amount m x - (if decide (x = z) then 1 else 0).
Proof.
  intros Hz. unfold amount, take_one. destruct (decide (x = z)) as [-> |Hx].
  - rewrite Hz. destruct (Z.eqb_spec n 1) as [-> |]; [by rewrite lookup_delete_eq|by rewrite lookup_insert_eq].
  - destruct (n =? 1); [rewrite lookup_delete_ne by done|rewrite lookup_insert_ne by done]; lia.
Qed.
Lemma amount_bump m z d x : amount (bump m z d) x = amount m x + (if decide (x = z) then d else 0).
Proof.
  unfold amount, bump. destruct (decide (x = z)) as [-> |Hx]; [by rewrite lookup_insert_eq|]. rewrite lookup_insert_ne by done. lia.
Qed.
Lemma amount_empty z : amount ∅ z = 0.
Proof. unfold amount. by rewrite lookup_empty. Qed.
Lemma amount_size0 m : (size m =? 0)%nat = true → ∀ z, amount m z = 0.
Proof. intros Hs%Nat.eqb_eq%map_size_empty_inv z. subst m. apply amount_empty. Qed.

Lemma find_positive m :
  match list_find (λ zn : string * Z, 0 < snd zn) (go_range m) with
  | Some (_, (z, n)) => m !! z = Some n ∧ 0 < n
  | None => ∀ z, amount m z ≤ 0
  end.
Proof.
  destruct (list_find _ _) as [[i [z n]]|] eqn:E.
  - apply list_find_Some in E as (Hi & Hn & _). split; [|done]. by apply list_elem_of_lookup_2, elem_of_go_range in Hi.
  - apply list_find_None in E. intros z. unfold amount. destruct (m !! z) as [n|] eqn:Ez; [|done]. cbn.
    apply elem_of_go_range in Ez. rewrite Forall_forall in E. specialize (E _ Ez). cbn in E. lia.
Qed.

(** What one endpoint, or a list of them, does to the three counts: each change is one of
    the hints, each hint given is one received, no zone gives or receives more
    than it should. *)
Record moves (st : redis) (eps : list Endpoint) (st' : redis) (eps' : list Endpoint) : Prop := {
  mv_hints : ∀ z, amount (snd st') z - amount (snd st) z = count_to z eps' - count_to z eps;
  mv_net : ∀ z, amount (snd st') z + amount (snd (fst st')) z - amount (fst (fst st')) z =
                amount (snd st) z + amount (snd (fst st)) z - amount (fst (fst st)) z;
  mv_give : ∀ z, 0 ≤ amount (fst (fst st')) z ≤ amount (fst (fst st)) z;
  mv_take : ∀ z, 0 ≤ amount (snd (fst st')) z ≤ amount (snd (fst st)) z;
  mv_done : ∀ z e, e ∈ eps' → EndpointReady e = true → ep_zone e = Some z → Hints e = Some [z] →
              amount (fst (fst st')) z = 0 ∨ ∀ z', amount (snd (fst st')) z' = 0 }.

Lemma apart_anti g r g' r' :
  apart g r → (∀ z, 0 ≤ amount g' z ≤ amount g z) → (∀ z, 0 ≤ amount r' z ≤ amount r z) → apart g' r'.
Proof. intros Ha Hg Hr z. specialize (Hg z). specialize (Hr z). destruct (Ha z); lia. Qed.

(** An endpoint that keeps its hint. *)
Lemma moves_stay st e :
  natural (fst (fst st)) → natural (snd (fst st)) →
  (EndpointReady e = true → ∀ z, ep_zone e = Some z → amount (fst (fst st)) z = 0 ∨ ∀ z', amount (snd (fst st)) z' = 0) →
  moves st [e] st [e].
Proof.
  intros Hg Hr Hd. split; [intros; lia|intros; lia|intros z; specialize (Hg z); lia|intros z; specialize (Hr z); lia|].
  intros z x ->%list_elem_of_singleton ? ? _. auto.
Qed.

Lemma redistribute_endpoint_moves st e :
  natural (fst (fst st)) → natural (snd (fst st)) → apart (fst (fst st)) (snd (fst st)) → own_hint e →
  moves st [e] (fst (redistribute_endpoint st e)) [snd (redistribute_endpoint st e)].
Proof.
  destruct st as [[g r] d]. intros Hg Hr Ha Ho. cbn [fst snd] in *. unfold redistribute_endpoint.
  destruct (EndpointReady e) eqn:Er; [|apply (moves_stay (g, r, d) e); [done|done|congruence]]. cbn [negb].
  destruct (size g =? 0)%nat eqn:Eg.
  { apply (moves_stay (g, r, d) e); [done|done|]. intros _ z _. left. by apply amount_size0. }
  destruct (size r =? 0)%nat eqn:Esr.
  { apply (moves_stay (g, r, d) e); [done|done|]. intros _ z _. right. by apply amount_size0. }
  destruct (Ho Er) as (z & Ez & Hz). cbn [orb]. rewrite Ez.
  assert (∀ n, g !! z = Some n → amount g z = n) as Hgz by (unfold amount; by intros n ->).
  destruct (g !! z) as [n|] eqn:En; last first.
  { apply (moves_stay (g, r, d) e); [done|done|]. intros _ x [= <-]%(eq_trans (eq_sym Ez)). left. cbn. unfold amount. by rewrite En. }
  specialize (Hgz n eq_refl). destruct (Z.ltb_spec 0 n) as [Hn|Hn]; last first.
  { apply (moves_stay (g, r, d) e); [done|done|]. intros _ x [= <-]%(eq_trans (eq_sym Ez)). left. cbn. specialize (Hg z). lia. }
  pose proof (find_positive r) as Hf. destruct (list_find _ _) as [[i [t m]]|]; last first.
  { apply (moves_stay (g, r, d) e); [done|done|]. intros _ x _. right. cbn. intros x'. specialize (Hf x'). specialize (Hr x'). lia. }
  destruct Hf as [Ht Hm]. assert (amount r t = m) as Hrt by (unfold amount; by rewrite Ht).
  assert (t ≠ z) as Htz by (intros ->; destruct (Ha z); lia).
  split; cbn [fst snd].
  - intros x. rewrite !amount_bump. unfold count_to, hinted_to. cbn [foldr].
    change (EndpointReady (set_Hints (Some [t]) e)) with (EndpointReady e). rewrite Er, Hz. cbn [andb Hints set_Hints].
    destruct (decide (x = t)), (decide (x = z)); repeat case_bool_decide; simplify_eq; lia.
  - intros x. rewrite !amount_bump, (amount_take g z n), (amount_take r t m) by done.
    destruct (decide (x = t)), (decide (x = z)); lia.
  - intros x. rewrite (amount_take g z n) by done. specialize (Hg x). destruct (decide (x = z)) as [-> |]; lia.
  - intros x. rewrite (amount_take r t m) by done. specialize (Hr x). destruct (decide (x = t)) as [-> |]; lia.
  - intros x y ->%list_elem_of_singleton _ Hx. change (ep_zone (set_Hints (Some [t]) e)) with (ep_zone e) in Hx.
    rewrite Ez in Hx. injection Hx as <-. cbn. intros [= ?]. done.
Qed.

Lemma moves_app st eps1 st1 eps1' eps2 st2 eps2' :
  moves st eps1 st1 eps1' → moves st1 eps2 st2 eps2' → moves st (eps1 ++ eps2) st2 (eps1' ++ eps2').
Proof.
  intros [H1 N1 G1 T1 D1] [H2 N2 G2 T2 D2].
  assert (∀ z l k, count_to z (l ++ k) = count_to z l + count_to z k) as Hc.
  { intros z l k. unfold count_to. induction l as [|x l IH]; cbn [app foldr]; lia. }
  split.
  - intros z. rewrite !Hc. specialize (H1 z). specialize (H2 z). lia.
  - intros z. rewrite N2. apply N1.
  - intros z. specialize (G1 z). specialize (G2 z). lia.
  - intros z. specialize (T1 z). specialize (T2 z). lia.
  - intros z e [Hin|Hin]%elem_of_app Hr Hz Hh; [|by apply (D2 z e)].
    destruct (D1 z e Hin Hr Hz Hh) as [?|Hall]; [left; specialize (G2 z); lia|].
    right. intros z'. specialize (T2 z'). rewrite Hall in T2. lia.
Qed.

Lemma redistribute_endpoints_moves st eps :
  natural (fst (fst st)) → natural (snd (fst st)) → apart (fst (fst st)) (snd (fst st)) → Forall own_hint eps →
  moves st eps (fst (redistribute_endpoints st eps)) (snd (redistribute_endpoints st eps)).
Proof.
  revert st. induction eps as [|e eps IH]; intros st Hg Hr Ha Ho; cbn [redistribute_endpoints].
  { split; cbn; [intros; lia|intros; lia|intros z; specialize (Hg z); lia|intros z; specialize (Hr z); lia|].
    intros z e He. by apply elem_of_nil in He. }
  apply Forall_cons in Ho as [He Ho]. pose proof (redistribute_endpoint_moves st e Hg Hr Ha He) as Hm.
  destruct (redistribute_endpoint st e) as [st1 e1]. cbn [fst snd] in Hm.
  assert (natural (fst (fst st1))) as Hg1 by (intros z; apply (mv_give _ _ _ _ Hm)).
  assert (natural (snd (fst st1))) as Hr1 by (intros z; apply (mv_take _ _ _ _ Hm)).
  specialize (IH st1 Hg1 Hr1 (apart_anti _ _ _ _ Ha (mv_give _ _ _ _ Hm) (mv_take _ _ _ _ Hm)) Ho).
  destruct (redistribute_endpoints st1 eps) as [st2 eps2]. cbn [fst snd] in *. by apply (moves_app _ [e] st1 [e1]).
Qed.

(** The slices are one list of endpoints. *)
Lemma redistribute_endpoints_app st eps1 eps2 :
  redistribute_endpoints st (eps1 ++ eps2) =
  let '(st1, l1) := redistribute_endpoints st eps1 in let '(st2, l2) := redistribute_endpoints st1 eps2 in (st2, l1 ++ l2).
Proof.
  revert st. induction eps1 as [|e eps1 IH]; intros st; cbn [app redistribute_endpoints]; [by destruct (redistribute_endpoints st eps2)|].
  destruct (redistribute_endpoint st e) as [st1 e1]. rewrite IH. destruct (redistribute_endpoints st1 eps1) as [st2 l1].
  by destruct (redistribute_endpoints st2 eps2).
Qed.

Lemma redistribute_slices_flat st slices :
  redistribute_endpoints st (endpoints_of slices) =
  (fst (redistribute_slices st slices), endpoints_of (snd (redistribute_slices st slices))).
Proof.
  revert st. induction slices as [|s slices IH]; intros st; [done|]. unfold endpoints_of in *. cbn [fmap list_fmap mjoin list_join redistribute_slices].
  rewrite redistribute_endpoints_app. destruct (redistribute_endpoints st (es_Endpoints s)) as [st1 l1].
  rewrite IH. by destruct (redistribute_slices st1 slices).
Qed.

Lemma all_endpoints_flat P slices : all_endpoints P slices ↔ Forall P (endpoints_of slices).
Proof.
  unfold all_endpoints, endpoints_of. induction slices as [|s l IH]; [done|].
  cbn [fmap list_fmap mjoin list_join]. by rewrite Forall_cons, Forall_app, <- IH.
Qed.

(** [getGivingAndReceivingZones] asks for natural numbers, and for no zone that both
    gives and receives. *)
Lemma getMost_key m z n : getMost m = (z, n) → z = EmptyString ∨ z ∈ dom m.
Proof.
  unfold getMost. assert (∀ l (acc : string * float64), l ⊆ go_range m → (fst acc = EmptyString ∨ fst acc ∈ dom m) →
    let r := foldl (λ '(zone, num) '(z, n), if f64_lt num n then (z, n) else (zone, num)) acc l in
    fst r = EmptyString ∨ fst r ∈ dom m) as Hl.
  { induction l as [|[x a] l IH]; intros [zone num] Hsub Hacc; [done|]. cbn [foldl]. apply IH; [set_solver|].
    destruct (f64_lt num a); [|done]. right. cbn. assert ((x, a) ∈ go_range m) as Hx by (apply Hsub; by left).
    apply elem_of_go_range in Hx. by apply elem_of_dom_2 in Hx. }
  intros E. specialize (Hl (go_range m) (EmptyString, f64_zero) (reflexivity _) (or_introl eq_refl)). by rewrite E in Hl.
Qed.

Lemma natural_inc m z : natural m → natural (<[z := default 0 (m !! z) + 1]> m).
Proof.
  intros Hm x. specialize (Hm x). change (<[z := default 0 (m !! z) + 1]> m) with (bump m z 1). rewrite amount_bump.
  destruct (decide (x = z)); lia.
Qed.

Lemma match_loop_apart fuel gd rd gz rz g r :
  dom gd ## dom rd → dom gz ⊆ dom gd → dom rz ⊆ dom rd → natural gz → natural rz →
  match_loop fuel gd rd gz rz = Ret (g, r) → natural g ∧ natural r ∧ apart g r.
Proof.
  revert gd rd gz rz. induction fuel as [|fuel IH]; intros gd rd gz rz Hd Hg Hr Ng Nr; cbn [match_loop]; [done|].
  destruct (getMost gd) as [gzone ng] eqn:Eg, (getMost rd) as [rzone nr] eqn:Er.
  apply getMost_key in Eg. apply getMost_key in Er.
  destruct (bool_decide (gzone = EmptyString)) eqn:E1; [|destruct (bool_decide (rzone = EmptyString)) eqn:E2]; cbn [orb].
  3:{ destruct (_ || _); [|apply bool_decide_eq_false in E1, E2; apply IH; rewrite ?dom_insert_L;
        [set_solver|set_solver|set_solver|by apply natural_inc..]].
      intros [= <- <-]. split_and!; [done..|]. intros z. unfold amount.
      destruct (gz !! z) eqn:Ez1; [|by left]. destruct (rz !! z) eqn:Ez2; [|by right].
      apply elem_of_dom_2 in Ez1, Ez2. set_solver. }
  all: intros [= <- <-]; split_and!; [done..|]; intros z; unfold amount;
       destruct (gz !! z) eqn:Ez1; [|by left]; destruct (rz !! z) eqn:Ez2; [|by right];
       apply elem_of_dom_2 in Ez1, Ez2; set_solver.
Qed.

Lemma surplus_apart allocated l g r :
  NoDup l.*1 → dom g ## dom r → (∀ z, z ∈ l.*1 → z ∉ dom g ∧ z ∉ dom r) →
  dom (fst (foldl (surplus_step allocated) (g, r) l)) ## dom (snd (foldl (surplus_step allocated) (g, r) l)).
Proof.
  revert g r. induction l as [|[z a] l IH]; intros g r Hnd Hd Hz; [done|]. rewrite fmap_cons, NoDup_cons in Hnd.
  destruct Hnd as [Hni Hnd]. cbn [foldl surplus_step]. cbv zeta. cbn [fst] in Hni.
  destruct (Hz z) as [Hzg Hzr]; [by left|].
  assert (∀ x, x ∈ l.*1 → x ≠ z ∧ x ∉ dom g ∧ x ∉ dom r) as Hl.
  { intros x Hx. split; [by intros ->|]. apply Hz. by right. }
  destruct (f64_lt _ _); [|destruct (f64_lt _ _)]; apply IH; rewrite ?dom_insert_L; try done; try set_solver.
  all: intros x Hx; destruct (Hl x Hx) as (? & ? & ?); set_solver.
Qed.

Lemma getGivingAndReceivingZones_apart fuel allocations allocated g r :
  getGivingAndReceivingZones fuel allocations allocated = Ret (g, r) → natural g ∧ natural r ∧ apart g r.
Proof.
  unfold getGivingAndReceivingZones.
  pose proof (surplus_apart allocated (go_range allocations) ∅ ∅ (NoDup_go_range _)) as Hs.
  destruct (foldl _ _ _) as [gd rd]. intros E. eapply match_loop_apart; [| | | | |exact E].
  - apply Hs; set_solver.
  - set_solver.
  - set_solver.
  - intros z. by rewrite amount_empty.
  - intros z. by rewrite amount_empty.
Qed.

(** C29: redistribution moves hints between zones and never creates or drops one.
    Given slices whose ready endpoints are hinted to their own zone (as step 1 leaves
    them), and zones that give apart from zones that receive (as
    [getGivingAndReceivingZones] chooses them), only hints change, every ready endpoint still has
    exactly one, and the reported change of each zone is the change of the number of
    ready endpoints hinted to it: no zone gives or receives more than it should, and
    the changes add up to zero.  The loop does not stop early: when an endpoint of a
    zone that gives keeps its hint, that zone has given all it should or every zone that
    receives has received all it should. *)
Theorem redistributeHints_conserves slices givingZones receivingZones :
  natural givingZones → natural receivingZones → apart givingZones receivingZones → all_endpoints own_hint slices →
  let changes := fst (redistributeHints slices givingZones receivingZones) in
  let slices' := snd (redistributeHints slices givingZones receivingZones) in
  (clear_hints <$> slices' = clear_hints <$> slices ∧ all_endpoints hinted slices') ∧
  (∀ z, hints_to z slices' = hints_to z slices + amount changes z) ∧
  (∀ z, - amount givingZones z ≤ amount changes z ≤ amount receivingZones z) ∧
  gsum changes = 0 ∧
  (∀ z e, e ∈ endpoints_of slices' → EndpointReady e = true → ep_zone e = Some z → Hints e = Some [z] →
     0 < amount givingZones z →
     amount changes z = - amount givingZones z ∨
     ∀ z', 0 < amount receivingZones z' → amount changes z' = amount receivingZones z').
Proof.
  intros Hg Hr Ha Ho. unfold redistributeHints.
  pose proof (redistribute_slices_gsum (givingZones, receivingZones, ∅) slices) as Hs.
  pose proof (redistribute_slices_flat (givingZones, receivingZones, ∅) slices) as Hf.
  pose proof (redistribute_endpoints_moves (givingZones, receivingZones, ∅) (endpoints_of slices) Hg Hr Ha
    (proj1 (all_endpoints_flat _ _) Ho)) as Hm. rewrite Hf in Hm.
  destruct (redistribute_slices _ slices) as [[[g r] d] slices'] eqn:E. cbn [fst snd] in *.
  apply redistribute_slices_spec in E as [Hc Hh].
  2:{ eapply Forall_impl; [exact Ho|]. intros s Hs'. eapply Forall_impl; [exact Hs'|]. intros e He Hre. destruct (He Hre) as (z & _ & ?). by exists z. }
  destruct Hm as [H1 N1 G1 T1 D1]. cbn [fst snd] in *. setoid_rewrite amount_empty in H1. setoid_rewrite amount_empty in N1.
  split_and!; [done|done| | |done|].
  - intros z. unfold hints_to. specialize (H1 z). lia.
  - intros z. specialize (N1 z). specialize (G1 z). specialize (T1 z). lia.
  - intros z e Hin Hre Hz Hhe Hpos. destruct (D1 z e Hin Hre Hz Hhe) as [Hd|Hd].
    + left. specialize (N1 z). specialize (T1 z). destruct (Ha z); lia.
    + right. intros z' Hz'. specialize (N1 z'). specialize (G1 z'). specialize (Hd z'). destruct (Ha z'); lia.
Qed.

End topology.

(** ** Witness: two endpoints of zone a, one of which moves to zone b *)
Definition hinted_ep (a : string) : Endpoint := mkEp [a] (Some true) None None None None None (Some "a") (Some ["a"]).
Definition demo_hints : EndpointSlice :=
  mkSlice (mkMeta "s" EmptyString "ns" EmptyString EmptyString 0 0 None None None [] []) "IPv4" [hinted_ep "10.0.0.1"; hinted_ep "10.0.0.2"] [].
Definition demo_changes : gmap string Z * list EndpointSlice :=
  @redistributeHints list_runtime [demo_hints] {["a" := 1]} {["b" := 1]}.

Lemma redistributeHints_conserves_witness :
  hints_to "a" (snd demo_changes) = 1 ∧ hints_to "b" (snd demo_changes) = 1 ∧ gsum (fst demo_changes) = 0.
Proof.
  assert (∀ z m n, 0 ≤ n → 0 ≤ amount {[z := n]} m) as Hnat.
  { intros z m n Hn. unfold amount. destruct (decide (z = m)) as [-> |Hne];
      [rewrite lookup_singleton_eq|rewrite lookup_singleton_ne by exact Hne]; simpl; lia. }
  destruct (@redistributeHints_conserves list_runtime [demo_hints] {["a" := 1]} {["b" := 1]}) as (_ & Hc & _ & Hs & _).
  - intros z. apply Hnat. lia.
  - intros z. apply Hnat. lia.
  - intros z. unfold amount. destruct (decide (z = "a")) as [-> |Hne]; [right; reflexivity|left].
    rewrite lookup_singleton_ne by congruence. reflexivity.
  - repeat constructor; intros _; exists "a"; split; reflexivity.
  - split; [|split; [|exact Hs]].
    + etransitivity; [exact (Hc "a")|vm_compute; reflexivity].
    + etransitivity; [exact (Hc "b")|vm_compute; reflexivity].
Defined.
