(* ===== verification/PortMapping.v ===== *)
(** * Reconciling one group of slices

    [reconcileByPortMapping] of [pkg/controller/endpointslice/reconciler.go]:
    the slices that exist for one combination of ports, the endpoints that are
    desired for it, and the slices to create, update and delete.  Pointers in
    [slicesByName] are followed by name: the slice stored under a name is the
    one that is mutated.  Hashing an endpoint sorts its addresses in place, so
    the existing slices are stored with sorted addresses. *)
From stdpp Require Import prelude gmap strings list.
From S2P Require Import Prelude K8s EpUtil SliceUtils.
Open Scope Z_scope.

(** The configuration of a [Reconciler]. *)
Record ReconcilerConfig := mkRC { rc_maxEndpointsPerSlice : Z; rc_managedByName : string }.

(** The variables of the function while it runs. *)
Record pmState := mkPM {
  slicesByName : gmap string EndpointSlice;
  sliceNamesUnchanged : gset string;
  sliceNamesToUpdate : gset string;
  sliceNamesToDelete : gset string;
  desiredSet : EndpointSet;
  numRemoved : Z }.

Record pmResult := mkPMR {
  pm_toCreate : list EndpointSlice; pm_toUpdate : list EndpointSlice; pm_toDelete : list EndpointSlice;
  pm_added : Z; pm_removed : Z }.

Section reconcile.
Context `{GoRuntime} `{EpLib} `{SliceLib}.
Context (r : ReconcilerConfig) (service : Service).

(** ** Step 1 *)

(** The loop over the endpoints of an existing slice: the endpoints to keep,
    whether one of them changed, and the desired endpoints left. *)
Fixpoint keep_loop (eps : list Endpoint) (desired : EndpointSet) : list Endpoint * bool * EndpointSet :=
  match eps with
  | [] => ([], false, desired)
  | endpoint :: rest =>
      match EndpointSet_Get desired endpoint with
      | Some got =>
          let '(newEndpoints, endpointUpdated, desired') :=
            keep_loop rest (EndpointSet_Delete desired [endpoint]) in
          (got :: newEndpoints, negb (EndpointsEqualBeyondHash got endpoint) || endpointUpdated, desired')
      | None => keep_loop rest desired
      end
  end.

(** [hashEndpoint] on every endpoint of the slice. *)
Definition sort_slice (s : EndpointSlice) : EndpointSlice :=
  set_Endpoints ((λ e, snd (hashEndpoint e)) <$> es_Endpoints s) s.

Definition existing_step (st : pmState) (existingSlice : EndpointSlice) : pmState :=
  let name := es_Name existingSlice in
  let '(newEndpoints, endpointUpdated, desired) := keep_loop (es_Endpoints existingSlice) (desiredSet st) in
  let '(labels, labelsChanged) := setEndpointSliceLabels existingSlice service (rc_managedByName r) in
  let existing := sort_slice existingSlice in
  let byName := <[name := existing]> (slicesByName st) in
  let lenOld := Z.of_nat (length (es_Endpoints existingSlice)) in
  let lenNew := Z.of_nat (length newEndpoints) in
  if endpointUpdated || negb (lenOld =? lenNew) then
    let removed := if lenNew <? lenOld then numRemoved st + (lenOld - lenNew) else numRemoved st in
    if lenNew =? 0 then
      mkPM byName (sliceNamesUnchanged st) (sliceNamesToUpdate st) ({[name]} ∪ sliceNamesToDelete st) desired removed
    else
      let epSlice := set_meta (set_Labels (Some labels)) (set_Endpoints newEndpoints existing) in
      mkPM (<[name := epSlice]> byName) (sliceNamesUnchanged st) ({[name]} ∪ sliceNamesToUpdate st)
        (sliceNamesToDelete st) desired removed
  else if labelsChanged then
    let epSlice := set_meta (set_Labels (Some labels)) existing in
    mkPM (<[name := epSlice]> byName) (sliceNamesUnchanged st) ({[name]} ∪ sliceNamesToUpdate st)
      (sliceNamesToDelete st) desired (numRemoved st)
  else
    mkPM byName ({[name]} ∪ sliceNamesUnchanged st) (sliceNamesToUpdate st) (sliceNamesToDelete st)
      desired (numRemoved st).

(** ** Steps 2 and 3: filling slices *)

(** [for desiredSet.Len() > 0 && len(endpoints) < max]: [room] is
    [max - len(endpoints)]. *)
Fixpoint fill (room : nat) (endpoints : list Endpoint) (desired : EndpointSet) : list Endpoint * EndpointSet :=
  match room with
  | O => (endpoints, desired)
  | S room' =>
      match EndpointSet_PopAny desired with
      | None => (endpoints, desired)
      | Some (endpoint, desired') => fill room' (endpoints ++ [endpoint]) desired'
      end
  end.

Definition fill_slice (s : EndpointSlice) (desired : EndpointSet) : EndpointSlice * EndpointSet :=
  let room := Z.to_nat (rc_maxEndpointsPerSlice r - Z.of_nat (length (es_Endpoints s))) in
  let '(endpoints, desired') := fill room (es_Endpoints s) desired in
  (set_Endpoints endpoints s, desired').

Fixpoint fill_updates (slices : list EndpointSlice) (byName : gmap string EndpointSlice) (desired : EndpointSet)
    : gmap string EndpointSlice * EndpointSet :=
  match slices with
  | [] => (byName, desired)
  | s :: rest =>
      let '(s', desired') := fill_slice s desired in
      fill_updates rest (<[es_Name s' := s']> byName) desired'
  end.

Definition lookup_names (byName : gmap string EndpointSlice) (names : gset string) : outcome (list EndpointSlice) :=
  mapO (λ n, deref (byName !! n)) (UnsortedList names).

Definition step2 (st : pmState) : outcome pmState :=
  if (0 <? EndpointSet_Len (desiredSet st))%nat && (0 <? size (sliceNamesToUpdate st))%nat then
    slices ← lookup_names (slicesByName st) (sliceNamesToUpdate st);
    let '(byName, desired) := fill_updates (go_sort endpointLen_Less slices) (slicesByName st) (desiredSet st) in
    Ret (mkPM byName (sliceNamesUnchanged st) (sliceNamesToUpdate st) (sliceNamesToDelete st) desired (numRemoved st))
  else Ret st.

(** One round of step 3; the slices to create so far are in [toCreate]. *)
Definition step3_round (em : endpointMeta) (st : pmState) (toCreate : list EndpointSlice)
    : outcome (pmState * list EndpointSlice) :=
  sliceToFill ←
    (if (Z.of_nat (EndpointSet_Len (desiredSet st)) <? rc_maxEndpointsPerSlice r)
        && (0 <? size (sliceNamesUnchanged st))%nat
     then unchanged ← lookup_names (slicesByName st) (sliceNamesUnchanged st);
          Ret (getSliceToFill unchanged (Z.of_nat (EndpointSet_Len (desiredSet st))) (rc_maxEndpointsPerSlice r))
     else Ret None);
  let toFill := match sliceToFill with
                | None => newEndpointSlice service em (rc_managedByName r)
                | Some s => s
                end in
  let '(filled, desired) := fill_slice toFill (desiredSet st) in
  let byName := match sliceToFill with
                | None => slicesByName st
                | Some _ => <[es_Name filled := filled]> (slicesByName st)
                end in
  if bool_decide (es_Name filled ≠ EmptyString) then
    Ret (mkPM byName (sliceNamesUnchanged st ∖ {[es_Name filled]}) ({[es_Name filled]} ∪ sliceNamesToUpdate st)
           (sliceNamesToDelete st) desired (numRemoved st), toCreate)
  else
    Ret (mkPM byName (sliceNamesUnchanged st) (sliceNamesToUpdate st) (sliceNamesToDelete st) desired (numRemoved st),
         toCreate ++ [filled]).

Fixpoint step3 (fuel : nat) (em : endpointMeta) (st : pmState) (toCreate : list EndpointSlice)
    : outcome (pmState * list EndpointSlice) :=
  if (0 <? EndpointSet_Len (desiredSet st))%nat then
    match fuel with
    | O => Spin
    | S fuel => '(st', toCreate') ← step3_round em st toCreate; step3 fuel em st' toCreate'
    end
  else Ret (st, toCreate).

Definition pm_init (desired : EndpointSet) : pmState := mkPM ∅ ∅ ∅ ∅ desired 0.

Definition reconcileByPortMapping (fuel : nat) (existingSlices : list EndpointSlice) (desired : EndpointSet)
    (em : endpointMeta) : outcome pmResult :=
  let st := foldl existing_step (pm_init desired) existingSlices in
  let numAdded := Z.of_nat (EndpointSet_Len (desiredSet st)) in
  st ← step2 st;
  '(st, slicesToCreate) ← step3 fuel em st [];
  slicesToUpdate ← lookup_names (slicesByName st) (sliceNamesToUpdate st);
  slicesToDelete ← lookup_names (slicesByName st) (sliceNamesToDelete st);
  Ret (mkPMR slicesToCreate slicesToUpdate slicesToDelete numAdded (numRemoved st)).

(** ** Endpoints up to what the code compares

    [matches d e]: [e] is published for the desired endpoint [d].  The two have
    the same hash and agree on node, zone, conditions and target. *)
Definition matches (d e : Endpoint) : Prop :=
  ep_hash e = ep_hash d ∧ EndpointsEqualBeyondHash d e = true.

Lemma matches_refl e : matches e e.
Proof. split; [done|]. by apply EndpointsEqualBeyondHash_spec. Qed.

Lemma matches_sorted d e : matches d (ep_sorted e) ↔ matches d e.
Proof. unfold matches. rewrite ep_hash_sorted, !EndpointsEqualBeyondHash_spec. by destruct e. Qed.

(** [published ds es]: the endpoints [es] publish [ds], one for one. *)
Definition published (ds es : list Endpoint) : Prop := ∃ ds', ds' ≡ₚ ds ∧ Forall2 matches ds' es.

Lemma published_perm ds ds' es es' : ds ≡ₚ ds' → es ≡ₚ es' → published ds es → published ds' es'.
Proof.
  intros Hd He (x & Hx & Hf).
  destruct (Permutation_Forall2 He (proj1 (Forall2_flip _ _ _) Hf)) as (y & Hy & Hf'%Forall2_flip).
  exists y. split; [|done]. by rewrite <- Hd, <- Hx, Hy.
Qed.

#[local] Instance published_proper : Proper ((≡ₚ) ==> (≡ₚ) ==> iff) published.
Proof. intros d d' Hd e e' He. split; apply published_perm; done. Qed.

Lemma published_app ds es ds' es' :
  published ds es → published ds' es' → published (ds ++ ds') (es ++ es').
Proof.
  intros (x & Hx & Hf) (y & Hy & Hg). exists (x ++ y). split; [by rewrite Hx, Hy|by apply Forall2_app].
Qed.

Lemma published_Forall2 ds es : Forall2 matches ds es → published ds es.
Proof. by exists ds. Qed.

Lemma published_refl es : published es es.
Proof. apply published_Forall2. induction es; constructor; auto using matches_refl. Qed.

(** The endpoints of a set and of a map of slices. *)
Definition vals (s : EndpointSet) : list Endpoint := (map_to_list s).*2.
Definition eps_of (m : gmap string EndpointSlice) : list Endpoint := map_to_list m ≫= λ kv, es_Endpoints (snd kv).
Definition slice_eps (l : list EndpointSlice) : list Endpoint := l ≫= es_Endpoints.

Lemma vals_delete s h e : s !! h = Some e → vals s ≡ₚ e :: vals (delete h s).
Proof. intros Hh. unfold vals. by rewrite <- (map_to_list_delete _ _ _ Hh). Qed.

Lemma eps_of_insert m k s : m !! k = None → eps_of (<[k := s]> m) ≡ₚ es_Endpoints s ++ eps_of m.
Proof. intros Hk. unfold eps_of. by rewrite map_to_list_insert by done. Qed.

Lemma eps_of_delete m k s : m !! k = Some s → eps_of m ≡ₚ es_Endpoints s ++ eps_of (delete k m).
Proof. intros Hk. unfold eps_of. by rewrite <- (map_to_list_delete _ _ _ Hk). Qed.

Lemma eps_of_update m k s s' added :
  m !! k = Some s → es_Endpoints s' = es_Endpoints s ++ added → eps_of (<[k := s']> m) ≡ₚ added ++ eps_of m.
Proof.
  intros Hk Hs. rewrite <- insert_delete_eq, eps_of_insert by apply lookup_delete_eq.
  rewrite (eps_of_delete m k s), Hs by done. by rewrite (Permutation_app_comm _ added), app_assoc.
Qed.

(** ** What the loops do *)
Lemma keep_loop_spec eps desired new upd desired' :
  es_wf desired → keep_loop eps desired = (new, upd, desired') →
  es_wf desired' ∧ new ++ vals desired' ≡ₚ vals desired ∧ (length new ≤ length eps)%nat ∧
  (upd = false → length new = length eps → Forall2 matches new eps).
Proof.
  revert desired new upd. induction eps as [|e eps IH]; intros desired new upd Hwf; simpl.
  { intros [= <- <- <-]. auto. }
  unfold EndpointSet_Get. fold (ep_hash e). destruct (desired !! ep_hash e) as [got|] eqn:Eg.
  - simpl. fold (ep_hash e). destruct (keep_loop eps _) as [[n u] d] eqn:E. intros [= <- <- <-].
    destruct (IH _ _ _ (es_wf_delete _ _ Hwf) E) as (Hd & Hp & Hl & Hm).
    split_and!; [done|simpl; by rewrite Hp, (vals_delete desired)|simpl; lia|].
    simpl. intros [Hb%negb_false_iff Hu]%orb_false_iff Hlen. constructor; [|apply Hm; [done|lia]].
    split; [|done]. by destruct (Hwf _ _ Eg).
  - intros E. destruct (IH _ _ _ Hwf E) as (Hd & Hp & Hl & Hm).
    split_and!; [done|done|simpl; lia|simpl; lia].
Qed.

Lemma fill_spec room eps desired eps' desired' :
  es_wf desired → fill room eps desired = (eps', desired') →
  ∃ added, eps' = eps ++ added ∧ added ++ vals desired' ≡ₚ vals desired ∧ es_wf desired' ∧
    length added = Nat.min room (size desired).
Proof.
  revert eps desired. induction room as [|room IH]; intros eps desired Hwf; simpl.
  { intros [= <- <-]. exists []. by rewrite app_nil_r. }
  destruct (decide (desired = ∅)) as [->|Hne].
  - unfold EndpointSet_PopAny. rewrite (proj2 (go_range_nil _)) by done. intros [= <- <-].
    exists []. rewrite app_nil_r. by rewrite map_size_empty.
  - destruct (EndpointSet_PopAny_spec desired Hwf Hne) as (e & -> & He). intros E.
    destruct (IH _ _ (es_wf_delete _ _ Hwf) E) as (added & -> & Hp & Hwf' & Hl).
    exists (e :: added). rewrite <- app_assoc. split_and!; [done| |done|].
    + simpl. by rewrite Hp, <- (vals_delete desired).
    + rewrite length_cons, Hl, map_size_delete_Some by done.
      assert (size desired ≠ 0%nat) as Hsz by (by apply map_size_non_empty_iff).
      by destruct (size desired).
Qed.

Lemma fill_slice_spec s desired s' desired' :
  es_wf desired → fill_slice s desired = (s', desired') →
  ∃ added, s' = set_Endpoints (es_Endpoints s ++ added) s ∧ added ++ vals desired' ≡ₚ vals desired ∧ es_wf desired' ∧
    length added = Nat.min (Z.to_nat (rc_maxEndpointsPerSlice r - Z.of_nat (length (es_Endpoints s)))) (size desired).
Proof.
  intros Hwf. unfold fill_slice. destruct (fill _ _ _) as [eps d] eqn:E. intros [= <- <-].
  destruct (fill_spec _ _ _ _ _ Hwf E) as (added & -> & ?). by exists added.
Qed.

(** ** Invariants *)
Definition alive (byName : gmap string EndpointSlice) (del : gset string) : gmap string EndpointSlice :=
  filter (λ kv, fst kv ∉ del) byName.

Lemma alive_lookup m del n s : alive m del !! n = Some s ↔ m !! n = Some s ∧ n ∉ del.
Proof. apply map_lookup_filter_Some. Qed.

Lemma alive_insert m del n s : n ∉ del → alive (<[n := s]> m) del = <[n := s]> (alive m del).
Proof. intros Hn. by apply map_filter_insert_True. Qed.

Lemma alive_insert_del m del n s : m !! n = None → alive (<[n := s]> m) ({[n]} ∪ del) = alive m del.
Proof.
  intros Hn. apply map_eq. intros j. apply option_eq. intros x. rewrite !alive_lookup.
  destruct (decide (n = j)) as [->|Hj]; [|rewrite lookup_insert_ne by done; set_solver].
  rewrite Hn. set_solver.
Qed.

(** Every desired endpoint is published by a slice that stays or is created,
    or is still to be placed. *)
Definition placement (D0 : EndpointSet) (byName : gmap string EndpointSlice) (del : gset string)
    (desired : EndpointSet) (created : list EndpointSlice) : Prop :=
  es_wf desired ∧
  ∃ ds, ds ++ vals desired ≡ₚ vals D0 ∧ published ds (eps_of (alive byName del) ++ slice_eps created).

(** [s] is [o] with other endpoints or labels. *)
Definition keeps (o s : EndpointSlice) : Prop :=
  set_Labels None (es_meta s) = set_Labels None (es_meta o) ∧
  es_AddressType s = es_AddressType o ∧ es_Ports s = es_Ports o.

Definition cap (o s : EndpointSlice) : Prop :=
  Z.of_nat (length (es_Endpoints s)) ≤
  Z.max (rc_maxEndpointsPerSlice r) (Z.of_nat (length (es_Endpoints o))).

Lemma keeps_name o s : keeps o s → es_Name s = es_Name o.
Proof. intros [E _]. unfold es_Name. by injection E. Qed.

Record names_inv (existing : list EndpointSlice) (st : pmState) : Prop := {
  ni_dom : dom (slicesByName st) = list_to_set (es_Name <$> existing);
  ni_union : sliceNamesUnchanged st ∪ sliceNamesToUpdate st ∪ sliceNamesToDelete st = dom (slicesByName st);
  ni_un_up : sliceNamesUnchanged st ## sliceNamesToUpdate st;
  ni_un_del : sliceNamesUnchanged st ## sliceNamesToDelete st;
  ni_up_del : sliceNamesToUpdate st ## sliceNamesToDelete st;
  ni_slice : ∀ n s, slicesByName st !! n = Some s → ∃ o, o ∈ existing ∧ es_Name o = n ∧ keeps o s ∧ cap o s;
  ni_same : ∀ n, n ∉ sliceNamesToUpdate st → n ∈ dom (slicesByName st) →
    ∃ o, o ∈ existing ∧ es_Name o = n ∧ slicesByName st !! n = Some (sort_slice o) }.

Lemma keeps_sort o : keeps o (sort_slice o).
Proof. by destruct o. Qed.

Lemma sort_slice_length o : length (es_Endpoints (sort_slice o)) = length (es_Endpoints o).
Proof. simpl. apply length_fmap. Qed.

Lemma sort_slice_matches ds o :
  Forall2 matches ds (es_Endpoints o) → Forall2 matches ds (es_Endpoints (sort_slice o)).
Proof.
  simpl. intros Hf. apply Forall2_fmap_r. eapply Forall2_impl; [exact Hf|].
  intros d e Hm. by apply matches_sorted.
Qed.

(** A slice that joins the survivors brings the endpoints it publishes. *)
Lemma placement_add D0 byName del desired desired' n s new :
  placement D0 byName del desired [] → byName !! n = None → n ∉ del →
  es_wf desired' → new ++ vals desired' ≡ₚ vals desired → Forall2 matches new (es_Endpoints s) →
  placement D0 (<[n := s]> byName) del desired' [].
Proof.
  intros [Hwf (ds & Hp & Hpub)] Hn Hd Hwf' Hnew Hm. split; [done|]. exists (new ++ ds). split.
  - by rewrite <- Hp, <- Hnew, (Permutation_app_comm new), app_assoc.
  - rewrite alive_insert, eps_of_insert, <- app_assoc by (done || apply eq_None_not_Some; intros [x Hx%alive_lookup]; naive_solver).
    apply published_app; [by apply published_Forall2|done].
Qed.

(** ** Step 1 preserves the invariants *)
Lemma names_inv_add done st o s un up del desired rem :
  names_inv done st → es_Name o ∉ dom (slicesByName st) → keeps o s → cap o s →
  (un = {[es_Name o]} ∪ sliceNamesUnchanged st ∧ up = sliceNamesToUpdate st ∧ del = sliceNamesToDelete st ∧ s = sort_slice o) ∨
  (un = sliceNamesUnchanged st ∧ up = {[es_Name o]} ∪ sliceNamesToUpdate st ∧ del = sliceNamesToDelete st) ∨
  (un = sliceNamesUnchanged st ∧ up = sliceNamesToUpdate st ∧ del = {[es_Name o]} ∪ sliceNamesToDelete st ∧ s = sort_slice o) →
  names_inv (done ++ [o]) (mkPM (<[es_Name o := s]> (slicesByName st)) un up del desired rem).
Proof.
  intros [Idom Iun I1 I2 I3 Isl Isame] Hd Hk Hc Hsets.
  constructor; simpl.
  - rewrite dom_insert_L, Idom, fmap_app, list_to_set_app_L. simpl. set_solver +.
  - rewrite dom_insert_L, <- Iun. destruct Hsets as [(-> & -> & -> & _)|[(-> & -> & ->)|(-> & -> & -> & _)]]; set_solver +.
  - rewrite <- Iun in Hd. clear Isl Isame. destruct Hsets as [(-> & -> & -> & _)|[(-> & -> & ->)|(-> & -> & -> & _)]]; set_solver.
  - rewrite <- Iun in Hd. clear Isl Isame. destruct Hsets as [(-> & -> & -> & _)|[(-> & -> & ->)|(-> & -> & -> & _)]]; set_solver.
  - rewrite <- Iun in Hd. clear Isl Isame. destruct Hsets as [(-> & -> & -> & _)|[(-> & -> & ->)|(-> & -> & -> & _)]]; set_solver.
  - intros n t [[<- <-]|[Hne Hl]]%lookup_insert_Some.
    + exists o. split_and!; [|done..]. apply elem_of_app. right. by apply list_elem_of_singleton.
    + destruct (Isl _ _ Hl) as (o' & ? & ?). exists o'. split; [|done]. apply elem_of_app. by left.
  - intros n Hnu Hin. rewrite dom_insert_L in Hin. destruct (decide (n = es_Name o)) as [->|Hne].
    + exists o. split; [apply elem_of_app; right; by apply list_elem_of_singleton|]. split; [done|].
      rewrite lookup_insert_eq. f_equal.
      destruct Hsets as [(_ & _ & _ & ?)|[(_ & -> & _)|(_ & _ & _ & ?)]]; [done|set_solver +Hnu|done].
    + destruct (Isame n) as (o' & Ho & Hno & Hl).
      { destruct Hsets as [(_ & -> & _)|[(_ & -> & _)|(_ & -> & _)]]; set_solver +Hnu. }
      { set_solver +Hin Hne. }
      exists o'. split; [apply elem_of_app; by left|]. split; [done|]. by rewrite lookup_insert_ne.
Qed.

Lemma existing_step_inv D0 done st o :
  names_inv done st → es_Name o ∉ es_Name <$> done →
  placement D0 (slicesByName st) (sliceNamesToDelete st) (desiredSet st) [] →
  names_inv (done ++ [o]) (existing_step st o) ∧
  placement D0 (slicesByName (existing_step st o)) (sliceNamesToDelete (existing_step st o))
    (desiredSet (existing_step st o)) [].
Proof.
  intros Hi Hn Hpl. unfold existing_step.
  destruct (keep_loop _ _) as [[new upd] desired'] eqn:E.
  apply (keep_loop_spec _ _ _ _ _ (proj1 Hpl)) in E as (Hwf' & Hnew & Hlen & Hm).
  assert (es_Name o ∉ dom (slicesByName st)) as Hd by (rewrite (ni_dom _ _ Hi); set_solver +Hn).
  assert (slicesByName st !! es_Name o = None) as Hl by by apply not_elem_of_dom.
  assert (es_Name o ∉ sliceNamesToDelete st) as Hdel by (rewrite <- (ni_union _ _ Hi) in Hd; set_solver +Hd).
  assert (cap o (sort_slice o)) as Hcs by (unfold cap; rewrite sort_slice_length; lia).
  destruct (setEndpointSliceLabels _ _ _) as [labels changed].
  destruct (upd || _) eqn:Eb; [destruct (Z.eqb_spec (Z.of_nat (length new)) 0) as [E0|E0]|destruct changed];
    rewrite ?insert_insert_eq.
  - split; [apply names_inv_add; [done|done|apply keeps_sort|done|by right; right]|]. simpl.
    destruct new; [|simpl in E0; lia]. simpl in Hnew. destruct Hpl as [Hwf (ds & Hp & Hpub)]. split; [done|].
    exists ds. by rewrite alive_insert_del, Hnew.
  - split.
    + apply names_inv_add; [done|done|by destruct o|unfold cap; simpl; lia|]. by right; left.
    + simpl. eapply placement_add; [done|done|done|done|exact Hnew|].
      simpl. apply Forall2_same_length_lookup_2; [done|]. intros. simplify_eq. apply matches_refl.
  - apply orb_false_iff in Eb as [-> Eb%negb_false_iff%Z.eqb_eq]. specialize (Hm eq_refl ltac:(lia)). split.
    + apply names_inv_add; [done|done|by destruct o| |by right; left]. unfold cap. simpl. rewrite length_fmap. lia.
    + simpl. eapply placement_add; [done|done|done|done|exact Hnew|]. by apply sort_slice_matches.
  - apply orb_false_iff in Eb as [-> Eb%negb_false_iff%Z.eqb_eq]. specialize (Hm eq_refl ltac:(lia)). split.
    + apply names_inv_add; [done|done|apply keeps_sort|done|by left].
    + simpl. eapply placement_add; [done|done|done|done|exact Hnew|]. by apply sort_slice_matches.
Qed.

Lemma step1_inv D0 existing :
  NoDup (es_Name <$> existing) → es_wf D0 →
  let st := foldl existing_step (pm_init D0) existing in
  names_inv existing st ∧ placement D0 (slicesByName st) (sliceNamesToDelete st) (desiredSet st) [].
Proof.
  intros Hnd Hwf. induction existing as [|o existing IH] using rev_ind; simpl.
  - split; [constructor; simpl; set_solver +|]. split; [done|]. exists []. split; [done|]. by exists [].
  - rewrite fmap_app in Hnd. apply NoDup_app in Hnd as (Hnd & Hdis & _).
    rewrite foldl_app. simpl. destruct (IH Hnd) as [Hi Hp]. apply existing_step_inv; [done| |done].
    intros Hin. apply (Hdis _ Hin). simpl. set_solver +.
Qed.

(** ** Filling preserves the invariants *)
Lemma lookup_names_spec byName (names : gset string) :
  names ⊆ dom byName →
  ∃ l, lookup_names byName names = Ret l ∧ Forall2 (λ n s, byName !! n = Some s) (UnsortedList names) l.
Proof.
  intros Hsub. unfold lookup_names.
  assert (Forall (λ n, is_Some (byName !! n)) (UnsortedList names)) as Hall.
  { apply Forall_forall. intros n Hn%elem_of_UnsortedList. apply elem_of_dom. by apply Hsub. }
  induction Hall as [|n l [s Hs] _ (k & Hk & Hf)]; simpl.
  - exists []. by split.
  - rewrite Hs. simpl. rewrite Hk. simpl. exists (s :: k). split; [done|by constructor].
Qed.

Lemma lookup_names_names existing st names l :
  names_inv existing st → Forall2 (λ n s, slicesByName st !! n = Some s) names l → es_Name <$> l = names.
Proof.
  intros Hi. induction 1 as [|n s names l Hl _ IH]; [done|]. rewrite fmap_cons. f_equal; [|done].
  destruct (ni_slice _ _ Hi _ _ Hl) as (o & _ & <- & Hk & _). by apply keeps_name.
Qed.

Lemma fill_inv D0 existing st n s s' desired' created :
  names_inv existing st →
  placement D0 (slicesByName st) (sliceNamesToDelete st) (desiredSet st) created →
  slicesByName st !! n = Some s → n ∉ sliceNamesToDelete st →
  fill_slice s (desiredSet st) = (s', desired') →
  let st' := mkPM (<[n := s']> (slicesByName st)) (sliceNamesUnchanged st ∖ {[n]}) ({[n]} ∪ sliceNamesToUpdate st)
               (sliceNamesToDelete st) desired' (numRemoved st) in
  names_inv existing st' ∧ placement D0 (slicesByName st') (sliceNamesToDelete st') desired' created.
Proof.
  intros Hi [Hwf (ds & Hp & Hpub)] Hl Hdel Hfill st'.
  destruct (fill_slice_spec _ _ _ _ Hwf Hfill) as (added & -> & Hadd & Hwf' & Hlen).
  assert (n ∈ dom (slicesByName st)) as Hn by by eapply elem_of_dom_2.
  split.
  - destruct Hi as [Idom Iun I1 I2 I3 Isl Isame]. constructor; simpl.
    + rewrite dom_insert_L, <- Idom. set_solver +Hn.
    + rewrite dom_insert_L, <- Iun. destruct (decide (n ∈ sliceNamesToUpdate st)).
      * set_solver.
      * apply set_eq. intros x. destruct (decide (x = n)); set_solver.
    + clear Isl Isame. set_solver +I1.
    + clear Isl Isame. set_solver +I2.
    + clear Isl Isame. set_solver +I3 Hdel.
    + intros m t [[<- <-]|[Hne Hm]]%lookup_insert_Some; [|by apply Isl].
      destruct (Isl _ _ Hl) as (o & ? & ? & (Hm & ? & ?) & Hc). exists o. split_and!; [done|done|done|].
      unfold cap in *. simpl. rewrite length_app, Hlen. lia.
    + intros m Hmu Hm. rewrite dom_insert_L in Hm.
      destruct (Isame m) as (o & Ho & Hno & Hlo); [set_solver +Hmu|set_solver +Hm Hn|].
      exists o. split_and!; [done|done|]. rewrite lookup_insert_ne; [done|]. set_solver +Hmu.
  - split; [done|]. exists (added ++ ds). split.
    + by rewrite <- Hp, <- Hadd, (Permutation_app_comm added), app_assoc.
    + simpl. rewrite alive_insert by done.
      rewrite (eps_of_update _ n s _ added), <- app_assoc; [|by apply alive_lookup|done].
      apply published_app; [apply published_refl|done].
Qed.

Lemma fill_updates_inv D0 existing slices st :
  names_inv existing st →
  placement D0 (slicesByName st) (sliceNamesToDelete st) (desiredSet st) [] →
  NoDup (es_Name <$> slices) →
  Forall (λ s, es_Name s ∈ sliceNamesToUpdate st ∧ slicesByName st !! es_Name s = Some s) slices →
  ∃ byName desired, fill_updates slices (slicesByName st) (desiredSet st) = (byName, desired) ∧
    let st' := mkPM byName (sliceNamesUnchanged st) (sliceNamesToUpdate st) (sliceNamesToDelete st) desired (numRemoved st) in
    names_inv existing st' ∧ placement D0 byName (sliceNamesToDelete st) desired [].
Proof.
  revert st. induction slices as [|s slices IH]; intros st Hi Hp Hnd Hall.
  { exists (slicesByName st), (desiredSet st). by destruct st. }
  apply Forall_cons in Hall as [[Hup Hl] Hall]. rewrite fmap_cons in Hnd. apply NoDup_cons in Hnd as [Hn Hnd].
  simpl. destruct (fill_slice s (desiredSet st)) as [s' d'] eqn:E.
  pose proof (ni_up_del _ _ Hi) as Hud. pose proof (ni_un_up _ _ Hi) as Huu.
  destruct (fill_inv D0 existing st (es_Name s) s s' d' [] Hi Hp Hl) as [Hi' Hp']; [set_solver +Hud Hup|done|].
  assert (es_Name s' = es_Name s) as Hname.
  { unfold fill_slice in E. destruct (fill _ _ _). by injection E as <- <-. }
  simpl in Hi', Hp'.
  rewrite (subseteq_union_1_L {[es_Name s]} (sliceNamesToUpdate st)) in Hi' by set_solver +Hup.
  rewrite (difference_disjoint_L (sliceNamesUnchanged st) {[es_Name s]}) in Hi' by set_solver +Hup Huu.
  specialize (IH _ Hi'). simpl in IH. rewrite Hname. apply IH; [done|done|].
  rewrite Forall_forall in Hall |- *. intros t Ht. destruct (Hall t Ht) as [? Htl]. split; [done|].
  rewrite lookup_insert_ne; [done|]. intros Heq. apply Hn. rewrite Heq. by apply list_elem_of_fmap_2.
Qed.

Lemma step2_inv D0 existing st :
  names_inv existing st →
  placement D0 (slicesByName st) (sliceNamesToDelete st) (desiredSet st) [] →
  ∃ st', step2 st = Ret st' ∧ names_inv existing st' ∧
    placement D0 (slicesByName st') (sliceNamesToDelete st') (desiredSet st') [].
Proof.
  intros Hi Hp. unfold step2. destruct (_ && _); [|by exists st].
  destruct (lookup_names_spec (slicesByName st) (sliceNamesToUpdate st)) as (l & -> & Hf).
  { rewrite <- (ni_union _ _ Hi). set_solver +. }
  simpl. pose proof (lookup_names_names _ _ _ _ Hi Hf) as Hnames.
  destruct (fill_updates_inv D0 existing (go_sort endpointLen_Less l) st Hi Hp) as (b & d & -> & ?).
  - rewrite go_sort_perm, Hnames. apply NoDup_UnsortedList.
  - rewrite go_sort_perm. apply Forall_forall. intros s [i Hs]%list_elem_of_lookup.
    destruct (Forall2_lookup_r _ _ _ _ _ Hf Hs) as (n & Hn & Hl).
    assert (es_Name s = n) as ->.
    { apply (f_equal (.!! i)) in Hnames. rewrite list_lookup_fmap, Hs, Hn in Hnames. by injection Hnames. }
    split; [|done]. apply elem_of_UnsortedList. by eapply list_elem_of_lookup_2.
  - eexists. split; [done|]. done.
Qed.

(** ** Step 3 *)
Lemma vals_length s : length (vals s) = size s.
Proof. unfold vals. by rewrite length_fmap, length_map_to_list. Qed.

(** A slice to create is a fresh slice of the service with some endpoints. *)
Definition fresh_slice (em : endpointMeta) (s : EndpointSlice) : Prop :=
  ∃ eps, s = set_Endpoints eps (newEndpointSlice service em (rc_managedByName r)) ∧
         0 < Z.of_nat (length eps) ≤ rc_maxEndpointsPerSlice r.

Lemma fill_slice_size s desired s' desired' :
  es_wf desired → fill_slice s desired = (s', desired') → desired ≠ ∅ →
  Z.of_nat (length (es_Endpoints s)) < rc_maxEndpointsPerSlice r → (size desired' < size desired)%nat.
Proof.
  intros Hwf E Hne Hlt. destruct (fill_slice_spec _ _ _ _ Hwf E) as (added & _ & Hp & _ & Hl).
  apply Permutation_length in Hp. rewrite length_app, !vals_length in Hp.
  assert (size desired ≠ 0%nat) by (by apply map_size_non_empty_iff). lia.
Qed.

Lemma slice_eps_app l k : slice_eps (l ++ k) = slice_eps l ++ slice_eps k.
Proof. unfold slice_eps. by rewrite bind_app. Qed.

Lemma create_inv D0 existing em st created s' desired' :
  names_inv existing st →
  placement D0 (slicesByName st) (sliceNamesToDelete st) (desiredSet st) created →
  fill_slice (newEndpointSlice service em (rc_managedByName r)) (desiredSet st) = (s', desired') →
  placement D0 (slicesByName st) (sliceNamesToDelete st) desired' (created ++ [s']).
Proof.
  intros Hi [Hwf (ds & Hp & Hpub)] E.
  destruct (fill_slice_spec _ _ _ _ Hwf E) as (added & -> & Hadd & Hwf' & _). split; [done|].
  exists (ds ++ added). split.
  - by rewrite <- app_assoc, Hadd.
  - rewrite slice_eps_app, app_assoc. apply published_app; [done|].
    simpl. rewrite app_nil_r. apply published_refl.
Qed.

Lemma step3_round_inv D0 existing em st created :
  names_inv existing st → EmptyString ∉ es_Name <$> existing →
  placement D0 (slicesByName st) (sliceNamesToDelete st) (desiredSet st) created →
  desiredSet st ≠ ∅ → 1 ≤ rc_maxEndpointsPerSlice r → Forall (fresh_slice em) created →
  ∃ st' created', step3_round em st created = Ret (st', created') ∧ names_inv existing st' ∧
    placement D0 (slicesByName st') (sliceNamesToDelete st') (desiredSet st') created' ∧
    (size (desiredSet st') < size (desiredSet st))%nat ∧ Forall (fresh_slice em) created'.
Proof.
  intros Hi Hne Hp Hd Hmax Hfr. pose proof (proj1 Hp) as Hwf. unfold step3_round.
  assert (size (desiredSet st) ≠ 0%nat) as Hsz by (by apply map_size_non_empty_iff).
  match goal with |- context [mbind _ ?c] =>
    assert (∃ o, c = Ret o ∧ ∀ s, o = Some s → ∃ n, n ∈ sliceNamesUnchanged st ∧ slicesByName st !! n = Some s ∧
      Z.of_nat (length (es_Endpoints s)) < rc_maxEndpointsPerSlice r) as (o & -> & Ho) end.
  { destruct (_ && _); [|by exists None].
    destruct (lookup_names_spec (slicesByName st) (sliceNamesUnchanged st)) as (l & -> & Hf).
    { rewrite <- (ni_union _ _ Hi). set_solver +. }
    simpl. eexists. split; [done|]. intros s Hs.
    pose proof (slice_to_fill_loop_spec l (Z.of_nat (EndpointSet_Len (desiredSet st))) (rc_maxEndpointsPerSlice r)
      (rc_maxEndpointsPerSlice r) None ltac:(done)) as Hbest.
    unfold getSliceToFill in Hs. rewrite Hs in Hbest. destruct Hbest as ([?|[i Hin]%list_elem_of_lookup] & Hfit & _); [done|].
    destruct (Forall2_lookup_r _ _ _ _ _ Hf Hin) as (n & Hn & Hl). exists n.
    split; [apply elem_of_UnsortedList; by eapply list_elem_of_lookup_2|]. split; [done|].
    unfold slack, EndpointSet_Len in Hfit. lia. }
  simpl. destruct o as [s|].
  - destruct (Ho s eq_refl) as (n & Hn & Hl & Hroom). clear Ho.
    destruct (ni_slice _ _ Hi _ _ Hl) as (o & Hin & Hon & Hk & _).
    destruct (fill_slice s (desiredSet st)) as [s' d'] eqn:E.
    assert (es_Name s' = n) as Hname.
    { transitivity (es_Name s); [unfold fill_slice in E; destruct (fill _ _ _); by injection E as <- <-|].
      rewrite <- Hon. by apply keeps_name. }
    rewrite Hname, bool_decide_true; last first.
    { intros ->. apply Hne. rewrite <- Hon. by apply list_elem_of_fmap_2. }
    pose proof (ni_un_del _ _ Hi) as Hud.
    destruct (fill_inv D0 existing st n s s' d' created Hi Hp Hl) as [Hi' Hp']; [set_solver +Hud Hn|done|].
    do 2 eexists. split; [done|]. split_and!; [done|done| |done]. simpl.
    by eapply fill_slice_size.
  - destruct (fill_slice _ (desiredSet st)) as [s' d'] eqn:E.
    pose proof (create_inv D0 existing em st created s' d' Hi Hp E) as Hp'.
    pose proof (fill_slice_size _ _ _ _ Hwf E Hd ltac:(simpl; lia)) as Hlt.
    destruct (fill_slice_spec _ _ _ _ Hwf E) as (added & -> & _ & _ & Hlen).
    rewrite bool_decide_false by (intros Hn; by apply Hn).
    do 2 eexists. split; [done|]. split_and!; [by destruct st, Hi|done|done|].
    apply Forall_app. split; [done|]. constructor; [|done]. exists added. split; [done|]. simpl in Hlen. lia.
Qed.

Lemma step3_inv D0 existing em fuel st created :
  names_inv existing st → EmptyString ∉ es_Name <$> existing →
  placement D0 (slicesByName st) (sliceNamesToDelete st) (desiredSet st) created →
  1 ≤ rc_maxEndpointsPerSlice r → Forall (fresh_slice em) created → (size (desiredSet st) ≤ fuel)%nat →
  ∃ st' created', step3 fuel em st created = Ret (st', created') ∧ names_inv existing st' ∧
    placement D0 (slicesByName st') (sliceNamesToDelete st') (desiredSet st') created' ∧
    desiredSet st' = ∅ ∧ Forall (fresh_slice em) created'.
Proof.
  revert st created. induction fuel as [|fuel IH]; intros st created Hi Hne Hp Hmax Hfr Hsz; simpl.
  - assert (desiredSet st = ∅) as Hem by (apply map_size_empty_inv; lia).
    unfold EndpointSet_Len. rewrite Hem, map_size_empty. simpl. exists st, created. by split_and!.
  - unfold EndpointSet_Len. destruct (Nat.ltb_spec 0 (size (desiredSet st))) as [Hlt|Hge].
    + destruct (step3_round_inv D0 existing em st created) as (st1 & c1 & -> & Hi1 & Hp1 & Hs1 & Hf1); try done.
      { intros Hem. rewrite Hem, map_size_empty in Hlt. lia. }
      simpl. apply IH; try done. lia.
    + exists st, created. split; [done|]. split_and!; [done|done|apply map_size_empty_inv; lia|done].
Qed.

(** ** The result *)
Lemma published_sorted ds a b : published ds ((ep_sorted <$> a) ++ b) → published ds (a ++ b).
Proof.
  intros (x & Hx & Hf). exists x. split; [done|].
  apply Forall2_app_inv_r in Hf as (x1 & x2 & Ha & Hb & ->). apply Forall2_app; [|done].
  rewrite Forall2_fmap_r in Ha. eapply Forall2_impl; [exact Ha|]. intros d e. apply matches_sorted.
Qed.

Lemma slice_eps_sorted l : slice_eps (sort_slice <$> l) = ep_sorted <$> slice_eps l.
Proof.
  induction l as [|s l IH]; [done|].
  change (es_Endpoints (sort_slice s) ++ slice_eps (sort_slice <$> l) = ep_sorted <$> (es_Endpoints s ++ slice_eps l)).
  by rewrite IH, fmap_app.
Qed.

Lemma eps_of_list m l :
  NoDup (es_Name <$> l) → (∀ n s, m !! n = Some s ↔ s ∈ l ∧ es_Name s = n) → eps_of m ≡ₚ slice_eps l.
Proof.
  intros Hnd Hm. unfold eps_of, slice_eps.
  assert (map_to_list m ≡ₚ (λ s, (es_Name s, s)) <$> l) as ->.
  { apply NoDup_Permutation; [apply NoDup_map_to_list| |].
    - apply NoDup_fmap_2_strong; [|by eapply NoDup_fmap_1]. by intros s t _ _ [= _ ->].
    - intros [n s]. rewrite elem_of_map_to_list, Hm, list_elem_of_fmap. naive_solver. }
  clear. induction l as [|s l IH]; [done|]. rewrite fmap_cons, !bind_cons. simpl. by rewrite IH.
Qed.

Lemma NoDup_filter_names (P : EndpointSlice → Prop) `{∀ s, Decision (P s)} l :
  NoDup (es_Name <$> l) → NoDup (es_Name <$> filter P l).
Proof.
  induction l as [|s l IH]; [done|]. rewrite fmap_cons. intros [Hn Hnd]%NoDup_cons.
  rewrite filter_cons. case_decide; [|by apply IH]. rewrite fmap_cons. apply NoDup_cons. split; [|by apply IH].
  intros (t & Ht & [_ Hin]%list_elem_of_filter)%list_elem_of_fmap. apply Hn. rewrite Ht. by apply list_elem_of_fmap_2.
Qed.

(** The survivors are the slices the code calls unchanged and the updates. *)
Lemma alive_eps existing st up del :
  names_inv existing st → NoDup (es_Name <$> existing) →
  Forall2 (λ n s, slicesByName st !! n = Some s) (UnsortedList (sliceNamesToUpdate st)) up →
  Forall2 (λ n s, slicesByName st !! n = Some s) (UnsortedList (sliceNamesToDelete st)) del →
  eps_of (alive (slicesByName st) (sliceNamesToDelete st)) ≡ₚ
  slice_eps ((sort_slice <$> unchangedSlices existing up del) ++ up).
Proof.
  intros Hi Hnd Hup Hdel.
  pose proof (lookup_names_names _ _ _ _ Hi Hup) as Nup. pose proof (lookup_names_names _ _ _ _ Hi Hdel) as Ndel.
  assert (∀ n, n ∈ es_Name <$> up ↔ n ∈ sliceNamesToUpdate st) as Eup
    by (intros; by rewrite Nup, elem_of_UnsortedList).
  assert (∀ n, n ∈ es_Name <$> del ↔ n ∈ sliceNamesToDelete st) as Edel
    by (intros; by rewrite Ndel, elem_of_UnsortedList).
  assert (∀ o, o ∈ unchangedSlices existing up del ↔
    (es_Name o ∉ sliceNamesToUpdate st ∧ es_Name o ∉ sliceNamesToDelete st) ∧ o ∈ existing) as Eun.
  { intros o. unfold unchangedSlices. rewrite list_elem_of_filter, not_elem_of_union, !elem_of_list_to_set.
    by rewrite Eup, Edel. }
  assert (es_Name <$> (sort_slice <$> unchangedSlices existing up del) = es_Name <$> unchangedSlices existing up del)
    as Nsort by by rewrite <- list_fmap_compose.
  apply eps_of_list.
  - rewrite fmap_app, Nsort, Nup. apply NoDup_app. split_and!.
    + by apply NoDup_filter_names.
    + intros n (o & -> & [[Hn _] _]%Eun)%list_elem_of_fmap. by rewrite elem_of_UnsortedList.
    + apply NoDup_UnsortedList.
  - intros n s. rewrite alive_lookup, elem_of_app, list_elem_of_fmap. split.
    + intros [Hl Hd]. destruct (decide (n ∈ sliceNamesToUpdate st)) as [Hu|Hu].
      * apply elem_of_UnsortedList, list_elem_of_lookup in Hu as [i Hu].
        destruct (Forall2_lookup_l _ _ _ _ _ Hup Hu) as (t & Ht & Htl). simplify_eq.
        split; [right; by eapply list_elem_of_lookup_2|].
        apply (f_equal (.!! i)) in Nup. rewrite list_lookup_fmap, Ht, Hu in Nup. by injection Nup.
      * destruct (ni_same _ _ Hi n Hu) as (o & Ho & Hno & Hlo); [by eapply elem_of_dom_2|]. simplify_eq.
        split; [|done]. left. exists o. split; [done|]. by apply Eun.
    + intros [[(o & -> & [[Hu Hd] Ho]%Eun)|Hs] Hn].
      * change (es_Name o = n) in Hn. subst n. split; [|done].
        destruct (ni_same _ _ Hi (es_Name o) Hu) as (o' & Ho' & Hno & Hlo).
        { rewrite (ni_dom _ _ Hi). apply elem_of_list_to_set. by apply list_elem_of_fmap_2. }
        rewrite Hlo. do 2 f_equal.
        apply list_elem_of_lookup in Ho as [i Hi1]. apply list_elem_of_lookup in Ho' as [j Hj].
        assert (i = j) as ->; [|congruence]. eapply NoDup_lookup; [exact Hnd| |]; rewrite list_lookup_fmap;
          [by rewrite Hi1|rewrite Hj; simpl; by rewrite Hno].
      * apply list_elem_of_lookup in Hs as [i Hs]. destruct (Forall2_lookup_r _ _ _ _ _ Hup Hs) as (m & Hm & Hl).
        assert (m = n) as ->.
        { apply (f_equal (.!! i)) in Nup. rewrite list_lookup_fmap, Hs, Hm in Nup. simpl in Nup. congruence. }
        split; [done|]. pose proof (ni_up_del _ _ Hi) as Hud.
        apply list_elem_of_lookup_2, elem_of_UnsortedList in Hm. set_solver +Hud Hm.
Qed.

(** What the three lists of slices are. *)
Definition slices_ok (existing : list EndpointSlice) (em : endpointMeta) (res : pmResult) : Prop :=
  Forall (λ s, ∃ o, o ∈ existing ∧ es_Name o = es_Name s ∧ keeps o s ∧ cap o s) (pm_toUpdate res) ∧
  Forall (λ s, ∃ o, o ∈ existing ∧ s = sort_slice o) (pm_toDelete res) ∧
  Forall (fresh_slice em) (pm_toCreate res) ∧
  NoDup (es_Name <$> (pm_toUpdate res ++ pm_toDelete res)).

Lemma reconcileByPortMapping_spec fuel existing desired em :
  NoDup (es_Name <$> existing) → EmptyString ∉ es_Name <$> existing → es_wf desired →
  1 ≤ rc_maxEndpointsPerSlice r → (size desired ≤ fuel)%nat →
  ∃ res, reconcileByPortMapping fuel existing desired em = Ret res ∧
    published (vals desired)
      (slice_eps (unchangedSlices existing (pm_toUpdate res) (pm_toDelete res) ++ pm_toUpdate res ++ pm_toCreate res)) ∧
    slices_ok existing em res.
Proof.
  intros Hnd Hne Hwf Hmax Hfuel. unfold reconcileByPortMapping.
  destruct (step1_inv desired existing Hnd Hwf) as [Hi1 Hp1].
  set (st1 := foldl existing_step (pm_init desired) existing) in *.
  destruct (step2_inv desired existing st1 Hi1 Hp1) as (st2 & -> & Hi2 & Hp2). simpl.
  destruct (step3_inv desired existing em fuel st2 []) as (st3 & created & -> & Hi3 & Hp3 & He3 & Hf3); try done.
  { destruct Hp2 as [_ (ds & Hp & _)]. apply Permutation_length in Hp.
    rewrite length_app, !vals_length in Hp. lia. }
  simpl.
  destruct (lookup_names_spec (slicesByName st3) (sliceNamesToUpdate st3)) as (up & -> & Hup).
  { rewrite <- (ni_union _ _ Hi3). set_solver +. }
  destruct (lookup_names_spec (slicesByName st3) (sliceNamesToDelete st3)) as (del & -> & Hdel).
  { rewrite <- (ni_union _ _ Hi3). set_solver +. }
  simpl. eexists. split; [done|]. simpl. split.
  - destruct Hp3 as [_ (ds & Hp & Hpub)]. rewrite He3 in Hp. unfold vals in Hp at 1.
    rewrite map_to_list_empty, app_nil_r in Hp. rewrite <- Hp, slice_eps_app. apply published_sorted.
    rewrite slice_eps_app, app_assoc, <- slice_eps_sorted, <- slice_eps_app, <- (alive_eps existing st3 up del); done.
  - unfold slices_ok; simpl. split_and!.
    + apply Forall_forall. intros s [i Hs]%list_elem_of_lookup.
      destruct (Forall2_lookup_r _ _ _ _ _ Hup Hs) as (n & _ & Hl).
      destruct (ni_slice _ _ Hi3 _ _ Hl) as (o & ? & <- & Hk & Hc). exists o. by rewrite (keeps_name _ _ Hk).
    + apply Forall_forall. intros s [i Hs]%list_elem_of_lookup.
      destruct (Forall2_lookup_r _ _ _ _ _ Hdel Hs) as (n & Hn%list_elem_of_lookup_2%elem_of_UnsortedList & Hl).
      pose proof (ni_up_del _ _ Hi3) as Hud.
      destruct (ni_same _ _ Hi3 n) as (o & Ho & _ & Hlo); [set_solver +Hn Hud|by eapply elem_of_dom_2|].
      exists o. split; [done|]. congruence.
    + done.
    + rewrite fmap_app, (lookup_names_names _ _ _ _ Hi3 Hup), (lookup_names_names _ _ _ _ Hi3 Hdel).
      apply NoDup_app. split_and!; [apply NoDup_UnsortedList| |apply NoDup_UnsortedList].
      intros n. rewrite !elem_of_UnsortedList. pose proof (ni_up_del _ _ Hi3). set_solver.
Qed.

(** ** Nothing is written when nothing changed *)
Lemma published_cons_inv desired e es :
  es_wf desired → published (vals desired) (e :: es) →
  ∃ d, desired !! ep_hash e = Some d ∧ EndpointsEqualBeyondHash d e = true ∧
    published (vals (delete (ep_hash e) desired)) es.
Proof.
  intros Hwf (x & Hx & Hf). apply Forall2_cons_inv_r in Hf as (d & ds & [Hh Hb] & Hf & ->).
  assert (d ∈ vals desired) as Hd by (rewrite <- Hx; by left).
  unfold vals in Hd. apply list_elem_of_fmap in Hd as ([h d'] & Hd' & Hin%elem_of_map_to_list). simpl in Hd'. subst d'.
  destruct (Hwf _ _ Hin) as [Hhash _]. rewrite <- Hhash, <- Hh in Hin. exists d. split_and!; [done|done|].
  exists ds. split; [|done]. rewrite (vals_delete _ _ _ Hin) in Hx. by apply (Permutation_cons_inv (a := d)) in Hx.
Qed.

Lemma keep_loop_all eps rest desired :
  es_wf desired → published (vals desired) (eps ++ rest) →
  ∃ new desired', keep_loop eps desired = (new, false, desired') ∧ length new = length eps ∧
    es_wf desired' ∧ published (vals desired') rest.
Proof.
  revert desired. induction eps as [|e eps IH]; intros desired Hwf Hp; cbn [keep_loop].
  { by exists [], desired. }
  destruct (published_cons_inv _ _ _ Hwf Hp) as (d & Hd & Hb & Hp').
  change (EndpointSet_Get desired e) with (desired !! ep_hash e). rewrite Hd.
  change (EndpointSet_Delete desired [e]) with (delete (ep_hash e) desired).
  destruct (IH _ (es_wf_delete _ _ Hwf) Hp') as (new & d' & -> & Hl & ? & ?).
  rewrite Hb. exists (d :: new), d'. split_and!; [done|simpl; lia|done|done].
Qed.

Lemma step1_stable existing st :
  es_wf (desiredSet st) → published (vals (desiredSet st)) (slice_eps existing) →
  Forall (λ s, snd (setEndpointSliceLabels s service (rc_managedByName r)) = false) existing →
  let st' := foldl existing_step st existing in
  desiredSet st' = ∅ ∧ sliceNamesToUpdate st' = sliceNamesToUpdate st ∧
  sliceNamesToDelete st' = sliceNamesToDelete st ∧ numRemoved st' = numRemoved st.
Proof.
  revert st. induction existing as [|o existing IH]; intros st Hwf Hp Hl; simpl.
  { split_and!; try done. destruct Hp as (x & Hx & Hf). apply Forall2_nil_inv_r in Hf as ->.
    apply Permutation_length in Hx. rewrite vals_length in Hx. by apply map_size_empty_inv. }
  apply Forall_cons in Hl as [Ho Hl].
  change (slice_eps (o :: existing)) with (es_Endpoints o ++ slice_eps existing) in Hp.
  destruct (keep_loop_all _ _ _ Hwf Hp) as (new & d' & E & Hlen & Hwf' & Hp').
  set (st1 := existing_step st o).
  assert (desiredSet st1 = d' ∧ sliceNamesToUpdate st1 = sliceNamesToUpdate st ∧
    sliceNamesToDelete st1 = sliceNamesToDelete st ∧ numRemoved st1 = numRemoved st) as (E1 & E2 & E3 & E4).
  { unfold st1, existing_step. rewrite E. destruct (setEndpointSliceLabels _ _ _) as [ls ch]. simpl in Ho. subst ch.
    by rewrite Hlen, Z.eqb_refl. }
  destruct (IH st1) as (? & ? & ? & ?); [by rewrite E1|by rewrite E1|done|].
  split_and!; [done|congruence..].
Qed.

(** C19: reconciliation is stable.  When the existing slices already publish the
    desired endpoints one for one and carry the labels of the service, whatever
    the distribution over the slices, nothing is created, updated or
    deleted. *)
Theorem reconcileByPortMapping_stable fuel existing desired em :
  es_wf desired → published (vals desired) (slice_eps existing) →
  Forall (λ s, snd (setEndpointSliceLabels s service (rc_managedByName r)) = false) existing →
  reconcileByPortMapping fuel existing desired em = Ret (mkPMR [] [] [] 0 0).
Proof.
  intros Hwf Hp Hl. unfold reconcileByPortMapping.
  destruct (step1_stable existing (pm_init desired) Hwf Hp Hl) as (E1 & E2 & E3 & E4).
  set (st := foldl existing_step (pm_init desired) existing) in *. simpl in E2, E3, E4.
  unfold step2, EndpointSet_Len. rewrite E1, map_size_empty. simpl.
  assert (step3 fuel em st [] = Ret (st, [])) as ->.
  { destruct fuel; simpl; unfold EndpointSet_Len; by rewrite E1, map_size_empty. }
  simpl. unfold lookup_names. rewrite E2, E3, E4.
  assert (UnsortedList (∅ : gset string) = []) as ->; [|done].
  apply Permutation_nil. by rewrite UnsortedList_elements, elements_empty.
Qed.

(** C3: what [reconcileByPortMapping] is for.  For existing slices with
    distinct names and at least one endpoint per slice allowed, the function
    returns (a number of rounds equal to the number of desired endpoints is
    enough), and the slices it leaves alone, updates and creates publish every
    desired endpoint exactly once and nothing else, up to what the code
    compares.  An updated slice keeps the identity, the ports and the address
    type of an existing one and holds at most the maximum, or what it held
    before; a created one belongs to the service and respects the maximum; no
    slice is both updated and deleted. *)
Theorem reconcileByPortMapping_correct fuel existing desired em :
  NoDup (es_Name <$> existing) → EmptyString ∉ es_Name <$> existing → es_wf desired →
  1 ≤ rc_maxEndpointsPerSlice r → (size desired ≤ fuel)%nat →
  ∃ res, reconcileByPortMapping fuel existing desired em = Ret res ∧
    published (vals desired)
      (slice_eps (unchangedSlices existing (pm_toUpdate res) (pm_toDelete res) ++ pm_toUpdate res ++ pm_toCreate res)) ∧
    slices_ok existing em res.
Proof. apply reconcileByPortMapping_spec. Qed.

(** C32: with a maximum of zero the third loop never ends: as long as a desired
    endpoint has no slice, a new empty slice is created in every round. *)
Theorem reconcileByPortMapping_zero_max fuel desired em :
  rc_maxEndpointsPerSlice r = 0 → desired ≠ ∅ →
  reconcileByPortMapping fuel [] desired em = Spin.
Proof.
  intros Hmax Hne. unfold reconcileByPortMapping. simpl.
  assert ((0 <? EndpointSet_Len desired)%nat = true) as Hlen.
  { apply Nat.ltb_lt. unfold EndpointSet_Len. apply map_size_non_empty_iff in Hne. lia. }
  assert (step2 (pm_init desired) = Ret (pm_init desired)) as ->.
  { unfold step2. change (size (sliceNamesToUpdate (pm_init desired))) with 0%nat. by rewrite andb_false_r. }
  simpl.
  assert (∀ created, step3 fuel em (pm_init desired) created = Spin) as ->; [|done].
  induction fuel as [|fuel IH]; intros created; cbn [step3 desiredSet pm_init]; rewrite Hlen; [done|].
  unfold step3_round. change (size (sliceNamesUnchanged (pm_init desired))) with 0%nat.
  rewrite andb_false_r. simpl. unfold fill_slice. rewrite Hmax. simpl. apply IH.
Qed.

End reconcile.

(** ** Witnesses *)
Definition demo_desired : EndpointSet :=
  @EndpointSet_Insert list_runtime demo_lib ∅ [demo_ep "10.0.0.1" "p1"; demo_ep "10.0.0.2" "p2"; demo_ep "10.0.0.3" "p3"].

Definition demo_existing : list EndpointSlice :=
  [demo_slice "s1" [demo_ep "10.0.0.1" "p1"; demo_ep "10.0.0.9" "p9"]; demo_slice "s2" [demo_ep "10.0.0.8" "p8"]].

Lemma demo_desired_wf : @es_wf list_runtime demo_lib demo_desired.
Proof. apply (@EndpointSet_Insert_wf list_runtime demo_lib), (@es_wf_empty list_runtime demo_lib). Qed.

Lemma reconcileByPortMapping_correct_witness :
  ∃ res, @reconcileByPortMapping list_runtime demo_lib demo_slicelib (mkRC 2 "fleetboard") (demo_service "a" "x")
           3 demo_existing demo_desired (mkEndpointMeta [] AddressTypeIPv4) = Ret res ∧
    @published list_runtime demo_lib (vals demo_desired)
      (slice_eps (unchangedSlices demo_existing (pm_toUpdate res) (pm_toDelete res) ++ pm_toUpdate res ++ pm_toCreate res)).
Proof.
  destruct (@reconcileByPortMapping_correct list_runtime demo_lib demo_slicelib (mkRC 2 "fleetboard")
    (demo_service "a" "x") 3 demo_existing demo_desired (mkEndpointMeta [] AddressTypeIPv4)) as (res & E & Hp & _).
  - apply (bool_decide_unpack (NoDup _)). vm_compute. exact I.
  - apply (bool_decide_unpack (EmptyString ∉ _)). vm_compute. exact I.
  - exact demo_desired_wf.
  - simpl. lia.
  - apply (bool_decide_unpack (_ ≤ _)%nat). vm_compute. exact I.
  - exists res. exact (conj E Hp).
Defined.

Lemma reconcileByPortMapping_stable_witness :
  @reconcileByPortMapping list_runtime demo_lib demo_slicelib (mkRC 2 "fleetboard") (demo_service "a" "x")
    0 [demo_slice "s1" [demo_ep "10.0.0.1" "p1"]]
    (@EndpointSet_Insert list_runtime demo_lib ∅ [demo_ep "10.0.0.1" "p1"]) (mkEndpointMeta [] AddressTypeIPv4)
  = Ret (mkPMR [] [] [] 0 0).
Proof.
  apply (@reconcileByPortMapping_stable list_runtime demo_lib demo_slicelib (mkRC 2 "fleetboard") (demo_service "a" "x")).
  - apply (@EndpointSet_Insert_wf list_runtime demo_lib), (@es_wf_empty list_runtime demo_lib).
  - exact (@published_refl list_runtime demo_lib [demo_ep "10.0.0.1" "p1"]).
  - apply (bool_decide_unpack (Forall _ _)). vm_compute. exact I.
Defined.

Lemma reconcileByPortMapping_zero_max_witness :
  @reconcileByPortMapping list_runtime demo_lib demo_slicelib (mkRC 0 "fleetboard") (demo_service "a" "x")
    7 [] demo_desired (mkEndpointMeta [] AddressTypeIPv4) = Spin.
Proof.
  apply (@reconcileByPortMapping_zero_max list_runtime demo_lib demo_slicelib (mkRC 0 "fleetboard") (demo_service "a" "x"));
    [reflexivity|discriminate].
Defined.
