(* ===== verification/Reconciler.v ===== *)
(** * The reconciler

    [pkg/controller/endpointslice/reconciler.go]: the group of slices of one
    address type ([reconcileByAddressType]), the writes to the API server
    ([finalize]) and the whole service ([Reconcile]).  The metrics that are
    only observed (counters and histograms) are not part of the state. *)
From stdpp Require Import prelude gmap strings list.
From S2P Require Import Prelude K8s EpUtil Tracker SliceUtils Topology PortMapping.
Open Scope Z_scope.

(** The state a reconciler changes: the API server, its tracker, its metrics
    cache, its topology cache (a pointer that may be nil) and the events it
    recorded. *)
Record RState (W : Type) := mkRS {
  rs_api : W;
  rs_tracker : EndpointSliceTracker;
  rs_metrics : Cache;
  rs_topology : option TopologyCache;
  rs_events : list EventBuilder }.
Arguments mkRS {W} _ _ _ _ _.
Arguments rs_api {W} _.
Arguments rs_tracker {W} _.
Arguments rs_metrics {W} _.
Arguments rs_topology {W} _.
Arguments rs_events {W} _.

Section writes.
Context `{SliceClient W}.

(** A call of the client followed by the tracker: the error, if any. *)
Definition do_create (st : RState W) (ns : string) (s : EndpointSlice) : RState W * option ApiError :=
  match api_create (rs_api st) ns s with
  | (w, inl created) =>
      (mkRS w (Tracker_Update (rs_tracker st) created) (rs_metrics st) (rs_topology st) (rs_events st), None)
  | (w, inr e) => (mkRS w (rs_tracker st) (rs_metrics st) (rs_topology st) (rs_events st), Some e)
  end.

Definition do_update (st : RState W) (ns : string) (s : EndpointSlice) : RState W * option ApiError :=
  match api_update (rs_api st) ns s with
  | (w, inl updated) =>
      (mkRS w (Tracker_Update (rs_tracker st) updated) (rs_metrics st) (rs_topology st) (rs_events st), None)
  | (w, inr e) => (mkRS w (rs_tracker st) (rs_metrics st) (rs_topology st) (rs_events st), Some e)
  end.

Definition do_delete (st : RState W) (ns : string) (s : EndpointSlice) : RState W * option ApiError :=
  match api_delete (rs_api st) ns (es_Name s) with
  | (w, None) =>
      (mkRS w (ExpectDeletion (rs_tracker st) s) (rs_metrics st) (rs_topology st) (rs_events st), None)
  | (w, Some e) => (mkRS w (rs_tracker st) (rs_metrics st) (rs_topology st) (rs_events st), Some e)
  end.

(** A loop of [finalize]: stop at the first error. *)
Fixpoint each (call : RState W → string → EndpointSlice → RState W * option ApiError)
    (st : RState W) (ns : string) (l : list EndpointSlice) : RState W * option (EndpointSlice * ApiError) :=
  match l with
  | [] => (st, None)
  | s :: rest => match call st ns s with
                 | (st', None) => each call st' ns rest
                 | (st', Some e) => (st', Some (s, e))
                 end
  end.

End writes.

(** The first loop of [finalize]: a slice to create takes the place, and the
    name, of an owned slice to delete.  [kept] are the deletions passed over. *)
Fixpoint reuse_loop (service : Service) (toDelete kept toCreate toUpdate : list EndpointSlice)
    : list EndpointSlice * list EndpointSlice * list EndpointSlice :=
  match toDelete with
  | [] => (toCreate, toUpdate, kept)
  | d :: rest =>
      match last toCreate with
      | None => (toCreate, toUpdate, kept ++ toDelete)
      | Some slice =>
          if bool_decide (es_AddressType d = es_AddressType slice) && ownedBy d service then
            reuse_loop service rest kept (removelast toCreate)
              (toUpdate ++ [set_meta (set_Name (es_Name d)) slice])
          else reuse_loop service rest (kept ++ [d]) toCreate toUpdate
      end
  end.

Section finalize.
Context `{GoRuntime} `{EpLib} `{SliceLib} `{SliceClient W}.

Definition finalize (st : RState W) (service : Service) (slicesToCreate slicesToUpdate slicesToDelete : list EndpointSlice)
    (triggerTime : Time) : RState W * option string :=
  let ns := Namespace (svc_meta service) in
  let stamp := (λ s, addTriggerTimeAnnotation s triggerTime) in
  let '(slicesToCreate, slicesToUpdate, slicesToDelete) :=
    reuse_loop service slicesToDelete [] slicesToCreate slicesToUpdate in
  let '(st, created) := match DeletionTimestamp (svc_meta service) with
                        | None => each do_create st ns (stamp <$> slicesToCreate)
                        | Some _ => (st, None)
                        end in
  match created with
  | Some (_, e) =>
      if bool_decide (err_reason e = ReasonNamespaceTerminating) then (st, None)
      else (st, Some ("failed to create EndpointSlice for Service " +:+ NN_String (mkNN ns (Name (svc_meta service)))
                        +:+ ": " +:+ err_msg e))
  | None =>
      match each do_update st ns (stamp <$> slicesToUpdate) with
      | (st, Some (s, e)) =>
          (st, Some ("failed to update " +:+ es_Name s +:+ " EndpointSlice for Service "
                       +:+ NN_String (mkNN ns (Name (svc_meta service))) +:+ ": " +:+ err_msg e))
      | (st, None) =>
          match each do_delete st ns slicesToDelete with
          | (st, Some (s, e)) =>
              (st, Some ("failed to delete " +:+ es_Name s +:+ " EndpointSlice for Service "
                           +:+ NN_String (mkNN ns (Name (svc_meta service))) +:+ ": " +:+ err_msg e))
          | (st, None) => (st, None)
          end
      end
  end.

End finalize.

(** ** [placeholderSliceCompare.DeepEqual]: the slices agree on the namespace,
    the labels and the fields outside the metadata. *)
Definition labels_sub (a b : GoMap) : bool :=
  forallb (λ '(k, v), bool_decide (mstr b k = v)) (map_to_list (mentries a)).

Definition placeholderSliceCompare (a b : EndpointSlice) : bool :=
  bool_decide (Namespace (es_meta a) = Namespace (es_meta b))
  && labels_sub (Labels (es_meta a)) (Labels (es_meta b)) && labels_sub (Labels (es_meta b)) (Labels (es_meta a))
  && bool_decide (es_AddressType a = es_AddressType b) && bool_decide (es_Endpoints a = es_Endpoints b)
  && bool_decide (es_Ports a = es_Ports b).

Section reconciler.
Context `{GoRuntime} `{EpLib} `{SliceLib} `{QuantityLib} `{SliceClient W}.
(** [nodeLister.Get] and the fuel of the topology cache's matching loop. *)
Context (nodeLister_Get : string → Node + ApiError) (topologyFuel : nat).
Context (r : ReconcilerConfig).

(** ** [reconcileByAddressType] *)

(** The existing slices by port map: [NewPortMapKey] sorts the ports of a slice
    in place. *)
Definition sort_ports (s : EndpointSlice) : EndpointSlice :=
  mkSlice (es_meta s) (es_AddressType s) (es_Endpoints s) (snd (NewPortMapKey (es_Ports s))).
Definition port_key (s : EndpointSlice) : string := fst (NewPortMapKey (es_Ports s)).

Definition group_step (service : Service) (acc : gmap string (list EndpointSlice) * list EndpointSlice)
    (s : EndpointSlice) : gmap string (list EndpointSlice) * list EndpointSlice :=
  let '(byPort, toDelete) := acc in
  if ownedBy s service then
    (<[port_key s := default [] (byPort !! port_key s) ++ [sort_ports s]]> byPort, toDelete)
  else (byPort, toDelete ++ [s]).

(** The desired state: the metadata and the endpoints of every port map, and
    the errors so far. *)
Record desiredState := mkDS {
  ds_meta : gmap string endpointMeta; ds_endpoints : gmap string EndpointSet; ds_errs : list string }.

Definition desired_step (service : Service) (addressType : string) (ds : desiredState) (pod : Pod)
    : desiredState + ApiError :=
  if negb (ShouldPodBeInEndpoints pod true) then inl ds
  else
    let '(epHash, endpointPorts) := NewPortMapKey (getEndpointPorts service pod) in
    let eps := if bool_decide (is_Some (ds_endpoints ds !! epHash)) then ds_endpoints ds
               else <[epHash := ∅]> (ds_endpoints ds) in
    let meta := if bool_decide (is_Some (ds_meta ds !! epHash)) then ds_meta ds
                else <[epHash := mkEndpointMeta endpointPorts addressType]> (ds_meta ds) in
    let add node :=
      let endpoint := podToEndpoint pod node service in
      if (0 <? length (Addresses endpoint))%nat
      then inl (mkDS meta (<[epHash := EndpointSet_Insert (default ∅ (eps !! epHash)) [endpoint]]> eps) (ds_errs ds))
      else inl (mkDS meta eps (ds_errs ds)) in
    match nodeLister_Get (pod_NodeName pod) with
    | inl node => add (Some node)
    | inr e =>
        if negb (IsNotFound e) then inr e
        else if negb (svc_PublishNotReadyAddresses service) then
          inl (mkDS meta eps (ds_errs ds ++
            ["skipping Pod " +:+ Name (pod_meta pod) +:+ " for Service " +:+ NN_String (mkNN (Namespace (svc_meta service))
               (Name (svc_meta service))) +:+ ": Node " +:+ pod_NodeName pod +:+ " Not Found"]))
        else add None
    end.

Fixpoint desired_loop (service : Service) (addressType : string) (ds : desiredState) (pods : list Pod)
    : desiredState + ApiError :=
  match pods with
  | [] => inl ds
  | pod :: rest => match desired_step service addressType ds pod with
                   | inl ds' => desired_loop service addressType ds' rest
                   | inr e => inr e
                   end
  end.

(** The loop over the desired port maps: the slices and the metrics so far. *)
Record portLoop := mkPL {
  pl_toCreate : list EndpointSlice; pl_toUpdate : list EndpointSlice; pl_toDelete : list EndpointSlice;
  pl_metrics : ServicePortCache }.

Definition port_step (service : Service) (byPort : gmap string (list EndpointSlice)) (meta : gmap string endpointMeta)
    (acc : portLoop) (pe : string * EndpointSet) : outcome portLoop :=
  let '(portMap, desiredEndpoints) := pe in
  let existing := default [] (byPort !! portMap) in
  em ← deref (meta !! portMap);
  res ← reconcileByPortMapping r service (EndpointSet_Len desiredEndpoints) existing desiredEndpoints em;
  let slices := Z.of_nat (length existing) + Z.of_nat (length (pm_toCreate res)) - Z.of_nat (length (pm_toDelete res)) in
  Ret (mkPL (pl_toCreate acc ++ pm_toCreate res) (pl_toUpdate acc ++ pm_toUpdate res) (pl_toDelete acc ++ pm_toDelete res)
         (SPC_Set (pl_metrics acc) portMap (mkEff (Z.of_nat (EndpointSet_Len desiredEndpoints)) slices))).

Fixpoint port_loop (service : Service) (byPort : gmap string (list EndpointSlice)) (meta : gmap string endpointMeta)
    (acc : portLoop) (pes : list (string * EndpointSet)) : outcome portLoop :=
  match pes with
  | [] => Ret acc
  | pe :: rest => acc' ← port_step service byPort meta acc pe; port_loop service byPort meta acc' rest
  end.

(** The slices of port maps that are no longer desired. *)
Definition obsolete (byPort : gmap string (list EndpointSlice)) (eps : gmap string EndpointSet) : list EndpointSlice :=
  go_range byPort ≫= λ '(portMap, slices), if bool_decide (is_Some (eps !! portMap)) then [] else slices.

(** The existing slices after the in-place sorting of ports and addresses. *)
Definition touched (service : Service) (eps : gmap string EndpointSet) (s : EndpointSlice) : EndpointSlice :=
  if ownedBy s service then
    if bool_decide (is_Some (eps !! port_key s)) then sort_slice (sort_ports s) else sort_ports s
  else s.

(** The placeholder slice of a service without endpoints. *)
Definition add_placeholder (service : Service) (addressType : string) (existing : nat) (pl : portLoop) : portLoop :=
  if (existing =? length (pl_toDelete pl))%nat && (length (pl_toCreate pl) <? 1)%nat then
    let placeholder := newEndpointSlice service (mkEndpointMeta [] addressType) (rc_managedByName r) in
    let metrics := SPC_Set (pl_metrics pl) (fst (NewPortMapKey (es_Ports placeholder))) (mkEff 0 1) in
    match pl_toDelete pl with
    | [d] => if placeholderSliceCompare d placeholder
             then mkPL (pl_toCreate pl) (pl_toUpdate pl) [] metrics
             else mkPL (pl_toCreate pl ++ [placeholder]) (pl_toUpdate pl) (pl_toDelete pl) metrics
    | _ => mkPL (pl_toCreate pl ++ [placeholder]) (pl_toUpdate pl) (pl_toDelete pl) metrics
    end
  else pl.

(** The topology hints: the slices to create and update, and the events. *)
Definition apply_hints (st : RState W) (service : Service) (si : SliceInfo)
    : outcome (RState W * SliceInfo * list EventBuilder) :=
  match rs_topology st with
  | Some t =>
      if hintsEnabled (Annotations (svc_meta service)) then
        '(t', si', events) ← AddHints topologyFuel t si;
        Ret (mkRS (rs_api st) (rs_tracker st) (rs_metrics st) (Some t') (rs_events st), si', events)
      else
        let events := if HasPopulatedHints t (si_ServiceKey si)
                      then [disabledEvent (FormatWithAddressType TopologyAwareHintsDisabled (si_AddressType si))] else [] in
        let t' := RemoveHints t (si_ServiceKey si) (si_AddressType si) in
        Ret (mkRS (rs_api st) (rs_tracker st) (rs_metrics st) (Some t') (rs_events st), RemoveHintsFromSlices si, events)
  | None => Ret (st, RemoveHintsFromSlices si, [])
  end.

(** The errors are the aggregate the Go function returns, nil when empty. *)
Definition reconcileByAddressType (st : RState W) (service : Service) (pods : list Pod)
    (existingSlices : list EndpointSlice) (triggerTime : Time) (addressType : string) : outcome (RState W * list string) :=
  let '(byPort, notOwned) := foldl (group_step service) (∅, []) existingSlices in
  match desired_loop service addressType (mkDS ∅ ∅ []) pods with
  | inr e => Ret (st, [err_msg e])
  | inl ds =>
      pl ← port_loop service byPort (ds_meta ds) (mkPL [] [] notOwned NewServicePortCache) (go_range (ds_endpoints ds));
      let pl := mkPL (pl_toCreate pl) (pl_toUpdate pl) (pl_toDelete pl ++ obsolete byPort (ds_endpoints ds)) (pl_metrics pl) in
      let pl := add_placeholder service addressType (length existingSlices) pl in
      let nn := mkNN (Namespace (svc_meta service)) (Name (svc_meta service)) in
      let st := mkRS (rs_api st) (rs_tracker st) (UpdateServicePortCache (rs_metrics st) nn (pl_metrics pl))
                  (rs_topology st) (rs_events st) in
      let si := mkSI (NN_String nn) addressType (pl_toCreate pl) (pl_toUpdate pl)
                  (unchangedSlices (touched service (ds_endpoints ds) <$> existingSlices) (pl_toUpdate pl) (pl_toDelete pl)) in
      '(st, si, events) ← apply_hints st service si;
      let '(st, err) := finalize st service (si_ToCreate si) (si_ToUpdate si) (pl_toDelete pl) triggerTime in
      let errs := match err with Some e => ds_errs ds ++ [e] | None => ds_errs ds end in
      Ret (mkRS (rs_api st) (rs_tracker st) (rs_metrics st) (rs_topology st) (rs_events st ++ events), errs)
  end.

(** ** [Reconcile] *)

(** The loop that sorts the slices by address type; those of a type the service
    no longer has are deleted, and the topology cache forgets them. *)
Definition split_step (supported : gset string)
    (acc : gmap string (list EndpointSlice) * list EndpointSlice * option TopologyCache) (s : EndpointSlice)
    : gmap string (list EndpointSlice) * list EndpointSlice * option TopologyCache :=
  let '(byType, toDelete, topo) := acc in
  if bool_decide (es_AddressType s ∈ supported) then
    (<[es_AddressType s := default [] (byType !! es_AddressType s) ++ [s]]> byType, toDelete, topo)
  else
    let topo' := match topo with
                 | Some t => match ServiceControllerKey (Some s) with
                             | Ret svcKey => Some (RemoveHints t svcKey (es_AddressType s))
                             | _ => Some t
                             end
                 | None => None
                 end in
    (byType, toDelete ++ [s], topo').

Fixpoint types_loop (st : RState W) (service : Service) (pods : list Pod) (byType : gmap string (list EndpointSlice))
    (triggerTime : Time) (types : list string) (errs : list string) : outcome (RState W * list string) :=
  match types with
  | [] => Ret (st, errs)
  | addressType :: rest =>
      '(st, e) ← reconcileByAddressType st service pods (default [] (byType !! addressType)) triggerTime addressType;
      types_loop st service pods byType triggerTime rest (errs ++ e)
  end.

Fixpoint delete_loop (st : RState W) (service : Service) (toDelete : list EndpointSlice) (errs : list string)
    : RState W * list string :=
  match toDelete with
  | [] => (st, errs)
  | s :: rest =>
      match do_delete st (Namespace (svc_meta service)) s with
      | (st, None) => delete_loop st service rest errs
      | (st, Some e) =>
          delete_loop st service rest (errs ++
            ["error deleting " +:+ es_Name s +:+ " EndpointSlice for Service "
               +:+ NN_String (mkNN (Namespace (svc_meta service)) (Name (svc_meta service))) +:+ ": " +:+ err_msg e])
      end
  end.

Definition Reconcile (st : RState W) (service : Service) (pods : list Pod) (existingSlices : list EndpointSlice)
    (triggerTime : Time) : outcome (RState W * list string) :=
  let supported := getAddressTypesForService service in
  let '(byType, toDelete, topo) := foldl (split_step supported) (∅, [], rs_topology st) existingSlices in
  let st := mkRS (rs_api st) (rs_tracker st) (rs_metrics st) topo (rs_events st) in
  '(st, errs) ← types_loop st service pods byType triggerTime (UnsortedList supported) [];
  Ret (delete_loop st service toDelete errs).

(** ** The rest of the interface *)
Definition NewReconciler (w : W) (maxEndpointsPerSlice : Z) (tracker : EndpointSliceTracker)
    (topologyCache : option TopologyCache) : RState W :=
  mkRS w tracker (NewCache maxEndpointsPerSlice) topologyCache [].

Definition Reconciler_DeleteService (st : RState W) (namespace name : string) : RState W :=
  mkRS (rs_api st) (rs_tracker st) (Cache_DeleteService (rs_metrics st) (mkNN namespace name)) (rs_topology st) (rs_events st).

Definition GetControllerName : string := rc_managedByName r.

Definition ManagedByController (s : EndpointSlice) : bool :=
  bool_decide (mstr (Labels (es_meta s)) LabelManagedBy = rc_managedByName r).

Definition ManagedByChanged (s1 s2 : EndpointSlice) : bool :=
  negb (eqb (ManagedByController s1) (ManagedByController s2)).

End reconciler.

(** ** What [finalize] leaves at the API server *)
Definition put_all (m : gmap string EndpointSlice) (l : list EndpointSlice) : gmap string EndpointSlice :=
  foldl (λ m s, <[es_Name s := s]> m) m l.
Definition names (l : list EndpointSlice) : gset string := list_to_set (es_Name <$> l).

Lemma names_cons s l : names (s :: l) = {[es_Name s]} ∪ names l.
Proof. done. Qed.

Lemma names_app l k : names (l ++ k) = names l ∪ names k.
Proof. unfold names. by rewrite fmap_app, list_to_set_app_L. Qed.

Lemma elem_of_names l n : n ∈ names l ↔ n ∈ es_Name <$> l.
Proof. apply elem_of_list_to_set. Qed.

Lemma alive_alive m X Y : alive (alive m X) Y = alive m (X ∪ Y).
Proof.
  apply map_eq. intros n. apply option_eq. intros s. rewrite !alive_lookup, not_elem_of_union. naive_solver.
Qed.

Lemma alive_id m X : dom m ## X → alive m X = m.
Proof.
  intros HX. apply map_eq. intros n. apply option_eq. intros s. rewrite alive_lookup.
  split; [naive_solver|]. intros Hs. split; [done|]. apply elem_of_dom_2 in Hs. set_solver.
Qed.

Lemma alive_put_all m l X : names l ## X → alive (put_all m l) X = put_all (alive m X) l.
Proof.
  revert m. induction l as [|s l IH]; intros m; [done|]. rewrite names_cons. intros HX.
  simpl. rewrite IH by set_solver. f_equal. apply alive_insert. set_solver.
Qed.

Lemma put_all_ne m l n : n ∉ names l → put_all m l !! n = m !! n.
Proof.
  revert m. induction l as [|s l IH]; intros m; [done|]. rewrite names_cons. intros Hn. simpl. rewrite IH by set_solver.
  apply lookup_insert_ne. set_solver.
Qed.

Lemma eps_put_all m l :
  NoDup (es_Name <$> l) → eps_of (put_all m l) ≡ₚ slice_eps l ++ eps_of (alive m (names l)).
Proof.
  revert m. induction l as [|s l IH]; intros m Hnd.
  { simpl. by rewrite alive_id by set_solver. }
  rewrite fmap_cons in Hnd. apply NoDup_cons in Hnd as [Hn Hnd]. simpl. rewrite IH by done.
  assert (es_Name s ∉ names l) as Hs by by rewrite elem_of_names.
  rewrite (alive_insert m (names l) (es_Name s) s) by done.
  rewrite <- insert_delete_eq, eps_of_insert by apply lookup_delete_eq.
  assert (delete (es_Name s) (alive m (names l)) = alive m (names (s :: l))) as ->.
  { apply map_eq. intros n. apply option_eq. intros t. rewrite lookup_delete_Some, !alive_lookup, names_cons. set_solver. }
  unfold slice_eps at 2. simpl. fold (slice_eps l).
  by rewrite !app_assoc, (Permutation_app_comm (slice_eps l)).
Qed.

Section effects.
Context `{SliceServer W}.

Definition view (st : RState W) (ns : string) : gmap string EndpointSlice := api_slices (rs_api st) ns.

Lemma each_create_ok st ns l st' :
  each do_create st ns l = (st', None) →
  ∃ created, Forall2 same_contents created l ∧ NoDup (es_Name <$> created) ∧
    names created ## dom (view st ns) ∧ view st' ns = put_all (view st ns) created.
Proof.
  revert st. induction l as [|s l IH]; intros st; simpl.
  { intros [= ->]. exists []. split_and!; [constructor|constructor|set_solver|done]. }
  unfold do_create. destruct (api_create (rs_api st) ns s) as [w [c|e]] eqn:E; [|done].
  apply api_create_ok in E as (Hf & _ & Hc & Hv & _). intros Hl.
  destruct (IH _ Hl) as (created & Hs & Hnd & Hdis & Hview).
  unfold view in *. simpl in *. rewrite Hv in Hdis, Hview. rewrite dom_insert_L in Hdis.
  exists (c :: created). split_and!; [by constructor| | |done].
  - rewrite fmap_cons. apply NoDup_cons. split; [|done]. rewrite <- elem_of_names. set_solver.
  - rewrite names_cons. apply not_elem_of_dom in Hf. set_solver.
Qed.

Lemma each_update_ok st ns l st' :
  each do_update st ns l = (st', None) →
  ∃ updated, Forall2 (λ c s, es_Name c = es_Name s ∧ same_contents c s) updated l ∧
    view st' ns = put_all (view st ns) updated.
Proof.
  revert st. induction l as [|s l IH]; intros st; simpl.
  { intros [= ->]. exists []. by split. }
  unfold do_update. destruct (api_update (rs_api st) ns s) as [w [c|e]] eqn:E; [|done].
  apply api_update_ok in E as (_ & Hn & Hc & Hv). intros Hl.
  destruct (IH _ Hl) as (updated & Hs & Hview). unfold view in *. simpl in *.
  exists (c :: updated). split; [by constructor|]. simpl. by rewrite Hn, <- Hv.
Qed.

Lemma each_delete_ok st ns l st' :
  each do_delete st ns l = (st', None) → view st' ns = alive (view st ns) (names l).
Proof.
  revert st. induction l as [|s l IH]; intros st; simpl.
  { intros [= ->]. by rewrite alive_id by set_solver. }
  unfold do_delete. destruct (api_delete (rs_api st) ns (es_Name s)) as [w [e|]] eqn:E; [done|].
  apply api_delete_ok in E. intros ->%IH. unfold view. simpl. rewrite E.
  apply map_eq. intros n. apply option_eq. intros t.
  rewrite !alive_lookup, lookup_delete_Some, names_cons. set_solver.
Qed.

End effects.

(** The first loop moves slices from the creations to the updates and keeps
    both the endpoints that are written and the names that are touched. *)
Lemma reuse_loop_spec service del kept cr up cr' up' del' :
  reuse_loop service del kept cr up = (cr', up', del') →
  slice_eps cr' ++ slice_eps up' ≡ₚ slice_eps cr ++ slice_eps up ∧
  es_Name <$> (up' ++ del') ≡ₚ es_Name <$> (up ++ kept ++ del).
Proof.
  revert kept cr up. induction del as [|d del IH]; intros kept cr up; simpl.
  { intros [= <- <- <-]. by rewrite app_nil_r. }
  destruct (last cr) as [s|] eqn:El; [|by intros [= <- <- <-]].
  apply last_Some in El as [cr0 ->].
  destruct (_ && _).
  - rewrite removelast_last. intros [He Hn]%IH. split.
    + rewrite He, !slice_eps_app. rewrite <- !app_assoc. f_equiv. apply Permutation_app_comm.
    + rewrite Hn, !fmap_app. simpl. rewrite <- app_assoc. f_equiv. simpl. by rewrite Permutation_middle.
  - intros [He Hn]%IH. split; [done|]. rewrite Hn. by rewrite <- (app_assoc kept).
Qed.

Lemma stamp_names `{SliceLib} t (l : list EndpointSlice) : es_Name <$> ((λ s, addTriggerTimeAnnotation s t) <$> l) = es_Name <$> l.
Proof. rewrite <- list_fmap_compose. apply list_fmap_ext. by intros i []. Qed.

Lemma stamp_eps `{SliceLib} t (l : list EndpointSlice) : slice_eps ((λ s, addTriggerTimeAnnotation s t) <$> l) = slice_eps l.
Proof. unfold slice_eps. induction l as [|s l IH]; [done|]. rewrite fmap_cons, !bind_cons, IH. by destruct s. Qed.

Lemma same_contents_eps l k : Forall2 same_contents l k → slice_eps l = slice_eps k.
Proof. unfold slice_eps. induction 1 as [|c s l k [He _] _ IH]; [done|]. by rewrite !bind_cons, He, IH. Qed.

Section finalize_effect.
Context `{GoRuntime} `{EpLib} `{SliceLib} `{SliceServer W}.

(** A successful [finalize]: the endpoints stored, and the slices it did not touch. *)
Lemma finalize_leaves st service cr up del t st' :
  let ns := Namespace (svc_meta service) in
  (∀ w s w' e, api_create w ns s = (w', inr e) → err_reason e ≠ ReasonNamespaceTerminating) →
  DeletionTimestamp (svc_meta service) = None →
  NoDup (es_Name <$> (up ++ del)) → names (up ++ del) ⊆ dom (view st ns) →
  finalize st service cr up del t = (st', None) →
  eps_of (view st' ns) ≡ₚ slice_eps cr ++ slice_eps up ++ eps_of (alive (view st ns) (names (up ++ del))) ∧
  ∀ n s, view st ns !! n = Some s → n ∉ names (up ++ del) → view st' ns !! n = Some s.
Proof.
  intros ns Hterm Hdel Hnd Hsub. unfold finalize. fold ns. rewrite Hdel.
  destruct (reuse_loop service del [] cr up) as [[cr' up'] del'] eqn:Er.
  apply reuse_loop_spec in Er as [He Hn]. simpl in Hn.
  destruct (each do_create st ns _) as [st1 [[s e]|]] eqn:E1.
  { case_bool_decide as Hr; [|done]. exfalso. clear -E1 Hterm Hr.
    revert st E1. generalize ((λ s, addTriggerTimeAnnotation s t) <$> cr'). induction l as [|x l IH]; intros st; simpl; [done|].
    unfold do_create. destruct (api_create (rs_api st) ns x) as [w [c|e']] eqn:E; [apply IH|].
    intros [= _ _ ->]. by eapply Hterm. }
  destruct (each do_update st1 ns _) as [st2 [[s e]|]] eqn:E2; [done|].
  destruct (each do_delete st2 ns _) as [st3 [[s e]|]] eqn:E3; [done|]. intros [= <-].
  apply each_create_ok in E1 as (created & Hc & Hcnd & Hcdis & Hv1).
  apply each_update_ok in E2 as (updated & Hu & Hv2). apply each_delete_ok in E3 as Hv3.
  assert (es_Name <$> updated = es_Name <$> up') as Nu.
  { rewrite <- (stamp_names t up'). clear -Hu. induction Hu as [|c s l k [E _] _ IH]; [done|]. by rewrite !fmap_cons, E, IH. }
  assert (slice_eps updated = slice_eps up') as Eu.
  { rewrite <- (stamp_eps t up'). apply same_contents_eps. eapply Forall2_impl; [exact Hu|]. naive_solver. }
  apply same_contents_eps in Hc as Ec. rewrite stamp_eps in Ec.
  assert (names (up' ++ del') = names (up ++ del)) as Hnames.
  { apply set_eq. intros n. rewrite !elem_of_names. by rewrite Hn. }
  rewrite names_app in Hnames.
  assert (names updated = names up') as Nu' by (unfold names; by rewrite Nu).
  rewrite <- Hn, fmap_app in Hnd. apply NoDup_app in Hnd as (Hndu & Hdisj & _).
  assert (names updated ## names del') as Hud.
  { rewrite Nu'. intros n. rewrite !elem_of_names. apply Hdisj. }
  split; last first.
  { intros n s Hs Hns. rewrite <- Hnames, not_elem_of_union in Hns. destruct Hns as [Hn1 Hn2].
    rewrite Hv3, alive_lookup. split; [|done]. rewrite Hv2, put_all_ne by (by rewrite Nu'). rewrite Hv1, put_all_ne; [done|].
    intros Hin. apply elem_of_dom_2 in Hs. set_solver +Hcdis Hin Hs. }
  rewrite Hv3, Hv2, alive_put_all, Hv1 by done. rewrite alive_put_all by set_solver.
  rewrite eps_put_all by by rewrite Nu. rewrite alive_put_all by set_solver.
  rewrite eps_put_all, !alive_alive by done. rewrite Eu, Ec.
  assert (alive (view st ns) (names del' ∪ (names updated ∪ names created)) = alive (view st ns) (names (up ++ del))) as ->.
  { rewrite (assoc_L (∪)), <- alive_alive, alive_id; [f_equal; set_solver|].
    intros n [s [Hs _]%alive_lookup]%elem_of_dom. apply elem_of_dom_2 in Hs. set_solver. }
  rewrite (app_assoc (slice_eps up')), (Permutation_app_comm (slice_eps up')), He. by rewrite <- app_assoc.
Qed.


(** A [finalize] that reports success has done all its work.  For a service
    that is not being deleted, in a namespace that is not terminating, the
    endpoints stored afterwards in the namespace are those of the slices to
    create and to update and those of the slices that were neither updated nor
    deleted: no endpoint is lost, kept or duplicated by turning creations into
    updates of slices that were to be deleted. *)
Theorem finalize_effect st service cr up del t st' :
  let ns := Namespace (svc_meta service) in
  (∀ w s w' e, api_create w ns s = (w', inr e) → err_reason e ≠ ReasonNamespaceTerminating) →
  DeletionTimestamp (svc_meta service) = None →
  NoDup (es_Name <$> (up ++ del)) → names (up ++ del) ⊆ dom (view st ns) →
  finalize st service cr up del t = (st', None) →
  eps_of (view st' ns) ≡ₚ slice_eps cr ++ slice_eps up ++ eps_of (alive (view st ns) (names (up ++ del))).
Proof. intros ns Ht Hd Hnd Hsub Hf. by apply (finalize_leaves st service cr up del t st' Ht Hd Hnd Hsub Hf). Qed.

End finalize_effect.

(** ** Witnesses *)
Definition demo_state : RState demo_world :=
  mkRS {["ns" := {["s1" := demo_slice "s1" [demo_ep "10.0.0.1" "p1"]; "s2" := demo_slice "s2" [demo_ep "10.0.0.2" "p2"]]}]}
    NewEndpointSliceTracker (NewCache 100) None [].

Definition demo_new : EndpointSlice := set_Endpoints [demo_ep "10.0.0.3" "p3"]
  (@newEndpointSlice demo_slicelib (demo_service "a" "x") (mkEndpointMeta [] AddressTypeIPv4) "fleetboard").

Definition demo_final : RState demo_world * option string :=
  @finalize demo_slicelib demo_world demo_client demo_state (demo_service "a" "x") [demo_new] []
    [demo_slice "s1" [demo_ep "10.0.0.1" "p1"]] 7.

Lemma finalize_effect_witness :
  eps_of (@view demo_world demo_client demo_server (fst demo_final) "ns") ≡ₚ
  [demo_ep "10.0.0.3" "p3"; demo_ep "10.0.0.2" "p2"].
Proof.
  etransitivity.
  - apply (@finalize_effect demo_slicelib demo_world demo_client demo_server demo_state (demo_service "a" "x")
      [demo_new] [] [demo_slice "s1" [demo_ep "10.0.0.1" "p1"]] 7 (fst demo_final)).
    + simpl. intros w s w' e. destruct (_ || _); intros [= _ <-]. discriminate.
    + reflexivity.
    + apply (bool_decide_unpack (NoDup _)). vm_compute. exact I.
    + apply (bool_decide_unpack (_ ⊆ _)). vm_compute. exact I.
    + fold demo_final. rewrite (surjective_pairing demo_final) at 1. apply (f_equal (pair (fst demo_final))).
      assert (bool_decide (snd demo_final = None) = true) as E by (vm_compute; reflexivity).
      exact (bool_decide_eq_true_1 _ E).
  - assert (bool_decide (slice_eps [demo_new] ++ slice_eps [] ++ eps_of (alive
      (@view demo_world demo_client demo_server demo_state "ns") (names ([] ++ [demo_slice "s1" [demo_ep "10.0.0.1" "p1"]])))
      = [demo_ep "10.0.0.3" "p3"; demo_ep "10.0.0.2" "p2"]) = true) as E by (vm_compute; reflexivity).
    apply bool_decide_eq_true_1 in E. rewrite <- E. reflexivity.
Defined.
