(* ===== verification/ReconcileSpec.v ===== *)
(** * What a reconciliation leaves at the API server

    The composition of [reconcileByPortMapping], the topology hints, the
    placeholder slice and [finalize]: after a [Reconcile] that reports no error,
    the slices of the service publish exactly the endpoints of its pods. *)
From stdpp Require Import prelude gmap strings list.
From S2P Require Import Prelude K8s EpUtil Tracker SliceUtils Topology PortMapping Reconciler.
Open Scope Z_scope.

(** ** Lists cut up by a key *)
Section groups.
Context {A K : Type} `{EqDecision K}.

(** The part of a list with one key. *)
Definition group (key : A → K) (k : K) (l : list A) : list A := filter (λ a, key a = k) l.

Lemma elem_of_group key k l a : a ∈ group key k l ↔ key a = k ∧ a ∈ l.
Proof. unfold group. by rewrite list_elem_of_filter. Qed.

Lemma group_cons_eq key k a l : key a = k → group key k (a :: l) = a :: group key k l.
Proof. intros. unfold group. by rewrite filter_cons_True. Qed.
Lemma group_cons_ne key k a l : key a ≠ k → group key k (a :: l) = group key k l.
Proof. intros. unfold group. by rewrite filter_cons_False. Qed.

(** Filtering each part by a condition of its own is one filter. *)
Lemma groups_filter key (P : K → A → Prop) `{∀ k a, Decision (P k a)} ks l : NoDup ks →
  (ks ≫= λ k, filter (P k) (group key k l)) ≡ₚ filter (λ a, key a ∈ ks ∧ P (key a) a) l.
Proof.
  induction 1 as [|k ks Hk _ IH]; simpl.
  { induction l as [|a l IHl]; [done|]. rewrite filter_cons_False; [done|]. by intros [?%elem_of_nil _]. }
  rewrite IH. clear IH. induction l as [|a l IHl]; [done|]. unfold group. rewrite !filter_cons.
  destruct (decide (key a = k)) as [<-|Hne].
  - rewrite (decide_False (P := key a ∈ ks ∧ _)) by naive_solver. rewrite filter_cons.
    destruct (decide (P (key a) a)).
    + rewrite decide_True by (split; [by left|done]). simpl. by rewrite IHl.
    + rewrite decide_False by naive_solver. done.
  - destruct (decide (key a ∈ ks ∧ P (key a) a)) as [Ha|Ha].
    + rewrite decide_True by (split; [right|]; naive_solver). rewrite <- IHl. by rewrite Permutation_middle.
    + rewrite decide_False; [done|]. rewrite elem_of_cons. naive_solver.
Qed.

(** Lists with names from disjoint parts have no name in common. *)
Lemma NoDup_groups {B N} (key : A → K) (name : A → N) (name' : B → N) (f : K → list B) ks l : NoDup ks →
  NoDup (name <$> l) →
  (∀ k, k ∈ ks → NoDup (name' <$> f k) ∧ ∀ b, b ∈ f k → name' b ∈ name <$> group key k l) →
  NoDup (name' <$> (ks ≫= f)).
Proof.
  intros Hks Hl. induction Hks as [|k ks Hk _ IH]; intros Hf; [constructor|].
  rewrite bind_cons, fmap_app. apply NoDup_app. destruct (Hf k) as [Hnd Hin]; [by left|].
  split_and!; [done| |by apply IH; intros; apply Hf; right].
  intros n (b & -> & Hb)%list_elem_of_fmap (b' & Hn & (k' & Hb' & Hk')%list_elem_of_bind)%list_elem_of_fmap.
  destruct (Hf k') as [_ Hin']; [by right|]. apply Hin in Hb. apply Hin' in Hb'. rewrite <- Hn in Hb'.
  apply list_elem_of_fmap in Hb as (a & Ha & [Hka Hal]%elem_of_group).
  apply list_elem_of_fmap in Hb' as (a' & Ha' & [Hka' Hal']%elem_of_group).
  apply list_elem_of_lookup in Hal as [i Hi]. apply list_elem_of_lookup in Hal' as [j Hj].
  assert (i = j) as ->; [|congruence]. eapply NoDup_lookup; [exact Hl| |]; rewrite list_lookup_fmap;
    [by rewrite Hi|rewrite Hj; simpl; congruence].
Qed.
End groups.

Lemma filter_fmap {A B} (f : A → B) (P : B → Prop) `{∀ b, Decision (P b)} (l : list A) :
  filter P (f <$> l) = f <$> filter (λ a, P (f a)) l.
Proof.
  induction l as [|a l IH]; [done|]. rewrite fmap_cons, !filter_cons, IH. destruct (decide (P (f a))); done.
Qed.

Lemma filter_ext_in {A} (P Q : A → Prop) `{∀ a, Decision (P a)} `{∀ a, Decision (Q a)} (l : list A) :
  (∀ a, a ∈ l → P a ↔ Q a) → filter P l = filter Q l.
Proof.
  induction l as [|a l IH]; intros HPQ; [done|]. rewrite !filter_cons. rewrite IH by (intros; apply HPQ; by right).
  destruct (decide (P a)) as [Ha|Ha]; rewrite (HPQ a ltac:(left)) in Ha; [by rewrite decide_True|by rewrite decide_False].
Qed.

Lemma bind_app3 {A B} (f g h : A → list B) (l : list A) :
  (l ≫= λ a, f a ++ g a ++ h a) ≡ₚ (l ≫= f) ++ (l ≫= g) ++ (l ≫= h).
Proof.
  induction l as [|a l IH]; [done|]. rewrite !bind_cons, IH. solve_Permutation.
Qed.

Lemma fmap_bind {A B C} (f : B → C) (g : A → list B) (l : list A) : f <$> (l ≫= g) = l ≫= λ a, f <$> g a.
Proof. induction l as [|a l IH]; [done|]. by rewrite !bind_cons, fmap_app, IH. Qed.

(** ** Endpoints that publish the same *)
Section same.
Context `{GoRuntime} `{EpLib}.

Definition same_pub (e f : Endpoint) : Prop := ∀ d, matches d e ↔ matches d f.

#[export] Instance same_pub_equiv : Equivalence same_pub.
Proof. split; [done|intros e f E d; by rewrite (E d)|intros e f g E F d; by rewrite (E d), (F d)]. Qed.

Lemma same_pub_sorted e : same_pub e (ep_sorted e).
Proof. intros d. by rewrite matches_sorted. Qed.

Lemma same_pub_hints e f : no_hint e = no_hint f → same_pub e f.
Proof.
  intros E d. assert (∀ x, matches d x ↔ matches d (no_hint x)) as Hx.
  { intros x. unfold matches. rewrite !EndpointsEqualBeyondHash_spec. by destruct x. }
  by rewrite (Hx e), (Hx f), E.
Qed.

Lemma published_same ds es es' : Forall2 same_pub es es' → published ds es → published ds es'.
Proof.
  intros Hs (x & Hx & Hf). exists x. split; [done|]. clear Hx. revert es' Hs.
  induction Hf as [|d e ds' es0 He _ IH]; intros es' Hs; inversion Hs; subst; constructor; [by apply H3|by apply IH].
Qed.

(** Slices that publish the same. *)
Definition same_slice (s t : EndpointSlice) : Prop :=
  es_Name s = es_Name t ∧ Forall2 same_pub (es_Endpoints s) (es_Endpoints t).

Lemma same_slices_eps l k : Forall2 same_slice l k → Forall2 same_pub (slice_eps l) (slice_eps k).
Proof.
  unfold slice_eps. induction 1 as [|s t l k [_ Hs] _ IH]; [constructor|]. rewrite !bind_cons. by apply Forall2_app.
Qed.

Lemma same_slices_names l k : Forall2 same_slice l k → es_Name <$> l = es_Name <$> k.
Proof. induction 1 as [|s t l k [Hn _] _ IH]; [done|]. by rewrite !fmap_cons, Hn, IH. Qed.

Lemma Forall2_same_refl (l : list Endpoint) : Forall2 same_pub l l.
Proof. induction l; constructor; done. Qed.

Lemma same_slice_sort s : same_slice s (sort_slice s).
Proof. split; [done|]. simpl. induction (es_Endpoints s); constructor; [apply same_pub_sorted|done]. Qed.

Lemma same_slice_ports s : same_slice s (sort_ports s).
Proof. split; [done|]. apply Forall2_same_refl. Qed.

#[export] Instance same_slice_trans : Transitive same_slice.
Proof.
  intros s t u [Hn He] [Hn' He']. split; [congruence|]. by etrans.
Qed.

Lemma same_slice_touched service eps s : same_slice s (touched service eps s).
Proof.
  unfold touched. destruct (ownedBy s service); [|split; [done|apply Forall2_same_refl]].
  case_bool_decide; [|apply same_slice_ports]. etrans; [apply same_slice_ports|apply same_slice_sort].
Qed.

Lemma same_eps_hints l k : no_hint <$> l = no_hint <$> k → Forall2 same_pub l k.
Proof.
  revert k. induction l as [|e l IH]; intros [|f k] E; try done. rewrite !fmap_cons in E.
  apply (f_equal (λ l, (head l, tail l))) in E. simpl in E. constructor; [apply same_pub_hints|apply IH]; congruence.
Qed.

Lemma same_slices_hints l k : clear_hints <$> l = clear_hints <$> k → Forall2 same_slice l k.
Proof.
  revert k. induction l as [|s l IH]; intros [|t k] E; try done. rewrite !fmap_cons in E.
  injection E as Em _ Ee _ Hl. constructor; [|by apply IH]. split; [unfold es_Name; congruence|].
  apply same_eps_hints. exact Ee.
Qed.
End same.

(** ** The slices by port map *)
Section grouping.
Context `{GoRuntime} `{EpLib}.
Context (service : Service).

(** The port map of a slice the service owns. *)
Definition slice_group (s : EndpointSlice) : option string := if ownedBy s service then Some (port_key s) else None.

Lemma group_step_fold existing byPort0 notOwned0 byPort notOwned :
  foldl (group_step service) (byPort0, notOwned0) existing = (byPort, notOwned) →
  notOwned = notOwned0 ++ group slice_group None existing ∧
  ∀ p, default [] (byPort !! p) = default [] (byPort0 !! p) ++ (sort_ports <$> group slice_group (Some p) existing).
Proof.
  revert byPort0 notOwned0. induction existing as [|s existing IH]; intros byPort0 notOwned0; cbn [foldl].
  { intros [= <- <-]. split; [by rewrite app_nil_r|]. intros p. by rewrite app_nil_r. }
  unfold group_step at 2. destruct (ownedBy s service) eqn:Ho; intros [-> Hp]%IH.
  - assert (slice_group s = Some (port_key s)) as Hs by (unfold slice_group; by rewrite Ho). split.
    { rewrite group_cons_ne by congruence. done. }
    intros p. rewrite Hp. destruct (decide (port_key s = p)) as [<-|Hne].
    + rewrite lookup_insert_eq, group_cons_eq by done. simpl. by rewrite <- app_assoc.
    + rewrite lookup_insert_ne, group_cons_ne by congruence. done.
  - assert (slice_group s = None) as Hs by (unfold slice_group; by rewrite Ho). split.
    { rewrite group_cons_eq, <- app_assoc by done. done. }
    intros p. rewrite Hp, group_cons_ne by congruence. done.
Qed.

Lemma group_step_dom existing byPort0 notOwned0 byPort notOwned p :
  foldl (group_step service) (byPort0, notOwned0) existing = (byPort, notOwned) →
  p ∈ dom byPort → p ∈ dom byPort0 ∨ ∃ s, s ∈ existing ∧ slice_group s = Some p.
Proof.
  revert byPort0 notOwned0. induction existing as [|s existing IH]; intros byPort0 notOwned0; cbn [foldl].
  { intros [= <- <-] ?. by left. }
  unfold group_step at 2. destruct (ownedBy s service) eqn:Ho; intros E Hp.
  - apply IH in E as [Hd|(t & ? & ?)]; [|right; exists t; split; [by right|done]|done].
    rewrite dom_insert_L, elem_of_union, elem_of_singleton in Hd. destruct Hd as [->|?]; [|by left].
    right. exists s. split; [by left|]. unfold slice_group. by rewrite Ho.
  - apply IH in E as [Hd|(t & ? & ?)]; [by left|right; exists t; split; [by right|done]|done].
Qed.
End grouping.

(** ** One address type *)
Section one_type.
Context `{GoRuntime} `{EpLib} `{SliceLib} `{QuantityLib} `{SliceServer W}.
Context (nodeLister_Get : string → Node + ApiError) (topologyFuel : nat) (r : ReconcilerConfig) (service : Service).

(** The slices of the service with the ports [p], as the loop sees them. *)
Definition port_slices (existing : list EndpointSlice) (p : string) : list EndpointSlice :=
  sort_ports <$> group (slice_group service) (Some p) existing.

(** What [reconcileByPortMapping] did for one port map. *)
Definition port_result (existing : list EndpointSlice) (p : string) (d : EndpointSet) (res : pmResult) : Prop :=
  published (vals d) (slice_eps (unchangedSlices (port_slices existing p) (pm_toUpdate res) (pm_toDelete res)
                                  ++ pm_toUpdate res ++ pm_toCreate res)) ∧
  ∃ em, slices_ok r service (port_slices existing p) em res.

Lemma port_slices_names existing p : es_Name <$> port_slices existing p = es_Name <$> group (slice_group service) (Some p) existing.
Proof. unfold port_slices. by rewrite <- list_fmap_compose. Qed.

Lemma port_loop_spec existing byPort meta acc pes :
  (∀ p, default [] (byPort !! p) = port_slices existing p) → NoDup (es_Name <$> existing) →
  EmptyString ∉ es_Name <$> existing → 1 ≤ rc_maxEndpointsPerSlice r →
  NoDup pes.*1 → Forall (λ pe, es_wf (snd pe) ∧ is_Some (meta !! fst pe)) pes →
  ∃ (f : string → pmResult) metrics,
    port_loop r service byPort meta acc pes =
      Ret (mkPL (pl_toCreate acc ++ (pes.*1 ≫= pm_toCreate ∘ f)) (pl_toUpdate acc ++ (pes.*1 ≫= pm_toUpdate ∘ f))
             (pl_toDelete acc ++ (pes.*1 ≫= pm_toDelete ∘ f)) metrics) ∧
    ∀ p d, (p, d) ∈ pes → port_result existing p d (f p).
Proof.
  intros Hby Hnd Hne Hmax. revert acc. induction pes as [|[p d] pes IH]; intros acc Hks Hall.
  { exists (λ _, mkPMR [] [] [] 0 0), (pl_metrics acc). simpl. rewrite !app_nil_r. split; [by destruct acc|]. by intros ? ? ?%elem_of_nil. }
  rewrite fmap_cons, NoDup_cons in Hks. destruct Hks as [Hp Hks]. apply Forall_cons in Hall as [[Hwf [em Hem]] Hall].
  cbn [port_loop]. unfold port_step. simpl in Hwf, Hem. rewrite Hby, Hem. cbn [deref mbind outcome_bind].
  destruct (reconcileByPortMapping_spec r service (EndpointSet_Len d) (port_slices existing p) d em) as (res & -> & Hpub & Hok).
  { rewrite port_slices_names. by apply NoDup_filter_names. }
  { rewrite port_slices_names. intros (s & Hs & [_ Hin]%elem_of_group)%list_elem_of_fmap. apply Hne. rewrite Hs. by apply list_elem_of_fmap_2. }
  { done. } { done. } { done. }
  cbn [mbind outcome_bind].
  match goal with |- context [port_loop r service byPort meta ?a pes] => destruct (IH a Hks Hall) as (f & metrics & -> & Hf) end.
  exists (λ q, if decide (q = p) then res else f q), metrics. cbn [pl_toCreate pl_toUpdate pl_toDelete].
  rewrite fmap_cons, !bind_cons. cbn [fst compose]. rewrite decide_True by done.
  assert (∀ (g : pmResult → list EndpointSlice), (pes.*1 ≫= g ∘ (λ q, if decide (q = p) then res else f q)) = (pes.*1 ≫= g ∘ f)) as Hg.
  { intros g. clear -Hp. induction pes as [|[q d'] pes IH]; [done|]. rewrite fmap_cons, !bind_cons. cbn [fst compose].
    rewrite fmap_cons, not_elem_of_cons in Hp. destruct Hp as [Hq Hp]. rewrite IH by done. by rewrite decide_False by (intros ->; done). }
  rewrite !Hg. cbn [compose]. rewrite <- !app_assoc. split; [done|].
  intros q d' [[= -> ->]|Hin]%elem_of_cons; [rewrite decide_True by done; split; [done|by exists em]|].
  rewrite decide_False; [by apply Hf|]. intros ->. apply Hp. by apply (list_elem_of_fmap_2 fst) in Hin.
Qed.

(** *** The desired endpoints *)
Definition ds_ok (ds : desiredState) : Prop :=
  map_Forall (λ _, es_wf) (ds_endpoints ds) ∧ ∀ p, is_Some (ds_endpoints ds !! p) → is_Some (ds_meta ds !! p).

Lemma desired_step_ok at_ ds pod ds' :
  ds_ok ds → desired_step nodeLister_Get service at_ ds pod = inl ds' → ds_ok ds'.
Proof.
  intros [Hwf Hm]. unfold desired_step. destruct (negb (ShouldPodBeInEndpoints pod true)); [by intros [= <-]|].
  destruct (NewPortMapKey _) as [h ports].
  set (eps := if bool_decide (is_Some (ds_endpoints ds !! h)) then _ else _).
  set (meta := if bool_decide (is_Some (ds_meta ds !! h)) then _ else _).
  assert (Hwf' : map_Forall (λ _, es_wf) eps).
  { unfold eps. case_bool_decide; [done|]. by apply map_Forall_insert_2; [apply es_wf_empty|]. }
  assert (Hme : ∀ p, is_Some (ds_meta ds !! p) ∨ p = h → is_Some (meta !! p)).
  { intros p. unfold meta. case_bool_decide; [by intros [?| ->]|].
    destruct (decide (p = h)) as [->|]; [by rewrite lookup_insert_eq|rewrite lookup_insert_ne by done; naive_solver]. }
  assert (He : ∀ p, is_Some (eps !! p) → is_Some (meta !! p)).
  { intros p. unfold eps. destruct (decide (p = h)) as [->|Hne]; [intros _; apply Hme; by right|].
    case_bool_decide; rewrite ?lookup_insert_ne by done; intros Hs; apply Hme; left; by apply Hm. }
  assert (Hadd : ∀ e, ds_ok (mkDS meta (<[h := EndpointSet_Insert (default ∅ (eps !! h)) [e]]> eps) (ds_errs ds))).
  { intros e. split; cbn [ds_endpoints ds_meta].
    - apply map_Forall_insert_2; [|exact Hwf']. apply (EndpointSet_Insert_wf _ [e]). destruct (eps !! h) eqn:E; [by eapply Hwf'|apply es_wf_empty].
    - intros p. destruct (decide (p = h)) as [->|Hne]; [intros _; apply Hme; by right|]. rewrite lookup_insert_ne by done. apply He. }
  destruct (nodeLister_Get _) as [node|e]; [case_match; intros <-%(inj inl); [apply Hadd|by split]|].
  destruct (negb (IsNotFound e)); [done|]. destruct (negb _); [intros [= <-]; by split|].
  case_match; intros <-%(inj inl); [apply Hadd|by split].
Qed.

Lemma desired_loop_ok at_ pods ds ds' :
  ds_ok ds → desired_loop nodeLister_Get service at_ ds pods = inl ds' → ds_ok ds'.
Proof.
  revert ds. induction pods as [|pod pods IH]; intros ds Hok; cbn [desired_loop]; [by intros [= <-]|].
  destruct (desired_step _ _ _ _ _) as [ds1|] eqn:E; [|done]. intros ?. eapply IH; [|done]. by eapply desired_step_ok.
Qed.

Lemma ds_ok_init : ds_ok (mkDS ∅ ∅ []).
Proof. split; [apply map_Forall_empty|]. simpl. intros p. rewrite lookup_empty. by intros []. Qed.

(** *** All port maps together *)
Section combine.
Context (existing : list EndpointSlice) (byPort : gmap string (list EndpointSlice)) (eps : gmap string EndpointSet)
  (f : string → pmResult).
Hypothesis names_distinct : NoDup (es_Name <$> existing).
Hypothesis byPort_ok : ∀ p, default [] (byPort !! p) = port_slices existing p.
Hypothesis results_ok : ∀ p d, (p, d) ∈ go_range eps → port_result existing p d (f p).

Let ks : list string := (go_range eps).*1.
Let up : list EndpointSlice := ks ≫= pm_toUpdate ∘ f.
Let cr : list EndpointSlice := ks ≫= pm_toCreate ∘ f.
Let del : list EndpointSlice := group (slice_group service) None existing ++ (ks ≫= pm_toDelete ∘ f) ++ obsolete byPort eps.
Let others : list string := filter (λ p, ¬ is_Some (eps !! p)) (go_range byPort).*1.

Lemma elem_of_ks p : p ∈ ks ↔ is_Some (eps !! p).
Proof.
  unfold ks. rewrite list_elem_of_fmap. split.
  - intros ([q d] & -> & Hin%elem_of_go_range). by exists d.
  - intros [d Hd]. exists (p, d). split; [done|]. by apply elem_of_go_range.
Qed.

Lemma obsolete_eq : obsolete byPort eps = others ≫= port_slices existing.
Proof.
  unfold obsolete, others. assert (Hv : ∀ p l, (p, l) ∈ go_range byPort → l = port_slices existing p).
  { intros p l Hl%elem_of_go_range. by rewrite <- byPort_ok, Hl. }
  induction (go_range byPort) as [|[p l] m IH]; [done|]. rewrite bind_cons, fmap_cons, filter_cons, IH by (intros; apply Hv; by right).
  rewrite (Hv p l) by left. cbn [fst]. destruct (decide (¬ is_Some (eps !! p))); case_bool_decide; done.
Qed.

(** The writes of one group of existing slices. *)
Definition group_writes (k : option string) : list EndpointSlice :=
  match k with
  | None => group (slice_group service) None existing
  | Some p => if decide (is_Some (eps !! p)) then pm_toUpdate (f p) ++ pm_toDelete (f p) else port_slices existing p
  end.
Definition group_keys : list (option string) := None :: (Some <$> ks) ++ (Some <$> others).

Lemma writes_by_group : up ++ del ≡ₚ group_keys ≫= group_writes.
Proof.
  unfold group_keys. rewrite bind_cons, bind_app. unfold del, up. rewrite obsolete_eq.
  assert (H1' : (Some <$> ks) ≫= group_writes = ks ≫= λ p, pm_toUpdate (f p) ++ pm_toDelete (f p)).
  { assert (Hall : ∀ p, p ∈ ks → is_Some (eps !! p)) by (intros p; by rewrite elem_of_ks). revert Hall.
    induction ks as [|p l IH]; intros Hall; [done|]. rewrite fmap_cons, !bind_cons, IH by (intros; apply Hall; by right).
    cbn [group_writes]. by rewrite decide_True by (apply Hall; by left). }
  assert (H2' : (Some <$> others) ≫= group_writes = others ≫= port_slices existing).
  { assert (Hall : ∀ p, p ∈ others → ¬ is_Some (eps !! p)) by (intros p [? _]%list_elem_of_filter; done). revert Hall.
    induction others as [|p l IH]; intros Hall; [done|]. rewrite fmap_cons, !bind_cons, IH by (intros; apply Hall; by right).
    cbn [group_writes]. by rewrite decide_False by (apply Hall; by left). }
  rewrite H1', H2'.
  assert ((ks ≫= λ p, pm_toUpdate (f p) ++ pm_toDelete (f p)) ≡ₚ (ks ≫= pm_toUpdate ∘ f) ++ (ks ≫= pm_toDelete ∘ f)) as ->.
  { clear. induction ks as [|p l IH]; [done|]. rewrite !bind_cons, IH. cbn [compose]. solve_Permutation. }
  cbn [group_writes]. solve_Permutation.
Qed.

(** A slice that is written stands for an existing slice of its group. *)
Lemma group_writes_from k s : k ∈ group_keys → s ∈ group_writes k → es_Name s ∈ es_Name <$> group (slice_group service) k existing.
Proof.
  intros Hk. destruct k as [p|]; cbn [group_writes]; [|by apply list_elem_of_fmap_2].
  destruct (decide (is_Some (eps !! p))) as [[d Hd]|].
  - apply elem_of_go_range, results_ok in Hd as [_ (em & Hup & Hdel & _)]. rewrite Forall_forall in Hup, Hdel.
    rewrite <- port_slices_names, elem_of_app. intros [(o & Ho & <- & _)%Hup|(o & Ho & ->)%Hdel]; [by apply list_elem_of_fmap_2|].
    by apply (list_elem_of_fmap_2 es_Name) in Ho.
  - rewrite <- port_slices_names. apply list_elem_of_fmap_2.
Qed.

Lemma NoDup_group_keys : NoDup group_keys.
Proof.
  unfold group_keys. apply NoDup_cons. split.
  { rewrite elem_of_app, !list_elem_of_fmap. by intros [(? & ? & _)|(? & ? & _)]. }
  apply NoDup_app. split_and!.
  - apply (NoDup_fmap_2 Some), NoDup_go_range.
  - intros k (p & -> & Hp%elem_of_ks)%list_elem_of_fmap (q & [= <-] & [Hq _]%list_elem_of_filter)%list_elem_of_fmap. done.
  - apply (NoDup_fmap_2 Some). unfold others. apply NoDup_filter, NoDup_go_range.
Qed.

Lemma writes_distinct : NoDup (es_Name <$> (up ++ del)).
Proof.
  rewrite writes_by_group. apply (NoDup_groups (slice_group service) es_Name es_Name group_writes group_keys existing);
    [apply NoDup_group_keys|done|]. intros k Hk. split; [|by intros; apply group_writes_from].
  destruct k as [p|]; cbn [group_writes]; [|by apply NoDup_filter_names].
  destruct (decide (is_Some (eps !! p))) as [[d Hd]|].
  - apply elem_of_go_range, results_ok in Hd as [_ (em & _ & _ & _ & Hnd)]. done.
  - rewrite port_slices_names. by apply NoDup_filter_names.
Qed.

Lemma writes_existing s : s ∈ up ++ del → es_Name s ∈ es_Name <$> existing.
Proof.
  rewrite writes_by_group. intros (k & Hs & Hk)%list_elem_of_bind. apply group_writes_from in Hs; [|done].
  apply list_elem_of_fmap in Hs as (o & -> & [_ Ho]%elem_of_group). by apply list_elem_of_fmap_2.
Qed.

(** A slice to delete publishes what the existing slice of its name did. *)
Lemma deletes_same s : s ∈ del → ∃ o, o ∈ existing ∧ same_slice o s.
Proof.
  unfold del. rewrite obsolete_eq, !elem_of_app. intros [[_ Hs]%elem_of_group|[(p & Hs & Hp)%list_elem_of_bind|(p & Hs & Hp)%list_elem_of_bind]].
  - exists s. split; [done|]. split; [done|apply Forall2_same_refl].
  - apply elem_of_ks in Hp as [d Hd]. apply elem_of_go_range, results_ok in Hd as [_ (em & _ & Hdel & _)].
    rewrite Forall_forall in Hdel. apply Hdel in Hs as (o & Ho & ->).
    apply list_elem_of_fmap in Ho as (o' & -> & [_ Ho']%elem_of_group). exists o'. split; [done|].
    etrans; [apply same_slice_ports|apply same_slice_sort].
  - apply list_elem_of_fmap in Hs as (o' & -> & [_ Ho']%elem_of_group). exists o'. split; [done|apply same_slice_ports].
Qed.

(** A slice is left alone when its group is desired and the group's results leave
    it alone. *)
Definition left_alone (k : option string) (s : EndpointSlice) : Prop :=
  es_Name s ∉ es_Name <$> group_writes k.

Lemma slice_group_key o : o ∈ existing → slice_group service o ∈ group_keys.
Proof.
  intros Ho. unfold group_keys. destruct (slice_group service o) as [p|] eqn:Hg; [|by left]. right.
  rewrite elem_of_app. destruct (decide (is_Some (eps !! p))) as [Hp|Hp].
  { left. by apply list_elem_of_fmap_2, elem_of_ks. }
  right. apply list_elem_of_fmap_2, list_elem_of_filter. split; [done|].
  assert (Hin : sort_ports o ∈ port_slices existing p) by (apply list_elem_of_fmap_2; by apply elem_of_group).
  rewrite <- byPort_ok in Hin. destruct (byPort !! p) as [l|] eqn:Hl; [|by apply elem_of_nil in Hin].
  apply list_elem_of_fmap. exists (p, l). split; [done|by apply elem_of_go_range].
Qed.

(** A name is written by the group of the existing slice that has it. *)
Lemma written_by_group o k : o ∈ existing → k ∈ group_keys → es_Name o ∈ es_Name <$> group_writes k → k = slice_group service o.
Proof.
  intros Ho Hk (s & Hs & Hin)%list_elem_of_fmap. apply group_writes_from in Hin; [|done]. rewrite <- Hs in Hin.
  apply list_elem_of_fmap in Hin as (o' & Heq & [<- Ho']%elem_of_group). f_equal.
  apply list_elem_of_lookup in Ho as [i Hi]. apply list_elem_of_lookup in Ho' as [j Hj].
  assert (i = j) as ->; [|congruence]. eapply NoDup_lookup; [exact names_distinct| |]; rewrite list_lookup_fmap;
    [by rewrite Hi|rewrite Hj; simpl; congruence].
Qed.

Lemma unchanged_groups :
  unchangedSlices existing up del ≡ₚ (Some <$> ks) ≫= λ k, filter (left_alone k) (group (slice_group service) k existing).
Proof.
  rewrite (groups_filter (slice_group service) left_alone (Some <$> ks)) by (apply (NoDup_fmap_2 Some), NoDup_go_range).
  unfold unchangedSlices. erewrite filter_ext_in; [done|]. intros o Ho. cbv beta.
  assert (Hw : es_Name o ∉ list_to_set (es_Name <$> up) ∪ (list_to_set (es_Name <$> del) : gset string) ↔
    ∀ k, k ∈ group_keys → es_Name o ∉ es_Name <$> group_writes k).
  { rewrite not_elem_of_union, !elem_of_list_to_set, <- not_elem_of_app, <- fmap_app, writes_by_group, fmap_bind, list_elem_of_bind.
    naive_solver. }
  rewrite Hw. split.
  - intros Hno. pose proof (Hno _ (slice_group_key o Ho)) as Hla. split; [|done].
    destruct (slice_group service o) as [p|] eqn:Hg; cbn [group_writes] in Hla.
    + apply list_elem_of_fmap_2, elem_of_ks. apply dec_stable. intros Hp. rewrite decide_False in Hla by done.
      apply Hla. rewrite port_slices_names. apply list_elem_of_fmap_2. by apply elem_of_group.
    + exfalso. apply Hla, list_elem_of_fmap_2. by apply elem_of_group.
  - intros [_ Hla] k Hk Hin. by rewrite (written_by_group o k Ho Hk Hin) in Hin.
Qed.

Lemma slice_eps_ports l : slice_eps (sort_ports <$> l) = slice_eps l.
Proof. unfold slice_eps. induction l as [|s l IH]; [done|]. by rewrite fmap_cons, !bind_cons, IH. Qed.

Lemma slice_eps_bind {A} (g : A → list EndpointSlice) l : slice_eps (l ≫= g) = l ≫= λ a, slice_eps (g a).
Proof. induction l as [|a l IH]; [done|]. by rewrite !bind_cons, slice_eps_app, IH. Qed.

Lemma slice_eps_perm l k : l ≡ₚ k → slice_eps l ≡ₚ slice_eps k.
Proof. intros E. unfold slice_eps. by rewrite E. Qed.

(** The endpoints of the slices left alone, by port map. *)
Lemma unchanged_eps : slice_eps (unchangedSlices existing up del) ≡ₚ
  ks ≫= λ p, slice_eps (unchangedSlices (port_slices existing p) (pm_toUpdate (f p)) (pm_toDelete (f p))).
Proof.
  rewrite (slice_eps_perm _ _ unchanged_groups), slice_eps_bind.
  assert (Hks : ∀ p, p ∈ ks → is_Some (eps !! p)) by (intros p; by rewrite elem_of_ks). revert Hks.
  induction ks as [|p l IH]; intros Hks; [done|]. rewrite fmap_cons, !bind_cons, IH by (intros; apply Hks; by right).
  f_equiv. unfold unchangedSlices, port_slices. rewrite filter_fmap, slice_eps_ports.
  erewrite filter_ext_in; [done|]. intros o _. unfold left_alone. cbn [group_writes]. rewrite decide_True by (apply Hks; by left).
  rewrite not_elem_of_union, !elem_of_list_to_set, fmap_app, not_elem_of_app. done.
Qed.

(** Together the slices left alone, updated and created publish the desired
    endpoints of all port maps. *)
Lemma combined_published :
  published (go_range eps ≫= λ pe, vals (snd pe)) (slice_eps (unchangedSlices existing up del) ++ slice_eps up ++ slice_eps cr).
Proof.
  apply (published_perm (go_range eps ≫= λ pe, vals (snd pe)) _ (ks ≫= λ p, slice_eps (unchangedSlices (port_slices existing p) (pm_toUpdate (f p)) (pm_toDelete (f p)))
    ++ slice_eps (pm_toUpdate (f p)) ++ slice_eps (pm_toCreate (f p)))); [done| |].
  { rewrite bind_app3, unchanged_eps. unfold up, cr. by rewrite !slice_eps_bind. }
  unfold ks. generalize results_ok. induction (go_range eps) as [|[p d] l IH]; intros Hr; [apply published_refl|].
  rewrite fmap_cons, !bind_cons. apply published_app; [|apply IH; intros; apply Hr; by right].
  destruct (Hr p d) as [Hp _]; [by left|]. by rewrite !slice_eps_app in Hp.
Qed.
End combine.

(** *** The plan: the slices to create, update and delete *)
Record plan_ok (D : list Endpoint) (existing cr up del : list EndpointSlice) : Prop := mkPlanOk {
  plan_published : published D (slice_eps (unchangedSlices existing up del) ++ slice_eps up ++ slice_eps cr);
  plan_distinct : NoDup (es_Name <$> (up ++ del));
  plan_existing : ∀ s, s ∈ up ++ del → es_Name s ∈ es_Name <$> existing;
  plan_deletes : ∀ s, s ∈ del → ∃ o, o ∈ existing ∧ same_slice o s
}.

(** The placeholder has no endpoints, and an existing one may stay. *)
Lemma placeholder_plan D existing at_ pl :
  NoDup (es_Name <$> existing) → plan_ok D existing (pl_toCreate pl) (pl_toUpdate pl) (pl_toDelete pl) →
  let pl' := add_placeholder r service at_ (length existing) pl in
  plan_ok D existing (pl_toCreate pl') (pl_toUpdate pl') (pl_toDelete pl').
Proof.
  intros Hnd [Hp Hd He Hs] pl'. unfold pl', add_placeholder. clear pl'.
  destruct (_ =? _)%nat eqn:Hlen; [|done]. destruct (_ <? _)%nat; [|done]. cbn [andb]. apply Nat.eqb_eq in Hlen.
  set (ph := newEndpointSlice service _ _).
  assert (Hadd : plan_ok D existing (pl_toCreate pl ++ [ph]) (pl_toUpdate pl) (pl_toDelete pl)).
  { split; try done. rewrite slice_eps_app. simpl. by rewrite app_nil_r. }
  destruct (pl_toDelete pl) as [|d [|d' l]] eqn:Hdel; [exact Hadd| |exact Hadd].
  destruct (placeholderSliceCompare d ph) eqn:Hc; [|exact Hadd]. cbn [pl_toCreate pl_toUpdate pl_toDelete].
  assert (Hempty : es_Endpoints d = []).
  { unfold placeholderSliceCompare in Hc. rewrite !andb_true_iff, !bool_decide_eq_true in Hc. by destruct Hc as [[_ ->] _]. }
  destruct (Hs d) as (o & Ho & Hod); [by left|]. destruct existing as [|o' [|? ?]]; [done| |done].
  apply list_elem_of_singleton in Ho as ->. destruct Hod as [Hn Hoe]. rewrite Hempty in Hoe. apply Forall2_nil_inv_r in Hoe.
  assert (Hup : pl_toUpdate pl = []).
  { destruct (pl_toUpdate pl) as [|u us]; [done|]. exfalso. rewrite fmap_app in Hd. apply NoDup_app in Hd as (_ & Hd & _).
    apply (Hd (es_Name u)); [rewrite fmap_cons; by left|]. rewrite fmap_cons, <- Hn.
    specialize (He u ltac:(by left)). rewrite fmap_cons, elem_of_cons, elem_of_nil in He. destruct He as [->|[]]. by left. }
  rewrite Hup in *. split; [|constructor|by intros ? ?%elem_of_nil|by intros ? ?%elem_of_nil].
  cbn [app slice_eps]. unfold unchangedSlices in *. rewrite filter_cons_False in Hp.
  2:{ rewrite not_elem_of_union, !elem_of_list_to_set, !fmap_cons, Hn. intros [_ Hx]. apply Hx. by left. }
  rewrite filter_cons_True by set_solver. simpl. rewrite Hoe. done.
Qed.

Lemma unchanged_touched eps existing up del :
  unchangedSlices (touched service eps <$> existing) up del = touched service eps <$> unchangedSlices existing up del.
Proof.
  unfold unchangedSlices. rewrite filter_fmap. f_equal. apply filter_ext_in. intros o _.
  by destruct (same_slice_touched service eps o) as [-> _].
Qed.

Lemma names_touched eps (l : list EndpointSlice) : es_Name <$> (touched service eps <$> l) = es_Name <$> l.
Proof. rewrite <- list_fmap_compose. apply list_fmap_ext. intros i s _. symmetry. apply same_slice_touched. Qed.

Lemma filter_split {A} (P : A → Prop) `{∀ a, Decision (P a)} (l : list A) : l ≡ₚ filter P l ++ filter (λ a, ¬ P a) l.
Proof.
  induction l as [|a l IH]; [done|]. rewrite !filter_cons. destruct (decide (P a)).
  - rewrite decide_False by (intros []; done). simpl. by rewrite <- IH.
  - rewrite decide_True by done. rewrite <- Permutation_middle. by rewrite <- IH.
Qed.

(** The slices the hints move to the updates, among the unchanged ones. *)
Lemma moved_slices eps (U moved rest : list EndpointSlice) : NoDup (es_Name <$> U) →
  touched service eps <$> U ≡ₚ moved ++ rest →
  moved ≡ₚ touched service eps <$> filter (λ s, es_Name s ∈ es_Name <$> moved) U.
Proof.
  intros Hnd Hp. pose proof Hp as Hq. apply (filter_Permutation (λ s, es_Name s ∈ es_Name <$> moved)) in Hp.
  rewrite filter_fmap, filter_app in Hp.
  assert (Hn : es_Name <$> U ≡ₚ (es_Name <$> moved) ++ (es_Name <$> rest)) by (by rewrite <- fmap_app, <- Hq, names_touched).
  rewrite Hn in Hnd. apply NoDup_app in Hnd as (_ & Hdis & _).
  rewrite (filter_ext_in _ (λ _, True) moved) in Hp by (intros s Hs; split; [done|intros _; by apply list_elem_of_fmap_2]).
  rewrite (filter_ext_in _ (λ _, False) rest) in Hp.
  2:{ intros s Hs. split; [|done]. intros Hm. by apply (Hdis _ Hm), list_elem_of_fmap_2. }
  assert (Ht : ∀ l : list EndpointSlice, filter (λ _, True) l = l) by (induction l as [|x l IH]; [done|]; rewrite filter_cons_True, IH; done).
  assert (Hf : ∀ l : list EndpointSlice, filter (λ _, False) l = []) by (induction l as [|x l IH]; [done|]; rewrite filter_cons_False, IH; [done|by intros []]).
  rewrite Ht, Hf, app_nil_r in Hp. rewrite <- Hp. f_equiv. erewrite filter_ext_in; [done|]. intros o _.
  by destruct (same_slice_touched service eps o) as [-> _].
Qed.

Lemma elem_of_unchanged existing up del o :
  o ∈ unchangedSlices existing up del ↔ o ∈ existing ∧ es_Name o ∉ es_Name <$> up ∧ es_Name o ∉ es_Name <$> del.
Proof. unfold unchangedSlices. rewrite list_elem_of_filter, not_elem_of_union, !elem_of_list_to_set. naive_solver. Qed.

Lemma hints_plan D existing cr up del key at_ eps si' :
  NoDup (es_Name <$> existing) → plan_ok D existing cr up del →
  hints_only (mkSI key at_ cr up (unchangedSlices (touched service eps <$> existing) up del)) si' →
  plan_ok D existing (si_ToCreate si') (si_ToUpdate si') del.
Proof.
  intros Hnd [Hp Hd He Hs] [Hcr (moved & Hun & Hup)]. cbn [si_ToCreate si_ToUpdate si_Unchanged] in *.
  rewrite unchanged_touched in Hun. set (U := unchangedSlices existing up del) in *.
  assert (HndU : NoDup (es_Name <$> U)) by by apply NoDup_filter_names.
  pose proof (moved_slices _ _ _ _ HndU Hun) as Hm. set (Um := filter (λ s, es_Name s ∈ es_Name <$> moved) U) in *.
  assert (Hnm : es_Name <$> moved ≡ₚ es_Name <$> Um) by (by rewrite Hm at 1; rewrite names_touched).
  apply same_slices_hints in Hcr, Hup. pose proof (same_slices_names _ _ Hup) as Hnup. rewrite fmap_app in Hnup.
  assert (HUm : ∀ o, o ∈ Um → o ∈ U) by (intros o [_ ?]%list_elem_of_filter; done).
  assert (Hrest : unchangedSlices existing (si_ToUpdate si') del = filter (λ s, es_Name s ∉ es_Name <$> moved) U).
  { unfold U, unchangedSlices. rewrite list_filter_filter. apply filter_ext_in. intros o _.
    rewrite !not_elem_of_union, !elem_of_list_to_set, Hnup, not_elem_of_app. naive_solver. }
  split; [| | |done].
  - rewrite Hrest. apply (published_same _ (slice_eps (filter (λ s, es_Name s ∉ es_Name <$> moved) U) ++
      slice_eps (up ++ moved) ++ slice_eps cr)).
    { apply Forall2_app; [apply Forall2_same_refl|]. symmetry. by apply Forall2_app; apply same_slices_eps. }
    apply (published_perm D _ (slice_eps (filter (λ s, es_Name s ∉ es_Name <$> moved) U) ++
      (slice_eps up ++ slice_eps (touched service eps <$> Um)) ++ slice_eps cr)); [done| |].
    { rewrite slice_eps_app. by rewrite (slice_eps_perm _ _ Hm). }
    apply (published_same _ (slice_eps (filter (λ s, es_Name s ∉ es_Name <$> moved) U) ++
      (slice_eps up ++ slice_eps Um) ++ slice_eps cr)).
    { repeat (apply Forall2_app; try apply Forall2_same_refl). apply same_slices_eps. clear.
      induction Um as [|o l IH]; constructor; [apply same_slice_touched|done]. }
    eapply published_perm; [reflexivity| |exact Hp].
    rewrite (slice_eps_perm _ _ (filter_split (λ s, es_Name s ∈ es_Name <$> moved) U)) at 1.
    rewrite slice_eps_app. fold Um. solve_Permutation.
  - rewrite fmap_app, Hnup, Hnm. rewrite fmap_app in Hd. apply NoDup_app in Hd as (Hd1 & Hd2 & Hd3).
    assert (Hx : ∀ n, n ∈ es_Name <$> Um → n ∉ es_Name <$> up ∧ n ∉ es_Name <$> del).
    { intros n (o & -> & Ho%HUm%elem_of_unchanged)%list_elem_of_fmap. by destruct Ho as (_ & ? & ?). }
    rewrite !NoDup_app. split_and!; [done|intros n ? ?%Hx; naive_solver|by apply NoDup_filter_names| |done].
    intros n [?|?%Hx]%elem_of_app; [by apply Hd2|by destruct H5].
  - intros s [Hin|Hin]%elem_of_app; [|apply He, elem_of_app; by right].
    apply (list_elem_of_fmap_2 es_Name) in Hin. rewrite Hnup, Hnm in Hin. apply elem_of_app in Hin as [Hin|Hin].
    + apply list_elem_of_fmap in Hin as (u & -> & Hu). apply He, elem_of_app. by left.
    + apply list_elem_of_fmap in Hin as (o & -> & [Ho _]%HUm%elem_of_unchanged). by apply list_elem_of_fmap_2.
Qed.

Lemma apply_hints_spec (st : RState W) si st1 si' evs :
  apply_hints topologyFuel st service si = Ret (st1, si', evs) → hints_only si si' ∧ rs_api st1 = rs_api st.
Proof.
  unfold apply_hints. destruct (rs_topology st) as [t|].
  - destruct (hintsEnabled _).
    + destruct (AddHints topologyFuel t si) as [[[t' s'] ev]| | |] eqn:E; try done. intros [= <- <- <-].
      apply AddHints_spec in E as [? _]. done.
    + intros [= <- <- <-]. split; [apply RemoveHintsFromSlices_spec|done].
  - intros [= <- <- <-]. split; [apply RemoveHintsFromSlices_spec|done].
Qed.

(** The existing slices are the ones the server has. *)
Definition in_sync (m : gmap string EndpointSlice) (existing : list EndpointSlice) : Prop :=
  ∀ s, s ∈ existing → m !! es_Name s = Some s.

Lemma put_all_in m l s : NoDup (es_Name <$> l) → s ∈ l → put_all m l !! es_Name s = Some s.
Proof.
  revert m. induction l as [|x l IH]; intros m Hnd; [by intros ?%elem_of_nil|]. rewrite fmap_cons, NoDup_cons in Hnd.
  destruct Hnd as [Hx Hnd]. intros [->|Hs]%elem_of_cons; [|by apply IH]. simpl. rewrite put_all_ne; [apply lookup_insert_eq|].
  by rewrite elem_of_names.
Qed.

Lemma alive_split m existing X : NoDup (es_Name <$> existing) → in_sync m existing → X ⊆ names existing →
  eps_of (alive m X) ≡ₚ slice_eps (filter (λ s, es_Name s ∉ X) existing) ++ eps_of (alive m (names existing)).
Proof.
  intros Hnd Hin HX. set (l := filter _ existing).
  assert (Hndl : NoDup (es_Name <$> l)) by by apply NoDup_filter_names.
  assert (alive m X = put_all (alive m (names existing)) l) as ->.
  { apply map_eq. intros n. destruct (decide (n ∈ names l)) as [Hn|Hn].
    - rewrite elem_of_names in Hn. apply list_elem_of_fmap in Hn as (s & -> & Hs). rewrite put_all_in by done.
      apply list_elem_of_filter in Hs as [Hs Hs']. apply alive_lookup. split; [by apply Hin|done].
    - rewrite put_all_ne by done. apply option_eq. intros s. rewrite !alive_lookup. split; [|set_solver +HX].
      intros [Hs HnX]. split; [done|]. rewrite elem_of_names. intros (o & -> & Ho)%list_elem_of_fmap.
      apply Hn. rewrite elem_of_names. apply list_elem_of_fmap_2. by apply list_elem_of_filter. }
  rewrite eps_put_all, alive_alive by done.
  assert (names existing ∪ names l = names existing) as ->; [|done].
  apply set_eq. intros n. rewrite elem_of_union, !elem_of_names. split; [|by left].
  intros [?|(s & -> & [_ Hs]%list_elem_of_filter)%list_elem_of_fmap]; [done|by apply list_elem_of_fmap_2].
Qed.

Lemma alive_split_all m existing : NoDup (es_Name <$> existing) → in_sync m existing →
  eps_of m ≡ₚ slice_eps existing ++ eps_of (alive m (names existing)).
Proof.
  intros Hnd Hin. rewrite <- (alive_id m ∅) at 1 by set_solver. rewrite (alive_split _ existing ∅) by (done || set_solver).
  rewrite filter_all; [done|]. set_solver.
Qed.

(** The desired endpoints of an address type. *)
Definition desired_of (ds : desiredState) : list Endpoint := go_range (ds_endpoints ds) ≫= λ pe, vals (snd pe).

(** What one address type leaves: the desired endpoints in place of those of the
    existing slices, and the other slices as they were. *)
Definition replaced (m m' : gmap string EndpointSlice) (existing : list EndpointSlice) (eps : list Endpoint) : Prop :=
  eps_of m' ≡ₚ eps ++ eps_of (alive m (names existing)) ∧
  ∀ n s, m !! n = Some s → n ∉ names existing → m' !! n = Some s.
Definition type_done (m m' : gmap string EndpointSlice) (existing : list EndpointSlice) (D : list Endpoint) : Prop :=
  ∃ eps, published D eps ∧ replaced m m' existing eps.

Hypothesis not_terminating : ∀ w s w' e, api_create w (Namespace (svc_meta service)) s = (w', inr e) →
  err_reason e ≠ ReasonNamespaceTerminating.
Hypothesis not_deleting : DeletionTimestamp (svc_meta service) = None.
Hypothesis some_room : 1 ≤ rc_maxEndpointsPerSlice r.

Lemma finalize_plan st existing cr up del t st' D :
  NoDup (es_Name <$> existing) → in_sync (view st (Namespace (svc_meta service))) existing →
  plan_ok D existing cr up del → finalize st service cr up del t = (st', None) →
  type_done (view st (Namespace (svc_meta service))) (view st' (Namespace (svc_meta service))) existing D.
Proof.
  intros Hnd Hin [Hp Hd He _] Hf.
  assert (HX : names (up ++ del) ⊆ names existing).
  { intros n. rewrite !elem_of_names. intros (s & -> & Hs)%list_elem_of_fmap. by apply He. }
  apply finalize_leaves in Hf as [Heps Hframe]; [|done..|].
  2:{ intros n Hn%HX. rewrite elem_of_names in Hn. apply list_elem_of_fmap in Hn as (o & -> & Ho). apply elem_of_dom. rewrite Hin by done. done. }
  exists (slice_eps (unchangedSlices existing up del) ++ slice_eps up ++ slice_eps cr). split; [done|]. split.
  - rewrite Heps, (alive_split _ existing) by done.
    assert (filter (λ s, es_Name s ∉ names (up ++ del)) existing = unchangedSlices existing up del) as ->; [|solve_Permutation].
    unfold unchangedSlices. apply filter_ext_in. intros o _. rewrite names_app, !not_elem_of_union. unfold names. done.
  - intros n s Hs Hn. apply Hframe; [done|]. intros Hx. by apply Hn, HX.
Qed.

Lemma reconcileByAddressType_leaves st pods existing t at_ st' :
  NoDup (es_Name <$> existing) → EmptyString ∉ es_Name <$> existing → in_sync (view st (Namespace (svc_meta service))) existing →
  reconcileByAddressType nodeLister_Get topologyFuel r st service pods existing t at_ = Ret (st', []) →
  ∃ ds, desired_loop nodeLister_Get service at_ (mkDS ∅ ∅ []) pods = inl ds ∧ ds_errs ds = [] ∧
    type_done (view st (Namespace (svc_meta service))) (view st' (Namespace (svc_meta service))) existing (desired_of ds).
Proof.
  intros Hnd Hne Hin. unfold reconcileByAddressType.
  destruct (foldl (group_step service) (∅, []) existing) as [byPort notOwned] eqn:Eg.
  apply group_step_fold in Eg as [-> Hby]. cbn [app] in *.
  destruct (desired_loop _ _ _ _ _) as [ds|e] eqn:Ed; [|by intros [= _]]. intros Erec. exists ds. revert Erec.
  pose proof (desired_loop_ok _ _ _ _ ds_ok_init Ed) as [Hwf Hmeta].
  destruct (port_loop_spec existing byPort (ds_meta ds) (mkPL [] [] (group (slice_group service) None existing) NewServicePortCache)
    (go_range (ds_endpoints ds))) as (f & metrics & -> & Hf); [|done|done|done|apply NoDup_go_range|..].
  { intros p. rewrite Hby, lookup_empty. done. }
  { apply Forall_forall. intros [p d] Hpd%elem_of_go_range. split; [by eapply Hwf|]. apply Hmeta. by exists d. }
  cbn [mbind outcome_bind pl_toCreate pl_toUpdate pl_toDelete pl_metrics app].
  set (pl := mkPL _ _ _ _). set (pl' := add_placeholder _ _ _ _ _).
  assert (Hby' : ∀ p, default [] (byPort !! p) = port_slices existing p) by (intros p; by rewrite Hby, lookup_empty).
  assert (Hplan : plan_ok (desired_of ds) existing (pl_toCreate pl) (pl_toUpdate pl) (pl_toDelete pl)).
  { unfold pl. cbn [pl_toCreate pl_toUpdate pl_toDelete]. rewrite <- app_assoc.
    split; [by apply combined_published|by apply writes_distinct|by eapply writes_existing|by apply deletes_same]. }
  apply (placeholder_plan _ _ at_) in Hplan; [|done]. fold pl' in Hplan.
  set (st1 := mkRS _ _ _ _ _). destruct (apply_hints _ _ _ _) as [[[st2 si'] evs]| | |] eqn:Eh; try done.
  apply apply_hints_spec in Eh as [Hh Hapi]. cbn [mbind outcome_bind].
  apply (hints_plan _ _ _ _ _ _ _ _ _ Hnd Hplan) in Hh.
  assert (Hv : view st2 = view st) by (unfold view; by rewrite Hapi).
  destruct (finalize st2 service _ _ _ t) as [st3 err] eqn:Ef. intros [= <- Herr].
  destruct err as [e|]; [by destruct (ds_errs ds)|]. split; [done|]. split; [done|].
  eapply finalize_plan in Ef; [| |rewrite Hv|exact Hh]; [|done|done]. rewrite Hv in Ef. exact Ef.
Qed.

(** ** The whole service *)
Lemma split_step_fold supported existing byType0 del0 topo0 byType del topo :
  foldl (split_step supported) (byType0, del0, topo0) existing = (byType, del, topo) →
  del = del0 ++ filter (λ s, es_AddressType s ∉ supported) existing ∧
  ∀ at_, at_ ∈ supported → default [] (byType !! at_) = default [] (byType0 !! at_) ++ group es_AddressType at_ existing.
Proof.
  revert byType0 del0 topo0. induction existing as [|s existing IH]; intros byType0 del0 topo0; cbn [foldl].
  { intros [= <- <- <-]. split; [by rewrite app_nil_r|]. intros at_ _. by rewrite app_nil_r. }
  unfold split_step at 2. case_bool_decide as Hs; intros [-> Hp]%IH.
  - split; [by rewrite filter_cons_False by (intros []; done)|]. intros at_ Hat. rewrite Hp by done.
    destruct (decide (es_AddressType s = at_)) as [<-|Hne].
    + rewrite lookup_insert_eq, group_cons_eq by done. simpl. by rewrite <- app_assoc.
    + by rewrite lookup_insert_ne, group_cons_ne.
  - split; [by rewrite filter_cons_True, <- app_assoc by done|]. intros at_ Hat. rewrite Hp by done.
    rewrite group_cons_ne; [done|]. intros <-. done.
Qed.

Lemma in_sync_mono m l k : in_sync m l → (∀ s, s ∈ k → s ∈ l) → in_sync m k.
Proof. intros Hl Hk s Hs. by apply Hl, Hk. Qed.

(** Exchanging the endpoints of some slices does not touch the others. *)
Lemma replaced_rest m m' E eps rest : replaced m m' E eps →
  NoDup (es_Name <$> rest) → names rest ## names E → in_sync m rest →
  in_sync m' rest ∧ eps_of (alive m' (names rest)) ≡ₚ eps ++ eps_of (alive m (names E ∪ names rest)).
Proof.
  intros (He & Hf) Hnd Hdis Hin.
  assert (Hin' : in_sync m' rest).
  { intros s Hs. apply Hf; [by apply Hin|]. intros Hx. apply (Hdis (es_Name s)); [|done]. rewrite elem_of_names. by apply list_elem_of_fmap_2. }
  split; [done|]. pose proof (alive_split_all m' rest Hnd Hin') as H1'. rewrite He in H1'.
  assert (Hin2 : in_sync (alive m (names E)) rest).
  { intros s Hs. apply alive_lookup. split; [by apply Hin|]. intros Hx. apply (Hdis (es_Name s)); [|done].
    rewrite elem_of_names. by apply list_elem_of_fmap_2. }
  pose proof (alive_split_all (alive m (names E)) rest Hnd Hin2) as H2'. rewrite alive_alive in H2'.
  rewrite H2' in H1'. apply (Permutation_app_inv_l (slice_eps rest)). rewrite <- H1'. solve_Permutation.
Qed.

Definition types_slices (existing : list EndpointSlice) (ts : list string) : list EndpointSlice :=
  ts ≫= λ at_, group es_AddressType at_ existing.

(** The endpoints published for one address type. *)
Definition type_published (pods : list Pod) (at_ : string) (eps : list Endpoint) : Prop :=
  ∃ ds, desired_loop nodeLister_Get service at_ (mkDS ∅ ∅ []) pods = inl ds ∧ ds_errs ds = [] ∧ published (desired_of ds) eps.

Let ns : string := Namespace (svc_meta service).

Lemma types_slices_ok existing ts : NoDup (es_Name <$> existing) → NoDup ts →
  NoDup (es_Name <$> types_slices existing ts) ∧ ∀ s, s ∈ types_slices existing ts ↔ s ∈ existing ∧ es_AddressType s ∈ ts.
Proof.
  intros Hnd Hts. split.
  - apply (NoDup_groups es_AddressType es_Name es_Name _ ts existing); [done|done|]. intros k _.
    split; [by apply NoDup_filter_names|]. intros. by apply list_elem_of_fmap_2.
  - intros s. unfold types_slices. rewrite list_elem_of_bind. setoid_rewrite elem_of_group. naive_solver.
Qed.

Lemma types_loop_leaves st pods existing byType t ts errs st' :
  NoDup (es_Name <$> existing) → EmptyString ∉ es_Name <$> existing → NoDup ts →
  (∀ at_, at_ ∈ ts → default [] (byType !! at_) = group es_AddressType at_ existing) →
  in_sync (view st ns) (types_slices existing ts) →
  types_loop nodeLister_Get topologyFuel r st service pods byType t ts errs = Ret (st', []) →
  errs = [] ∧ ∃ epss, Forall2 (type_published pods) ts epss ∧
    replaced (view st ns) (view st' ns) (types_slices existing ts) (concat epss).
Proof.
  intros Hnd Hne. revert st errs. induction ts as [|at_ ts IH]; intros st errs Hts Hby Hin; cbn [types_loop].
  { intros [= <- ->]. split; [done|]. exists []. split; [constructor|]. split; [|done]. simpl. by rewrite alive_id by set_solver. }
  rewrite NoDup_cons in Hts. destruct Hts as [Hat Hts].
  destruct (types_slices_ok existing ts Hnd Hts) as [HndT HT]. set (E := group es_AddressType at_ existing).
  assert (HE : ∀ s, s ∈ E → s ∈ existing) by (intros s [_ ?]%elem_of_group; done).
  change (types_slices existing (at_ :: ts)) with (E ++ types_slices existing ts) in *.
  assert (HndE : NoDup (es_Name <$> E)) by by apply NoDup_filter_names.
  assert (Hdis : names (types_slices existing ts) ## names E).
  { intros n. rewrite !elem_of_names. intros (s & -> & [Hs Hst]%HT)%list_elem_of_fmap (o & Ho & [Hoa Hoe]%elem_of_group)%list_elem_of_fmap.
    apply list_elem_of_lookup in Hs as [i Hi]. apply list_elem_of_lookup in Hoe as [j Hj].
    assert (i = j) as ->; [|congruence]. eapply NoDup_lookup; [exact Hnd| |]; rewrite list_lookup_fmap;
      [by rewrite Hi|rewrite Hj; simpl; congruence]. }
  rewrite (Hby at_) by left. fold E.
  destruct (reconcileByAddressType _ _ _ st _ _ _ _ _) as [[st1 e]| | |] eqn:Er; try done. cbn [mbind outcome_bind]. intros El.
  assert (errs ++ e = []) as [-> ->]%app_nil.
  { clear -El. revert st1 El. generalize (errs ++ e). induction ts as [|x ts IH]; intros l st1; cbn [types_loop]; [by intros [= _ ->]|].
    destruct (reconcileByAddressType _ _ _ st1 _ _ _ _ _) as [[st2 e2]| | |]; try done. cbn [mbind outcome_bind].
    intros Hx%IH. by apply app_nil in Hx as [-> _]. }
  apply reconcileByAddressType_leaves in Er as (ds & Hds & Herr & Hdone); [|done| |].
  2:{ intros (s & Hs & Hin')%list_elem_of_fmap. apply Hne. rewrite Hs. by apply list_elem_of_fmap_2, HE. }
  2:{ eapply in_sync_mono; [exact Hin|]. intros s Hs. apply elem_of_app. by left. }
  split; [done|]. fold ns in Hdone. destruct Hdone as (eps & Hp & Hrep). pose proof Hrep as [_ Hframe].
  destruct (replaced_rest _ _ _ _ _ Hrep HndT Hdis) as (Hin1 & Heps).
  { eapply in_sync_mono; [exact Hin|]. intros s Hs. apply elem_of_app. by right. }
  destruct (IH st1 [] Hts) as (_ & epss & Hall & [Hv Hf]); [intros; apply Hby; by right|done|done|].
  exists (eps :: epss). split; [constructor; [by exists ds|done]|]. unfold replaced. rewrite names_app. split.
  - rewrite Hv. simpl. rewrite Heps. solve_Permutation.
  - intros n s Hs Hn. apply Hf; [apply Hframe; [done|set_solver +Hn]|set_solver +Hn].
Qed.

Lemma delete_loop_leaves (st : RState W) del errs st' :
  delete_loop st service del errs = (st', []) → errs = [] ∧ view st' ns = alive (view st ns) (names del).
Proof.
  revert st errs. induction del as [|s del IH]; intros st errs; cbn [delete_loop].
  { intros [= <- ->]. split; [done|]. by rewrite alive_id by set_solver. }
  unfold do_delete. fold ns. destruct (api_delete (rs_api st) ns (es_Name s)) as [w [e|]] eqn:E; intros [He Hv]%IH.
  { by apply app_nil in He as [_ ?]. }
  split; [done|]. rewrite Hv. unfold view. cbn [rs_api]. rewrite (api_delete_ok _ _ _ _ E).
  apply map_eq. intros n. apply option_eq. intros t. rewrite !alive_lookup, lookup_delete_Some, names_cons. set_solver.
Qed.

(** *** The desired endpoints are those of the pods *)
Definition node_of (pod : Pod) : option Node := match nodeLister_Get (pod_NodeName pod) with inl n => Some n | inr _ => None end.
Definition pod_endpoint (pod : Pod) : Endpoint := podToEndpoint pod (node_of pod) service.
Definition eligible (pod : Pod) : Prop := ShouldPodBeInEndpoints pod true = true ∧ Addresses (pod_endpoint pod) ≠ [].
Definition pod_ports (pod : Pod) : string := fst (NewPortMapKey (getEndpointPorts service pod)).

(** Each endpoint of the set comes from one of the pods, and each pod has an
    endpoint of its hash in the set of its ports. *)
Definition ds_exact (ds : desiredState) (pods : list Pod) : Prop :=
  (∀ p s h e, ds_endpoints ds !! p = Some s → s !! h = Some e → ∃ pod, pod ∈ pods ∧ eligible pod ∧ e = ep_sorted (pod_endpoint pod)) ∧
  (∀ pod, pod ∈ pods → eligible pod → is_Some (ds_endpoints ds !! pod_ports pod ≫= (.!! ep_hash (pod_endpoint pod)))).

Lemma ds_exact_other ds ds' done_ pod : ds_exact ds done_ → ¬ eligible pod →
  (∀ p, default ∅ (ds_endpoints ds' !! p) = default ∅ (ds_endpoints ds !! p)) → ds_exact ds' (done_ ++ [pod]).
Proof.
  intros [E1 E2] Hel Heps. split.
  - intros p s h e Hs He. pose proof (Heps p) as Hp. rewrite Hs in Hp. simpl in Hp. subst s.
    destruct (ds_endpoints ds !! p) as [s|] eqn:Hp; [|done]. destruct (E1 _ _ _ _ Hp He) as (q & ? & ?).
    exists q. split; [|done]. apply elem_of_app. by left.
  - intros q [Hq|Hq]%elem_of_app Hq'; [|by apply list_elem_of_singleton in Hq as ->].
    destruct (E2 q Hq Hq') as [e He]. exists e. specialize (Heps (pod_ports q)).
    destruct (ds_endpoints ds !! pod_ports q) as [s|]; [|done]. simpl in He, Heps.
    destruct (ds_endpoints ds' !! pod_ports q); simpl in *; subst; done.
Qed.

Lemma ds_exact_add ds meta eps errs done_ pod : ds_exact ds done_ → eligible pod →
  (∀ p, default ∅ (eps !! p) = default ∅ (ds_endpoints ds !! p)) →
  ds_exact (mkDS meta (<[pod_ports pod := EndpointSet_Insert (default ∅ (eps !! pod_ports pod)) [pod_endpoint pod]]> eps) errs) (done_ ++ [pod]).
Proof.
  intros [E1 E2] Hel Heps. set (h := pod_ports pod). set (pe := pod_endpoint pod).
  change (EndpointSet_Insert (default ∅ (eps !! h)) [pe]) with (<[ep_hash pe := ep_sorted pe]> (default ∅ (eps !! h))).
  assert (Hold : ∀ p k e, default ∅ (eps !! p) !! k = Some e → ∃ q, q ∈ done_ ++ [pod] ∧ eligible q ∧ e = ep_sorted (pod_endpoint q)).
  { intros p k e. rewrite Heps. destruct (ds_endpoints ds !! p) as [s|] eqn:Hp; [|done]. intros He.
    destruct (E1 _ _ _ _ Hp He) as (q & ? & ?). exists q. split; [apply elem_of_app; by left|done]. }
  split; cbn [ds_endpoints].
  - intros p s k e [[<- <-]|[_ Hs]]%lookup_insert_Some He.
    + apply lookup_insert_Some in He as [[_ <-]|[_ He]]; [|by eapply Hold].
      exists pod. split; [apply elem_of_app; right; by left|done].
    + eapply (Hold p k). by rewrite Hs.
  - intros q Hq Hq'. destruct (decide (pod_ports q = h)) as [Hqh|Hne].
    + rewrite Hqh, lookup_insert_eq. cbn [mbind option_bind]. apply lookup_insert_is_Some'.
      apply elem_of_app in Hq as [Hq|Hq%list_elem_of_singleton]; [right|left; by subst].
      destruct (E2 q Hq Hq') as [e He]. exists e. rewrite Heps, <- Hqh. by destruct (ds_endpoints ds !! pod_ports q).
    + apply elem_of_app in Hq as [Hq|Hq%list_elem_of_singleton]; [|by subst]. rewrite lookup_insert_ne by done.
      destruct (E2 q Hq Hq') as [e He]. exists e. specialize (Heps (pod_ports q)).
      destruct (ds_endpoints ds !! pod_ports q) as [s|]; [|done]. simpl in He, Heps.
      destruct (eps !! pod_ports q); simpl in *; subst; done.
Qed.

Lemma desired_step_exact at_ ds pod ds' done_ :
  ds_exact ds done_ → desired_step nodeLister_Get service at_ ds pod = inl ds' → ds_errs ds' = [] → ds_exact ds' (done_ ++ [pod]).
Proof.
  intros Hex. unfold desired_step. destruct (ShouldPodBeInEndpoints pod true) eqn:Hs; cbn [negb].
  2:{ intros [= <-] _. apply (ds_exact_other ds); [done| |done]. intros [? _]. congruence. }
  destruct (NewPortMapKey (getEndpointPorts service pod)) as [h ports] eqn:Hports.
  assert (Hh : pod_ports pod = h) by (unfold pod_ports; by rewrite Hports). subst h.
  set (eps := if bool_decide (is_Some (ds_endpoints ds !! pod_ports pod)) then _ else _).
  generalize (if bool_decide (is_Some (ds_meta ds !! pod_ports pod)) then ds_meta ds else <[pod_ports pod := mkEndpointMeta ports at_]> (ds_meta ds)). intros meta.
  assert (Heps : ∀ p, default ∅ (eps !! p) = default ∅ (ds_endpoints ds !! p)).
  { intros p. unfold eps. case_bool_decide as Hb; [done|]. destruct (decide (p = pod_ports pod)) as [->|Hne]; [|by rewrite lookup_insert_ne].
    rewrite lookup_insert_eq. apply eq_None_not_Some in Hb. by rewrite Hb. }
  clearbody eps. cbv zeta.
  assert (Hadd : (if (0 <? length (Addresses (pod_endpoint pod)))%nat
     then inl (mkDS meta (<[pod_ports pod := EndpointSet_Insert (default ∅ (eps !! pod_ports pod)) [pod_endpoint pod]]> eps) (ds_errs ds))
     else inl (mkDS meta eps (ds_errs ds))) = (inl ds' : desiredState + ApiError) → ds_exact ds' (done_ ++ [pod])).
  { case_match eqn:Hlen; intros <-%(inj inl).
    - apply (ds_exact_add ds); [done| |done]. split; [done|]. intros Hx. by rewrite Hx in Hlen.
    - apply (ds_exact_other ds); [done| |done]. intros [_ Hx]. apply Hx. destruct (Addresses _); [done|]. done. }
  unfold pod_endpoint, node_of in Hadd. destruct (nodeLister_Get (pod_NodeName pod)) as [node|e] eqn:En; [by intros ? _; apply Hadd|].
  destruct (negb (IsNotFound e)); [done|]. destruct (negb _); [|by intros ? _; apply Hadd].
  intros [= <-]. cbn [ds_errs]. intros Hx. by apply app_nil in Hx as [_ ?].
Qed.

Lemma desired_step_errs at_ ds pod ds' : desired_step nodeLister_Get service at_ ds pod = inl ds' → ds_errs ds' = [] → ds_errs ds = [].
Proof.
  unfold desired_step. destruct (negb _); [by intros [= <-]|]. destruct (NewPortMapKey _). cbv zeta.
  repeat case_match; try done; intros <-%(inj inl); cbn [ds_errs]; try done; by intros [? _]%app_nil.
Qed.

Lemma desired_loop_exact at_ pods ds ds' done_ :
  ds_exact ds done_ → desired_loop nodeLister_Get service at_ ds pods = inl ds' → ds_errs ds' = [] → ds_exact ds' (done_ ++ pods).
Proof.
  revert ds done_. induction pods as [|pod pods IH]; intros ds done_ Hex; cbn [desired_loop].
  { intros [= <-] _. by rewrite app_nil_r. }
  destruct (desired_step _ _ _ _ _) as [ds1|] eqn:E; [|done]. intros El Herr.
  rewrite (cons_middle pod done_ pods), app_assoc. eapply IH; [|done|done]. eapply desired_step_exact; [done|done|].
  clear -El Herr. revert ds1 El. induction pods as [|x pods IH]; intros ds1; cbn [desired_loop]; [by intros [= ->]|].
  destruct (desired_step _ _ _ _ x) as [ds2|] eqn:E; [|done]. intros El. eapply desired_step_errs; [exact E|]. by apply IH.
Qed.

(** [eps] are the endpoints of the pods: every endpoint agrees with that of an
    eligible pod in everything the code compares, and every eligible pod has an
    endpoint. *)
Definition serves_pods (pods : list Pod) (eps : list Endpoint) : Prop :=
  (∀ e, e ∈ eps → ∃ pod, pod ∈ pods ∧ eligible pod ∧ matches (ep_sorted (pod_endpoint pod)) e) ∧
  (∀ pod, pod ∈ pods → eligible pod → ∃ e, e ∈ eps ∧ ep_hash e = ep_hash (pod_endpoint pod)).

Lemma elem_of_desired ds e : e ∈ desired_of ds ↔ ∃ p s h, ds_endpoints ds !! p = Some s ∧ s !! h = Some e.
Proof.
  unfold desired_of, vals. rewrite list_elem_of_bind. setoid_rewrite list_elem_of_fmap. split.
  - intros ([p s] & ([h e'] & -> & Hh%elem_of_map_to_list) & Hp%elem_of_go_range). eauto.
  - intros (p & s & h & Hp & Hh). exists (p, s). split; [|by apply elem_of_go_range].
    exists (h, e). split; [done|]. by apply elem_of_map_to_list.
Qed.

Lemma type_published_serves pods at_ eps : type_published pods at_ eps → serves_pods pods eps.
Proof.
  intros (ds & Hds & Herr & D & HD & Hm).
  destruct (desired_loop_exact at_ pods (mkDS ∅ ∅ []) ds []) as [E1 E2]; [|done|done|].
  { split; [intros p s h e Hp; cbn in Hp; by rewrite lookup_empty in Hp|by intros ? ?%elem_of_nil]. }
  split.
  - intros e [i He]%list_elem_of_lookup. destruct (Forall2_lookup_r _ _ _ _ _ Hm He) as (d & Hd & Hde).
    apply list_elem_of_lookup_2 in Hd. rewrite HD, elem_of_desired in Hd. destruct Hd as (p & s & h & Hp & Hh).
    destruct (E1 _ _ _ _ Hp Hh) as (pod & ? & ? & ->). eauto.
  - intros pod Hpod Hel. destruct (E2 pod Hpod Hel) as [d Hd]. destruct (ds_endpoints ds !! pod_ports pod) as [s|] eqn:Hp; [|done].
    simpl in Hd. assert (Hin : d ∈ D) by (rewrite HD, elem_of_desired; eauto). apply list_elem_of_lookup in Hin as [i Hi].
    destruct (Forall2_lookup_l _ _ _ _ _ Hm Hi) as (e & He & [Hhash _]). exists e. split; [by eapply list_elem_of_lookup_2|].
    rewrite Hhash. destruct (desired_loop_ok _ _ _ _ ds_ok_init Hds) as [Hwf _]. by destruct (Hwf _ _ Hp _ _ Hd).
Qed.

(** The slices by supported address type, and the rest. *)
Lemma types_partition existing (sup : gset string) :
  existing ≡ₚ types_slices existing (UnsortedList sup) ++ filter (λ s, es_AddressType s ∉ sup) existing.
Proof.
  rewrite (filter_split (λ s, es_AddressType s ∈ sup) existing) at 1. f_equiv. unfold types_slices.
  pose proof (groups_filter es_AddressType (λ _ _, True) (UnsortedList sup) existing (NoDup_UnsortedList sup)) as Hg.
  cbv beta in Hg. match type of Hg with ?l ≡ₚ _ => assert (l = UnsortedList sup ≫= λ k, group es_AddressType k existing) as Hx end.
  { clear Hg. induction (UnsortedList sup) as [|k l IH]; [done|]. rewrite !bind_cons, IH. by rewrite filter_all. }
  rewrite Hx in Hg. rewrite Hg. erewrite filter_ext_in; [done|]. intros s _. cbv beta. rewrite elem_of_UnsortedList. naive_solver.
Qed.

Lemma Reconcile_leaves st pods existing t st' :
  NoDup (es_Name <$> existing) → EmptyString ∉ es_Name <$> existing → in_sync (view st ns) existing →
  Reconcile nodeLister_Get topologyFuel r st service pods existing t = Ret (st', []) →
  ∃ epss, Forall2 (λ at_ eps, type_published pods at_ eps ∧ serves_pods pods eps) (UnsortedList (getAddressTypesForService service)) epss ∧
    eps_of (view st' ns) ≡ₚ concat epss ++ eps_of (alive (view st ns) (names existing)).
Proof.
  intros Hnd Hne Hin. unfold Reconcile. set (sup := getAddressTypesForService service).
  destruct (foldl (split_step sup) (∅, [], rs_topology st) existing) as [[byType del] topo] eqn:Es.
  apply split_step_fold in Es as [-> Hby]. cbn [app].
  set (st0 := mkRS _ _ _ _ _). destruct (types_loop _ _ _ st0 _ _ _ _ _ _) as [[st1 errs]| | |] eqn:Et; try done.
  cbn [mbind outcome_bind]. intros Hd%(inj Ret). apply delete_loop_leaves in Hd as [-> Hv].
  destruct (types_slices_ok existing (UnsortedList sup) Hnd (NoDup_UnsortedList sup)) as [HndT HT].
  apply (types_loop_leaves st0 pods existing) in Et as (_ & epss & Hall & Hrep); [|done|done|apply NoDup_UnsortedList|..].
  2:{ intros at_ Hat%elem_of_UnsortedList. rewrite Hby, lookup_empty by done. done. }
  2:{ eapply in_sync_mono; [exact Hin|]. intros s Hs. by apply HT in Hs as [? _]. }
  change (view st0 ns) with (view st ns) in *. set (T := types_slices existing (UnsortedList sup)) in *.
  set (dels := filter (λ s, es_AddressType s ∉ sup) existing) in *.
  pose proof (types_partition existing sup) as Hsplit. fold T dels in Hsplit.
  exists epss. split.
  { eapply Forall2_impl; [exact Hall|]. intros at_ eps Htp. split; [done|]. by eapply type_published_serves. }
  rewrite Hsplit, fmap_app in Hnd. apply NoDup_app in Hnd as (_ & Hdis & HndD).
  destruct (replaced_rest _ _ _ _ dels Hrep HndD) as [_ Heps].
  { intros n. rewrite !elem_of_names. intros H1' H2'. by eapply Hdis. }
  { eapply in_sync_mono; [exact Hin|]. intros s Hs. rewrite Hsplit. apply elem_of_app. by right. }
  assert (names existing = names T ∪ names dels) as ->; [|by rewrite Hv, Heps].
  rewrite <- names_app. apply set_eq. intros n. rewrite !elem_of_names. by rewrite Hsplit.
Qed.

(** C1: the end-to-end correctness of the reconciler.  When [Reconcile] reports no
    error, starting from existing slices that agree with the API server, then for
    every address type of the service the stored slices publish exactly the
    endpoints of the service's pods, one for one and grouped by ports, topology
    hints aside; the slices of other services in the namespace are not touched,
    and no slice of the service holds anything else.  The service is not being
    deleted, its namespace is not terminating and a slice may hold at least one
    endpoint. *)
Theorem Reconcile_correct st pods existing t st' :
  NoDup (es_Name <$> existing) → EmptyString ∉ es_Name <$> existing → in_sync (view st (Namespace (svc_meta service))) existing →
  Reconcile nodeLister_Get topologyFuel r st service pods existing t = Ret (st', []) →
  ∃ epss, Forall2 (λ at_ eps, type_published pods at_ eps ∧ serves_pods pods eps) (UnsortedList (getAddressTypesForService service)) epss ∧
    eps_of (view st' (Namespace (svc_meta service))) ≡ₚ
      concat epss ++ eps_of (alive (view st (Namespace (svc_meta service))) (names existing)).
Proof. apply Reconcile_leaves. Qed.
End one_type.

(** ** Witness: one pod moves in, an old slice is refilled, a foreign one stays *)
Definition demo_cni_pod (n ip : string) : Pod :=
  mkPod (mkMeta n EmptyString "ns" n EmptyString 0 0 None None (Some {[FleetboardParallelIP := ip]}) [] [])
    "n1" EmptyString EmptyString "Always" [] "Running" EmptyString "172.17.0.2" ["172.17.0.2"] [].
Definition demo_v4_service : Service :=
  mkService (mkMeta "a" EmptyString "ns" "a" "1" 0 0 None None None [] []) [] EmptyString "ClusterIP"
    (Some {["app" := "x"]}) false ["IPv4"].
Definition demo_node (n : string) : Node + ApiError :=
  inl (mkNode (mkMeta n EmptyString EmptyString n EmptyString 0 0 None None None [] []) [] 0).
Definition demo_old : EndpointSlice :=
  set_meta (set_Name "a-1") (set_Endpoints [demo_ep "10.0.0.9" "p9"]
    (@newEndpointSlice demo_slicelib demo_v4_service (mkEndpointMeta [] AddressTypeIPv4) "fleetboard")).
Definition demo_before : RState demo_world :=
  mkRS {["ns" := {["a-1" := demo_old; "b-1" := demo_slice "b-1" [demo_ep "10.0.0.2" "p2"]]}]}
    NewEndpointSliceTracker (NewCache 100) None [].
Definition demo_pods : list Pod := [demo_cni_pod "p1" "10.0.0.1"; demo_cni_pod "p3" "10.0.0.3"].
Definition demo_after : outcome (RState demo_world * list string) :=
  @Reconcile list_runtime demo_lib demo_slicelib demo_world demo_client demo_node 0 (mkRC 100 "fleetboard") demo_before
    demo_v4_service demo_pods [demo_old] 7.
Definition demo_addresses (o : outcome (RState demo_world * list string)) : list (list string) :=
  match o with Ret (st, _) => Addresses <$> eps_of (@view demo_world demo_client demo_server st "ns") | _ => [] end.

Lemma Reconcile_correct_witness :
  demo_addresses demo_after = [["10.0.0.3"]; ["10.0.0.1"]; ["10.0.0.2"]] ∧
  ∃ st' epss, demo_after = Ret (st', []) ∧
    Forall2 (λ at_ eps, @type_published list_runtime demo_lib demo_slicelib demo_node demo_v4_service demo_pods at_ eps ∧
      @serves_pods list_runtime demo_lib demo_slicelib demo_node demo_v4_service demo_pods eps)
      (@UnsortedList list_runtime _ _ _ (@getAddressTypesForService demo_slicelib demo_v4_service)) epss ∧
    eps_of (@view demo_world demo_client demo_server st' "ns") ≡ₚ
      concat epss ++ eps_of (alive (@view demo_world demo_client demo_server demo_before "ns") (names [demo_old])).
Proof.
  split; [vm_compute; reflexivity|].
  assert (E : match demo_after with Ret (_, []) => true | _ => false end = true) by (vm_compute; reflexivity).
  destruct demo_after as [[st' [|]]| | |] eqn:Ea; try discriminate E.
  destruct (@Reconcile_correct list_runtime demo_lib demo_slicelib demo_world demo_client demo_server demo_node 0 (mkRC 100 "fleetboard")
    demo_v4_service) with (st := demo_before) (pods := demo_pods) (existing := [demo_old]) (t := 7) (st' := st') as (epss & H1 & H2).
  - simpl. intros w s w' e. destruct (_ || _); intros [= _ <-]. discriminate.
  - reflexivity.
  - simpl. lia.
  - apply (bool_decide_unpack (NoDup _)). vm_compute. exact I.
  - apply (bool_decide_unpack (EmptyString ∉ _)). vm_compute. exact I.
  - intros s Hs%list_elem_of_singleton. subst s. vm_compute. reflexivity.
  - exact Ea.
  - exists st', epss. split; [reflexivity|]. exact (conj H1 H2).
Defined.
