(* ===== verification/ProxyEndpoints.v ===== *)
(** * Endpoints of the proxy

    [pkg/proxy/endpointslicecache.go] and [pkg/proxy/endpoints.go]: the cache of
    endpoint slices with their applied and pending versions, and the map from
    service ports to endpoints the proxier programs.  A pointer that may be nil
    is an [option]; a dereference of nil is [Panic]. *)
From Stdlib Require Import Ascii.
From stdpp Require Import prelude gmap strings list.
From S2P Require Import Prelude NetAddr K8s.
Open Scope Z_scope.

(** Library functions: [utilnet.IsIPv6String], [proxyutil.IPPart],
    [proxyutil.PortPart], [time.Parse(time.RFC3339Nano, _)] and the feature gate
    [TopologyAwareHints]. *)
Class ProxyLib := {
  utilnet_IsIPv6String : string → bool;
  IPPart : string → string;
  PortPart : string → outcome Z;
  ParseRFC3339Nano : string → option Time;
  gate_TopologyAwareHints : bool
}.

(** Labels of [pkg/known/labels.go]. *)
Definition known_LabelServiceName : string := "services.fleetboard.io/multi-cluster-service-name".
Definition known_LabelServiceNameSpace : string := "services.fleetboard.io/multi-cluster-service-LocalNamespace".

(** ** Types *)
Record ServicePortName := mkSPN { spn_nn : NamespacedName; spn_Port : string; spn_Protocol : string }.
#[export] Instance ServicePortName_eq_dec : EqDecision ServicePortName.
Proof. solve_decision. Defined.
#[export] Instance ServicePortName_countable : Countable ServicePortName.
Proof.
  refine (inj_countable' (λ s, (spn_nn s, spn_Port s, spn_Protocol s)) (λ '(n, p, q), mkSPN n p q) _). by intros [].
Defined.

Definition fmtPortName (port : string) : string := if bool_decide (port = EmptyString) then EmptyString else ":" +:+ port.
Definition SPN_String (spn : ServicePortName) : string := NN_String (spn_nn spn) +:+ fmtPortName (spn_Port spn).

Record endpointInfo := mkEpInfo {
  ei_Addresses : list string; ei_NodeName : option string; ei_Zone : option string; ei_ZoneHints : option (gset string);
  ei_Ready : bool; ei_Serving : bool; ei_Terminating : bool }.
#[export] Instance endpointInfo_eq_dec : EqDecision endpointInfo.
Proof. solve_decision. Defined.

Record endpointSliceInfo := mkEsInfo {
  esi_Ports : list EndpointPort; esi_Endpoints : list endpointInfo; esi_Remove : bool; esi_nn : NamespacedName }.
#[export] Instance endpointSliceInfo_eq_dec : EqDecision endpointSliceInfo.
Proof. solve_decision. Defined.

Record BaseEndpointInfo := mkBEI {
  bei_Endpoint : string; bei_IsLocal : bool; bei_ZoneHints : option (gset string);
  bei_Ready : bool; bei_Serving : bool; bei_Terminating : bool; bei_NodeName : string; bei_Zone : string }.
#[export] Instance BaseEndpointInfo_eq_dec : EqDecision BaseEndpointInfo.
Proof. solve_decision. Defined.

(** A slice of the pending map may be a nil pointer. *)
Record endpointSliceTracker := mkEST {
  applied : gmap string endpointSliceInfo; pending : gmap string (option endpointSliceInfo) }.
Definition newEndpointSliceTracker : endpointSliceTracker := mkEST ∅ ∅.

Record EndpointSliceCache := mkESC {
  trackerByServiceMap : gmap NamespacedName endpointSliceTracker; esc_hostname : string; esc_ipFamily : string }.
Definition NewEndpointSliceCache (hostname ipFamily : string) : EndpointSliceCache := mkESC ∅ hostname ipFamily.

Abbreviation EndpointsMap := (gmap ServicePortName (list BaseEndpointInfo)).
Record endpointsChange := mkEC { ec_previous : EndpointsMap; ec_current : EndpointsMap }.

(** ** Sorting *)
Definition byAddress_Less (e f : endpointInfo) : bool :=
  str_lt (join "," (ei_Addresses e)) (join "," (ei_Addresses f)).
Definition byEndpoint_Less (e f : BaseEndpointInfo) : bool := str_lt (bei_Endpoint e) (bei_Endpoint f).
(** A nil port number is dereferenced by every comparison: see [sort_ports]. *)
Definition byPort_Less (p q : EndpointPort) : bool := default 0 (ep_Port p) <? default 0 (ep_Port q).

(** [net.JoinHostPort] *)
Definition JoinHostPort (host port : string) : string :=
  if has_char ":"%char host || has_char "%"%char host then "[" +:+ host +:+ "]:" +:+ port else host +:+ ":" +:+ port.

Definition newBaseEndpointInfo (ip nodeName zone : string) (port : Z) (isLocal ready serving terminating : bool)
    (zoneHints : option (gset string)) : BaseEndpointInfo :=
  mkBEI (JoinHostPort ip (Itoa port)) isLocal zoneHints ready serving terminating nodeName zone.

Definition BEI_Equal (info other : BaseEndpointInfo) : bool :=
  bool_decide (bei_Endpoint info = bei_Endpoint other) && eqb (bei_IsLocal info) (bei_IsLocal other)
  && eqb (bei_Ready info) (bei_Ready other).

(** Cache keys: the service of the standard label, in the namespace of the
    slice, and the name of the slice. *)
Definition endpointSliceCacheKeys (s : EndpointSlice) : outcome (NamespacedName * string) :=
  let serviceName := mstr (Labels (es_meta s)) LabelServiceName in
  if bool_decide (serviceName = EmptyString)
  then Err ("no " +:+ LabelServiceName +:+ " label set on endpoint slice: " +:+ es_Name s)
  else if bool_decide (Namespace (es_meta s) = EmptyString) || bool_decide (es_Name s = EmptyString)
  then Err "expected EndpointSlice name and namespace to be set"
  else Ret (mkNN (Namespace (es_meta s)) serviceName, es_Name s).

Section cache.
Context `{GoRuntime} `{ProxyLib}.

(** [sort.Sort] of two or more ports compares every one of them. *)
Definition sort_ports (ports : list EndpointPort) : outcome (list EndpointPort) :=
  if (1 <? length ports)%nat && existsb (λ p, bool_decide (ep_Port p = None)) ports then Panic
  else Ret (go_sort byPort_Less ports).

Definition to_endpointInfo (e : Endpoint) : endpointInfo :=
  mkEpInfo (Addresses e) (NodeName e) (Zone e)
    (if gate_TopologyAwareHints then
       match Hints e with Some (z :: zs) => Some (list_to_set (z :: zs)) | _ => None end
     else None)
    (default true (Ready e)) (default true (Serving e)) (default false (Terminating e)).

(** The information of a slice; a nil pointer when a label is missing. *)
Definition newEndpointSliceInfo (s : EndpointSlice) (remove : bool) : outcome (option endpointSliceInfo) :=
  match mget (Labels (es_meta s)) known_LabelServiceName, mget (Labels (es_meta s)) known_LabelServiceNameSpace with
  | Some nameLabel, Some namespaceLabel =>
      ports ← sort_ports (es_Ports s);
      Ret (Some (mkEsInfo ports
        (if remove then [] else go_sort byAddress_Less (to_endpointInfo <$> es_Endpoints s))
        remove (mkNN namespaceLabel nameLabel)))
  | _, _ => Ret None
  end.

(** Whether [esInfo] is a new pending value; a nil pointer that is in no map is
    dereferenced. *)
Definition esInfoChanged (cache : EndpointSliceCache) (serviceKey : NamespacedName) (sliceKey : string)
    (esInfo : option endpointSliceInfo) : outcome bool :=
  let fresh := i ← deref esInfo; Ret (negb (esi_Remove i)) in
  match trackerByServiceMap cache !! serviceKey with
  | Some t =>
      match pending t !! sliceKey with
      | Some pendingInfo => Ret (bool_decide (esInfo ≠ pendingInfo))
      | None => match applied t !! sliceKey with
                | Some appliedInfo => Ret (bool_decide (esInfo ≠ Some appliedInfo))
                | None => fresh
                end
      end
  | None => fresh
  end.

Definition set_tracker (cache : EndpointSliceCache) (key : NamespacedName) (t : endpointSliceTracker) : EndpointSliceCache :=
  mkESC (<[key := t]> (trackerByServiceMap cache)) (esc_hostname cache) (esc_ipFamily cache).

Definition updatePending (cache : EndpointSliceCache) (s : EndpointSlice) (remove : bool) : outcome (EndpointSliceCache * bool) :=
  match endpointSliceCacheKeys s with
  | Ret (serviceKey, sliceKey) =>
      esInfo ← newEndpointSliceInfo s remove;
      let t := default newEndpointSliceTracker (trackerByServiceMap cache !! serviceKey) in
      let cache := set_tracker cache serviceKey t in
      changed ← esInfoChanged cache serviceKey sliceKey esInfo;
      if (changed : bool)
      then Ret (set_tracker cache serviceKey (mkEST (applied t) (<[sliceKey := esInfo]> (pending t))), true)
      else Ret (cache, false)
  | Err _ => Ret (cache, false)
  | Panic => Panic
  | Spin => Spin
  end.

(** ** From slices to endpoints *)
Definition isLocal (cache : EndpointSliceCache) (hostname : string) : bool :=
  (0 <? String.length (esc_hostname cache))%nat && bool_decide (hostname = esc_hostname cache).

(** One endpoint of [addEndpoints]. *)
Definition add_endpoint (cache : EndpointSliceCache) (portNum : Z) (endpointSet : gmap string BaseEndpointInfo)
    (e : endpointInfo) : gmap string BaseEndpointInfo :=
  match ei_Addresses e with
  | [] => endpointSet
  | addr :: _ =>
      if xorb (bool_decide (esc_ipFamily cache = "IPv6")) (utilnet_IsIPv6String addr) then endpointSet
      else
        let local := match ei_NodeName e with Some n => isLocal cache n | None => false end in
        let info := newBaseEndpointInfo addr (default EmptyString (ei_NodeName e)) (default EmptyString (ei_Zone e))
                      portNum local (ei_Ready e) (ei_Serving e) (ei_Terminating e) (ei_ZoneHints e) in
        if bool_decide (endpointSet !! bei_Endpoint info = None) || local
        then <[bei_Endpoint info := info]> endpointSet else endpointSet
  end.

Definition addEndpoints (cache : EndpointSliceCache) (portNum : Z) (endpointSet : option (gmap string BaseEndpointInfo))
    (endpoints : list endpointInfo) : gmap string BaseEndpointInfo :=
  foldl (add_endpoint cache portNum) (default ∅ endpointSet) endpoints.

Abbreviation spToEndpointMap := (gmap ServicePortName (gmap string BaseEndpointInfo)).

(** The ports of a slice from index [i] on; the index names the service port. *)
Fixpoint ports_loop (cache : EndpointSliceCache) (si : endpointSliceInfo) (i : nat) (ports : list EndpointPort)
    (m : spToEndpointMap) : outcome spToEndpointMap :=
  match ports with
  | [] => Ret m
  | port :: rest =>
      match ep_Name port with
      | None => ports_loop cache si (S i) rest m
      | Some _ =>
          match ep_Port port with
          | None | Some 0 => ports_loop cache si (S i) rest m
          | Some portNum =>
              protocol ← deref (ep_Protocol port);
              let spn := mkSPN (esi_nn si) (Itoa (Z.of_nat i)) protocol in
              ports_loop cache si (S i) rest (<[spn := addEndpoints cache portNum (m !! spn) (esi_Endpoints si)]> m)
          end
      end
  end.

Fixpoint slices_loop (cache : EndpointSliceCache) (slices : list endpointSliceInfo) (m : spToEndpointMap) : outcome spToEndpointMap :=
  match slices with
  | [] => Ret m
  | si :: rest => m' ← ports_loop cache si 0 (esi_Ports si) m; slices_loop cache rest m'
  end.

Definition endpointInfoByServicePort (cache : EndpointSliceCache) (sliceInfoByName : gmap string endpointSliceInfo)
    : outcome spToEndpointMap :=
  slices_loop cache (go_range sliceInfoByName).*2 ∅.

Definition endpointsMapFromEndpointInfo (m : spToEndpointMap) : EndpointsMap :=
  omap (λ endpointSet, if (0 <? size endpointSet)%nat
                       then Some (go_sort byEndpoint_Less (go_range endpointSet).*2) else None) m.

Definition getEndpointsMap (cache : EndpointSliceCache) (sliceInfoByName : gmap string endpointSliceInfo) : outcome EndpointsMap :=
  m ← endpointInfoByServicePort cache sliceInfoByName; Ret (endpointsMapFromEndpointInfo m).

(** Applying the pending slices of a tracker; a nil pointer is dereferenced. *)
Fixpoint apply_pending (pend : list (string * option endpointSliceInfo)) (app : gmap string endpointSliceInfo)
    : outcome (gmap string endpointSliceInfo) :=
  match pend with
  | [] => Ret app
  | (name, sliceInfo) :: rest =>
      i ← deref sliceInfo;
      apply_pending rest (if esi_Remove i then delete name app else <[name := i]> app)
  end.

Fixpoint checkout_loop (cache : EndpointSliceCache) (trackers : list (NamespacedName * endpointSliceTracker))
    (changes : gmap NamespacedName endpointsChange) : outcome (EndpointSliceCache * gmap NamespacedName endpointsChange) :=
  match trackers with
  | [] => Ret (cache, changes)
  | (serviceNN, t) :: rest =>
      if (size (pending t) =? 0)%nat then checkout_loop cache rest changes
      else
        previous ← getEndpointsMap cache (applied t);
        app ← apply_pending (go_range (pending t)) (applied t);
        current ← getEndpointsMap cache app;
        checkout_loop (set_tracker cache serviceNN (mkEST app ∅)) rest (<[serviceNN := mkEC previous current]> changes)
  end.

Definition checkoutChanges (cache : EndpointSliceCache) : outcome (EndpointSliceCache * gmap NamespacedName endpointsChange) :=
  checkout_loop cache (go_range (trackerByServiceMap cache)) ∅.

(** ** [EndpointChangeTracker] *)
Record EndpointChangeTracker := mkECT {
  ect_cache : EndpointSliceCache; lastChangeTriggerTimes : gmap NamespacedName (list Time); trackerStartTime : Time }.

Definition NewEndpointChangeTracker (hostname ipFamily : string) (now : Time) : EndpointChangeTracker :=
  mkECT (NewEndpointSliceCache hostname ipFamily) ∅ now.

Definition getLastChangeTriggerTime (annotations : GoMap) : Time :=
  match mget annotations EndpointsLastChangeTriggerTime with
  | None => 0
  | Some v => default 0 (ParseRFC3339Nano v)
  end.

Definition supportedEndpointSliceAddressTypes (t : string) : bool := bool_decide (t = "IPv4") || bool_decide (t = "IPv6").

(** The address type is read before the nil check. *)
Definition EndpointSliceUpdate (ect : EndpointChangeTracker) (slice : option EndpointSlice) (removeSlice : bool)
    : outcome (EndpointChangeTracker * bool) :=
  s ← deref slice;
  if negb (supportedEndpointSliceAddressTypes (es_AddressType s)) then Ret (ect, false)
  else match endpointSliceCacheKeys s with
       | Ret (nn, _) =>
           '(cache, changeNeeded) ← updatePending (ect_cache ect) s removeSlice;
           let times :=
             if (changeNeeded : bool) then
               if removeSlice then delete nn (lastChangeTriggerTimes ect)
               else let t := getLastChangeTriggerTime (Annotations (es_meta s)) in
                    if negb (IsZero t) && After t (trackerStartTime ect)
                    then <[nn := default [] (lastChangeTriggerTimes ect !! nn) ++ [t]]> (lastChangeTriggerTimes ect)
                    else lastChangeTriggerTimes ect
             else lastChangeTriggerTimes ect in
           Ret (mkECT cache times (trackerStartTime ect), changeNeeded)
       | Err _ => Ret (ect, false)
       | Panic => Panic
       | Spin => Spin
       end.

Definition checkoutTriggerTimes (ect : EndpointChangeTracker) (times : gmap NamespacedName (list Time))
    : EndpointChangeTracker * gmap NamespacedName (list Time) :=
  (mkECT (ect_cache ect) ∅ (trackerStartTime ect),
   foldl (λ acc '(k, v), match acc !! k with
                         | None => <[k := v]> acc
                         | Some prev => <[k := prev ++ v]> acc
                         end) times (go_range (lastChangeTriggerTimes ect))).

(** ** [EndpointsMap] *)
Definition epm_merge (epm other : EndpointsMap) : EndpointsMap :=
  foldl (λ m '(k, v), <[k := v]> m) epm (go_range other).
Definition epm_unmerge (epm other : EndpointsMap) : EndpointsMap :=
  foldl (λ m k, delete k m) epm (go_range other).*1.

Record ServiceEndpoint := mkSE { se_Endpoint : string; se_ServicePortName : ServicePortName }.
Record UpdateEndpointMapResult := mkUER {
  uer_UpdatedServices : gset NamespacedName; uer_DeletedUDPEndpoints : list ServiceEndpoint;
  uer_NewlyActiveUDPServices : list ServicePortName; uer_LastChangeTriggerTimes : gmap NamespacedName (list Time) }.

(** The two loops of [detectStaleConntrackEntries]. *)
Definition deleted_udp (old new : EndpointsMap) : list ServiceEndpoint :=
  go_range old ≫= λ '(spn, epList),
    if bool_decide (spn_Protocol spn ≠ "UDP") then []
    else omap (λ ep, if negb (bei_Ready ep) then None
                     else if existsb (λ e, BEI_Equal e ep) (default [] (new !! spn)) then None
                     else Some (mkSE (bei_Endpoint ep) spn)) epList.

Definition ready_count (l : list BaseEndpointInfo) : nat := length (filter (λ ep, bei_Ready ep = true) l).

Definition newly_active (old new : EndpointsMap) : list ServicePortName :=
  omap (λ '(spn, epList),
    if bool_decide (spn_Protocol spn ≠ "UDP") then None
    else if (0 <? ready_count epList)%nat && (ready_count (default [] (old !! spn)) =? 0)%nat then Some spn
    else None) (go_range new).

Definition detectStaleConntrackEntries (old new : EndpointsMap) (deletedUDPEndpoints : list ServiceEndpoint)
    (newlyActiveUDPServices : list ServicePortName) : list ServiceEndpoint * list ServicePortName :=
  (deletedUDPEndpoints ++ deleted_udp old new, newlyActiveUDPServices ++ newly_active old new).

(** One change of [Update]. *)
Definition apply_change (st : EndpointsMap * UpdateEndpointMapResult) (nc : NamespacedName * endpointsChange)
    : EndpointsMap * UpdateEndpointMapResult :=
  let '(epm, result) := st in
  let '(nn, change) := nc in
  let epm := epm_merge (epm_unmerge epm (ec_previous change)) (ec_current change) in
  let '(del, act) := detectStaleConntrackEntries (ec_previous change) (ec_current change)
                       (uer_DeletedUDPEndpoints result) (uer_NewlyActiveUDPServices result) in
  (epm, mkUER ({[nn]} ∪ uer_UpdatedServices result) del act (uer_LastChangeTriggerTimes result)).

Definition EndpointsMap_Update (epm : EndpointsMap) (ect : option EndpointChangeTracker)
    : outcome (EndpointsMap * option EndpointChangeTracker * UpdateEndpointMapResult) :=
  let result := mkUER ∅ [] [] ∅ in
  match ect with
  | None => Ret (epm, None, result)
  | Some ect =>
      '(cache, changes) ← checkoutChanges (ect_cache ect);
      let '(epm, result) := foldl apply_change (epm, result) (go_range changes) in
      let '(ect, times) := checkoutTriggerTimes (mkECT cache (lastChangeTriggerTimes ect) (trackerStartTime ect))
                             (uer_LastChangeTriggerTimes result) in
      Ret (epm, Some ect, mkUER (uer_UpdatedServices result) (uer_DeletedUDPEndpoints result)
                            (uer_NewlyActiveUDPServices result) times)
  end.

(** The IPs of the local ready endpoints of every service, and their number. *)
Definition add_local (nsn : NamespacedName) (acc : gmap NamespacedName (gset string)) (ep : BaseEndpointInfo)
    : gmap NamespacedName (gset string) :=
  if negb (bei_Ready ep) then acc
  else if bei_IsLocal ep then <[nsn := {[IPPart (bei_Endpoint ep)]} ∪ default ∅ (acc !! nsn)]> acc
  else acc.

Definition getLocalReadyEndpointIPs (epm : EndpointsMap) : gmap NamespacedName (gset string) :=
  foldl (λ acc '(spn, epList), foldl (add_local (spn_nn spn)) acc epList) ∅ (go_range epm).

Definition LocalReadyEndpoints (epm : EndpointsMap) : gmap NamespacedName Z :=
  (λ ips, Z.of_nat (size ips)) <$> getLocalReadyEndpointIPs epm.

Definition formatEndpointsList (endpoints : list BaseEndpointInfo) : list string := bei_Endpoint <$> endpoints.

(** ** Slices the cache accepts *)
Definition port_ok (p : EndpointPort) : bool :=
  bool_decide (ep_Name p = None) || bool_decide (ep_Port p = None) || bool_decide (ep_Port p = Some 0)
  || bool_decide (is_Some (ep_Protocol p)).

Definition slice_nn (s : EndpointSlice) : NamespacedName :=
  mkNN (mstr (Labels (es_meta s)) known_LabelServiceNameSpace) (mstr (Labels (es_meta s)) known_LabelServiceName).
Definition slice_key (s : EndpointSlice) : NamespacedName :=
  mkNN (Namespace (es_meta s)) (mstr (Labels (es_meta s)) LabelServiceName).

(** The labels and names are set, no port is nil where it is dereferenced. *)
Definition slice_good (s : EndpointSlice) : bool :=
  bool_decide (is_Some (mget (Labels (es_meta s)) known_LabelServiceName))
  && bool_decide (is_Some (mget (Labels (es_meta s)) known_LabelServiceNameSpace))
  && negb (bool_decide (mstr (Labels (es_meta s)) LabelServiceName = EmptyString))
  && negb (bool_decide (Namespace (es_meta s) = EmptyString)) && negb (bool_decide (es_Name s = EmptyString))
  && negb ((1 <? length (es_Ports s))%nat && existsb (λ p, bool_decide (ep_Port p = None)) (es_Ports s))
  && forallb port_ok (es_Ports s) && supportedEndpointSliceAddressTypes (es_AddressType s).

Definition slice_info (s : EndpointSlice) (remove : bool) : endpointSliceInfo :=
  mkEsInfo (go_sort byPort_Less (es_Ports s))
    (if remove then [] else go_sort byAddress_Less (to_endpointInfo <$> es_Endpoints s)) remove (slice_nn s).

Lemma slice_good_keys s : slice_good s = true → endpointSliceCacheKeys s = Ret (slice_key s, es_Name s).
Proof.
  unfold slice_good, endpointSliceCacheKeys. rewrite !andb_true_iff. intros [[[[[[[_ _] H1] H2] H3] _] _] _].
  apply negb_true_iff in H1, H2, H3. by rewrite H1, H2, H3.
Qed.

Lemma slice_good_info s remove : slice_good s = true → newEndpointSliceInfo s remove = Ret (Some (slice_info s remove)).
Proof.
  unfold slice_good, newEndpointSliceInfo, slice_info, slice_nn, mstr. rewrite !andb_true_iff.
  intros [[[[[[[[n Hn]%bool_decide_eq_true [m Hm]%bool_decide_eq_true] _] _] _] Hs] _] _].
  rewrite Hn, Hm. simpl. unfold sort_ports. apply negb_true_iff in Hs. rewrite Hs. done.
Qed.

Lemma slice_good_ports s : slice_good s = true → Forall (λ p, port_ok p = true) (go_sort byPort_Less (es_Ports s)).
Proof.
  unfold slice_good. rewrite !andb_true_iff. intros [[_ Hp] _]. rewrite go_sort_perm.
  apply Forall_forall. intros p Hin. rewrite forallb_forall in Hp. by apply Hp, list_elem_of_In.
Qed.

(** ** What a tracker will be once its pending slices are applied *)
Definition effective (t : endpointSliceTracker) (n : string) : option endpointSliceInfo :=
  match pending t !! n with
  | Some (Some i) => if esi_Remove i then None else Some i
  | Some None => None
  | None => applied t !! n
  end.

(** The slices of tracker [k] belong to the service [nn]. *)
Definition info_ok (nn : NamespacedName) (i : endpointSliceInfo) : Prop :=
  esi_nn i = nn ∧ Forall (λ p, port_ok p = true) (esi_Ports i).

Record tracker_ok (nn : NamespacedName) (t : endpointSliceTracker) : Prop := {
  tok_pending : ∀ n o, pending t !! n = Some o → ∃ i, o = Some i ∧ info_ok nn i;
  tok_applied : ∀ n i, applied t !! n = Some i → esi_Remove i = false ∧ info_ok nn i }.

Lemma tracker_ok_new nn : tracker_ok nn newEndpointSliceTracker.
Proof. split; intros ??; simpl; by rewrite lookup_empty. Qed.

Lemma apply_pending_spec (nn : NamespacedName) pend app :
  (∀ n o, (n, o) ∈ pend → ∃ i, o = Some i ∧ info_ok nn i) → NoDup pend.*1 →
  ∃ app', apply_pending pend app = Ret app' ∧
    ∀ n, app' !! n = match (list_to_map pend : gmap string (option endpointSliceInfo)) !! n with
                     | Some (Some i) => if esi_Remove i then None else Some i
                     | Some None => None
                     | None => app !! n
                     end.
Proof.
  revert app. induction pend as [|[n o] pend IH]; intros app Hok Hnd; simpl.
  { exists app. split; [done|]. intros n. by rewrite lookup_empty. }
  apply NoDup_cons in Hnd as [Hn Hnd]. destruct (Hok n o) as (i & -> & _); [by left|]. simpl.
  destruct (IH (if esi_Remove i then delete n app else <[n:=i]> app)) as (app' & -> & Happ).
  { intros m o Hin. apply (Hok m). by right. } { done. }
  exists app'. split; [done|]. intros m. rewrite Happ. destruct (decide (n = m)) as [->|Hne].
  - rewrite lookup_insert_eq. rewrite not_elem_of_list_to_map_1 by done.
    destruct (esi_Remove i); [by rewrite lookup_delete_eq|by rewrite lookup_insert_eq].
  - rewrite lookup_insert_ne by done. destruct ((list_to_map pend : gmap string (option endpointSliceInfo)) !! m); [done|].
    destruct (esi_Remove i); [by rewrite lookup_delete_ne|by rewrite lookup_insert_ne].
Qed.

Lemma apply_pending_effective nn t :
  tracker_ok nn t → ∃ app, apply_pending (go_range (pending t)) (applied t) = Ret app ∧ ∀ n, app !! n = effective t n.
Proof.
  intros [Hp _]. destruct (apply_pending_spec nn (go_range (pending t)) (applied t)) as (app & -> & Happ).
  { intros n o Hin%elem_of_go_range. by eapply Hp. }
  { apply NoDup_go_range. }
  exists app. split; [done|]. intros n. rewrite Happ. unfold effective.
  by rewrite list_to_map_go_range.
Qed.

Lemma effective_ok nn t n i : tracker_ok nn t → effective t n = Some i → esi_Remove i = false ∧ info_ok nn i.
Proof.
  intros [Hp Ha]. unfold effective. destruct (pending t !! n) as [o|] eqn:E.
  - destruct (Hp _ _ E) as (j & -> & Hj). destruct (esi_Remove j) eqn:Er; [done|]. intros [= <-]. done.
  - apply Ha.
Qed.

(** ** [getEndpointsMap] is total on such trackers and stays within the service *)
Lemma ports_loop_total cache si i ports m :
  Forall (λ p, port_ok p = true) ports →
  ∃ m', ports_loop cache si i ports m = Ret m' ∧
    ∀ spn, is_Some (m' !! spn) → is_Some (m !! spn) ∨ spn_nn spn = esi_nn si.
Proof.
  revert i m. induction ports as [|p ports IH]; intros i m; simpl.
  { intros _. exists m. auto. }
  intros [Hp Hports]%Forall_cons. destruct (ep_Name p) as [name|] eqn:En; [|by apply IH].
  destruct (ep_Port p) as [[|q|q]|] eqn:Ep; try (by apply IH);
  (unfold port_ok in Hp; rewrite En, Ep in Hp; simpl in Hp;
   destruct (ep_Protocol p) as [proto|] eqn:Epr; [simpl|by rewrite bool_decide_false in Hp by (by intros [])];
   match goal with |- context [ports_loop cache si (S i) ports ?x] =>
     destruct (IH (S i) x Hports) as (m' & -> & Hm') end;
   exists m'; split; [done|]; intros spn [Hi|?]%Hm'; [|by right];
   apply lookup_insert_is_Some in Hi as [<-|[_ ?]]; [by right|by left]).
Qed.

Lemma slices_loop_total cache nn slices m :
  Forall (info_ok nn) slices → (∀ spn, is_Some (m !! spn) → spn_nn spn = nn) →
  ∃ m', slices_loop cache slices m = Ret m' ∧ ∀ spn, is_Some (m' !! spn) → spn_nn spn = nn.
Proof.
  revert m. induction slices as [|si slices IH]; intros m; simpl; [intros _ Hm; by exists m|].
  intros [[Hnn Hports] Hs]%Forall_cons Hm.
  destruct (ports_loop_total cache si 0 (esi_Ports si) m Hports) as (m1 & -> & Hm1). simpl.
  apply IH; [done|]. intros spn [?|?]%Hm1; [by apply Hm|congruence].
Qed.

Lemma getEndpointsMap_total cache nn app :
  (∀ n i, app !! n = Some i → info_ok nn i) →
  ∃ epm, getEndpointsMap cache app = Ret epm ∧ ∀ spn, is_Some (epm !! spn) → spn_nn spn = nn.
Proof.
  intros Happ. unfold getEndpointsMap, endpointInfoByServicePort.
  destruct (slices_loop_total cache nn (go_range app).*2 ∅) as (m & -> & Hm).
  { apply Forall_forall. intros i ([n j] & -> & Hin%elem_of_go_range)%list_elem_of_fmap. by eapply Happ. }
  { intros spn [x Hx]. by rewrite lookup_empty in Hx. }
  simpl. eexists. split; [done|]. intros spn [l Hl]. apply Hm.
  unfold endpointsMapFromEndpointInfo in Hl. rewrite lookup_omap in Hl. by destruct (m !! spn).
Qed.

(** The trackers of the cache do not matter, only its configuration. *)
Lemma ports_loop_config m1 m2 h f si i ports m :
  ports_loop (mkESC m1 h f) si i ports m = ports_loop (mkESC m2 h f) si i ports m.
Proof.
  revert i m. induction ports as [|p ports IH]; intros i m; simpl; [done|].
  repeat case_match; try apply IH; (destruct (ep_Protocol p); simpl; [apply IH|done]).
Qed.

Lemma getEndpointsMap_config c c' app :
  esc_hostname c = esc_hostname c' → esc_ipFamily c = esc_ipFamily c' → getEndpointsMap c app = getEndpointsMap c' app.
Proof.
  destruct c as [m1 h f], c' as [m2 h' f']. simpl. intros <- <-.
  unfold getEndpointsMap, endpointInfoByServicePort.
  assert (∀ l m, slices_loop (mkESC m1 h f) l m = slices_loop (mkESC m2 h f) l m) as ->; [|done].
  induction l as [|si l IH]; intros m; simpl; [done|].
  rewrite (ports_loop_config m1 m2). by destruct (ports_loop _ _ _ _ _); simpl.
Qed.

Lemma getEndpointsMap_empty c : getEndpointsMap c ∅ = Ret ∅.
Proof.
  unfold getEndpointsMap, endpointInfoByServicePort. by rewrite (proj2 (go_range_nil _)).
Qed.

(** ** The cache *)
Definition trk (c : EndpointSliceCache) (k : NamespacedName) : endpointSliceTracker :=
  default newEndpointSliceTracker (trackerByServiceMap c !! k).

Definition same_config (c c' : EndpointSliceCache) : Prop :=
  esc_hostname c' = esc_hostname c ∧ esc_ipFamily c' = esc_ipFamily c.

Lemma trk_set c k t k' : trk (set_tracker c k t) k' = if decide (k = k') then t else trk c k'.
Proof.
  unfold trk, set_tracker. simpl. destruct (decide (k = k')) as [<-|Hne]; [by rewrite lookup_insert_eq|].
  by rewrite lookup_insert_ne.
Qed.

Section owner.
(** [owner k] is the service the slices of tracker [k] belong to. *)
Context (owner : NamespacedName → NamespacedName).

(** The slices of the service of [k] are all tracked under [k]. *)
Definition sole (k : NamespacedName) : Prop := ∀ k', owner k' = owner k → k' = k.

Definition cache_ok (c : EndpointSliceCache) : Prop := ∀ k, tracker_ok (owner k) (trk c k).

Lemma updatePending_spec c s rm :
  slice_good s = true → slice_nn s = owner (slice_key s) → cache_ok c →
  ∃ c' b, updatePending c s rm = Ret (c', b) ∧ cache_ok c' ∧ same_config c c' ∧
    (∀ k, applied (trk c' k) = applied (trk c k)) ∧
    (b = false → ∀ k, trk c' k = trk c k) ∧
    ∀ k n, effective (trk c' k) n =
      if decide (k = slice_key s ∧ n = es_Name s) then (if rm then None else Some (slice_info s false))
      else effective (trk c k) n.
Proof.
  intros Hg Hnn Hok. unfold updatePending.
  rewrite (slice_good_keys _ Hg), (slice_good_info _ _ Hg). simpl.
  set (k0 := slice_key s) in *. fold (trk c k0). set (t := trk c k0). set (c1 := set_tracker c k0 t).
  assert (∀ k, trk c1 k = trk c k) as Hc1.
  { intros k. unfold c1. rewrite trk_set. by destruct (decide (k0 = k)) as [<-|]. }
  assert (cache_ok c1) as Hok1 by (intros k; by rewrite Hc1).
  set (info := slice_info s rm).
  assert (info_ok (owner k0) info) as Hio.
  { split; [done|]. by apply slice_good_ports. }
  assert (∃ b, esInfoChanged c1 k0 (es_Name s) (Some info) = Ret b ∧
    (b = false → effective t (es_Name s) = if rm then None else Some (slice_info s false))) as (b & -> & Hb).
  { unfold esInfoChanged. change (trackerByServiceMap c1 !! k0) with (<[k0 := t]> (trackerByServiceMap c) !! k0).
    rewrite lookup_insert_eq. unfold effective.
    destruct (pending t !! es_Name s) as [o|] eqn:Ep.
    - eexists. split; [done|]. intros Hd%bool_decide_eq_false%dec_stable. subst o. by destruct rm.
    - destruct (applied t !! es_Name s) as [a|] eqn:Ea.
      + eexists. split; [done|]. intros Hd%bool_decide_eq_false%dec_stable. injection Hd as <-.
        destruct (tok_applied _ _ (Hok k0) _ _ Ea) as [Hr _]. by destruct rm.
      + simpl. eexists. split; [done|]. by destruct rm. }
  simpl. destruct b.
  - do 2 eexists. split; [done|]. split_and!.
    + intros k. rewrite trk_set. destruct (decide (k0 = k)) as [<-|]; [|apply Hok1]. split; simpl.
      * intros n o [[<- <-]|[_ Hl]]%lookup_insert_Some; [by exists info|]. by apply (tok_pending _ _ (Hok k0) n).
      * intros n i. apply (tok_applied _ _ (Hok k0)).
    + done.
    + intros k. rewrite trk_set. destruct (decide (k0 = k)) as [<-|]; [done|]. by rewrite Hc1.
    + done.
    + intros k n. rewrite trk_set. destruct (decide (k0 = k)) as [<-|Hne].
      * unfold effective at 1. simpl. destruct (decide (n = es_Name s)) as [->|Hn].
        -- rewrite lookup_insert_eq, decide_True by done. by destruct rm.
        -- rewrite lookup_insert_ne, decide_False by naive_solver. done.
      * rewrite decide_False by naive_solver. by rewrite Hc1.
  - do 2 eexists. split; [done|]. split_and!; [done|done|intros k; by rewrite Hc1|done|].
    intros k n. rewrite Hc1. destruct (decide (k = k0 ∧ n = es_Name s)) as [[-> ->]|]; [by apply Hb|done].
Qed.

(** What checking out a tracker does. *)
Definition checked_out (c c' : EndpointSliceCache) (ch : option endpointsChange) (k : NamespacedName) : Prop :=
  pending (trk c' k) = ∅ ∧ (∀ n, applied (trk c' k) !! n = effective (trk c k) n) ∧
  match ch with
  | Some ch => getEndpointsMap c (applied (trk c k)) = Ret (ec_previous ch) ∧
               getEndpointsMap c (applied (trk c' k)) = Ret (ec_current ch)
  | None => applied (trk c' k) = applied (trk c k)
  end.

Lemma trk_lookup c k t : trackerByServiceMap c !! k = Some t → trk c k = t.
Proof. unfold trk. by intros ->. Qed.

Lemma checkout_loop_spec l c ch :
  cache_ok c → NoDup l.*1 → (∀ k t, (k, t) ∈ l → trackerByServiceMap c !! k = Some t) → (∀ k, k ∈ l.*1 → ch !! k = None) →
  ∃ c' ch', checkout_loop c l ch = Ret (c', ch') ∧ cache_ok c' ∧ same_config c c' ∧
    (∀ k, k ∉ l.*1 → trackerByServiceMap c' !! k = trackerByServiceMap c !! k ∧ ch' !! k = ch !! k) ∧
    (∀ k, k ∈ l.*1 → checked_out c c' (ch' !! k) k).
Proof.
  revert c ch. induction l as [|[k t] l IH]; intros c ch Hok Hnd Hl Hch; cbn [checkout_loop].
  { exists c, ch. split_and!; try done. intros k Hk. by apply elem_of_nil in Hk. }
  apply NoDup_cons in Hnd as [Hk Hnd].
  assert (trackerByServiceMap c !! k = Some t) as Ht by (apply Hl; by left).
  pose proof (trk_lookup _ _ _ Ht) as Htrk. pose proof (Hok k) as Hkok. rewrite Htrk in Hkok.
  destruct (Nat.eqb_spec (size (pending t)) 0) as [E0|E0].
  - destruct (IH c ch) as (c' & ch' & -> & Hok' & Hcf & Hout & Hin); try done.
    { intros. apply Hl. by right. } { intros. apply Hch. by right. }
    exists c', ch'. split_and!; try done.
    + intros k' Hk'. apply Hout. rewrite fmap_cons in Hk'. by apply not_elem_of_cons in Hk' as [_ ?].
    + intros k'. rewrite fmap_cons, elem_of_cons. intros [->|Hk']; [|by apply Hin]. simpl.
      destruct (Hout k Hk) as [Hsame Hch']. rewrite Hch', Hch by by left. unfold checked_out.
      rewrite (trk_lookup c' k t), Htrk by congruence. apply map_size_empty_inv in E0.
      split; [done|]. split; [|done]. intros n. unfold effective. by rewrite E0, lookup_empty.
  - destruct (getEndpointsMap_total c (owner k) (applied t)) as (prev & Hprev & _).
    { intros n i Hi. by apply (tok_applied _ _ Hkok n). }
    rewrite Hprev. simpl. destruct (apply_pending_effective _ _ Hkok) as (app & -> & Happ). simpl.
    assert (∀ n i, app !! n = Some i → esi_Remove i = false ∧ info_ok (owner k) i) as Hai.
    { intros n i. rewrite Happ. by apply effective_ok. }
    destruct (getEndpointsMap_total c (owner k) app) as (cur & Hcur & _); [intros n i Hi; by apply (Hai n)|].
    rewrite Hcur. simpl. set (c1 := set_tracker c k (mkEST app ∅)).
    destruct (IH c1 (<[k := mkEC prev cur]> ch)) as (c' & ch' & -> & Hok' & Hcf & Hout & Hin).
    { intros k'. unfold c1. rewrite trk_set. destruct (decide (k = k')) as [<-|]; [|done].
      split; simpl; [intros n o; by rewrite lookup_empty|done]. }
    { done. }
    { intros k' t' Hin'. unfold c1. simpl. rewrite lookup_insert_ne; [apply Hl; by right|].
      intros <-. apply Hk. by apply (list_elem_of_fmap_2 fst _ (k, t')). }
    { intros k' Hk'. rewrite lookup_insert_ne; [apply Hch; by right|]. by intros <-. }
    exists c', ch'. split_and!; try done.
    + intros k' Hk'. apply not_elem_of_cons in Hk' as [Hne Hk'].
      destruct (Hout k' Hk') as [-> ->]. simpl in Hne. unfold c1. simpl. by rewrite !lookup_insert_ne.
    + intros k' [->|Hk']%elem_of_cons; simpl.
      * destruct (Hout k Hk) as [Hsame ->]. unfold checked_out. rewrite lookup_insert_eq.
        rewrite (trk_lookup c' k (mkEST app ∅)), Htrk by (rewrite Hsame; unfold c1; simpl; by rewrite lookup_insert_eq).
        done.
      * assert (k ≠ k') as Hne by (by intros <-). destruct (Hin k' Hk') as (? & He & Hm).
        assert (trk c1 k' = trk c k') as Htk by (unfold c1; rewrite trk_set; by rewrite decide_False).
        rewrite Htk in He, Hm. split; [done|]. split; [done|]. destruct (ch' !! k'); [|done].
        by rewrite !(getEndpointsMap_config c c1).
Qed.

Lemma checkoutChanges_spec c :
  cache_ok c →
  ∃ c' ch, checkoutChanges c = Ret (c', ch) ∧ cache_ok c' ∧ same_config c c' ∧ ∀ k, checked_out c c' (ch !! k) k.
Proof.
  intros Hok. unfold checkoutChanges.
  destruct (checkout_loop_spec (go_range (trackerByServiceMap c)) c ∅ Hok) as (c' & ch & -> & Hok' & Hcf & Hout & Hin).
  - apply NoDup_go_range.
  - intros k t Hkt. by apply elem_of_go_range.
  - intros. apply lookup_empty.
  - exists c', ch. split_and!; [done..|]. intros k.
    destruct (decide (k ∈ (go_range (trackerByServiceMap c)).*1)) as [Hk|Hk]; [by apply Hin|].
    destruct (Hout k Hk) as [Hs ->]. rewrite lookup_empty. unfold checked_out.
    assert (trackerByServiceMap c !! k = None) as Hn.
    { apply eq_None_not_Some. intros [t Ht]. apply Hk. apply elem_of_go_range in Ht.
      by apply (list_elem_of_fmap_2 fst _ (k, t)). }
    unfold trk. by rewrite Hs, Hn.
Qed.

(** ** The endpoints map follows the changes *)
Lemma epm_merge_lookup epm other spn :
  epm_merge epm other !! spn = match other !! spn with Some l => Some l | None => epm !! spn end.
Proof.
  unfold epm_merge.
  assert (∀ l, NoDup l.*1 → foldl (λ m '(k, v), <[k := v]> m) epm l !! spn =
    match (list_to_map l : EndpointsMap) !! spn with Some x => Some x | None => epm !! spn end) as Hl.
  { intros l. revert epm. induction l as [|[k v] l IH]; intros epm; simpl; [by rewrite lookup_empty|].
    intros [Hk Hnd]%NoDup_cons. rewrite IH by done. destruct (decide (k = spn)) as [->|Hne].
    - rewrite not_elem_of_list_to_map_1 by done. by rewrite !lookup_insert_eq.
    - by rewrite !lookup_insert_ne. }
  rewrite Hl by apply NoDup_go_range. by rewrite list_to_map_go_range.
Qed.

Lemma epm_unmerge_lookup epm other spn :
  epm_unmerge epm other !! spn = match other !! spn with Some _ => None | None => epm !! spn end.
Proof.
  unfold epm_unmerge.
  assert (∀ l, foldl (λ m k, delete k m) epm l !! spn = if decide (spn ∈ l) then None else epm !! spn) as Hl.
  { intros l. revert epm. induction l as [|k l IH]; intros epm; simpl; [done|].
    rewrite IH. destruct (decide (spn = k)) as [->|Hne].
    - rewrite lookup_delete_eq. destruct (decide (k ∈ l)), (decide (k ∈ k :: l)); set_solver.
    - rewrite lookup_delete_ne by done. destruct (decide (spn ∈ l)), (decide (spn ∈ k :: l)); set_solver. }
  rewrite Hl. destruct (other !! spn) as [x|] eqn:E.
  - rewrite decide_True; [done|]. apply elem_of_go_range in E. by apply (list_elem_of_fmap_2 fst _ (spn, x)).
  - rewrite decide_False; [done|]. intros ([k x] & -> & Hin%elem_of_go_range)%list_elem_of_fmap. simpl in E. congruence.
Qed.

(** A service port of an untouched service keeps its endpoints; one of a
    changed service has the current ones. *)
Definition merged (epm : EndpointsMap) (ch : option endpointsChange) (spn : ServicePortName) : option (list BaseEndpointInfo) :=
  match ch with
  | None => epm !! spn
  | Some ch => match ec_current ch !! spn with
               | Some l => Some l
               | None => match ec_previous ch !! spn with Some _ => None | None => epm !! spn end
               end
  end.

Lemma apply_change_epm st nc spn :
  fst (apply_change st nc) !! spn = merged (fst st) (Some (snd nc)) spn.
Proof.
  destruct st as [epm res], nc as [nn ch]. simpl.
  rewrite epm_merge_lookup, epm_unmerge_lookup. done.
Qed.

(** What a service port has in the end is in the map of some change, or it had it before and no change mentions it. *)
Lemma apply_changes_from (l : list (NamespacedName * endpointsChange)) epm res spn eps :
  fst (foldl apply_change (epm, res) l) !! spn = Some eps →
  (∃ k ch, (k, ch) ∈ l ∧ ec_current ch !! spn = Some eps) ∨
  (epm !! spn = Some eps ∧ ∀ k ch, (k, ch) ∈ l → ec_previous ch !! spn = None ∧ ec_current ch !! spn = None).
Proof.
  revert epm res. induction l as [|[k' ch] l IH]; intros epm res; simpl.
  { intros Hl. right. split; [done|]. intros ? ? []%elem_of_nil. }
  destruct (apply_change (epm, res) (k', ch)) as [epm1 res1] eqn:E.
  pose proof (apply_change_epm (epm, res) (k', ch) spn) as Ha. rewrite E in Ha. simpl in Ha.
  unfold apply_change in E. injection E as E1 E2. rewrite E1, E2. intros [(k & c & Hin & Hc)|[He Hno]]%IH; [left; exists k, c; split; [by right|done]|].
  rewrite Ha in He. unfold merged in He. destruct (ec_current ch !! spn) as [x|] eqn:Ec.
  { left. exists k', ch. split; [by left|congruence]. }
  destruct (ec_previous ch !! spn) eqn:Ep; [done|]. right. split; [done|]. intros k c [[= -> ->]|Hin]%elem_of_cons; [done|by apply (Hno k)].
Qed.

Lemma apply_changes_epm (l : list (NamespacedName * endpointsChange)) epm res k spn :
  sole k → NoDup l.*1 →
  (∀ k ch, (k, ch) ∈ l → ∀ spn, is_Some (ec_previous ch !! spn) ∨ is_Some (ec_current ch !! spn) → spn_nn spn = owner k) →
  spn_nn spn = owner k →
  fst (foldl apply_change (epm, res) l) !! spn = merged epm ((list_to_map l : gmap NamespacedName endpointsChange) !! k) spn.
Proof.
  intros Hsole. revert epm res. induction l as [|[k' ch] l IH]; intros epm res Hnd Hown Hk; simpl.
  { by rewrite lookup_empty. }
  apply NoDup_cons in Hnd as [Hn Hnd].
  destruct (apply_change (epm, res) (k', ch)) as [epm1 res1] eqn:E.
  pose proof (apply_change_epm (epm, res) (k', ch) spn) as Ha. rewrite E in Ha. simpl in Ha.
  unfold apply_change in E. injection E as E1 E2. rewrite E1, E2.
  rewrite IH; [|done| |done]; last first. { intros k1 ch1 Hin. apply Hown. by right. }
  destruct (decide (k' = k)) as [->|Hne].
  - rewrite not_elem_of_list_to_map_1 by done. rewrite lookup_insert_eq. simpl. by rewrite Ha.
  - rewrite lookup_insert_ne by done.
    assert (¬ (is_Some (ec_previous ch !! spn) ∨ is_Some (ec_current ch !! spn))) as Hno.
    { intros Hs. apply Hne, Hsole. rewrite <- (Hown k' ch (list_elem_of_here _ _) spn Hs). congruence. }
    assert (epm1 !! spn = epm !! spn) as Heq.
    { rewrite Ha. destruct (ec_current ch !! spn) eqn:E3; [exfalso; apply Hno; eauto|].
      destruct (ec_previous ch !! spn) eqn:E4; [exfalso; apply Hno; eauto|done]. }
    unfold merged. by rewrite Heq.
Qed.

(** ** The proxy as a sequence of events *)
Inductive pevent :=
  | PSlice (s : EndpointSlice) (remove : bool)
  | PSync.

Definition pstate : Type := EndpointsMap * EndpointChangeTracker.

Definition pstep (st : pstate) (e : pevent) : outcome pstate :=
  let '(epm, ect) := st in
  match e with
  | PSlice s remove => '(ect', _) ← EndpointSliceUpdate ect (Some s) remove; Ret (epm, ect')
  | PSync => '(epm', ect', _) ← EndpointsMap_Update epm (Some ect); ect'' ← deref ect'; Ret (epm', ect'')
  end.

Fixpoint prun (st : pstate) (es : list pevent) : outcome pstate :=
  match es with
  | [] => Ret st
  | e :: rest => st' ← pstep st e; prun st' rest
  end.

(** The slices of tracker [k] after the events, whatever was synced when. *)
Definition latest_step (k : NamespacedName) (m : gmap string endpointSliceInfo) (e : pevent) : gmap string endpointSliceInfo :=
  match e with
  | PSlice s remove =>
      if decide (slice_key s = k) then
        if remove then delete (es_Name s) m else <[es_Name s := slice_info s false]> m
      else m
  | PSync => m
  end.
Definition latest (k : NamespacedName) (es : list pevent) : gmap string endpointSliceInfo := foldl (latest_step k) ∅ es.

Definition event_good (e : pevent) : Prop :=
  match e with
  | PSlice s _ => slice_good s = true ∧ slice_nn s = owner (slice_key s)
  | PSync => True
  end.

(** Invariant after the events [es]. *)
Record proxy_inv (c0 : EndpointSliceCache) (es : list pevent) (st : pstate) : Prop := {
  pi_ok : cache_ok (ect_cache (snd st));
  pi_config : same_config c0 (ect_cache (snd st));
  pi_effective : ∀ k n, effective (trk (ect_cache (snd st)) k) n = latest k es !! n;
  pi_epm : ∀ k spn m, sole k → spn_nn spn = owner k →
    getEndpointsMap c0 (applied (trk (ect_cache (snd st)) k)) = Ret m → fst st !! spn = m !! spn;
  pi_from : ∀ spn l, fst st !! spn = Some l → ∃ k m, owner k = spn_nn spn ∧
    getEndpointsMap c0 (applied (trk (ect_cache (snd st)) k)) = Ret m ∧ m !! spn = Some l }.

Lemma same_config_sym c c' : same_config c c' → same_config c' c.
Proof. intros [? ?]. by split. Qed.

Lemma getEndpointsMap_same c c' app : same_config c c' → getEndpointsMap c' app = getEndpointsMap c app.
Proof. intros [? ?]. by apply getEndpointsMap_config. Qed.

(** An event that reports no change leaves the trackers as they were. *)
Lemma EndpointSliceUpdate_inv c0 es epm ect s rm :
  proxy_inv c0 es (epm, ect) → event_good (PSlice s rm) →
  ∃ ect' b, EndpointSliceUpdate ect (Some s) rm = Ret (ect', b) ∧ proxy_inv c0 (es ++ [PSlice s rm]) (epm, ect') ∧
    (b = false → ∀ k, trk (ect_cache ect') k = trk (ect_cache ect) k).
Proof.
  intros [Hok Hcf Heff Hepm Hfrom] [Hg Hnn]. simpl in *.
  unfold EndpointSliceUpdate. simpl.
  assert (supportedEndpointSliceAddressTypes (es_AddressType s) = true) as ->.
  { unfold slice_good in Hg. by apply andb_true_iff in Hg as [_ ?]. }
  simpl. rewrite (slice_good_keys _ Hg). simpl.
  destruct (updatePending_spec (ect_cache ect) s rm Hg Hnn Hok) as (c' & b & -> & Hok' & Hcf' & Happ & Hsame & Heff').
  simpl. do 2 eexists. split; [done|]. split; [|done]. constructor; simpl.
  - done.
  - destruct Hcf, Hcf'. split; congruence.
  - intros k n. rewrite Heff', Heff. unfold latest. rewrite foldl_app. simpl. fold (latest k es).
    destruct (decide (slice_key s = k)) as [<-|Hne].
    + destruct (decide (n = es_Name s)) as [->|Hn].
      * rewrite decide_True by done. destruct rm; [by rewrite lookup_delete_eq|by rewrite lookup_insert_eq].
      * rewrite decide_False by naive_solver. destruct rm; [by rewrite lookup_delete_ne|by rewrite lookup_insert_ne].
    + by rewrite decide_False by naive_solver.
  - intros k spn m Hs Hspn. rewrite Happ. by apply Hepm.
  - intros spn l Hl. setoid_rewrite Happ. by apply Hfrom.
Qed.

Lemma pstep_slice c0 es st s rm :
  proxy_inv c0 es st → event_good (PSlice s rm) →
  ∃ st', pstep st (PSlice s rm) = Ret st' ∧ proxy_inv c0 (es ++ [PSlice s rm]) st'.
Proof.
  destruct st as [epm ect]. intros Hi Hg. destruct (EndpointSliceUpdate_inv c0 es epm ect s rm Hi Hg) as (ect' & b & E & Hi' & _).
  unfold pstep. rewrite E. simpl. eauto.
Qed.

Lemma pstep_sync c0 es st :
  proxy_inv c0 es st → ∃ st', pstep st PSync = Ret st' ∧ proxy_inv c0 (es ++ [PSync]) st' ∧
    ∀ k, applied (trk (ect_cache (snd st')) k) = latest k es.
Proof.
  intros [Hok Hcf Heff Hepm Hfrom]. destruct st as [epm ect]. simpl in *.
  destruct (checkoutChanges_spec _ Hok) as (c' & ch & -> & Hok' & Hcf' & Hout). simpl.
  destruct (foldl apply_change (epm, mkUER ∅ [] [] ∅) (go_range ch)) as [epm' res'] eqn:E. simpl.
  assert (∀ k, applied (trk c' k) = latest k es) as Hlatest.
  { intros k. apply map_eq. intros n. destruct (Hout k) as (_ & -> & _). apply Heff. }
  assert (Hcur : ∀ k x, ch !! k = Some x → ∀ spn, is_Some (ec_previous x !! spn) ∨ is_Some (ec_current x !! spn) → spn_nn spn = owner k).
  { intros k x Hx spn Hs. destruct (Hout k) as (_ & _ & Hch). rewrite Hx in Hch. destruct Hch as [Hp Hc]. destruct Hs as [Hs|Hs].
    - destruct (getEndpointsMap_total (ect_cache ect) (owner k) (applied (trk (ect_cache ect) k))) as (m1 & Hm1 & Hk1).
      { intros n i Hi. by apply (tok_applied _ _ (Hok k) n). } apply Hk1. congruence.
    - destruct (getEndpointsMap_total (ect_cache ect) (owner k) (applied (trk c' k))) as (m1 & Hm1 & Hk1).
      { intros n i Hi. by apply (tok_applied _ _ (Hok' k) n). } apply Hk1. congruence. }
  eexists. split; [done|]. split; [|done]. constructor; simpl.
  - done.
  - destruct Hcf, Hcf'. split; congruence.
  - intros k n. unfold effective. destruct (Hout k) as (-> & _ & _). rewrite lookup_empty, Hlatest.
    unfold latest. by rewrite foldl_app.
  - intros k spn m Hs Hspn Hm.
    assert (epm' !! spn = merged epm (ch !! k) spn) as ->.
    { pose proof (apply_changes_epm (go_range ch) epm (mkUER ∅ [] [] ∅) k spn Hs) as Hfold.
      rewrite E, list_to_map_go_range in Hfold. apply Hfold; [apply NoDup_go_range| |done].
      intros k1 ch1 Hin%elem_of_go_range. by apply Hcur. }
    destruct (Hout k) as (_ & _ & Hch). unfold merged. destruct (ch !! k) as [x|].
    + destruct Hch as [Hp Hc]. rewrite (getEndpointsMap_same c0 _ _ Hcf) in Hp. rewrite (getEndpointsMap_same c0 _ _ Hcf) in Hc.
      rewrite Hm in Hc. injection Hc as ->. destruct (ec_current x !! spn) eqn:Ec; [done|].
      destruct (ec_previous x !! spn) eqn:Ep; [done|]. rewrite (Hepm k spn (ec_previous x)); done.
    + rewrite Hch in Hm. by apply Hepm with k.
  - intros spn l Hl. assert (Hf : fst (epm', res') !! spn = Some l) by done. rewrite <- E in Hf.
    apply apply_changes_from in Hf as [(k & x & Hx%elem_of_go_range & Hc)|[He Hno]].
    + exists k, (ec_current x). split; [symmetry; apply (Hcur k x Hx); eauto|]. split; [|done].
      destruct (Hout k) as (_ & _ & Hch). rewrite Hx in Hch. destruct Hch as [_ Hch]. by rewrite (getEndpointsMap_same c0 _ _ Hcf) in Hch.
    + destruct (Hfrom spn l He) as (k & m & Hk & Hm & Hs). exists k, m. split; [done|]. split; [|done].
      destruct (Hout k) as (_ & _ & Hch). destruct (ch !! k) as [x|] eqn:Ex; [|by rewrite Hch].
      destruct Hch as [Hp _]. rewrite (getEndpointsMap_same c0 _ _ Hcf), Hm in Hp. injection Hp as ->.
      destruct (Hno k x) as [Hn _]; [by apply elem_of_go_range|congruence].
Qed.

Lemma prun_inv c0 es st done :
  proxy_inv c0 done st → Forall event_good es → ∃ st', prun st es = Ret st' ∧ proxy_inv c0 (done ++ es) st'.
Proof.
  revert st done. induction es as [|e es IH]; intros st dn Hi Hg; simpl.
  { exists st. by rewrite app_nil_r. }
  apply Forall_cons in Hg as [He Hg].
  assert (∃ st1, pstep st e = Ret st1 ∧ proxy_inv c0 (dn ++ [e]) st1) as (st1 & -> & Hi1).
  { destruct e as [s rm|]; [by apply pstep_slice|]. destruct (pstep_sync _ _ _ Hi) as (st1 & ? & ? & _). by exists st1. }
  simpl. rewrite (cons_middle e dn es), app_assoc. by apply IH.
Qed.

Lemma proxy_inv_init h f now : proxy_inv (NewEndpointSliceCache h f) [] (∅, NewEndpointChangeTracker h f now).
Proof.
  assert (∀ k, trk (NewEndpointSliceCache h f) k = newEndpointSliceTracker) as Ht.
  { intros k. unfold trk. simpl. by rewrite lookup_empty. }
  constructor; simpl.
  - intros k. rewrite Ht. apply tracker_ok_new.
  - done.
  - intros k n. rewrite Ht. unfold effective. simpl. by rewrite !lookup_empty.
  - intros k spn m _ _. rewrite Ht. simpl. rewrite getEndpointsMap_empty. by intros [= <-].
  - intros spn l. by rewrite lookup_empty.
Qed.

(** C5: the proxy's endpoints are those of the latest slices.  Whatever well-formed slices are added, changed and removed and
    however the syncs are interleaved, after a sync every entry of the endpoint map is what the latest slices under one label of its service
    say, so nothing outdated is left; and a service whose slices are all tracked under one label has exactly the endpoints
    computed from the latest version of all its slices.  A service with several labels, one per exporting cluster, has no more
    than the first: [proxy_two_clusters_overwrite]. *)
Theorem proxy_endpoints_latest h f now es :
  Forall event_good es →
  ∃ epm ect, prun (∅, NewEndpointChangeTracker h f now) (es ++ [PSync]) = Ret (epm, ect) ∧
    (∀ spn l, epm !! spn = Some l → ∃ k m, owner k = spn_nn spn ∧
      getEndpointsMap (NewEndpointSliceCache h f) (latest k es) = Ret m ∧ m !! spn = Some l) ∧
    ∀ k, sole k → ∃ m, getEndpointsMap (NewEndpointSliceCache h f) (latest k es) = Ret m ∧
      ∀ spn, spn_nn spn = owner k → epm !! spn = m !! spn.
Proof.
  intros Hg.
  destruct (prun_inv _ es _ [] (proxy_inv_init h f now) Hg) as (st & Hrun & Hi). simpl in Hi.
  destruct (pstep_sync _ _ _ Hi) as (st' & Hs & Hi' & Hl). destruct st' as [epm ect]. exists epm, ect. split; [|split].
  - assert (∀ st0 l, prun st0 (l ++ [PSync]) = st1 ← prun st0 l; pstep st1 PSync) as Happ.
    { intros st0 l. revert st0. induction l as [|e l IH]; intros st0; cbn [prun app].
      - simpl. by destruct (pstep st0 PSync).
      - destruct (pstep st0 e); [simpl; apply IH|done..]. }
    rewrite Happ, Hrun. simpl. apply Hs.
  - intros spn l He. destruct (pi_from _ _ _ Hi' spn l He) as (k & m & Hk & Hm & Hs'). exists k, m. by rewrite <- Hl.
  - intros k Hk. destruct Hi' as [Hok Hcf _ Hepm _].
    destruct (getEndpointsMap_total (NewEndpointSliceCache h f) (owner k) (latest k es)) as (m & Hm & _).
    { intros n i. rewrite <- Hl. intros Hin. by apply (tok_applied _ _ (Hok k) n). }
    exists m. split; [done|]. intros spn Hspn. apply (Hepm k spn m Hk Hspn). by rewrite Hl.
Qed.

End owner.

(** ** Stale connection tracking entries *)
Lemma existsb_Equal l ep : existsb (λ e, BEI_Equal e ep) l = true ↔
  ∃ e, e ∈ l ∧ bei_Endpoint e = bei_Endpoint ep ∧ bei_IsLocal e = bei_IsLocal ep ∧ bei_Ready e = bei_Ready ep.
Proof.
  rewrite existsb_exists. unfold BEI_Equal. setoid_rewrite andb_true_iff. setoid_rewrite andb_true_iff.
  setoid_rewrite bool_decide_eq_true. setoid_rewrite eqb_true_iff. setoid_rewrite <- list_elem_of_In. naive_solver.
Qed.

(** The conntrack entries that are cleaned up are the right ones: a UDP
    endpoint is reported as deleted exactly when it was ready and no endpoint
    of the same service port is equal to it (address, locality and readiness)
    in the new map, and a UDP service port as newly active exactly when it has
    a ready endpoint now and had none before. *)
Theorem detectStaleConntrackEntries_spec old new e spn :
  (mkSE e spn ∈ fst (detectStaleConntrackEntries old new [] []) ↔
    spn_Protocol spn = "UDP" ∧ ∃ ep, ep ∈ default [] (old !! spn) ∧ bei_Ready ep = true ∧ bei_Endpoint ep = e ∧
      ¬ ∃ f, f ∈ default [] (new !! spn) ∧ bei_Endpoint f = bei_Endpoint ep ∧ bei_IsLocal f = bei_IsLocal ep ∧
             bei_Ready f = bei_Ready ep) ∧
  (spn ∈ snd (detectStaleConntrackEntries old new [] []) ↔
    spn_Protocol spn = "UDP" ∧ (0 < ready_count (default [] (new !! spn)))%nat ∧ ready_count (default [] (old !! spn)) = 0%nat).
Proof.
  simpl. split.
  - unfold deleted_udp. rewrite list_elem_of_bind. split.
    + intros ([spn' l] & Hin & Hl%elem_of_go_range). case_bool_decide as Hu; [by apply elem_of_nil in Hin|].
      apply list_elem_of_omap in Hin as (ep & Hep & Hsome).
      destruct (bei_Ready ep) eqn:Er; simpl in Hsome; [|done].
      destruct (existsb _ _) eqn:Ex; [done|]. injection Hsome as <- <-.
      split; [done|]. exists ep. rewrite Hl. split_and!; [done..|]. rewrite <- existsb_Equal. by rewrite Ex.
    + intros (Hu & ep & Hep & Hr & <- & Hno). destruct (old !! spn) as [l|] eqn:Hl; [|by apply elem_of_nil in Hep].
      exists (spn, l). split; [|by apply elem_of_go_range]. rewrite bool_decide_false by naive_solver.
      apply list_elem_of_omap. exists ep. split; [done|]. rewrite Hr. simpl.
      rewrite <- existsb_Equal in Hno. by apply not_true_is_false in Hno as ->.
  - unfold newly_active. rewrite list_elem_of_omap. split.
    + intros ([spn' l] & Hl%elem_of_go_range & Hs). case_bool_decide as Hu; [done|].
      destruct (_ && _) eqn:Eb; [|done]. injection Hs as ->. rewrite Hl.
      apply andb_true_iff in Eb as [?%Nat.ltb_lt ?%Nat.eqb_eq]. done.
    + intros (Hu & Hn & Ho). destruct (new !! spn) as [l|] eqn:Hl; [|simpl in Hn; unfold ready_count in Hn; simpl in Hn; lia].
      exists (spn, l). split; [by apply elem_of_go_range|]. rewrite bool_decide_false by naive_solver.
      apply Nat.ltb_lt in Hn. simpl in Hn. by rewrite Hn, Ho.
Qed.

(** A slice without one of fleetboard's own labels crashes the proxy: the
    nil information returned for it is dereferenced when the slice is not in
    the cache. *)
Theorem EndpointSliceUpdate_missing_label ect s remove k n :
  supportedEndpointSliceAddressTypes (es_AddressType s) = true →
  endpointSliceCacheKeys s = Ret (k, n) →
  mget (Labels (es_meta s)) known_LabelServiceName = None →
  applied (trk (ect_cache ect) k) !! n = None → pending (trk (ect_cache ect) k) !! n = None →
  EndpointSliceUpdate ect (Some s) remove = Panic.
Proof.
  intros Ht Hk Hl Ha Hp. unfold EndpointSliceUpdate. simpl. rewrite Ht, Hk. simpl.
  unfold updatePending. rewrite Hk. unfold newEndpointSliceInfo. rewrite Hl. simpl.
  unfold esInfoChanged. simpl. rewrite lookup_insert_eq. fold (trk (ect_cache ect) k). by rewrite Hp, Ha.
Qed.

End cache.

(** ** Witnesses and the two-cluster example *)
Definition demo_proxylib : ProxyLib := {|
  utilnet_IsIPv6String := λ s, has_char ":"%char s;
  IPPart := λ s, s; PortPart := λ _, Err "invalid port";
  ParseRFC3339Nano := λ _, None; gate_TopologyAwareHints := false |}.

(** A slice as the service export controller uploads it: the standard label
    holds the name derived from the cluster. *)
Definition demo_export (cluster addr : string) : EndpointSlice :=
  mkSlice (mkMeta (cluster +:+ "-ns-web") EmptyString "fleetboard-system" EmptyString EmptyString 0 0 None
    (Some {[known_LabelServiceName := "web"; known_LabelServiceNameSpace := "ns";
            LabelServiceName := "derived-" +:+ cluster +:+ "-ns-web"]}) None [] [])
    "IPv4" [mkEp [addr] (Some true) None None None None None None None]
    [mkPort (Some "http") (Some "TCP") (Some 80) None].

Definition demo_spn : ServicePortName := mkSPN (mkNN "ns" "web") "0" "TCP".

Definition endpoints_at (o : outcome pstate) (spn : ServicePortName) : option (list string) :=
  match o with Ret (epm, _) => option_map (map bei_Endpoint) (epm !! spn) | _ => None end.

(** A service exported by two clusters loses one of them.  The slices of
    the two clusters carry different derived service names, so they are kept in
    two trackers of the cache, while both belong to the same service port; a
    sync replaces the endpoints of the service port by those of one tracker, and
    only one of the two endpoints remains, whichever slice came last. *)
Theorem proxy_two_clusters_overwrite :
  let run es := endpoints_at (@prun list_runtime demo_proxylib (∅, NewEndpointChangeTracker "node" "IPv4" 0) es) demo_spn in
  let a := PSlice (demo_export "c1" "10.1.0.1") false in
  let b := PSlice (demo_export "c2" "10.2.0.1") false in
  run [a; PSync] = Some ["10.1.0.1:80"] ∧ run [a; PSync; b; PSync] = Some ["10.2.0.1:80"] ∧
  run [b; PSync; a; PSync] = Some ["10.1.0.1:80"].
Proof. vm_compute. split_and!; reflexivity. Qed.

Definition demo_owner (k : NamespacedName) : NamespacedName :=
  if decide (k = mkNN "fleetboard-system" "derived-c1-ns-web") then mkNN "ns" "web"
  else if decide (k = mkNN "ns" "web") then mkNN "fleetboard-system" "derived-c1-ns-web" else k.

Lemma demo_owner_inj : Inj (=) (=) demo_owner.
Proof. intros k k'. unfold demo_owner. repeat case_decide; congruence. Qed.

Lemma proxy_endpoints_latest_witness :
  ∃ epm ect, @prun list_runtime demo_proxylib (∅, NewEndpointChangeTracker "node" "IPv4" 0)
      [PSlice (demo_export "c1" "10.1.0.1") false; PSlice (demo_export "c1" "10.1.0.2") false; PSync] = Ret (epm, ect) ∧
    ∃ m, @getEndpointsMap list_runtime demo_proxylib (NewEndpointSliceCache "node" "IPv4")
      (@latest list_runtime demo_proxylib (mkNN "fleetboard-system" "derived-c1-ns-web")
        [PSlice (demo_export "c1" "10.1.0.1") false; PSlice (demo_export "c1" "10.1.0.2") false]) = Ret m ∧
      epm !! demo_spn = m !! demo_spn.
Proof.
  destruct (@proxy_endpoints_latest list_runtime demo_proxylib demo_owner "node" "IPv4" 0
    [PSlice (demo_export "c1" "10.1.0.1") false; PSlice (demo_export "c1" "10.1.0.2") false]) as (epm & ect & Hrun & _ & Hm).
  - repeat constructor; vm_compute; reflexivity.
  - exists epm, ect. split; [exact Hrun|].
    destruct (Hm (mkNN "fleetboard-system" "derived-c1-ns-web")) as (m & Hg & Hs); [intros k'; apply demo_owner_inj|]. exists m. split; [exact Hg|].
    apply Hs. vm_compute. reflexivity.
Defined.

Lemma EndpointSliceUpdate_missing_label_witness :
  @EndpointSliceUpdate list_runtime demo_proxylib (NewEndpointChangeTracker "node" "IPv4" 0)
    (Some (mkSlice (mkMeta "s" EmptyString "ns" EmptyString EmptyString 0 0 None
      (Some {[LabelServiceName := "web"]}) None [] []) "IPv4" [] [])) false = Panic.
Proof.
  apply (@EndpointSliceUpdate_missing_label list_runtime demo_proxylib) with (k := mkNN "ns" "web") (n := "s");
    vm_compute; reflexivity.
Defined.
