(* ===== verification/EndpointsSpec.v ===== *)
(** * What the endpoint map holds

    [ProxyEndpoints] computes the endpoints of a service port from slices as
    [addEndpoints] and [endpointsMapFromEndpointInfo] do, with sets in between.  Here is what the result is: for every port of every slice the
    addresses of its endpoints of the proxier's family, each once and in order. *)
From Stdlib Require Import Sorted.
From stdpp Require Import prelude gmap strings list sorting.
From S2P Require Import Prelude NetAddr K8s ProxyEndpoints.
Open Scope Z_scope.

(** The endpoint string an endpoint contributes at a port number, if its first address is of the family. *)
Definition endpoint_string `{ProxyLib} (ipFamily : string) (portNum : Z) (e : endpointInfo) : option string :=
  match ei_Addresses e with
  | [] => None
  | addr :: _ => if xorb (bool_decide (ipFamily = "IPv6")) (utilnet_IsIPv6String addr) then None else Some (JoinHostPort addr (Itoa portNum))
  end.

(** The service port a port of a slice stands for: it is named by its index among the sorted ports. *)
Definition port_of (nn : NamespacedName) (i : nat) (port : EndpointPort) : option (ServicePortName * Z) :=
  match ep_Name port, ep_Port port, ep_Protocol port with
  | Some _, Some portNum, Some protocol => if bool_decide (portNum = 0) then None else Some (mkSPN nn (Itoa (Z.of_nat i)) protocol, portNum)
  | _, _, _ => None
  end.

(** [si] has the endpoint [ep] for the service port [spn]. *)
Definition serves `{ProxyLib} (ipFamily : string) (si : endpointSliceInfo) (spn : ServicePortName) (ep : string) : Prop :=
  ∃ i port portNum e, esi_Ports si !! i = Some port ∧ port_of (esi_nn si) i port = Some (spn, portNum) ∧
    e ∈ esi_Endpoints si ∧ endpoint_string ipFamily portNum e = Some ep.

Section spec.
Context `{GoRuntime} `{ProxyLib}.
Implicit Types (S : gmap string BaseEndpointInfo) (m : gmap ServicePortName (gmap string BaseEndpointInfo)).

(** Endpoints are filed under their strings. *)
Definition keyed S : Prop := ∀ k info, S !! k = Some info → bei_Endpoint info = k.

Lemma add_endpoint_keys cache p S e k : k ∈ dom (add_endpoint cache p S e) ↔ k ∈ dom S ∨ endpoint_string (esc_ipFamily cache) p e = Some k.
Proof.
  unfold add_endpoint, endpoint_string. destruct (ei_Addresses e) as [|addr r]; [naive_solver|].
  case_match; [naive_solver|]. cbn [newBaseEndpointInfo bei_Endpoint]. case_match eqn:E.
  - rewrite dom_insert, elem_of_union, elem_of_singleton. naive_solver.
  - apply orb_false_iff in E as [E _]. apply bool_decide_eq_false in E.
    split; [by left|]. intros [?|[= <-]]; [done|]. apply elem_of_dom. by apply not_eq_None_Some.
Qed.

Lemma add_endpoint_keyed cache p S e : keyed S → keyed (add_endpoint cache p S e).
Proof.
  intros HS. unfold add_endpoint. destruct (ei_Addresses e); [done|]. case_match; [done|]. case_match; [|done].
  intros k info. rewrite lookup_insert_Some. intros [[<- <-]|[_ ?]]; [done|by apply HS].
Qed.

Lemma addEndpoints_keys cache p o es k :
  k ∈ dom (addEndpoints cache p o es) ↔ k ∈ dom (default ∅ o) ∨ ∃ e, e ∈ es ∧ endpoint_string (esc_ipFamily cache) p e = Some k.
Proof.
  unfold addEndpoints. generalize (default ∅ o). induction es as [|e es IH]; intros S; cbn [foldl].
  - split; [by left|]. intros [?|(e & He & _)]; [done|by apply elem_of_nil in He].
  - rewrite IH, add_endpoint_keys. setoid_rewrite elem_of_cons. naive_solver.
Qed.

Lemma addEndpoints_keyed cache p o es : keyed (default ∅ o) → keyed (addEndpoints cache p o es).
Proof.
  unfold addEndpoints. generalize (default ∅ o). induction es as [|e es IH]; intros S; cbn [foldl]; [done|].
  intros HS. by apply IH, add_endpoint_keyed.
Qed.

Definition has m (spn : ServicePortName) (k : string) : Prop := k ∈ dom (default ∅ (m !! spn)).
Definition all_keyed m : Prop := ∀ spn, keyed (default ∅ (m !! spn)).

(** One port of the loop: one that stands for no service port is passed over. *)
Definition port_step cache si i port m :=
  match port_of (esi_nn si) i port with
  | Some (spn, portNum) => <[spn := addEndpoints cache portNum (m !! spn) (esi_Endpoints si)]> m
  | None => m
  end.

Lemma ports_loop_cons cache si i port ports m m' :
  ports_loop cache si i (port :: ports) m = Ret m' → ports_loop cache si (S i) ports (port_step cache si i port m) = Ret m'.
Proof.
  cbn [ports_loop]. unfold port_step, port_of. destruct (ep_Name port); [|done]. destruct (ep_Port port) as [n|]; [|done].
  destruct (decide (n = 0)) as [->|Hn]; [by destruct (ep_Protocol port)|]. rewrite (bool_decide_false _ Hn). intros E.
  destruct (ep_Protocol port) as [pr|]; [by destruct n|by destruct n].
Qed.

Lemma port_step_keys cache si i port m : all_keyed m →
  all_keyed (port_step cache si i port m) ∧ ∀ spn k, has (port_step cache si i port m) spn k ↔ has m spn k ∨
    ∃ portNum e, port_of (esi_nn si) i port = Some (spn, portNum) ∧ e ∈ esi_Endpoints si ∧ endpoint_string (esc_ipFamily cache) portNum e = Some k.
Proof.
  intros Hk. unfold port_step. destruct (port_of (esi_nn si) i port) as [[spn0 n]|]; [|split; [done|naive_solver]]. split.
  - intros spn. destruct (decide (spn0 = spn)) as [<-|Hne]; [rewrite lookup_insert_eq; by apply addEndpoints_keyed|by rewrite lookup_insert_ne].
  - intros spn k. unfold has at 1. destruct (decide (spn0 = spn)) as [<-|Hne].
    + rewrite lookup_insert_eq. etrans; [apply addEndpoints_keys|]. unfold has. naive_solver.
    + rewrite lookup_insert_ne by done. naive_solver.
Qed.

Lemma ports_loop_keys cache si i ports m m' : ports_loop cache si i ports m = Ret m' → all_keyed m →
  all_keyed m' ∧ ∀ spn k, has m' spn k ↔ has m spn k ∨
    ∃ j port portNum e, ports !! j = Some port ∧ port_of (esi_nn si) (i + j) port = Some (spn, portNum) ∧
      e ∈ esi_Endpoints si ∧ endpoint_string (esc_ipFamily cache) portNum e = Some k.
Proof.
  revert i m. induction ports as [|port ports IH]; intros i m E Hk.
  { injection E as <-. split; [done|]. intros spn k. split; [by left|]. by intros [?|(? & ? & ? & ? & ? & _)]. }
  apply ports_loop_cons in E. destruct (port_step_keys cache si i port m Hk) as [Hk1 Hs].
  apply IH in E as [Hk' Hin]; [|done]. split; [done|]. intros spn k. rewrite Hin, Hs. split.
  - intros [[?|(n & e & ? & ?)]|(j & p & n & e & Hj & Hp & He)]; [by left| |].
    + right. exists 0%nat, port, n, e. by rewrite Nat.add_0_r.
    + right. exists (S j), p, n, e. by rewrite Nat.add_succ_r.
  - intros [?|([|j] & p & n & e & Hj & Hp & He)]; [by do 2 left| |].
    + injection Hj as <-. rewrite Nat.add_0_r in Hp. left. right. by exists n, e.
    + right. exists j, p, n, e. by rewrite Nat.add_succ_r in Hp.
Qed.

Lemma slices_loop_keys cache slices m m' : slices_loop cache slices m = Ret m' → all_keyed m →
  all_keyed m' ∧ ∀ spn k, has m' spn k ↔ has m spn k ∨ ∃ si, si ∈ slices ∧ serves (esc_ipFamily cache) si spn k.
Proof.
  revert m. induction slices as [|si slices IH]; intros m E Hk; cbn [slices_loop] in E.
  { injection E as <-. split; [done|]. intros spn k. split; [by left|]. intros [?|(? & []%elem_of_nil & _)]. done. }
  apply bind_Ret in E as (m1 & E1 & E). apply ports_loop_keys in E1 as [Hk1 Hin1]; [|done]. apply IH in E as [Hk' Hin]; [|done].
  split; [done|]. intros spn k. rewrite Hin, Hin1. setoid_rewrite elem_of_cons. unfold serves. cbn [Nat.add]. split.
  - intros [[?|?]|(si' & ? & ?)]; [by left|right; exists si; split; [by left|done]|right; exists si'; split; [by right|done]].
  - intros [?|(si' & [->|?] & ?)]; [by do 2 left|left; by right|right; by exists si'].
Qed.

(** The list of a service port: what is filed, each once, in the order of the strings. *)
Definition endpoint_list (l : list BaseEndpointInfo) : Prop :=
  l ≠ [] ∧ NoDup (bei_Endpoint <$> l) ∧ StronglySorted (λ a b, str_lt b a = false) (bei_Endpoint <$> l).

Lemma sorted_strings (l : list BaseEndpointInfo) : StronglySorted (λ a b, byEndpoint_Less b a = false) l →
  StronglySorted (λ a b, str_lt b a = false) (bei_Endpoint <$> l).
Proof. induction 1 as [|x l _ IH Hx]; cbn; constructor; [done|]. rewrite Forall_fmap. exact Hx. Qed.

Lemma byEndpoint_order : less_order byEndpoint_Less.
Proof. destruct str_lt_order as [O1 O2]. split; intros *; [apply O1|apply O2]. Qed.

Lemma keyed_list S l : keyed S → l ≡ₚ (map_to_list S).*2 → bei_Endpoint <$> l ≡ₚ (map_to_list S).*1.
Proof.
  intros HS ->. rewrite <- list_fmap_compose.
  rewrite (list_fmap_ext (bei_Endpoint ∘ snd) fst); [done|]. intros i [k info] Hi.
  apply list_elem_of_lookup_2, elem_of_map_to_list in Hi. cbn. by apply HS.
Qed.

Lemma endpointsMap_lookup m spn : all_keyed m →
  match endpointsMapFromEndpointInfo m !! spn with
  | Some l => endpoint_list l ∧ ∀ k, k ∈ bei_Endpoint <$> l ↔ has m spn k
  | None => ∀ k, ¬ has m spn k
  end.
Proof.
  intros Hk. unfold endpointsMapFromEndpointInfo, has. rewrite lookup_omap. specialize (Hk spn).
  destruct (m !! spn) as [S|]; cbn [mbind option_bind default] in *; [|set_solver]. destruct (Nat.ltb_spec 0 (size S)) as [Hs|Hs].
  - assert (Hp : bei_Endpoint <$> go_sort byEndpoint_Less (go_range S).*2 ≡ₚ (map_to_list S).*1).
    { apply keyed_list; [done|]. by rewrite go_sort_perm, go_range_perm. }
    split; [split_and!|].
    + intros E. rewrite E in Hp. apply Permutation_length in Hp. rewrite (length_fmap fst), length_map_to_list in Hp. cbn in Hp. lia.
    + rewrite Hp. apply NoDup_fst_map_to_list.
    + apply sorted_strings, go_sort_sorted, byEndpoint_order.
    + intros k. rewrite Hp, elem_of_dom. split.
      * intros ([k' info] & -> & Hin%elem_of_map_to_list)%list_elem_of_fmap. by exists info.
      * intros [info Hin%elem_of_map_to_list]. by apply (list_elem_of_fmap_2 fst) in Hin.
  - intros k. assert (S = ∅) as -> by (apply map_size_empty_inv; lia). set_solver.
Qed.

Lemma getEndpointsMap_serves cache slices (epm : EndpointsMap) spn : getEndpointsMap cache slices = Ret epm →
  match epm !! spn with
  | Some l => endpoint_list l ∧ ∀ ep, ep ∈ bei_Endpoint <$> l ↔ ∃ name si, slices !! name = Some si ∧ serves (esc_ipFamily cache) si spn ep
  | None => ∀ ep name si, slices !! name = Some si → ¬ serves (esc_ipFamily cache) si spn ep
  end.
Proof.
  unfold getEndpointsMap, endpointInfoByServicePort. intros E. apply bind_Ret in E as (m0 & E & [= <-]).
  apply slices_loop_keys in E as [Hk Hin]; [|intros spn' k info; by rewrite !lookup_empty].
  assert (Hhas : ∀ ep, has m0 spn ep ↔ ∃ name si, slices !! name = Some si ∧ serves (esc_ipFamily cache) si spn ep).
  { intros ep. rewrite Hin. unfold has. rewrite lookup_empty. split.
    - intros [Hd|(si & Hsi & Hs)]; [set_solver|]. apply list_elem_of_fmap in Hsi as ([name si'] & -> & Hn%elem_of_go_range). by exists name, si'.
    - intros (name & si & Hn%elem_of_go_range & Hs). right. exists si. split; [|done]. by apply (list_elem_of_fmap_2 snd) in Hn. }
  pose proof (endpointsMap_lookup m0 spn Hk) as Hl. destruct (endpointsMapFromEndpointInfo m0 !! spn) as [l|].
  - destruct Hl as [Hl Hk']. split; [done|]. intros ep. by rewrite Hk'.
  - intros ep name si Hn Hs. apply (Hl ep), Hhas. by exists name, si.
Qed.
End spec.

Section claim.
Context `{GoRuntime} `{ProxyLib}.

(** C6: the endpoint map is what the slices say.  From the slices of a service [getEndpointsMap] makes, for every service port
    (a port is known by its index among the sorted ports of its slice), the list of the endpoint
    strings of that port: those of all slices with an endpoint of the proxier's family, each once, in order; a port without
    endpoints has no entry. *)
Theorem getEndpointsMap_spec nn cache slices : (∀ name si, slices !! name = Some si → info_ok nn si) →
  ∃ epm, getEndpointsMap cache slices = Ret epm ∧ ∀ spn,
    match epm !! spn with
    | Some l => endpoint_list l ∧ ∀ ep, ep ∈ bei_Endpoint <$> l ↔ ∃ name si, slices !! name = Some si ∧ serves (esc_ipFamily cache) si spn ep
    | None => ∀ ep name si, slices !! name = Some si → ¬ serves (esc_ipFamily cache) si spn ep
    end.
Proof.
  intros Hs. destruct (getEndpointsMap_total cache nn slices Hs) as (epm & E & _). exists epm. split; [done|].
  intros spn. exact (getEndpointsMap_serves cache slices epm spn E).
Qed.
End claim.

(** Two slices with one port and three endpoints between them, one twice and one of the other family. *)
Definition demo_info (addrs : list string) : endpointSliceInfo :=
  mkEsInfo [mkPort (Some "http") (Some "TCP") (Some 80) None] ((λ a, mkEpInfo [a] None None None true true false) <$> addrs) false (mkNN "ns" "web").
Definition demo_infos : gmap string endpointSliceInfo :=
  {["a" := demo_info ["10.0.0.7"; "10.0.0.5"]; "b" := demo_info ["10.0.0.5"; "fd00::1"]]}.

Lemma getEndpointsMap_spec_witness :
  ∃ epm, @getEndpointsMap list_runtime demo_proxylib (NewEndpointSliceCache "node" "IPv4") demo_infos = Ret epm ∧
    option_map (fmap bei_Endpoint) (epm !! demo_spn) = Some ["10.0.0.5:80"; "10.0.0.7:80"] ∧
    match epm !! demo_spn with Some l => endpoint_list l | None => False end.
Proof.
  destruct (@getEndpointsMap_spec list_runtime demo_proxylib (mkNN "ns" "web") (NewEndpointSliceCache "node" "IPv4") demo_infos) as (epm & E & Hs).
  - unfold demo_infos. intros name si. rewrite lookup_insert_Some, lookup_singleton_Some. intros [[_ <-]|[_ [_ <-]]]; (split; [done|by repeat constructor]).
  - assert (E' : epm = match @getEndpointsMap list_runtime demo_proxylib (NewEndpointSliceCache "node" "IPv4") demo_infos with Ret m => m | _ => ∅ end) by (by rewrite E).
    assert (Hl : option_map (fmap bei_Endpoint) (epm !! demo_spn) = Some ["10.0.0.5:80"; "10.0.0.7:80"]) by (rewrite E'; vm_compute; reflexivity).
    exists epm. split; [exact E|]. split; [exact Hl|]. specialize (Hs demo_spn). destruct (epm !! demo_spn); [exact (proj1 Hs)|discriminate Hl].
Defined.
