(* ===== verification/ProxyServices.v ===== *)
(** * Services of the proxy

    [pkg/proxy/service_import.go] (the map from service ports to their virtual
    addresses and its change tracker), [pkg/proxy/topology.go] (which endpoints
    of a service a node may use) and [newServiceInfo] of
    [pkg/proxy/ipvs/proxier.go].  A [ServicePortMap] that may be nil is an
    [option]: [reflect.DeepEqual] tells nil from empty. *)
From stdpp Require Import prelude gmap strings list.
From S2P Require Import Prelude NetAddr K8s ProxyEndpoints.
Open Scope Z_scope.

Class ServiceLib := { ParseIPSloppy : string → IP }.

(** ** Types.  The fields [newBaseServiceInfo] leaves out are zero. *)
Record BaseServicePortInfo := mkBSP {
  bsp_clusterIP : IP; bsp_port : Z; bsp_protocol : string; bsp_nodePort : Z;
  bsp_loadBalancerIngress : list string; bsp_sessionAffinityType : string; bsp_stickyMaxAgeSeconds : Z;
  bsp_externalIPs : list string; bsp_loadBalancerSourceRanges : list string; bsp_healthCheckNodePort : Z;
  bsp_externalPolicyLocal : bool; bsp_internalPolicyLocal : bool; bsp_hintsAnnotation : string }.
#[export] Instance BaseServicePortInfo_eq_dec : EqDecision BaseServicePortInfo.
Proof. solve_decision. Defined.

Record servicePortInfo := mkSPI { spi_base : BaseServicePortInfo; spi_nameString : string }.
#[export] Instance servicePortInfo_eq_dec : EqDecision servicePortInfo.
Proof. solve_decision. Defined.

Definition BSP_String (b : BaseServicePortInfo) : string :=
  IP_String (bsp_clusterIP b) +:+ ":" +:+ Itoa (bsp_port b) +:+ "/" +:+ bsp_protocol b.

Definition ExternallyAccessible (b : BaseServicePortInfo) : bool :=
  negb (bsp_nodePort b =? 0) || negb (length (bsp_loadBalancerIngress b) =? 0)%nat || negb (length (bsp_externalIPs b) =? 0)%nat.
Definition UsesClusterEndpoints (b : BaseServicePortInfo) : bool :=
  negb (bsp_internalPolicyLocal b) || ExternallyAccessible b.
Definition UsesLocalEndpoints (b : BaseServicePortInfo) : bool :=
  bsp_internalPolicyLocal b || (bsp_externalPolicyLocal b && ExternallyAccessible b).

Abbreviation SPMap := (gmap ServicePortName servicePortInfo).
Abbreviation ServicePortMap := (option SPMap).

Record serviceImportChange := mkSIC { sic_previous : ServicePortMap; sic_current : ServicePortMap }.
Record ServiceImportChangeTracker := mkSICT { sict_items : gmap NamespacedName serviceImportChange; sict_ipFamily : string }.

Definition NewServiceImportChangeTracker (ipFamily : string) : ServiceImportChangeTracker := mkSICT ∅ ipFamily.

Section services.
Context `{GoRuntime} `{ServiceLib} `{ProxyLib}.

Definition svcImportPortToV1Port (p : ImportPort) : ServicePort :=
  mkSvcPort (ip_Name p) (ip_Protocol p) None (ip_Port p) (IntVal 0) 0.

(** [serviceImport.Spec.IPs[0]] panics when there is no IP. *)
Definition newBaseServiceInfo (port : ServicePort) (serviceImport : ServiceImport) : outcome BaseServicePortInfo :=
  clusterIP ← index (sim_IPs serviceImport) 0;
  Ret (mkBSP (ParseIPSloppy clusterIP) (sp_Port port) (sp_Protocol port) (sp_NodePort port) [] EmptyString 0 [] [] 0
         false false EmptyString).

Definition si_nn (si : ServiceImport) : NamespacedName := mkNN (Namespace (sim_meta si)) (Name (sim_meta si)).

Definition newServiceInfo (port : ServicePort) (serviceImport : ServiceImport) (b : BaseServicePortInfo) : servicePortInfo :=
  mkSPI b (SPN_String (mkSPN (si_nn serviceImport) (sp_Name port) EmptyString)).

Fixpoint import_ports_loop (si : ServiceImport) (i : nat) (ports : list ImportPort) (m : SPMap) : outcome SPMap :=
  match ports with
  | [] => Ret m
  | p :: rest =>
      let v1Port := svcImportPortToV1Port p in
      let spn := mkSPN (si_nn si) (Itoa (Z.of_nat i)) (ip_Protocol p) in
      base ← newBaseServiceInfo v1Port si;
      import_ports_loop si (S i) rest (<[spn := newServiceInfo v1Port si base]> m)
  end.

Definition serviceImportToServiceMap (serviceImport : option ServiceImport) : outcome ServicePortMap :=
  match serviceImport with
  | None => Ret None
  | Some si =>
      match sim_IPs si with
      | [] => Ret None
      | ip :: _ => if bool_decide (ip = EmptyString) then Ret None
                   else m ← import_ports_loop si 0 (sim_Ports si) ∅; Ret (Some m)
      end
  end.

(** [ServiceImportChangeTracker.Update]: the previous state of a pending change
    is kept; a change that is undone is dropped. *)
Definition SICT_Update (sct : ServiceImportChangeTracker) (previous current : option ServiceImport)
    : outcome (ServiceImportChangeTracker * bool) :=
  match (match current with Some c => Some c | None => previous end) with
  | None => Ret (sct, false)
  | Some svc =>
      let nn := si_nn svc in
      prev ← match sict_items sct !! nn with
             | Some change => Ret (sic_previous change)
             | None => serviceImportToServiceMap previous
             end;
      cur ← serviceImportToServiceMap current;
      let items := if bool_decide (prev = cur) then delete nn (sict_items sct)
                   else <[nn := mkSIC prev cur]> (sict_items sct) in
      Ret (mkSICT items (sict_ipFamily sct), (0 <? size items)%nat)
  end.

(** ** [ServicePortMap] *)
Record UpdateServiceMapResult := mkUSR { usr_UpdatedServices : gset NamespacedName; usr_DeletedUDPClusterIPs : gset string }.

Definition spm_merge (spm : SPMap) (other : ServicePortMap) : SPMap :=
  foldl (λ m '(k, v), <[k := v]> m) spm (go_range (default ∅ other)).

Definition spm_filter (spm other : ServicePortMap) : ServicePortMap :=
  (λ m, filter (λ kv, default ∅ other !! fst kv = None) m) <$> spm.

Definition spm_unmerge_step (acc : SPMap * gset string) (spn : ServicePortName) : SPMap * gset string :=
  let '(spm, ips) := acc in
  match spm !! spn with
  | Some info => (delete spn spm, if bool_decide (bsp_protocol (spi_base info) = "UDP")
                                  then {[IP_String (bsp_clusterIP (spi_base info))]} ∪ ips else ips)
  | None => (spm, ips)
  end.
Definition spm_unmerge (spm : SPMap) (other : ServicePortMap) (ips : gset string) : SPMap * gset string :=
  foldl spm_unmerge_step (spm, ips) (go_range (default ∅ other)).*1.

Definition spm_apply (st : SPMap * UpdateServiceMapResult) (nc : NamespacedName * serviceImportChange)
    : SPMap * UpdateServiceMapResult :=
  let '(spm, result) := st in
  let '(nn, change) := nc in
  let spm := spm_merge spm (sic_current change) in
  let '(spm, ips) := spm_unmerge spm (spm_filter (sic_previous change) (sic_current change)) (usr_DeletedUDPClusterIPs result) in
  (spm, mkUSR ({[nn]} ∪ usr_UpdatedServices result) ips).

Definition ServicePortMap_Update (spm : SPMap) (sct : ServiceImportChangeTracker)
    : SPMap * ServiceImportChangeTracker * UpdateServiceMapResult :=
  let '(spm, result) := foldl spm_apply (spm, mkUSR ∅ ∅) (go_range (sict_items sct)) in
  (spm, mkSICT ∅ (sict_ipFamily sct), result).

Definition HealthCheckNodePorts (spm : SPMap) : gmap NamespacedName Z :=
  foldl (λ acc '(spn, info), let p := bsp_healthCheckNodePort (spi_base info) in
                             if negb (p =? 0) then <[spn_nn spn := wrapu16 p]> acc else acc) ∅ (go_range spm).

(** ** Topology: [CategorizeEndpoints] *)
Definition filterEndpoints (endpoints : list BaseEndpointInfo) (p : BaseEndpointInfo → bool) : list BaseEndpointInfo :=
  filter (λ ep, p ep = true) endpoints.

Definition hasHint (ep : BaseEndpointInfo) (zone : string) : bool :=
  match bei_ZoneHints ep with Some h => bool_decide (zone ∈ h) | None => false end.

(** The scan of the endpoints; [None] when a ready one has no hint. *)
Fixpoint scan_hints (endpoints : list BaseEndpointInfo) (zone : string) (found : bool) : option bool :=
  match endpoints with
  | [] => Some found
  | ep :: rest =>
      if negb (bei_Ready ep) then scan_hints rest zone found
      else if (size (default ∅ (bei_ZoneHints ep)) =? 0)%nat then None
      else scan_hints rest zone (found || hasHint ep zone)
  end.

Definition canUseTopology (endpoints : list BaseEndpointInfo) (svcInfo : BaseServicePortInfo) (nodeLabels : GoMap) : bool :=
  if negb gate_TopologyAwareHints then false
  else
    let h := bsp_hintsAnnotation svcInfo in
    if bool_decide (h = EmptyString) || bool_decide (h = "disabled") || bool_decide (h = "Disabled") then false
    else
      let zone := mstr nodeLabels LabelTopologyZone in
      if bool_decide (zone = EmptyString) then false
      else match scan_hints endpoints zone false with
           | None => false
           | Some hasEndpointForZone => hasEndpointForZone
           end.

Definition availableForTopology (ep : BaseEndpointInfo) (nodeLabels : GoMap) : bool :=
  hasHint ep (mstr nodeLabels LabelTopologyZone).

Definition serving_terminating (ep : BaseEndpointInfo) : bool := bei_Serving ep && bei_Terminating ep.

Record Categorized := mkCat {
  cat_cluster : list BaseEndpointInfo; cat_local : list BaseEndpointInfo; cat_all : list BaseEndpointInfo; cat_hasAny : bool }.

Definition CategorizeEndpoints (endpoints : list BaseEndpointInfo) (svcInfo : BaseServicePortInfo) (nodeLabels : GoMap) : Categorized :=
  let usesCluster := UsesClusterEndpoints svcInfo in
  let useTopology := usesCluster && canUseTopology endpoints svcInfo nodeLabels in
  let clusterEndpoints :=
    if usesCluster then
      let l := filterEndpoints endpoints (λ ep, bei_Ready ep && negb (useTopology && negb (availableForTopology ep nodeLabels))) in
      if (length l =? 0)%nat then filterEndpoints endpoints serving_terminating else l
    else [] in
  let hasAny := (0 <? length clusterEndpoints)%nat in
  if negb (UsesLocalEndpoints svcInfo) then mkCat clusterEndpoints [] clusterEndpoints hasAny
  else
    let hasAny := hasAny || existsb (λ ep, bei_Ready ep || serving_terminating ep) endpoints in
    let hasLocalReady := existsb (λ ep, bei_Ready ep && bei_IsLocal ep) endpoints in
    let hasLocalServing := existsb (λ ep, negb (bei_Ready ep) && serving_terminating ep && bei_IsLocal ep) endpoints in
    let useServing := negb hasLocalReady && hasLocalServing in
    let localEndpoints :=
      if hasLocalReady then filterEndpoints endpoints (λ ep, bei_IsLocal ep && bei_Ready ep)
      else if hasLocalServing then filterEndpoints endpoints (λ ep, bei_IsLocal ep && bei_Serving ep && bei_Terminating ep)
      else [] in
    if negb usesCluster then mkCat clusterEndpoints localEndpoints localEndpoints hasAny
    else if negb useTopology && negb useServing then mkCat clusterEndpoints localEndpoints clusterEndpoints hasAny
    else
      let m := foldl (λ m ep, <[bei_Endpoint ep := ep]> m) (∅ : gmap string BaseEndpointInfo) (clusterEndpoints ++ localEndpoints) in
      mkCat clusterEndpoints localEndpoints (go_range m).*2 hasAny.

(** ** The service map of an import *)
Lemma import_ports_loop_total si i ports m :
  sim_IPs si ≠ [] →
  ∃ m', import_ports_loop si i ports m = Ret m' ∧ ∀ spn, is_Some (m' !! spn) → is_Some (m !! spn) ∨ spn_nn spn = si_nn si.
Proof.
  intros Hip. revert i m. induction ports as [|p ports IH]; intros i m; simpl; [by exists m; auto|].
  unfold newBaseServiceInfo, index. destruct (sim_IPs si) as [|ip ips]; [done|]. simpl.
  match goal with |- context [import_ports_loop si (S i) ports ?x] => destruct (IH (S i) x) as (m' & -> & Hm') end.
  exists m'. split; [done|]. intros spn [Hs|?]%Hm'; [|by right].
  apply lookup_insert_is_Some in Hs as [<-|[_ ?]]; [by right|by left].
Qed.

Definition service_map (o : option ServiceImport) : ServicePortMap :=
  match serviceImportToServiceMap o with Ret m => m | _ => None end.

Definition keys_in (nn : NamespacedName) (m : ServicePortMap) : Prop :=
  ∀ spn, is_Some (default ∅ m !! spn) → spn_nn spn = nn.

Lemma service_map_spec o : serviceImportToServiceMap o = Ret (service_map o).
Proof.
  unfold service_map. destruct o as [si|]; simpl; [|done].
  destruct (sim_IPs si) as [|ip ips] eqn:Hip; [done|]. case_bool_decide; [done|].
  destruct (import_ports_loop_total si 0 (sim_Ports si) ∅) as (m & -> & _); [by rewrite Hip|done].
Qed.

Lemma keys_in_None nn : keys_in nn None.
Proof. intros spn [x Hx]. simpl in Hx. by rewrite lookup_empty in Hx. Qed.

Lemma service_map_keys nn o : (∀ si, o = Some si → si_nn si = nn) → keys_in nn (service_map o).
Proof.
  intros Ho. unfold service_map. destruct o as [si|]; simpl; [|apply keys_in_None].
  destruct (sim_IPs si) as [|ip ips] eqn:Hip; [apply keys_in_None|]. case_bool_decide; [apply keys_in_None|].
  destruct (import_ports_loop_total si 0 (sim_Ports si) ∅) as (m & -> & Hm); [by rewrite Hip|].
  intros spn Hs. simpl in Hs. rewrite <- (Ho si eq_refl). destruct (Hm _ Hs) as [[x Hx]|?]; [|done].
  by rewrite lookup_empty in Hx.
Qed.

(** ** Applying the changes *)
Lemma spm_merge_lookup spm other spn :
  spm_merge spm other !! spn = match default ∅ other !! spn with Some i => Some i | None => spm !! spn end.
Proof.
  unfold spm_merge. generalize (default ∅ other : SPMap). intros o.
  assert (∀ l, NoDup l.*1 → foldl (λ m '(k, v), <[k := v]> m) spm l !! spn =
    match (list_to_map l : SPMap) !! spn with Some x => Some x | None => spm !! spn end) as Hl.
  { intros l. revert spm. induction l as [|[k v] l IH]; intros spm; simpl; [by rewrite lookup_empty|].
    intros [Hk Hnd]%NoDup_cons. rewrite IH by done. destruct (decide (k = spn)) as [->|Hne].
    - rewrite not_elem_of_list_to_map_1 by done. by rewrite !lookup_insert_eq.
    - by rewrite !lookup_insert_ne. }
  rewrite Hl by apply NoDup_go_range. by rewrite list_to_map_go_range.
Qed.

Lemma spm_unmerge_lookup spm other ips spn :
  fst (spm_unmerge spm other ips) !! spn = match default ∅ other !! spn with Some _ => None | None => spm !! spn end.
Proof.
  unfold spm_unmerge. generalize (default ∅ other : SPMap). intros o.
  assert (∀ l, fst (foldl spm_unmerge_step (spm, ips) l) !! spn = if decide (spn ∈ l) then None else spm !! spn) as Hl.
  { intros l. revert spm ips. induction l as [|k l IH]; intros spm ips; simpl; [done|].
    destruct (spm !! k) as [info|] eqn:Ek; rewrite IH.
    - destruct (decide (k = spn)) as [->|Hne].
      + rewrite lookup_delete_eq. destruct (decide (spn ∈ l)), (decide (spn ∈ spn :: l)); set_solver.
      + rewrite lookup_delete_ne by done. destruct (decide (spn ∈ l)), (decide (spn ∈ k :: l)); set_solver.
    - destruct (decide (spn ∈ l)), (decide (spn ∈ k :: l)) as [[->|?]%elem_of_cons|]; set_solver. }
  rewrite Hl. destruct (o !! spn) as [x|] eqn:E.
  - rewrite decide_True; [done|]. apply elem_of_go_range in E. by apply (list_elem_of_fmap_2 fst _ (spn, x)).
  - rewrite decide_False; [done|]. intros ([k x] & -> & Hin%elem_of_go_range)%list_elem_of_fmap. simpl in E. congruence.
Qed.

Lemma spm_filter_lookup prev cur spn :
  default ∅ (spm_filter prev cur) !! spn = match default ∅ cur !! spn with Some _ => None | None => default ∅ prev !! spn end.
Proof.
  destruct prev as [p|]; simpl.
  - rewrite map_lookup_filter. destruct (p !! spn) as [x|]; simpl.
    + destruct (default ∅ cur !! spn) eqn:E; simpl; by rewrite ?option_guard_True, ?option_guard_False by congruence.
    + by destruct (default ∅ cur !! spn).
  - rewrite lookup_empty. by destruct (default ∅ cur !! spn).
Qed.

(** A service port that was not in the previous map of the change and not in
    the current one is untouched; one of either gets its current value. *)
Lemma spm_apply_lookup st nn ch spn :
  fst (spm_apply st (nn, ch)) !! spn =
  match default ∅ (sic_current ch) !! spn with
  | Some i => Some i
  | None => match default ∅ (sic_previous ch) !! spn with Some _ => None | None => fst st !! spn end
  end.
Proof.
  destruct st as [spm res]. simpl.
  destruct (spm_unmerge _ _ _) as [spm' ips] eqn:E. simpl.
  pose proof (spm_unmerge_lookup (spm_merge spm (sic_current ch)) (spm_filter (sic_previous ch) (sic_current ch))
    (usr_DeletedUDPClusterIPs res) spn) as Hu.
  rewrite E in Hu. simpl in Hu. rewrite Hu, spm_filter_lookup, spm_merge_lookup.
  destruct (default ∅ (sic_current ch) !! spn); [done|]. by destruct (default ∅ (sic_previous ch) !! spn).
Qed.

Definition agrees (spm : SPMap) (nn : NamespacedName) (m : ServicePortMap) : Prop :=
  ∀ spn, spn_nn spn = nn → spm !! spn = default ∅ m !! spn.

Lemma spm_fold_agrees (l : list (NamespacedName * serviceImportChange)) st nn :
  NoDup l.*1 → (∀ k ch, (k, ch) ∈ l → keys_in k (sic_previous ch) ∧ keys_in k (sic_current ch)) →
  match (list_to_map l : gmap NamespacedName serviceImportChange) !! nn with
  | Some ch => agrees (fst st) nn (sic_previous ch) → agrees (fst (foldl spm_apply st l)) nn (sic_current ch)
  | None => ∀ spn, spn_nn spn = nn → fst (foldl spm_apply st l) !! spn = fst st !! spn
  end.
Proof.
  revert st. induction l as [|[k ch] l IH]; intros st Hnd Hk; simpl; [by rewrite lookup_empty|].
  apply NoDup_cons in Hnd as [Hn Hnd].
  specialize (IH (spm_apply st (k, ch)) Hnd ltac:(intros; apply Hk; by right)).
  destruct (decide (k = nn)) as [->|Hne].
  - rewrite lookup_insert_eq. rewrite not_elem_of_list_to_map_1 in IH by done.
    intros Ha spn Hspn. rewrite (IH spn Hspn), spm_apply_lookup.
    destruct (default ∅ (sic_current ch) !! spn); [done|]. specialize (Ha spn Hspn).
    by destruct (default ∅ (sic_previous ch) !! spn).
  - rewrite lookup_insert_ne by done. destruct (Hk k ch (list_elem_of_here _ _)) as [Kp Kc].
    assert (∀ spn, spn_nn spn = nn → fst (spm_apply st (k, ch)) !! spn = fst st !! spn) as Hsame.
    { intros spn Hspn. rewrite spm_apply_lookup.
      destruct (default ∅ (sic_current ch) !! spn) eqn:E1; [exfalso; apply Hne; rewrite <- Hspn; symmetry; apply Kc; eauto|].
      destruct (default ∅ (sic_previous ch) !! spn) eqn:E2; [exfalso; apply Hne; rewrite <- Hspn; symmetry; apply Kp; eauto|done]. }
    destruct ((list_to_map l : gmap NamespacedName serviceImportChange) !! nn).
    + intros Ha. apply IH. intros spn Hspn. rewrite Hsame by done. by apply Ha.
    + intros spn Hspn. by rewrite IH, Hsame.
Qed.

(** ** The proxy's services as a sequence of informer events

    The informer hands the last known object as the previous one. *)
Inductive sevent := SISet (si : ServiceImport) | SIDelete (nn : NamespacedName) | SISync.

Record sstate := mkSS { ss_latest : gmap NamespacedName ServiceImport; ss_spm : SPMap; ss_sct : ServiceImportChangeTracker }.

Definition sstep (st : sstate) (e : sevent) : outcome sstate :=
  match e with
  | SISet si =>
      '(sct, _) ← SICT_Update (ss_sct st) (ss_latest st !! si_nn si) (Some si);
      Ret (mkSS (<[si_nn si := si]> (ss_latest st)) (ss_spm st) sct)
  | SIDelete nn =>
      '(sct, _) ← SICT_Update (ss_sct st) (ss_latest st !! nn) None;
      Ret (mkSS (delete nn (ss_latest st)) (ss_spm st) sct)
  | SISync =>
      let '(spm, sct, _) := ServicePortMap_Update (ss_spm st) (ss_sct st) in
      Ret (mkSS (ss_latest st) spm sct)
  end.

Fixpoint srun (st : sstate) (es : list sevent) : outcome sstate :=
  match es with
  | [] => Ret st
  | e :: rest => st' ← sstep st e; srun st' rest
  end.

Definition s_init (ipFamily : string) : sstate := mkSS ∅ ∅ (NewServiceImportChangeTracker ipFamily).

Record svc_inv (st : sstate) : Prop := {
  sv_latest : ∀ nn si, ss_latest st !! nn = Some si → si_nn si = nn;
  sv_clean : ∀ nn, sict_items (ss_sct st) !! nn = None → agrees (ss_spm st) nn (service_map (ss_latest st !! nn));
  sv_dirty : ∀ nn ch, sict_items (ss_sct st) !! nn = Some ch →
    agrees (ss_spm st) nn (sic_previous ch) ∧ keys_in nn (sic_previous ch) ∧
    sic_current ch = service_map (ss_latest st !! nn) }.

(** One object changes: [latest] is the new state of the informer. *)
Lemma SICT_Update_inv st cur nn latest :
  svc_inv st → (∀ nn' si, latest !! nn' = Some si → si_nn si = nn') → latest !! nn = cur →
  (∀ nn', nn' ≠ nn → latest !! nn' = ss_latest st !! nn') →
  (cur = None → is_Some (ss_latest st !! nn)) → 
  ∃ sct b, SICT_Update (ss_sct st) (ss_latest st !! nn) cur = Ret (sct, b) ∧ svc_inv (mkSS latest (ss_spm st) sct) ∧
    (b = false → sict_items sct = ∅).
Proof.
  intros [Hl Hc Hd] Hl' Hcur Hoth Hex. unfold SICT_Update.
  assert (∃ svc, (match cur with Some c => Some c | None => ss_latest st !! nn end) = Some svc ∧ si_nn svc = nn) as (svc & -> & Hnn).
  { destruct cur as [c|]; [exists c; split; [done|by apply Hl']|].
    destruct (Hex eq_refl) as [o Ho]. exists o. split; [done|by apply Hl]. }
  rewrite Hnn, !service_map_spec.
  assert (∃ prev, (match sict_items (ss_sct st) !! nn with
                   | Some change => Ret (sic_previous change)
                   | None => Ret (service_map (ss_latest st !! nn))
                   end) = Ret prev ∧ agrees (ss_spm st) nn prev ∧ keys_in nn prev) as (prev & -> & Hag & Hki).
  { destruct (sict_items (ss_sct st) !! nn) as [ch|] eqn:E.
    - destruct (Hd _ _ E) as (? & ? & _). eauto.
    - eexists. split; [done|]. split; [by apply Hc|]. apply service_map_keys. by intros si ?%Hl. }
  simpl. do 2 eexists. split; [done|]. split; [|by intros Hz%Nat.ltb_ge%Nat.le_0_r%map_size_empty_inv]. constructor; simpl; [done| |].
  - intros n. destruct (decide (n = nn)) as [->|Hne].
    + case_bool_decide as Hb; [|by rewrite lookup_insert_eq]. intros _. rewrite Hcur, <- Hb. done.
    + rewrite Hoth by done. case_bool_decide; [rewrite lookup_delete_ne by done|rewrite lookup_insert_ne by done]; apply Hc.
  - intros n ch. destruct (decide (n = nn)) as [->|Hne].
    + case_bool_decide; [by rewrite lookup_delete_eq|]. rewrite lookup_insert_eq. intros [= <-]. simpl. by rewrite Hcur.
    + rewrite Hoth by done. case_bool_decide; [rewrite lookup_delete_ne by done|rewrite lookup_insert_ne by done]; apply Hd.
Qed.

Lemma sync_inv st :
  svc_inv st →
  ∃ st', sstep st SISync = Ret st' ∧ svc_inv st' ∧ ss_latest st' = ss_latest st ∧
    ∀ nn, agrees (ss_spm st') nn (service_map (ss_latest st !! nn)).
Proof.
  intros [Hl Hc Hd]. unfold sstep, ServicePortMap_Update.
  destruct (foldl spm_apply _ _) as [spm res] eqn:E. eexists. split; [done|].
  assert (∀ nn, agrees spm nn (service_map (ss_latest st !! nn))) as Hall.
  { intros nn. pose proof (spm_fold_agrees (go_range (sict_items (ss_sct st))) (ss_spm st, mkUSR ∅ ∅) nn) as Hf.
    rewrite E, list_to_map_go_range in Hf. specialize (Hf (NoDup_go_range _)).
    specialize (Hf ltac:(intros k ch Hin%elem_of_go_range; destruct (Hd _ _ Hin) as (_ & ? & ->); split; [done|];
      apply service_map_keys; by intros si ?%Hl)).
    destruct (sict_items (ss_sct st) !! nn) as [ch|] eqn:En.
    - destruct (Hd _ _ En) as (Ha & _ & <-). by apply Hf.
    - intros spn Hspn. simpl in Hf. rewrite Hf by done. by apply Hc. }
  split; [|done]. constructor; simpl; [done|by intros|]. intros nn ch. by rewrite lookup_empty.
Qed.

Lemma sstep_inv st e : svc_inv st → ∃ st', sstep st e = Ret st' ∧ svc_inv st'.
Proof.
  intros Hi. destruct e as [si|nn|].
  - destruct (SICT_Update_inv st (Some si) (si_nn si) (<[si_nn si := si]> (ss_latest st))) as (sct & b & E & Hi' & _); [done| | | |done|].
    + intros n s. rewrite lookup_insert_Some. intros [[<- <-]|[_ ?]]; [done|]. by apply (sv_latest _ Hi).
    + apply lookup_insert_eq.
    + intros n Hn. by rewrite lookup_insert_ne.
    + unfold sstep. rewrite E. simpl. eauto.
  - destruct (ss_latest st !! nn) as [o|] eqn:Eo.
    + destruct (SICT_Update_inv st None nn (delete nn (ss_latest st))) as (sct & b & E & Hi' & _); [done| | | |by rewrite Eo|].
      * intros n s. rewrite lookup_delete_Some. intros [_ ?]. by apply (sv_latest _ Hi).
      * apply lookup_delete_eq.
      * intros n Hn. by rewrite lookup_delete_ne.
      * unfold sstep. rewrite E. simpl. eauto.
    + unfold sstep. rewrite Eo. simpl. eexists. split; [done|]. rewrite delete_id by done. by destruct st, Hi.
  - destruct (sync_inv _ Hi) as (st' & ? & ? & _). eauto.
Qed.

(** C7: the proxy's service ports are those of the latest imports.  Whatever
    imports are added, changed (an IP assigned, removed, ports edited) and
    deleted and however the syncs are interleaved, after a sync every service
    port has exactly the address and port computed from the latest version of
    its import, and the ports of other imports are gone; no event crashes the
    tracker. *)
Theorem proxy_services_latest ipFamily es :
  ∃ st, srun (s_init ipFamily) (es ++ [SISync]) = Ret st ∧
    ∀ spn, ss_spm st !! spn = default ∅ (service_map (ss_latest st !! spn_nn spn)) !! spn.
Proof.
  assert (svc_inv (s_init ipFamily)) as Hi.
  { constructor; simpl; [done| |done]. intros nn _ spn _. by rewrite !lookup_empty. }
  revert Hi. generalize (s_init ipFamily). induction es as [|e es IH]; intros st Hi; simpl.
  - destruct (sync_inv _ Hi) as (st' & Hs & _ & Hl & Ha). simpl in Hs.
    exists st'. rewrite Hs. simpl. split; [done|]. intros spn. rewrite Hl. by apply Ha.
  - destruct (sstep_inv st e Hi) as (st' & -> & Hi'). simpl. by apply IH.
Qed.

(** ** Which endpoints are used *)
Lemma elem_of_filterEndpoints l p ep : ep ∈ filterEndpoints l p ↔ p ep = true ∧ ep ∈ l.
Proof. unfold filterEndpoints. by rewrite list_elem_of_filter. Qed.

Lemma scan_hints_spec l zone found :
  scan_hints l zone found = Some true ↔
  (∀ ep, ep ∈ l → bei_Ready ep = true → size (default ∅ (bei_ZoneHints ep)) ≠ 0%nat) ∧
  (found = true ∨ ∃ ep, ep ∈ l ∧ bei_Ready ep = true ∧ hasHint ep zone = true).
Proof.
  revert found. induction l as [|e l IH]; intros found; cbn [scan_hints].
  { split; [intros [= ->]; split; [by intros ? ?%elem_of_nil|by left]|]. by intros [_ [->|(? & ?%elem_of_nil & _)]]. }
  setoid_rewrite elem_of_cons. destruct (bei_Ready e) eqn:Er; cbn [negb].
  - destruct (Nat.eqb_spec (size (default ∅ (bei_ZoneHints e))) 0) as [Hz|Hz].
    + split; [done|]. intros [Ha _]. by destruct (Ha e (or_introl eq_refl) Er).
    + rewrite IH, orb_true_iff. split.
      * intros [Ha Hf]. split; [by intros ep [-> |?]; auto|]. destruct Hf as [[?|?]|(ep & ? & ?)]; [by left|right; exists e; auto|right; exists ep; auto].
      * intros [Ha Hf]. split; [by auto|]. destruct Hf as [?|(ep & [-> |?] & ? & ?)]; [auto|auto|right; exists ep; auto].
  - rewrite IH. split.
    + intros [Ha Hf]. split; [intros ep [-> |?]; [congruence|auto]|]. destruct Hf as [?|(ep & ? & ?)]; [auto|right; exists ep; auto].
    + intros [Ha Hf]. split; [auto|]. destruct Hf as [?|(ep & [-> |?] & ? & ?)]; [auto|congruence|right; exists ep; auto].
Qed.

(** When traffic is kept to the zone of the node: the feature and the annotation of
    the service ask for it, the node has a zone, every ready endpoint is hinted
    for some zone and one is hinted for this zone. *)
Definition topology_used (endpoints : list BaseEndpointInfo) (svc : BaseServicePortInfo) (labels : GoMap) : Prop :=
  let zone := mstr labels LabelTopologyZone in
  gate_TopologyAwareHints = true ∧ bsp_hintsAnnotation svc ∉ [EmptyString; "disabled"; "Disabled"] ∧ zone ≠ EmptyString ∧
  (∀ ep, ep ∈ endpoints → bei_Ready ep = true → size (default ∅ (bei_ZoneHints ep)) ≠ 0%nat) ∧
  (∃ ep, ep ∈ endpoints ∧ bei_Ready ep = true ∧ hasHint ep zone = true).

Lemma canUseTopology_iff l svc labels : canUseTopology l svc labels = true ↔ topology_used l svc labels.
Proof.
  unfold canUseTopology, topology_used. cbv zeta. rewrite !not_elem_of_cons.
  destruct gate_TopologyAwareHints; cbn [negb]; [|naive_solver].
  repeat (case_bool_decide; cbn [orb]); try naive_solver.
  pose proof (scan_hints_spec l (mstr labels LabelTopologyZone) false) as Hs.
  assert (∀ P Q : Prop, (P ∧ (false = true ∨ Q)) ↔ (P ∧ Q)) as Hf by naive_solver. rewrite Hf in Hs.
  split.
  - intros Hb. destruct (scan_hints _ _ _) as [[]|]; [|done..]. destruct Hs as [Hs _]. destruct (Hs eq_refl) as [? ?].
    split_and!; [done|done|done|done|apply not_elem_of_nil|done|done|done].
  - intros (_ & _ & _ & Ha & He). by rewrite (proj2 Hs (conj Ha He)).
Qed.

Lemma filterEndpoints_nil l p : (length (filterEndpoints l p) =? 0)%nat = true ↔ ¬ ∃ ep, ep ∈ l ∧ p ep = true.
Proof.
  rewrite Nat.eqb_eq, length_zero_iff_nil. split.
  - intros Hn (ep & Hin & Hp). apply (not_elem_of_nil ep). rewrite <- Hn. by apply elem_of_filterEndpoints.
  - intros Hn. apply elem_of_nil_inv. intros ep [? ?]%elem_of_filterEndpoints. by eauto.
Qed.

Lemma filter_nonempty l p ep : ep ∈ l → p ep = true → (length (filterEndpoints l p) =? 0)%nat = false.
Proof.
  intros Hin Hp. apply Nat.eqb_neq. intros Hl%length_zero_iff_nil.
  assert (ep ∈ filterEndpoints l p) as Hf by by apply elem_of_filterEndpoints. rewrite Hl in Hf. by apply elem_of_nil in Hf.
Qed.

Definition merge_map (l : list BaseEndpointInfo) (m : gmap string BaseEndpointInfo) : gmap string BaseEndpointInfo :=
  foldl (λ m ep, <[bei_Endpoint ep := ep]> m) m l.

(** Endpoints with the same string are the same endpoint. *)
Definition by_string (l : list BaseEndpointInfo) : Prop :=
  ∀ e f, e ∈ l → f ∈ l → bei_Endpoint e = bei_Endpoint f → e = f.

Lemma merge_map_lookup l m all ep :
  by_string all → l ⊆ all → (∀ n e, m !! n = Some e → e ∈ all ∧ bei_Endpoint e = n) →
  (merge_map l m !! bei_Endpoint ep = Some ep ↔ ep ∈ l ∨ m !! bei_Endpoint ep = Some ep) ∧
  (∀ n e, merge_map l m !! n = Some e → e ∈ all ∧ bei_Endpoint e = n).
Proof.
  intros Hby. revert m. induction l as [|x l IH]; intros m Hsub Hm; simpl; [set_solver|].
  assert (x ∈ all) as Hx by (apply Hsub; by left). assert (l ⊆ all) as Hl by set_solver.
  destruct (IH (<[bei_Endpoint x := x]> m) Hl) as [Hiff Hval].
  { intros n e [[<- <-]|[_ ?]]%lookup_insert_Some; [done|by apply Hm]. }
  split; [|done]. rewrite Hiff, elem_of_cons. split.
  - intros [?|[[_ ->]|[_ ?]]%lookup_insert_Some]; auto.
  - intros [[->|?]|Hep]; [right; apply lookup_insert_eq|by left|]. right.
    destruct (decide (bei_Endpoint x = bei_Endpoint ep)) as [He|He]; [|by rewrite lookup_insert_ne].
    destruct (Hm _ _ Hep) as [Ha _]. rewrite (Hby x ep Hx Ha He). apply lookup_insert_eq.
Qed.

Lemma merge_map_elem l all ep :
  by_string all → l ⊆ all → ep ∈ (go_range (merge_map l ∅)).*2 ↔ ep ∈ l.
Proof.
  intros Hby Hsub.
  destruct (merge_map_lookup l ∅ all ep Hby Hsub) as [Hiff Hval]; [intros n e; by rewrite lookup_empty|].
  rewrite list_elem_of_fmap. split.
  - intros ([n e] & -> & Hin%elem_of_go_range). simpl in *. destruct (Hval _ _ Hin) as [_ <-].
    apply Hiff in Hin as [?|Hn]; [done|by rewrite lookup_empty in Hn].
  - intros Hin. exists (bei_Endpoint ep, ep). split; [done|]. apply elem_of_go_range, Hiff. by left.
Qed.

(** *** The specification *)
Definition some_ready (l : list BaseEndpointInfo) : Prop := ∃ ep, ep ∈ l ∧ bei_Ready ep = true.
Definition some_local_ready (l : list BaseEndpointInfo) : Prop := ∃ ep, ep ∈ l ∧ bei_IsLocal ep = true ∧ bei_Ready ep = true.

(** Cluster-wide: the ready endpoints, those of this zone when topology is in use;
    with no ready endpoint at all, those that still serve while they terminate. *)
Definition cluster_spec (l : list BaseEndpointInfo) (svc : BaseServicePortInfo) (labels : GoMap) (ep : BaseEndpointInfo) : Prop :=
  UsesClusterEndpoints svc = true ∧ ep ∈ l ∧
  ((bei_Ready ep = true ∧ (topology_used l svc labels → availableForTopology ep labels = true)) ∨
   (¬ some_ready l ∧ serving_terminating ep = true)).
(** On this node: its ready endpoints; with none ready here, those that still serve
    while they terminate.  Hints play no part. *)
Definition local_spec (l : list BaseEndpointInfo) (svc : BaseServicePortInfo) (ep : BaseEndpointInfo) : Prop :=
  UsesLocalEndpoints svc = true ∧ ep ∈ l ∧ bei_IsLocal ep = true ∧
  (bei_Ready ep = true ∨ (¬ some_local_ready l ∧ serving_terminating ep = true)).

(** The two lists as the code computes them. *)
Definition cluster_list (l : list BaseEndpointInfo) (svc : BaseServicePortInfo) (labels : GoMap) : list BaseEndpointInfo :=
  let useTopology := UsesClusterEndpoints svc && canUseTopology l svc labels in
  if UsesClusterEndpoints svc then
    let c := filterEndpoints l (λ ep, bei_Ready ep && negb (useTopology && negb (availableForTopology ep labels))) in
    if (length c =? 0)%nat then filterEndpoints l serving_terminating else c
  else [].
Definition local_list (l : list BaseEndpointInfo) : list BaseEndpointInfo :=
  if existsb (λ ep, bei_Ready ep && bei_IsLocal ep) l then filterEndpoints l (λ ep, bei_IsLocal ep && bei_Ready ep)
  else if existsb (λ ep, negb (bei_Ready ep) && serving_terminating ep && bei_IsLocal ep) l
  then filterEndpoints l (λ ep, bei_IsLocal ep && bei_Serving ep && bei_Terminating ep) else [].

Lemma existsb_elem (f : BaseEndpointInfo → bool) l : existsb f l = true ↔ ∃ ep, ep ∈ l ∧ f ep = true.
Proof. rewrite existsb_exists. by setoid_rewrite list_elem_of_In. Qed.

Lemma cluster_list_some l svc labels :
  UsesClusterEndpoints svc = true → some_ready l → ∃ ep, ep ∈ cluster_list l svc labels ∧ bei_Ready ep = true.
Proof.
  intros Hu (e & He & Hr). unfold cluster_list. rewrite Hu. cbn [andb].
  set (sel := λ ep, bei_Ready ep && negb (canUseTopology l svc labels && negb (availableForTopology ep labels))).
  assert (∃ ep, ep ∈ l ∧ sel ep = true) as (ep & Hin & Hs).
  { unfold sel. destruct (canUseTopology l svc labels) eqn:Et; [|exists e; by rewrite Hr].
    apply canUseTopology_iff in Et as (_ & _ & _ & _ & ep & ? & Hr' & Ha). exists ep. unfold availableForTopology. by rewrite Hr', Ha. }
  exists ep. rewrite (filter_nonempty l sel ep) by done.
  split; [by apply elem_of_filterEndpoints|]. unfold sel in Hs. by apply andb_true_iff in Hs as [? _].
Qed.

Lemma cluster_list_spec l svc labels ep : ep ∈ cluster_list l svc labels ↔ cluster_spec l svc labels ep.
Proof.
  pose proof (cluster_list_some l svc labels) as Hsome. unfold cluster_list, cluster_spec in *.
  destruct (UsesClusterEndpoints svc); [|split; [by intros ?%elem_of_nil|naive_solver]]. cbn [andb] in *.
  rewrite <- canUseTopology_iff.
  destruct (length (filterEndpoints l _) =? 0)%nat eqn:En; rewrite elem_of_filterEndpoints.
  - assert (¬ some_ready l) as Hno.
    { intros Hr. destruct (Hsome eq_refl Hr) as (e & He & Hre). apply filterEndpoints_nil in En.
      apply elem_of_filterEndpoints in He as [Hse He]. destruct Hr as (e0 & He0 & Hr0).
      destruct (canUseTopology l svc labels) eqn:Et; [|apply En; exists e0; by rewrite Hr0].
      apply canUseTopology_iff in Et as (_ & _ & _ & _ & e1 & ? & Hr' & Ha). apply En. exists e1.
      unfold availableForTopology. by rewrite Hr', Ha. }
    split; [tauto|]. intros (_ & ? & [[Hr _]|[_ ?]]); [|done]. destruct Hno. by exists ep.
  - assert (some_ready l) as Hr.
    { apply not_true_iff_false in En. destruct (filterEndpoints l _) as [|e rest] eqn:Ef; [done|].
      assert (e ∈ filterEndpoints l (λ ep, bei_Ready ep && negb (canUseTopology l svc labels && negb (availableForTopology ep labels)))) as He by (rewrite Ef; left).
      apply elem_of_filterEndpoints in He as [[? _]%andb_true_iff ?]. by exists e. }
    rewrite andb_true_iff, negb_true_iff, andb_false_iff, negb_false_iff.
    destruct (canUseTopology l svc labels); naive_solver.
Qed.

Lemma local_list_spec l svc ep :
  UsesLocalEndpoints svc = true → ep ∈ local_list l ↔ local_spec l svc ep.
Proof.
  intros Hu. unfold local_list, local_spec. rewrite Hu.
  destruct (existsb (λ ep, bei_Ready ep && bei_IsLocal ep) l) eqn:Er.
  - apply existsb_elem in Er as (e & He & [Hre Hle]%andb_true_iff). rewrite elem_of_filterEndpoints, andb_true_iff.
    split; [tauto|]. intros (_ & ? & ? & [?|[Hn _]]); [done|]. destruct Hn. by exists e.
  - assert (∀ e, e ∈ l → bei_IsLocal e = true → bei_Ready e = false) as Hnr.
    { intros e He Hle. destruct (bei_Ready e) eqn:Hre; [|done]. apply not_true_iff_false in Er. destruct Er. apply existsb_elem.
      exists e. by rewrite Hre, Hle. }
    assert (¬ some_local_ready l) as Hno by (intros (e & He & Hle & Hre); by rewrite (Hnr e) in Hre).
    assert (∀ e, bei_IsLocal e && bei_Serving e && bei_Terminating e = true ↔ bei_IsLocal e = true ∧ serving_terminating e = true) as Hst.
    { intros e. unfold serving_terminating. rewrite !andb_true_iff. tauto. }
    destruct (existsb (λ ep, negb (bei_Ready ep) && serving_terminating ep && bei_IsLocal ep) l) eqn:Es.
    + rewrite elem_of_filterEndpoints, Hst. split; [tauto|]. intros (_ & ? & Hl & [Hr|[_ ?]]); [|done]. by rewrite (Hnr ep) in Hr.
    + split; [by intros ?%elem_of_nil|]. intros (_ & Hin & Hl & [Hr|[_ Hs]]); [by rewrite (Hnr ep) in Hr|].
      apply not_true_iff_false in Es. destruct Es. apply existsb_elem. exists ep. by rewrite (Hnr ep), Hs, Hl.
Qed.

(** Without a topology and with a ready local endpoint the local list is part of
    the cluster-wide one. *)
Lemma local_list_sub l svc labels ep :
  UsesClusterEndpoints svc = true → canUseTopology l svc labels = false →
  (existsb (λ ep, bei_Ready ep && bei_IsLocal ep) l = true ∨
   existsb (λ ep, negb (bei_Ready ep) && serving_terminating ep && bei_IsLocal ep) l = false) →
  ep ∈ local_list l → ep ∈ cluster_list l svc labels.
Proof.
  intros Hu Ht Hc. rewrite cluster_list_spec. unfold local_list, cluster_spec.
  destruct (existsb (λ ep, bei_Ready ep && bei_IsLocal ep) l).
  - rewrite elem_of_filterEndpoints. intros [[_ Hr]%andb_true_iff Hin]. split_and!; [done|done|]. left. split; [done|].
    intros Htop%canUseTopology_iff. congruence.
  - destruct Hc as [?|Hc]; [done|]. rewrite Hc. by intros ?%elem_of_nil.
Qed.

Definition usable_endpoint (ep : BaseEndpointInfo) : Prop := bei_Ready ep = true ∨ serving_terminating ep = true.

Lemma cluster_list_any l svc labels :
  (0 <? length (cluster_list l svc labels))%nat = true ↔ UsesClusterEndpoints svc = true ∧ ∃ ep, ep ∈ l ∧ usable_endpoint ep.
Proof.
  rewrite Nat.ltb_lt. split.
  - intros Hl. destruct (cluster_list l svc labels) as [|e rest] eqn:E; [simpl in Hl; lia|].
    assert (e ∈ cluster_list l svc labels) as He by (rewrite E; left).
    apply cluster_list_spec in He as (? & ? & He). split; [done|]. exists e. unfold usable_endpoint. tauto.
  - intros [Hu (ep & Hin & Hep)]. assert (∃ e, e ∈ cluster_list l svc labels) as [e He].
    { destruct (existsb bei_Ready l) eqn:Er.
      - apply existsb_elem in Er. destruct (cluster_list_some l svc labels Hu Er) as (e & He & _). by exists e.
      - assert (¬ some_ready l) as Hno by (intros Hr; apply existsb_elem in Hr; congruence).
        exists ep. apply cluster_list_spec. split_and!; [done|done|]. right. split; [done|].
        destruct Hep as [Hr|?]; [|done]. destruct Hno. by exists ep. }
    destruct (cluster_list l svc labels); [by apply elem_of_nil in He|simpl; lia].
Qed.

(** The result in terms of the two lists. *)
Lemma CategorizeEndpoints_lists l svc labels :
  let cat := CategorizeEndpoints l svc labels in
  cat_cluster cat = cluster_list l svc labels ∧
  cat_local cat = (if UsesLocalEndpoints svc then local_list l else []) ∧
  (cat_hasAny cat = true ↔ (UsesClusterEndpoints svc = true ∨ UsesLocalEndpoints svc = true) ∧ ∃ ep, ep ∈ l ∧ usable_endpoint ep).
Proof.
  pose proof (cluster_list_any l svc labels) as Hany. cbv zeta. unfold CategorizeEndpoints.
  fold (cluster_list l svc labels). fold (local_list l).
  destruct (UsesLocalEndpoints svc); cbn [negb].
  - assert (((0 <? length (cluster_list l svc labels))%nat || existsb (λ ep, bei_Ready ep || serving_terminating ep) l = true) ↔
      ∃ ep, ep ∈ l ∧ usable_endpoint ep) as Hh.
    { rewrite orb_true_iff, Hany, existsb_elem. unfold usable_endpoint. setoid_rewrite orb_true_iff. tauto. }
    repeat case_match; cbn [cat_cluster cat_local cat_hasAny]; (split_and!; [done|done|]); rewrite Hh; tauto.
  - cbn [cat_cluster cat_local cat_hasAny]. split_and!; [done|done|]. rewrite Hany. naive_solver.
Qed.

(** C21: the endpoints a node is told to use, under every policy.  The
    cluster-wide list holds exactly what [cluster_spec] says, the list of this node
    exactly what [local_spec] says; the list of all reachable endpoints is the
    union of the two; [hasAnyEndpoints] says that the service has an endpoint that is
    ready or still serves; and as long as any endpoint is ready, a service
    that uses cluster-wide endpoints gets a ready one: topology hints never leave it
    without endpoints. *)
Theorem CategorizeEndpoints_spec endpoints svc labels :
  by_string endpoints →
  let cat := CategorizeEndpoints endpoints svc labels in
  (∀ ep, ep ∈ cat_cluster cat ↔ cluster_spec endpoints svc labels ep) ∧
  (∀ ep, ep ∈ cat_local cat ↔ local_spec endpoints svc ep) ∧
  (∀ ep, ep ∈ cat_all cat ↔ ep ∈ cat_cluster cat ∨ ep ∈ cat_local cat) ∧
  (cat_hasAny cat = true ↔
   (UsesClusterEndpoints svc = true ∨ UsesLocalEndpoints svc = true) ∧ ∃ ep, ep ∈ endpoints ∧ usable_endpoint ep) ∧
  (UsesClusterEndpoints svc = true → (∃ ep, ep ∈ endpoints ∧ bei_Ready ep = true) →
   ∃ ep, ep ∈ cat_cluster cat ∧ bei_Ready ep = true).
Proof.
  intros Hby cat. destruct (CategorizeEndpoints_lists endpoints svc labels) as (Hc & Hl & Hh). fold cat in Hc, Hl, Hh.
  assert (∀ ep, ep ∈ cat_local cat ↔ local_spec endpoints svc ep) as Hlocal.
  { intros ep. rewrite Hl. destruct (UsesLocalEndpoints svc) eqn:Hu; [by apply local_list_spec|].
    unfold local_spec. rewrite Hu. split; [by intros ?%elem_of_nil|naive_solver]. }
  rewrite Hc in *. split; [intros ep; apply cluster_list_spec|]. split; [done|]. split; [|split; [done|apply cluster_list_some]].
  clear Hh. intros ep. rewrite Hl. unfold cat, CategorizeEndpoints.
  fold (cluster_list endpoints svc labels). fold (local_list endpoints).
  destruct (UsesLocalEndpoints svc) eqn:Hu; cbn [negb]; [|cbn [cat_all]; rewrite elem_of_nil; tauto].
  destruct (UsesClusterEndpoints svc) eqn:Huc; cbn [negb andb].
  - destruct (negb (canUseTopology endpoints svc labels) && _) eqn:Hb; cbn [cat_all].
    + apply andb_true_iff in Hb as [Ht%negb_true_iff Hs%negb_true_iff].
      split; [by left|]. intros [?|Hin]; [done|]. apply local_list_sub; [done|done| |done].
      apply andb_false_iff in Hs as [Hs%negb_false_iff|?]; auto.
    + change (foldl _ ∅ (cluster_list endpoints svc labels ++ local_list endpoints))
        with (merge_map (cluster_list endpoints svc labels ++ local_list endpoints) ∅).
      rewrite (merge_map_elem _ endpoints), elem_of_app; [done|done|].
      intros e [(_ & ? & _)%cluster_list_spec|(_ & ? & _)%(local_list_spec _ svc)]%elem_of_app; done.
  - cbn [cat_all]. unfold cluster_list. rewrite Huc, elem_of_nil. tauto.
Qed.

End services.

(** ** Witness *)
Definition demo_bei (addr : string) (ready serving terminating : bool) : BaseEndpointInfo :=
  mkBEI addr false None ready serving terminating EmptyString EmptyString.
Definition demo_bsp : BaseServicePortInfo :=
  mkBSP [10; 0; 0; 1] 80 "TCP" 0 [] EmptyString 0 [] [] 0 false false EmptyString.

Lemma CategorizeEndpoints_spec_witness :
  (∃ ep, ep ∈ cat_cluster (@CategorizeEndpoints list_runtime demo_proxylib
    [demo_bei "10.1.0.1:80" true true false; demo_bei "10.1.0.2:80" false true true] demo_bsp None) ∧ bei_Ready ep = true) ∧
  demo_bei "10.1.0.2:80" false true true ∉ cat_all (@CategorizeEndpoints list_runtime demo_proxylib
    [demo_bei "10.1.0.1:80" true true false; demo_bei "10.1.0.2:80" false true true] demo_bsp None).
Proof.
  pose proof (@CategorizeEndpoints_spec list_runtime demo_proxylib
    [demo_bei "10.1.0.1:80" true true false; demo_bei "10.1.0.2:80" false true true] demo_bsp None) as Hs.
  destruct Hs as (Hc & Hl & Ha & _ & Hs).
  - intros e f He Hf. rewrite !elem_of_cons, elem_of_nil in He, Hf.
    destruct He as [->|[->|[]]], Hf as [->|[->|[]]]; (reflexivity || discriminate).
  - split; [apply Hs; [reflexivity|]; exists (demo_bei "10.1.0.1:80" true true false); split; [left|reflexivity]|].
    rewrite Ha, Hc, Hl. intros [(_ & _ & [[Hr _]|[Hr _]])|[Hr _]]; [discriminate Hr| |discriminate Hr].
    apply Hr. exists (demo_bei "10.1.0.1:80" true true false). split; [left|reflexivity].
Defined.
