(* ===== verification/HostPort.v ===== *)
(** * Host and port strings

    [net.SplitHostPort], the inverse of [net.JoinHostPort], and [strconv.Atoi],
    the inverse of [strconv.Itoa], as the proxier and the tunnel code use
    them. *)
From Stdlib Require Import Ascii.
From stdpp Require Import prelude strings list pretty.
From S2P Require Import Prelude NetAddr K8s ProxyEndpoints.
Open Scope Z_scope.

(** ** Splitting at the first and at the last occurrence of a character *)
Fixpoint split_first (c : ascii) (s : string) : option (string * string) :=
  match s with
  | EmptyString => None
  | String x s' => if bool_decide (c = x) then Some (EmptyString, s')
                   else prod_map (String x) id <$> split_first c s'
  end.
Fixpoint split_last (c : ascii) (s : string) : option (string * string) :=
  match s with
  | EmptyString => None
  | String x s' => match split_last c s' with
                   | Some (a, b) => Some (String x a, b)
                   | None => if bool_decide (c = x) then Some (EmptyString, s') else None
                   end
  end.

(** ** [net.SplitHostPort] *)
Definition missingPort : string := "missing port in address".
Definition tooManyColons : string := "too many colons in address".

(** The host, and the parts of the string after it in which a bracket is an
    error. *)
Definition split_host (hostport beforePort : string) : outcome (string * string * string) :=
  match hostport with
  | String "[" rest =>
      match split_first "]" rest with
      | None => Err "missing ']' in address"
      | Some (host, behind) =>
          if bool_decide (behind = EmptyString) then Err missingPort
          else if bool_decide (beforePort = "[" +:+ host +:+ "]") then Ret (host, rest, behind)
          else match behind with String ":" _ => Err tooManyColons | _ => Err missingPort end
      end
  | _ => if has_char ":" beforePort then Err tooManyColons else Ret (beforePort, hostport, hostport)
  end.

Definition SplitHostPort (hostport : string) : outcome (string * string) :=
  match split_last ":" hostport with
  | None => Err missingPort
  | Some (beforePort, port) =>
      '(host, noOpen, noClose) ← split_host hostport beforePort;
      if has_char "[" noOpen then Err "unexpected '[' in address"
      else if has_char "]" noClose then Err "unexpected ']' in address"
      else Ret (host, port)
  end.

(** ** [strconv.Atoi] on a 64-bit platform *)
Fixpoint digits_val (acc : Z) (s : string) : option Z :=
  match s with
  | EmptyString => Some acc
  | String c s' => if is_digit c then digits_val (acc * 10 + digit_val c) s' else None
  end.

Definition Atoi (s : string) : outcome Z :=
  let '(neg, body) := match s with
                      | String "-" r => (true, r)
                      | String "+" r => (false, r)
                      | _ => (false, s)
                      end in
  match body with
  | EmptyString => Err "invalid syntax"
  | _ => match digits_val 0 body with
         | None => Err "invalid syntax"
         | Some v => let z := if (neg : bool) then - v else v in
                     if (- 2 ^ 63 <=? z) && (z <? 2 ^ 63) then Ret z else Err "value out of range"
         end
  end.

(** ** Decimal numbers *)
Lemma digit_char (x : N) : (x < 10)%N → is_digit (pretty_N_char x) = true ∧ digit_val (pretty_N_char x) = Z.of_N x.
Proof.
  intros Hx. assert (Hall : Forall (λ n, is_digit (pretty_N_char (N.of_nat n)) = true
    ∧ digit_val (pretty_N_char (N.of_nat n)) = Z.of_nat n) (seq 0 10)) by (repeat constructor).
  rewrite Forall_forall in Hall. specialize (Hall (N.to_nat x)). rewrite N2Nat.id in Hall.
  rewrite <- (N2Nat.id x) at 3. rewrite nat_N_Z. apply Hall, elem_of_seq. lia.
Qed.

Lemma pretty_N_go_digits (x : N) : ∀ s acc,
  digits_val acc (pretty_N_go x s) = digits_val (acc * 10 ^ Z.of_nat (String.length (pretty_N_go x s) - String.length s) + Z.of_N x) s ∧
  (String.length s ≤ String.length (pretty_N_go x s))%nat.
Proof.
  induction (N.lt_wf_0 x) as [x _ IH]. intros s acc. destruct (decide (x = 0%N)) as [->|Hx].
  { rewrite pretty_N_go_0. split; [|lia]. f_equal. rewrite Nat.sub_diag. cbn. lia. }
  rewrite pretty_N_go_step by lia.
  edestruct (IH (x `div` 10)%N ltac:(apply N.div_lt; lia) (String (pretty_N_char (x `mod` 10)) s) acc) as [E L].
  simpl in L. split; [|lia]. rewrite E. cbn [digits_val].
  destruct (digit_char (x `mod` 10)%N) as [-> ->]; [apply N.mod_lt; lia|]. f_equal.
  set (l := String.length (pretty_N_go _ _)) in *. cbn [String.length].
  replace (Z.of_nat (l - String.length s)) with (Z.succ (Z.of_nat (l - S (String.length s)))) by lia.
  rewrite Z.pow_succ_r by lia. pose proof (N.div_mod x 10 ltac:(lia)). nia.
Qed.

Lemma pretty_N_go_char c (x : N) : is_digit c = false → ∀ s, has_char c (pretty_N_go x s) = has_char c s.
Proof.
  intros Hc. induction (N.lt_wf_0 x) as [x _ IH]. intros s. destruct (decide (x = 0%N)) as [->|Hx]; [done|].
  rewrite pretty_N_go_step by lia. rewrite IH by (apply N.div_lt; lia). cbn [has_char].
  rewrite bool_decide_eq_false_2; [done|]. intros ->.
  destruct (digit_char (x `mod` 10)%N); [apply N.mod_lt; lia|congruence].
Qed.

Lemma pretty_N_pos (p : positive) : pretty p = pretty_N_go (N.pos p) EmptyString.
Proof. done. Qed.

(** The characters of a decimal number. *)
Lemma Itoa_char c z : is_digit c = false → c ≠ "-"%char → has_char c (Itoa z) = false.
Proof.
  intros Hc Hm. destruct z as [|p|p]; unfold Itoa, pretty, pretty_Z.
  - cbn. rewrite bool_decide_eq_false_2; [done|]. by intros ->.
  - rewrite pretty_N_pos, pretty_N_go_char by done. done.
  - rewrite pretty_N_pos, has_char_app, pretty_N_go_char by done. cbn. by rewrite bool_decide_eq_false_2.
Qed.

Lemma digits_pos (p : positive) : digits_val 0 (pretty p) = Some (Z.pos p) ∧ pretty p ≠ EmptyString.
Proof.
  rewrite pretty_N_pos. destruct (pretty_N_go_digits (N.pos p) EmptyString 0) as [E _].
  rewrite E. split; [done|]. intros F. rewrite F in E. done.
Qed.

Lemma Atoi_body b : b ≠ EmptyString → has_char "-" b = false → has_char "+" b = false →
  Atoi b = match digits_val 0 b with
           | None => Err "invalid syntax"
           | Some z => if (- 2 ^ 63 <=? z) && (z <? 2 ^ 63) then Ret z else Err "value out of range"
           end.
Proof.
  destruct b as [|x b]; [done|]. intros _. cbn [has_char]. rewrite !orb_false_iff, !bool_decide_eq_false.
  intros [Hm _] [Hp _]. unfold Atoi. destruct x as [[] [] [] [] [] [] [] []]; done.
Qed.

Lemma Atoi_Itoa z : - 2 ^ 63 ≤ z < 2 ^ 63 → Atoi (Itoa z) = Ret z.
Proof.
  intros Hz. destruct z as [|p|p]; [done|..]; unfold Itoa, pretty, pretty_Z;
    destruct (digits_pos p) as [Hd Hne].
  - rewrite Atoi_body, Hd; [|done|by rewrite pretty_N_pos, pretty_N_go_char..].
    destruct (Z.leb_spec (- 2 ^ 63) (Z.pos p)); [|lia]. by destruct (Z.ltb_spec (Z.pos p) (2 ^ 63)); [|lia].
  - change ("-" +:+ pretty p) with (String "-" (pretty p)). unfold Atoi. cbn [fst snd].
    destruct (pretty p) as [|x b] eqn:E; [done|]. rewrite Hd. cbn [negb].
    destruct (Z.leb_spec (- 2 ^ 63) (- Z.pos p)); [|lia]. by destruct (Z.ltb_spec (- Z.pos p) (2 ^ 63)); [|lia].
Qed.

(** ** Round trip *)
Lemma split_last_app c a b : has_char c b = false → split_last c (a +:+ String c b) = Some (a, b).
Proof.
  intros Hb. assert (Hn : split_last c b = None).
  { induction b as [|x b IH]; [done|]. cbn in *. rewrite orb_false_iff, bool_decide_eq_false in Hb.
    destruct Hb as [? ?]. rewrite IH by done. by rewrite bool_decide_eq_false_2. }
  induction a as [|x a IH].
  - change (EmptyString +:+ String c b) with (String c b). cbn [split_last]. rewrite Hn.
    by rewrite bool_decide_eq_true_2.
  - rewrite string_app_cons. cbn [split_last]. by rewrite IH.
Qed.

Lemma split_first_app c a b : has_char c a = false → split_first c (a +:+ String c b) = Some (a, b).
Proof.
  induction a as [|x a IH]; intros Ha.
  - change (EmptyString +:+ String c b) with (String c b). cbn [split_first]. by rewrite bool_decide_eq_true_2.
  - rewrite string_app_cons. cbn [split_first has_char] in *. rewrite orb_false_iff, bool_decide_eq_false in Ha.
    destruct Ha as [? ?]. rewrite bool_decide_eq_false_2 by done. by rewrite IH.
Qed.

(** What [net.JoinHostPort] builds from a host without brackets and a
    number, [net.SplitHostPort] and [strconv.Atoi] take apart again: the
    proxier recovers the address and the port of every endpoint from its
    string. *)
Lemma SplitHostPort_JoinHostPort host port :
  has_char "[" host = false → has_char "]" host = false →
  SplitHostPort (JoinHostPort host (Itoa port)) = Ret (host, Itoa port).
Proof.
  intros Ho Hc. assert (Hp : ∀ c, c ∈ [":"; "["; "]"]%char → has_char c (Itoa port) = false).
  { intros c Hcs. apply Itoa_char; repeat (apply elem_of_cons in Hcs as [->|Hcs]; [done|]); by apply elem_of_nil in Hcs. }
  unfold JoinHostPort. destruct (has_char ":" host || has_char "%" host) eqn:Hbr.
  - unfold SplitHostPort. change ("[" +:+ host +:+ "]:" +:+ Itoa port) with (String "[" (host +:+ "]:" +:+ Itoa port)).
    replace (String "[" (host +:+ "]:" +:+ Itoa port)) with ((String "[" (host +:+ "]")) +:+ String ":" (Itoa port))
      by (rewrite string_app_cons; f_equal; by rewrite <- string_app_assoc).
    rewrite split_last_app by (apply Hp; set_solver). rewrite string_app_cons, <- string_app_assoc.
    cbn [split_host]. change ("]" +:+ String ":" (Itoa port)) with (String "]" (String ":" (Itoa port))).
    rewrite split_first_app by done. rewrite bool_decide_eq_false_2 by done.
    rewrite bool_decide_eq_true_2 by done. cbn.
    rewrite has_char_app, Ho. cbn. rewrite !Hp by set_solver. cbn. done.
  - apply orb_false_iff in Hbr as [Hcol _]. unfold SplitHostPort.
    change (":" +:+ Itoa port) with (String ":" (Itoa port)).
    rewrite split_last_app by (apply Hp; set_solver). unfold split_host.
    assert (E : has_char "[" (host +:+ String ":" (Itoa port)) = false ∧ has_char "]" (host +:+ String ":" (Itoa port)) = false).
    { rewrite !has_char_app, Ho, Hc. cbn. rewrite !Hp by set_solver. done. }
    destruct E as [E1 E2]. destruct (host +:+ String ":" (Itoa port)) as [|x r] eqn:Es; [by destruct host|].
    rewrite Hcol. assert (Hx : x ≠ "["%char) by (intros ->; cbn [has_char] in E1; by rewrite bool_decide_eq_true_2 in E1).
    destruct x as [[] [] [] [] [] [] [] []]; try done; cbn [mbind outcome_bind]; rewrite E1, E2; reflexivity.
Qed.
