(* ===== verification/Kernel.v ===== *)
(** * The node's kernel, as the IPVS proxier sees it

    [utilipvs], [utilipset] and the netlink handle of [pkg/proxy/ipvs/netlink.go]
    are interfaces of the proxier.  Their operations are classes over a world
    [W]; [KernelView] is what the world shows of the virtual servers, their real
    servers, the addresses of the dummy device and the IP sets.  [KernelLaws]
    says what a call that succeeds does and that a call that fails changes
    nothing; [ReliableKernel] adds that a call whose precondition holds
    succeeds.  [demo_kernel] is a world with both. *)
From Stdlib Require Import Ascii.
From stdpp Require Import prelude gmap strings list.
From S2P Require Import Prelude NetAddr K8s ProxyEndpoints HostPort.
Open Scope Z_scope.

(** ** Types of [utilipvs] and [utilipset] *)
Record VirtualServer := mkVS {
  vs_Address : IP; vs_Protocol : string; vs_Port : Z; vs_Scheduler : string; vs_Flags : Z; vs_Timeout : Z }.
Record RealServer := mkRS {
  rs_Address : IP; rs_Port : Z; rs_Weight : Z; rs_ActiveConn : Z; rs_InactiveConn : Z }.
#[export] Instance VirtualServer_eq_dec : EqDecision VirtualServer.
Proof. solve_decision. Defined.
#[export] Instance RealServer_eq_dec : EqDecision RealServer.
Proof. solve_decision. Defined.

Definition set_Weight (z : Z) (rs : RealServer) : RealServer :=
  mkRS (rs_Address rs) (rs_Port rs) z (rs_ActiveConn rs) (rs_InactiveConn rs).

(** [utilipset.IPSet] and [utilipset.Entry] *)
Record UtilIPSet := mkUIPSet { uset_Name : string; uset_SetType : string; uset_HashFamily : string; uset_Comment : string }.
Record IPSetEntry := mkEntry {
  entry_IP : string; entry_Port : Z; entry_Protocol : string; entry_IP2 : string; entry_SetType : string }.

(** Functions of these packages that do not touch the kernel. *)
Class IpvsLib := {
  VS_String : VirtualServer → string;
  RS_String : RealServer → string;
  VS_Equal : VirtualServer → VirtualServer → bool;
  RS_Equal : RealServer → RealServer → bool;
  IsRsGracefulTerminationNeeded : string → bool;
  FlagPersistent : Z;
  FlagSourceHash : Z;
  Entry_String : IPSetEntry → string;
  Entry_Validate : IPSetEntry → UtilIPSet → bool;
  HashIPPort : string; HashIPPortIP : string; HashIPPortNet : string; BitmapPort : string; HashIP : string;
  ProtocolFamilyIPV4 : string; ProtocolFamilyIPV6 : string
}.

(** A real server is named by its address and port, a virtual server by its
    address, port and protocol; [Equal] on real servers compares just that. *)
Class IpvsNames `{IpvsLib} := {
  RS_Equal_String : ∀ a b, RS_Equal a b = true ↔ RS_String a = RS_String b;
  RS_String_id : ∀ a b, rs_Address a = rs_Address b → rs_Port a = rs_Port b → RS_String a = RS_String b;
  VS_Equal_String : ∀ a b, VS_Equal a b = true → VS_String a = VS_String b;
  RS_String_no_slash : ∀ r, has_char "/"%char (RS_String r) = false
}.

(** ** Operations *)
(** [NetLinkHandle] of [netlink.go]: the operations on the dummy device that the proxier
    calls.  [NetLink] implements them. *)
Class NetLinkHandle (W : Type) := {
  EnsureDummyDevice : W → string → W * option string;
  GetLocalAddresses : W → string → gset string + string;
  EnsureAddressBind : W → string → string → W * option string;
  UnbindAddress : W → string → string → W * option string
}.

Class KernelOps (W : Type) := {
  kernel_netlink :: NetLinkHandle W;
  GetVirtualServer : W → VirtualServer → option VirtualServer + string;
  GetVirtualServers : W → list VirtualServer + string;
  AddVirtualServer : W → VirtualServer → W * option string;
  UpdateVirtualServer : W → VirtualServer → W * option string;
  DeleteVirtualServer : W → VirtualServer → W * option string;
  GetRealServers : W → VirtualServer → list RealServer + string;
  AddRealServer : W → VirtualServer → RealServer → W * option string;
  UpdateRealServer : W → VirtualServer → RealServer → W * option string;
  DeleteRealServer : W → VirtualServer → RealServer → W * option string;
  CreateSet : W → UtilIPSet → bool → W * option string;
  ListEntries : W → string → list string + string;
  AddEntry : W → string → UtilIPSet → bool → W * option string;
  DelEntry : W → string → string → W * option string
}.

(** ** What the world shows *)
Record KernelView := mkKV {
  kv_servers : gmap string VirtualServer;
  kv_reals : gmap string (gmap string RealServer);
  kv_bound : gset string;
  kv_sets : gmap string (gset string) }.

Definition reals_of (k : KernelView) (v : string) : gmap string RealServer := default ∅ (kv_reals k !! v).
Definition entries_of (k : KernelView) (n : string) : gset string := default ∅ (kv_sets k !! n).
Definition with_servers (f : gmap string VirtualServer → gmap string VirtualServer) (k : KernelView) : KernelView :=
  mkKV (f (kv_servers k)) (kv_reals k) (kv_bound k) (kv_sets k).
Definition with_reals (v : string) (f : gmap string RealServer → gmap string RealServer) (k : KernelView) : KernelView :=
  mkKV (kv_servers k) (<[v := f (reals_of k v)]> (kv_reals k)) (kv_bound k) (kv_sets k).
Definition drop_reals (v : string) (k : KernelView) : KernelView :=
  mkKV (kv_servers k) (delete v (kv_reals k)) (kv_bound k) (kv_sets k).
Definition with_bound (f : gset string → gset string) (k : KernelView) : KernelView :=
  mkKV (kv_servers k) (kv_reals k) (f (kv_bound k)) (kv_sets k).
Definition with_entries (n : string) (f : gset string → gset string) (k : KernelView) : KernelView :=
  mkKV (kv_servers k) (kv_reals k) (kv_bound k) (<[n := f (entries_of k n)]> (kv_sets k)).

(** What a call that changes the world to [w'] and reports [e] does: [f] when
    there is no error, nothing otherwise. *)
Definition effect {W} (view : W → KernelView) (w : W) (r : W * option string) (f : KernelView → KernelView) : Prop :=
  view (fst r) = match snd r with None => f (view w) | Some _ => view w end.

Definition defaultDummyDevice : string := "flee-ipvs0".

(** What the handle promises: the addresses it can bind are in the form in which it
    lists them; binding and unbinding change the addresses of the dummy
    device and nothing else. *)
Class NetLinkLaws (W : Type) `{NetLinkHandle W} (view : W → KernelView) (bindable : string → Prop) : Prop := {
  bound_bindable : ∀ w a, a ∈ kv_bound (view w) → bindable a;
  EnsureDummyDevice_ok : ∀ w, effect view w (EnsureDummyDevice w defaultDummyDevice) id;
  GetLocalAddresses_ok : ∀ w s, GetLocalAddresses w defaultDummyDevice = inl s → s = kv_bound (view w);
  EnsureAddressBind_ok : ∀ w a, bindable a → effect view w (EnsureAddressBind w a defaultDummyDevice) (with_bound (union {[a]}));
  UnbindAddress_ok : ∀ w a, bindable a → effect view w (UnbindAddress w a defaultDummyDevice) (with_bound (λ s, s ∖ {[a]}))
}.

Class KernelLaws (W : Type) `{IpvsLib} `{KernelOps W} := {
  kview : W → KernelView;
  bindable : string → Prop;
  kernel_netlink_laws :: NetLinkLaws W kview bindable;
  servers_named : ∀ w n vs, kv_servers (kview w) !! n = Some vs → VS_String vs = n;
  reals_named : ∀ w v n rs, reals_of (kview w) v !! n = Some rs → RS_String rs = n;
  GetVirtualServer_ok : ∀ w vs r, GetVirtualServer w vs = inl r → r = kv_servers (kview w) !! VS_String vs;
  GetVirtualServers_ok : ∀ w l, GetVirtualServers w = inl l → l ≡ₚ (map_to_list (kv_servers (kview w))).*2;
  AddVirtualServer_ok : ∀ w vs, effect kview w (AddVirtualServer w vs)
    (λ k, drop_reals (VS_String vs) (with_servers <[VS_String vs := vs]> k));
  UpdateVirtualServer_ok : ∀ w vs, effect kview w (UpdateVirtualServer w vs) (with_servers <[VS_String vs := vs]>);
  DeleteVirtualServer_ok : ∀ w vs, effect kview w (DeleteVirtualServer w vs)
    (λ k, drop_reals (VS_String vs) (with_servers (delete (VS_String vs)) k));
  GetRealServers_ok : ∀ w vs l, GetRealServers w vs = inl l → l ≡ₚ (map_to_list (reals_of (kview w) (VS_String vs))).*2;
  AddRealServer_ok : ∀ w vs rs, effect kview w (AddRealServer w vs rs)
    (with_reals (VS_String vs) <[RS_String rs := rs]>);
  UpdateRealServer_ok : ∀ w vs rs, effect kview w (UpdateRealServer w vs rs)
    (with_reals (VS_String vs) (alter (set_Weight (rs_Weight rs)) (RS_String rs)));
  DeleteRealServer_ok : ∀ w vs rs, effect kview w (DeleteRealServer w vs rs)
    (with_reals (VS_String vs) (delete (RS_String rs)));
  CreateSet_ok : ∀ w s b, effect kview w (CreateSet w s b) (with_entries (uset_Name s) id);
  ListEntries_ok : ∀ w n l, ListEntries w n = inl l → list_to_set l = entries_of (kview w) n;
  AddEntry_ok : ∀ w x s b, effect kview w (AddEntry w x s b) (with_entries (uset_Name s) (union {[x]}));
  DelEntry_ok : ∀ w x n, effect kview w (DelEntry w x n) (with_entries n (λ s, s ∖ {[x]}))
}.

(** Calls succeed when their precondition holds. *)
Class ReliableKernel (W : Type) `{KernelLaws W} := {
  GetVirtualServer_live : ∀ w vs a, kv_servers (kview w) !! VS_String vs = Some a → GetVirtualServer w vs = inl (Some a);
  GetVirtualServers_live : ∀ w, ∃ l, GetVirtualServers w = inl l;
  AddVirtualServer_live : ∀ w vs, kv_servers (kview w) !! VS_String vs = None → snd (AddVirtualServer w vs) = None;
  UpdateVirtualServer_live : ∀ w vs, is_Some (kv_servers (kview w) !! VS_String vs) → snd (UpdateVirtualServer w vs) = None;
  DeleteVirtualServer_live : ∀ w vs, is_Some (kv_servers (kview w) !! VS_String vs) → snd (DeleteVirtualServer w vs) = None;
  GetRealServers_live : ∀ w vs, is_Some (kv_servers (kview w) !! VS_String vs) → ∃ l, GetRealServers w vs = inl l;
  AddRealServer_live : ∀ w vs rs, is_Some (kv_servers (kview w) !! VS_String vs) →
    reals_of (kview w) (VS_String vs) !! RS_String rs = None → snd (AddRealServer w vs rs) = None;
  UpdateRealServer_live : ∀ w vs rs, is_Some (kv_servers (kview w) !! VS_String vs) →
    is_Some (reals_of (kview w) (VS_String vs) !! RS_String rs) → snd (UpdateRealServer w vs rs) = None;
  DeleteRealServer_live : ∀ w vs rs, is_Some (kv_servers (kview w) !! VS_String vs) →
    is_Some (reals_of (kview w) (VS_String vs) !! RS_String rs) → snd (DeleteRealServer w vs rs) = None;
  EnsureDummyDevice_live : ∀ w, snd (EnsureDummyDevice w defaultDummyDevice) = None;
  GetLocalAddresses_live : ∀ w, ∃ s, GetLocalAddresses w defaultDummyDevice = inl s;
  EnsureAddressBind_live : ∀ w a, bindable a → snd (EnsureAddressBind w a defaultDummyDevice) = None;
  UnbindAddress_live : ∀ w a, a ∈ kv_bound (kview w) → snd (UnbindAddress w a defaultDummyDevice) = None;
  CreateSet_live : ∀ w s, snd (CreateSet w s true) = None;
  ListEntries_live : ∀ w n, is_Some (kv_sets (kview w) !! n) → ∃ l, ListEntries w n = inl l;
  AddEntry_live : ∀ w x s, is_Some (kv_sets (kview w) !! uset_Name s) → snd (AddEntry w x s true) = None;
  DelEntry_live : ∀ w x n, x ∈ entries_of (kview w) n → snd (DelEntry w x n) = None
}.

(** ** Lemmas on views *)
Lemma reals_of_with v f k v' :
  reals_of (with_reals v f k) v' = if decide (v = v') then f (reals_of k v) else reals_of k v'.
Proof.
  unfold reals_of at 1. cbn. case_decide; subst; [by rewrite lookup_insert_eq|by rewrite lookup_insert_ne].
Qed.

Lemma entries_of_with n f k n' :
  entries_of (with_entries n f k) n' = if decide (n = n') then f (entries_of k n) else entries_of k n'.
Proof.
  unfold entries_of at 1. cbn. case_decide; subst; [by rewrite lookup_insert_eq|by rewrite lookup_insert_ne].
Qed.

Lemma reals_of_drop v k v' : reals_of (drop_reals v k) v' = if decide (v = v') then ∅ else reals_of k v'.
Proof.
  unfold reals_of. cbn. case_decide; subst; [by rewrite lookup_delete_eq|by rewrite lookup_delete_ne].
Qed.

(** ** A concrete kernel, for examples *)
Definition demo_addr (ip : IP) (port : Z) : string := JoinHostPort (string4 (To4 ip)) (Itoa port).

Definition demo_ipvslib : IpvsLib := {|
  VS_String := λ v, demo_addr (vs_Address v) (vs_Port v) +:+ "/" +:+ vs_Protocol v;
  RS_String := λ r, demo_addr (rs_Address r) (rs_Port r);
  VS_Equal := λ a b, bool_decide (a = b);
  RS_Equal := λ a b, bool_decide (demo_addr (rs_Address a) (rs_Port a) = demo_addr (rs_Address b) (rs_Port b));
  IsRsGracefulTerminationNeeded := λ p, negb (bool_decide (p = "UDP")) && negb (bool_decide (p = "SCTP"));
  FlagPersistent := 1; FlagSourceHash := 16;
  Entry_String := λ e, entry_IP e +:+ "," +:+ entry_Protocol e +:+ ":" +:+ Itoa (entry_Port e);
  Entry_Validate := λ e s, bool_decide (entry_SetType e = uset_SetType s) && (0 <? entry_Port e);
  HashIPPort := "hash:ip,port"; HashIPPortIP := "hash:ip,port,ip"; HashIPPortNet := "hash:ip,port,net";
  BitmapPort := "bitmap:port"; HashIP := "hash:ip"; ProtocolFamilyIPV4 := "inet"; ProtocolFamilyIPV6 := "inet6"
|}.

Lemma demo_addr_no_slash ip port : has_char "/" (demo_addr ip port) = false.
Proof.
  assert (Hi : has_char "/" (string4 (To4 ip)) = false).
  { unfold string4. induction (To4 ip) as [|x [|y l] IH]; [done|by apply Itoa_char|].
    change (join "." (Itoa <$> x :: y :: l)) with (Itoa x +:+ "." +:+ join "." (Itoa <$> y :: l)).
    rewrite !has_char_app, IH, Itoa_char by done. done. }
  unfold demo_addr, JoinHostPort. case_match; rewrite !has_char_app, Hi, Itoa_char by done; done.
Qed.

Lemma demo_ipvsnames : @IpvsNames demo_ipvslib.
Proof.
  split; simpl.
  - intros a b. by rewrite bool_decide_eq_true.
  - by intros a b -> ->.
  - intros a b E%bool_decide_eq_true. by subst.
  - intros r. apply demo_addr_no_slash.
Qed.

(** The world is its own view, with every server filed under its name. *)
Definition named_view (k : KernelView) : Prop :=
  map_Forall (λ n vs, @VS_String demo_ipvslib vs = n) (kv_servers k) ∧
  map_Forall (λ _ m, map_Forall (λ n rs, @RS_String demo_ipvslib rs = n) m) (kv_reals k).
Definition demo_kworld : Type := { k : KernelView | named_view k }.

Definition demo_upd (f : KernelView → KernelView) (Hf : ∀ k, named_view k → named_view (f k)) (w : demo_kworld) : demo_kworld :=
  exist _ (f (`w)) (Hf _ (proj2_sig w)).

Section demo_steps.
Local Existing Instance demo_ipvslib.

Lemma named_servers vs k : named_view k → named_view (with_servers <[VS_String vs := vs]> k).
Proof. intros [H1 H2]. split; [|done]. by apply map_Forall_insert_2. Qed.

Lemma named_servers_delete n k : named_view k → named_view (with_servers (delete n) k).
Proof. intros [H1 H2]. split; [|done]. by apply map_Forall_delete. Qed.

Lemma named_drop v k : named_view k → named_view (drop_reals v k).
Proof. intros [H1 H2]. split; [done|]. by apply map_Forall_delete. Qed.

Lemma named_reals v f k :
  (∀ m, map_Forall (λ n rs, RS_String rs = n) m → map_Forall (λ n rs, RS_String rs = n) (f m)) →
  named_view k → named_view (with_reals v f k).
Proof.
  intros Hf [H1 H2]. split; [done|]. apply map_Forall_insert_2; [|done]. apply Hf.
  unfold reals_of. destruct (kv_reals k !! v) as [m|] eqn:E; [by eapply H2|]. apply map_Forall_empty.
Qed.

Lemma named_alter z n (m : gmap string RealServer) :
  map_Forall (λ n rs, RS_String rs = n) m → map_Forall (λ n rs, RS_String rs = n) (alter (set_Weight z) n m).
Proof.
  intros Hm i rs. rewrite lookup_alter_Some. intros [(<- & y & Hy & ->)|[_ Hi]]; [|by eapply Hm].
  rewrite <- (Hm _ _ Hy). done.
Qed.
End demo_steps.

(** A call with a precondition: an error when it does not hold. *)
Definition demo_call (ok : bool) (w w' : demo_kworld) : demo_kworld * option string :=
  if ok then (w', None) else (w, Some "failed").

Program Definition demo_netlink : NetLinkHandle demo_kworld := {|
  EnsureDummyDevice := λ w _, (w, None);
  GetLocalAddresses := λ w _, inl (kv_bound (`w));
  EnsureAddressBind := λ w a _, (demo_upd (with_bound (union {[a]})) _ w, None);
  UnbindAddress := λ w a _, demo_call (bool_decide (a ∈ kv_bound (`w))) w (demo_upd (with_bound (λ s, s ∖ {[a]})) _ w)
|}.
Next Obligation. done. Qed.
Next Obligation. done. Qed.

Program Definition demo_kernel : KernelOps demo_kworld :=
  let L := demo_ipvslib in {|
  kernel_netlink := demo_netlink;
  GetVirtualServer := λ w vs, match kv_servers (`w) !! VS_String vs with Some a => inl (Some a) | None => inr "not found" end;
  GetVirtualServers := λ w, inl (map_to_list (kv_servers (`w))).*2;
  AddVirtualServer := λ w vs, demo_call (bool_decide (kv_servers (`w) !! VS_String vs = None)) w
    (demo_upd (λ k, drop_reals (VS_String vs) (with_servers <[VS_String vs := vs]> k)) _ w);
  UpdateVirtualServer := λ w vs, demo_call (bool_decide (is_Some (kv_servers (`w) !! VS_String vs))) w
    (demo_upd (with_servers <[VS_String vs := vs]>) (named_servers vs) w);
  DeleteVirtualServer := λ w vs, demo_call (bool_decide (is_Some (kv_servers (`w) !! VS_String vs))) w
    (demo_upd (λ k, drop_reals (VS_String vs) (with_servers (delete (VS_String vs)) k)) _ w);
  GetRealServers := λ w vs, inl (map_to_list (reals_of (`w) (VS_String vs))).*2;
  AddRealServer := λ w vs rs, demo_call (bool_decide (reals_of (`w) (VS_String vs) !! RS_String rs = None)) w
    (demo_upd (with_reals (VS_String vs) <[RS_String rs := rs]>) _ w);
  UpdateRealServer := λ w vs rs, demo_call (bool_decide (is_Some (reals_of (`w) (VS_String vs) !! RS_String rs))) w
    (demo_upd (with_reals (VS_String vs) (alter (set_Weight (rs_Weight rs)) (RS_String rs))) _ w);
  DeleteRealServer := λ w vs rs, demo_call (bool_decide (is_Some (reals_of (`w) (VS_String vs) !! RS_String rs))) w
    (demo_upd (with_reals (VS_String vs) (delete (RS_String rs))) _ w);
  CreateSet := λ w s _, (demo_upd (with_entries (uset_Name s) id) _ w, None);
  ListEntries := λ w n, inl (elements (entries_of (`w) n));
  AddEntry := λ w x s _, (demo_upd (with_entries (uset_Name s) (union {[x]})) _ w, None);
  DelEntry := λ w x n, demo_call (bool_decide (x ∈ entries_of (`w) n)) w (demo_upd (with_entries n (λ s, s ∖ {[x]})) _ w)
|}.
Next Obligation. intros L w vs k Hk. by apply named_drop, named_servers. Qed.
Next Obligation. intros L w vs k Hk. by apply named_drop, named_servers_delete. Qed.
Next Obligation. intros L w vs rs k Hk. apply named_reals; [|done]. intros m Hm. by apply map_Forall_insert_2. Qed.
Next Obligation. intros L w vs rs k Hk. apply named_reals; [|done]. intros m Hm. by apply named_alter. Qed.
Next Obligation. intros L w vs rs k Hk. apply named_reals; [|done]. intros m Hm. by apply map_Forall_delete. Qed.
Next Obligation. done. Qed.
Next Obligation. done. Qed.
Next Obligation. done. Qed.

Lemma demo_call_effect b w f Hf : effect proj1_sig w (demo_call b w (demo_upd f Hf w)) f.
Proof. by destruct b. Qed.

Lemma demo_netlink_laws : @NetLinkLaws demo_kworld demo_netlink (λ w, `w) (λ _, True).
Proof. split; try done; [by intros w s [= <-]|]. intros. apply demo_call_effect. Qed.

Program Definition demo_laws : @KernelLaws demo_kworld demo_ipvslib demo_kernel :=
  {| kview := λ w, `w; bindable := λ _, True; kernel_netlink_laws := demo_netlink_laws |}.
Next Obligation. intros [k [H1 H2]] n vs E. exact (H1 _ _ E). Qed.
Next Obligation.
  intros [k [H1 H2]] v n rs. unfold reals_of. simpl. destruct (kv_reals k !! v) as [m|] eqn:E; [|done].
  intros Hn. exact (H2 _ _ E _ _ Hn).
Qed.
Next Obligation. simpl. intros w vs r. by destruct (kv_servers (`w) !! _); intros [= <-]. Qed.
Next Obligation. by intros w l [= <-]. Qed.
Next Obligation. intros. apply demo_call_effect. Qed.
Next Obligation. intros. apply demo_call_effect. Qed.
Next Obligation. intros. apply demo_call_effect. Qed.
Next Obligation. by intros w vs l [= <-]. Qed.
Next Obligation. intros. apply demo_call_effect. Qed.
Next Obligation. intros. apply demo_call_effect. Qed.
Next Obligation. intros. apply demo_call_effect. Qed.
Next Obligation. done. Qed.
Next Obligation. intros w n l [= <-]. apply list_to_set_elements_L. Qed.
Next Obligation. done. Qed.
Next Obligation. intros. apply demo_call_effect. Qed.

Lemma demo_call_live b w w' : Is_true b → snd (demo_call b w w') = None.
Proof. by destruct b. Qed.

Lemma demo_reliable : @ReliableKernel demo_kworld _ _ demo_laws.
Proof.
  split; simpl; try done.
  - intros w vs a Ha. by rewrite Ha.
  - eauto.
  - intros. by apply demo_call_live, bool_decide_pack.
  - intros. by apply demo_call_live, bool_decide_pack.
  - intros. by apply demo_call_live, bool_decide_pack.
  - eauto.
  - intros. by apply demo_call_live, bool_decide_pack.
  - intros. by apply demo_call_live, bool_decide_pack.
  - intros. by apply demo_call_live, bool_decide_pack.
  - eauto.
  - intros. by apply demo_call_live, bool_decide_pack.
  - eauto.
  - intros. by apply demo_call_live, bool_decide_pack.
Qed.

(** A world with nothing in it. *)
Lemma named_empty : named_view (mkKV ∅ ∅ ∅ ∅).
Proof. split; apply map_Forall_empty. Qed.
Definition demo_kworld0 : demo_kworld := exist _ (mkKV ∅ ∅ ∅ ∅) named_empty.
