(* ===== verification/Graceful.v ===== *)
(** * Graceful termination of real servers

    [pkg/proxy/ipvs/graceful_termination.go].  The manager keeps the real servers
    that are to go away but still have connections; a real server is deleted
    from IPVS only when its connections have expired, one of a UDP or SCTP
    service at once.  The list and the world
    are passed from call to call. *)
From Stdlib Require Import Ascii.
From stdpp Require Import prelude gmap strings list.
From S2P Require Import Prelude NetAddr K8s ProxyEndpoints HostPort Kernel.
Open Scope Z_scope.

Record listItem := mkItem { li_VirtualServer : VirtualServer; li_RealServer : RealServer }.
Abbreviation rsList := (gmap string listItem).

Section graceful.
Context `{GoRuntime} {W : Type} `{IpvsLib} `{KernelOps W}.

Definition GetUniqueRSName (vs : VirtualServer) (rs : RealServer) : string := VS_String vs +:+ "/" +:+ RS_String rs.
Definition listItem_String (g : listItem) : string := GetUniqueRSName (li_VirtualServer g) (li_RealServer g).

(** ** [graceTerminateRSList] *)
Definition rsList_add (q : rsList) (rs : listItem) : rsList * bool :=
  match q !! listItem_String rs with
  | Some _ => (q, false)
  | None => (<[listItem_String rs := rs]> q, true)
  end.

Definition rsList_remove (q : rsList) (rs : listItem) : rsList * bool :=
  match q !! listItem_String rs with
  | Some _ => (delete (listItem_String rs) q, true)
  | None => (q, false)
  end.

Definition rsList_exist (q : rsList) (uniqueRS : string) : option listItem := q !! uniqueRS.

(** ** [GracefulTerminationManager] *)
Definition NewGracefulTerminationManager : rsList := ∅.

Definition InTerminationList (q : rsList) (uniqueRS : string) : bool := bool_decide (is_Some (rsList_exist q uniqueRS)).

(** [ActiveConn + InactiveConn != 0] on Go's [int]. *)
Definition has_conns (rs : RealServer) : bool := negb (wrap64 (rs_ActiveConn rs + rs_InactiveConn rs) =? 0).

(** The loop over the real servers of [deleteRsFunc]. *)
Fixpoint delete_loop (w : W) (item : listItem) (rss : list RealServer) : W * (bool * option string) :=
  match rss with
  | [] => (w, (true, Some ("failed to delete rs " +:+ listItem_String item +:+ ", can't find the real server")))
  | rs :: rest =>
      if RS_Equal (li_RealServer item) rs then
        if IsRsGracefulTerminationNeeded (vs_Protocol (li_VirtualServer item)) && has_conns rs then (w, (false, None))
        else
          match DeleteRealServer w (li_VirtualServer item) rs with
          | (w', Some e) => (w', (false, Some ("delete destination " +:+ RS_String rs +:+ " err: " +:+ e)))
          | (w', None) => (w', (true, None))
          end
      else delete_loop w item rest
  end.

Definition deleteRsFunc (w : W) (rsToDelete : listItem) : W * (bool * option string) :=
  match GetRealServers w (li_VirtualServer rsToDelete) with
  | inr e => (w, (false, Some e))
  | inl rss => delete_loop w rsToDelete rss
  end.

(** [range] over the list while entries are deleted from it: an entry that is
    gone when its turn comes is not visited. *)
Fixpoint flush_loop (items : list (string * listItem)) (w : W) (q : rsList) (success : bool) : W * rsList * bool :=
  match items with
  | [] => (w, q, success)
  | (name, rs) :: rest =>
      match q !! name with
      | None => flush_loop rest w q success
      | Some _ =>
          let '(w', (deleted, err)) := deleteRsFunc w rs in
          let success := match err with Some _ => false | None => success end in
          flush_loop rest w' (if deleted then delete (listItem_String rs) q else q) success
      end
  end.

Definition flushList (w : W) (q : rsList) : W * rsList * bool := flush_loop (go_range q) w q true.

Definition tryDeleteRs (w : W) (q : rsList) : W * rsList := fst (flushList w q).

(** [rs.Weight = 0] also changes the item that is listed: they are one object. *)
Definition GracefulDeleteRS (w : W) (q : rsList) (vs : VirtualServer) (rs : RealServer) : W * rsList * option string :=
  let '(w, (deleted, err)) := deleteRsFunc w (mkItem vs rs) in
  if deleted then (w, q, None)
  else
    let rs := set_Weight 0 rs in
    match UpdateRealServer w vs rs with
    | (w, Some e) => (w, q, Some e)
    | (w, None) => (w, fst (rsList_add q (mkItem vs rs)), None)
    end.

Definition MoveRSOutofGracefulDeleteList (w : W) (q : rsList) (uniqueRS : string) : W * rsList * option string :=
  match rsList_exist q uniqueRS with
  | None => (w, q, Some ("failed to find rs: " +:+ uniqueRS))
  | Some rsToDelete =>
      match DeleteRealServer w (li_VirtualServer rsToDelete) (li_RealServer rsToDelete) with
      | (w, Some e) => (w, q, Some e)
      | (w, None) => (w, fst (rsList_remove q rsToDelete), None)
      end
  end.

(** ** Lemmas *)
Definition item_vs (it : listItem) : string := VS_String (li_VirtualServer it).
Definition item_rs (it : listItem) : string := RS_String (li_RealServer it).

(** The items are filed under their names. *)
Definition list_ok (q : rsList) : Prop := map_Forall (λ n it, listItem_String it = n) q.

(** The connections of [rs] keep it alive. *)
Definition held (it : listItem) (rs : RealServer) : bool :=
  IsRsGracefulTerminationNeeded (vs_Protocol (li_VirtualServer it)) && has_conns rs.

Lemma list_ok_empty : list_ok ∅.
Proof. apply map_Forall_empty. Qed.

Lemma list_ok_add q it : list_ok q → list_ok (fst (rsList_add q it)).
Proof. intros Hq. unfold rsList_add. case_match; [done|]. by apply map_Forall_insert_2. Qed.

Lemma list_ok_remove q it : list_ok q → list_ok (fst (rsList_remove q it)).
Proof. intros Hq. unfold rsList_remove. case_match; [by apply map_Forall_delete|done]. Qed.

Context `{!IpvsNames} `{!KernelLaws W}.

Lemma unique_names vs rs vs' rs' :
  GetUniqueRSName vs rs = GetUniqueRSName vs' rs' → VS_String vs = VS_String vs' ∧ RS_String rs = RS_String rs'.
Proof.
  unfold GetUniqueRSName. intros E. apply (f_equal (split_last "/")) in E.
  change ("/" +:+ RS_String rs) with (String "/" (RS_String rs)) in E.
  change ("/" +:+ RS_String rs') with (String "/" (RS_String rs')) in E.
  rewrite !split_last_app in E by apply RS_String_no_slash. by simplify_eq.
Qed.

Lemma delete_loop_cases w it rss w' d e :
  delete_loop w it rss = (w', (d, e)) →
  (w' = w ∧ d = true ∧ Forall (λ rs, RS_String rs ≠ item_rs it) rss) ∨
  (∃ rs, rs ∈ rss ∧ RS_String rs = item_rs it ∧
     if held it rs then w' = w ∧ d = false
     else w' = fst (DeleteRealServer w (li_VirtualServer it) rs) ∧
          d = bool_decide (snd (DeleteRealServer w (li_VirtualServer it) rs) = None)).
Proof.
  induction rss as [|rs rss IH]; cbn [delete_loop]; [intros [= <- <- <-]; by left|].
  destruct (RS_Equal (li_RealServer it) rs) eqn:Heq.
  - apply RS_Equal_String in Heq. intros E. right. exists rs. split; [by left|]. split; [done|].
    unfold held in *. destruct (_ && _); [by simplify_eq|].
    destruct (DeleteRealServer _ _ rs) as [w1 [e1|]]; by simplify_eq.
  - intros E. destruct (IH E) as [(-> & -> & Hall)|(rs' & Hin & Hrest)].
    + left. split_and!; [done|done|]. constructor; [|done]. intros E2.
      assert (RS_Equal (li_RealServer it) rs = true) by (by apply RS_Equal_String). congruence.
    + right. exists rs'. split; [by right|done].
Qed.

Lemma reals_listed w vs l rs : GetRealServers w vs = inl l →
  rs ∈ l ↔ reals_of (kview w) (VS_String vs) !! RS_String rs = Some rs.
Proof.
  intros E. rewrite (GetRealServers_ok _ _ _ E), list_elem_of_fmap. split.
  - intros ([n rs'] & -> & Hin%elem_of_map_to_list). simpl. by rewrite (reals_named _ _ _ _ Hin).
  - intros Hl. exists (RS_String rs, rs). split; [done|]. by apply elem_of_map_to_list.
Qed.

(** What [deleteRsFunc] does: nothing, or it deletes the real server of the
    item, which is not held; it reports a deletion exactly when the real server
    is gone afterwards. *)
Definition delete_outcome (w : W) (it : listItem) (w' : W) (d : bool) : Prop :=
  let rs := reals_of (kview w) (item_vs it) !! item_rs it in
  (kview w' = kview w ∧ (d = true → rs = None)) ∨
  (∃ r, rs = Some r ∧ held it r = false ∧ d = true ∧
        kview w' = with_reals (item_vs it) (delete (item_rs it)) (kview w)).

Lemma deleteRsFunc_cases w it w' d e : deleteRsFunc w it = (w', (d, e)) → delete_outcome w it w' d.
Proof.
  unfold deleteRsFunc, delete_outcome. destruct (GetRealServers _ _) as [l|] eqn:El; [|intros [= <- <- <-]; by left].
  intros E. apply delete_loop_cases in E as [(-> & -> & Hall)|(rs & Hin & Hn & Hrs)].
  - left. split; [done|]. intros _. apply eq_None_not_Some. intros [r Hr].
    pose proof (reals_named _ _ _ _ Hr) as Hnm. rewrite Forall_forall in Hall. apply (Hall r); [|done].
    apply (reals_listed _ _ _ _ El). by rewrite Hnm.
  - apply (reals_listed _ _ _ _ El) in Hin. rewrite Hn in Hin.
    destruct (held it rs) eqn:Hh.
    + destruct Hrs as [-> ->]. left. by split.
    + destruct Hrs as [-> ->]. pose proof (DeleteRealServer_ok w (li_VirtualServer it) rs) as Heff.
      unfold effect in Heff. rewrite Hn in Heff. destruct (DeleteRealServer _ _ rs) as [w1 [e1|]]; simpl in *.
      * left. by split.
      * right. exists rs. by split_and!.
Qed.

(** ** A flush is safe *)
Lemma delete_outcome_keeps w it w' d v n rs :
  delete_outcome w it w' d → reals_of (kview w) v !! n = Some rs →
  reals_of (kview w') v !! n = Some rs ∨
  (reals_of (kview w') v !! n = None ∧ item_vs it = v ∧ item_rs it = n ∧ held it rs = false).
Proof.
  intros [[-> _]|(r & Hr & Hh & _ & ->)] Hrs; [by left|]. rewrite reals_of_with. case_decide as Hv; [|by left].
  subst v. destruct (decide (item_rs it = n)) as [<-|Hn].
  - right. rewrite lookup_delete_eq. rewrite Hr in Hrs. by simplify_eq.
  - left. by rewrite lookup_delete_ne.
Qed.

Definition spared (k k' : KernelView) (its : list listItem) : Prop :=
  ∀ v n rs, reals_of k v !! n = Some rs →
    reals_of k' v !! n = Some rs ∨
    (reals_of k' v !! n = None ∧ ∃ it, it ∈ its ∧ item_vs it = v ∧ item_rs it = n ∧ held it rs = false).

(** A real server that is gone stays gone: a flush adds none. *)
Lemma delete_outcome_gone w it w' d v n :
  delete_outcome w it w' d → reals_of (kview w) v !! n = None → reals_of (kview w') v !! n = None.
Proof.
  intros [[-> _]|(r & _ & _ & _ & ->)] Hn; [done|]. rewrite reals_of_with. case_decide; [|done]. subst.
  by rewrite lookup_delete_None; right.
Qed.

Lemma flush_loop_gone items w q s w' q' s' v n :
  flush_loop items w q s = (w', q', s') → reals_of (kview w) v !! n = None → reals_of (kview w') v !! n = None.
Proof.
  revert w q s. induction items as [|[name it] items IH]; intros w q s; cbn [flush_loop]; [by intros [= -> -> ->]|].
  destruct (q !! name); [|apply IH]. destruct (deleteRsFunc w it) as [w1 [d e]] eqn:E. intros F Hn.
  eapply IH; [exact F|]. by eapply delete_outcome_gone; [eapply deleteRsFunc_cases|].
Qed.

Lemma flush_loop_spared items w q s w' q' s' :
  flush_loop items w q s = (w', q', s') → spared (kview w) (kview w') (items.*2).
Proof.
  revert w q s. induction items as [|[name it] items IH]; intros w q s; cbn [flush_loop].
  { intros [= -> -> ->] v n rs Hrs. by left. }
  destruct (q !! name).
  2:{ intros F v n rs Hrs. destruct (IH _ _ _ F v n rs Hrs) as [?|(? & i & ? & ?)]; [by left|].
      right. split; [done|]. exists i. split; [by right|done]. }
  destruct (deleteRsFunc w it) as [w1 [d e]] eqn:E. intros F v n rs Hrs.
  apply deleteRsFunc_cases in E. destruct (delete_outcome_keeps _ _ _ _ _ _ _ E Hrs) as [Hk|(Hg & ? & ? & ?)].
  - destruct (IH _ _ _ F v n rs Hk) as [?|(? & i & ? & ?)]; [by left|].
    right. split; [done|]. exists i. split; [by right|done].
  - right. split; [by eapply flush_loop_gone|]. exists it. split; [by left|done].
Qed.

(** C25: the periodic flush takes away no real server that its connections hold.
    Whatever calls to the kernel fail, a real server that is gone after
    [tryDeleteRs] was on the termination list, and it was not [held]: its protocol
    needs no graceful termination (UDP, SCTP), or it had neither active nor inactive
    connections; every other real server is untouched. *)
Theorem tryDeleteRs_safe w q : spared (kview w) (kview (fst (tryDeleteRs w q))) (map_to_list q).*2.
Proof.
  unfold tryDeleteRs, flushList. destruct (flush_loop _ _ _ _) as [[w' q'] s'] eqn:E. simpl.
  intros v n rs Hrs. destruct (flush_loop_spared _ _ _ _ _ _ _ E v n rs Hrs) as [?|(? & it & Hin & ?)]; [by left|].
  right. split; [done|]. exists it. by rewrite <- go_range_perm.
Qed.

(** ** A flush with a reliable kernel *)
Context `{!ReliableKernel W}.

Definition remains (k : KernelView) (it : listItem) : bool :=
  match reals_of k (item_vs it) !! item_rs it with Some r => held it r | None => false end.

Lemma deleteRsFunc_live w it :
  is_Some (kv_servers (kview w) !! item_vs it) →
  ∃ w' e, deleteRsFunc w it = (w', (negb (remains (kview w) it), e)) ∧
    kv_servers (kview w') = kv_servers (kview w) ∧
    ∀ v n, reals_of (kview w') v !! n =
      if negb (remains (kview w) it) && bool_decide ((v, n) = (item_vs it, item_rs it)) then None
      else reals_of (kview w) v !! n.
Proof.
  intros Hs. destruct (GetRealServers_live w (li_VirtualServer it) Hs) as [l El].
  destruct (deleteRsFunc w it) as [w' [d e]] eqn:E. pose proof (deleteRsFunc_cases _ _ _ _ _ E) as Hc.
  assert (Hd : d = negb (remains (kview w) it)).
  { unfold deleteRsFunc in E. rewrite El in E.
    apply delete_loop_cases in E as [(-> & -> & Hall)|(rs & Hin & Hn & Hrs)].
    - destruct Hc as [[_ Hc]|(r & _ & _ & _ & _)]; unfold remains.
      + by rewrite Hc.
      + destruct (reals_of _ _ !! _) as [r'|] eqn:Hr'; [|done]. exfalso.
        rewrite Forall_forall in Hall. apply (Hall r'); [|by apply (reals_named _ _ _ _ Hr')].
        apply (reals_listed _ _ _ _ El). by rewrite (reals_named _ _ _ _ Hr').
    - apply (reals_listed _ _ _ _ El) in Hin. rewrite Hn in Hin. unfold remains, item_vs. rewrite Hin.
      destruct (held it rs); destruct Hrs as [_ ->]; [done|]. apply bool_decide_eq_true_2, DeleteRealServer_live; [done|].
      by rewrite Hn, Hin. }
  exists w', e. rewrite Hd. split; [done|]. destruct Hc as [[Hk Hg]|(r & Hr & Hh & _ & Hk)]; rewrite Hk.
  - split; [done|]. intros v n. destruct (negb _) eqn:Hm; [|done]. case_bool_decide as Hvn; [|done].
    simplify_eq. simpl. by apply Hg.
  - split; [done|]. intros v n. rewrite reals_of_with. unfold remains. rewrite Hr, Hh. simpl.
    destruct (decide (item_vs it = v)) as [<-|]; [|rewrite bool_decide_eq_false_2; [done|naive_solver]].
    destruct (decide (item_rs it = n)) as [<-|].
    + by rewrite lookup_delete_eq, bool_decide_eq_true_2.
    + rewrite lookup_delete_ne, bool_decide_eq_false_2; [done|naive_solver|done].
Qed.

(** What a flush over [items] leaves of the list and of the real servers. *)
Definition flushed (k : KernelView) (q : rsList) (items : list (string * listItem)) (k' : KernelView) (q' : rsList) : Prop :=
  kv_servers k' = kv_servers k ∧
  (∀ n it, (n, it) ∈ items → q' !! n = if remains k it then Some it else None) ∧
  (∀ n, n ∉ items.*1 → q' !! n = q !! n) ∧
  (∀ n it, (n, it) ∈ items →
     reals_of k' (item_vs it) !! item_rs it = if remains k it then reals_of k (item_vs it) !! item_rs it else None) ∧
  (∀ v n, Forall (λ x, (item_vs (snd x), item_rs (snd x)) ≠ (v, n)) items → reals_of k' v !! n = reals_of k v !! n).

Lemma same_rs_same_name it it' :
  item_vs it = item_vs it' → item_rs it = item_rs it' → listItem_String it = listItem_String it'.
Proof. unfold listItem_String, GetUniqueRSName, item_vs, item_rs. by intros -> ->. Qed.

Lemma flush_loop_exact items w q s w' q' s' :
  NoDup items.*1 →
  (∀ n it, (n, it) ∈ items → q !! n = Some it ∧ listItem_String it = n ∧ is_Some (kv_servers (kview w) !! item_vs it)) →
  flush_loop items w q s = (w', q', s') → flushed (kview w) q items (kview w') q'.
Proof.
  revert w q s. induction items as [|[name it] items IH]; intros w q s Hnd Hq; cbn [flush_loop].
  { intros [= -> -> ->]. split_and!; [done|set_solver|done|set_solver|done]. }
  rewrite fmap_cons, NoDup_cons in Hnd. destruct Hnd as [Hni Hnd].
  destruct (Hq name it ltac:(by left)) as (Hl & Hnm & Hs). rewrite Hl.
  destruct (deleteRsFunc_live w it Hs) as (w1 & e & -> & Hsv & Hre). intros F.
  assert (Hother : ∀ n it', (n, it') ∈ items → n ≠ name ∧ (item_vs it', item_rs it') ≠ (item_vs it, item_rs it)).
  { intros n it' Hin. assert (Hne : n ≠ name) by (intros ->; apply Hni, list_elem_of_fmap; by exists (name, it')).
    split; [done|]. intros [= E1 E2]. destruct (Hq n it' ltac:(by right)) as (_ & Hn' & _).
    apply Hne. rewrite <- Hn', <- Hnm. by apply same_rs_same_name. }
  assert (Hrem : ∀ n it', (n, it') ∈ items → reals_of (kview w1) (item_vs it') !! item_rs it' =
      reals_of (kview w) (item_vs it') !! item_rs it' ∧ remains (kview w1) it' = remains (kview w) it').
  { intros n it' Hin. unfold remains. rewrite Hre, (bool_decide_eq_false_2 (_ = _)) by by eapply Hother.
    by rewrite andb_false_r. }
  apply IH in F as (G1 & G2 & G3 & G4 & G5); [|done|].
  2:{ intros n it' Hin. destruct (Hq n it' ltac:(by right)) as (Hl' & Hn' & Hs'). rewrite Hsv. split_and!; [|done|done].
      destruct (Hother n it' Hin) as [Hne _]. destruct (negb _); [|done]. rewrite Hnm. by rewrite lookup_delete_ne. }
  split_and!.
  - by rewrite G1.
  - intros n it' [[= -> ->]|Hin]%elem_of_cons.
    + rewrite G3 by done. rewrite Hnm. destruct (remains _ _); [done|apply lookup_delete_eq].
    + rewrite (G2 _ _ Hin). by rewrite (proj2 (Hrem _ _ Hin)).
  - intros n Hn. rewrite fmap_cons, not_elem_of_cons in Hn. destruct Hn as [Hne Hn]. rewrite G3 by done.
    destruct (negb _); [|done]. rewrite Hnm. by rewrite lookup_delete_ne.
  - intros n it' [[= -> ->]|Hin]%elem_of_cons.
    + rewrite G5 by (apply Forall_forall; intros [m it''] Hin; by apply (Hother _ _ Hin)).
      rewrite Hre, bool_decide_eq_true_2 by done. by destruct (remains _ _).
    + rewrite (G4 _ _ Hin). destruct (Hrem _ _ Hin) as [-> ->]. done.
  - intros v n Hall. apply Forall_cons in Hall as [Hne Hall]. rewrite (G5 _ _ Hall), Hre. simpl in Hne.
    rewrite (bool_decide_eq_false_2 (_ = _)) by congruence. by rewrite andb_false_r.
Qed.

(** C26: with a kernel that answers, one flush finishes every real server whose
    connections have expired: the list keeps exactly the items that still have
    connections (over a protocol that waits for them), with their real servers
    as they were; the real servers of the others are gone. *)
Theorem tryDeleteRs_drains w q :
  list_ok q → map_Forall (λ _ it, is_Some (kv_servers (kview w) !! item_vs it)) q →
  let '(w', q') := tryDeleteRs w q in
  q' = filter (λ kv, remains (kview w) (snd kv) = true) q ∧
  map_Forall (λ _ it, reals_of (kview w') (item_vs it) !! item_rs it =
                      if remains (kview w) it then reals_of (kview w) (item_vs it) !! item_rs it else None) q.
Proof.
  intros Hok Hs. unfold tryDeleteRs, flushList. destruct (flush_loop _ _ _ _) as [[w' q'] s'] eqn:E. simpl.
  apply flush_loop_exact in E as (_ & G2 & G3 & G4 & _); [|apply NoDup_go_range|].
  2:{ intros n it Hin%elem_of_go_range. split_and!; [done|by apply Hok|by eapply Hs]. }
  split.
  - apply map_eq. intros n. destruct (q !! n) as [it|] eqn:Hn.
    + rewrite (G2 n it) by by apply elem_of_go_range. destruct (remains (kview w) it) eqn:Hr; symmetry.
      * by apply map_lookup_filter_Some.
      * apply map_lookup_filter_None. right. intros it' Hit. rewrite Hn in Hit. simplify_eq/=. congruence.
    + rewrite G3, Hn.
      * symmetry. apply map_lookup_filter_None. by left.
      * intros ([m it] & -> & Hin)%list_elem_of_fmap. apply elem_of_go_range in Hin. simpl in *. congruence.
  - intros n it Hn. apply (G4 n). by apply elem_of_go_range.
Qed.

(** What [GracefulDeleteRS] does to the real server, and to nothing else. *)
Definition gracefully_deleted (k : KernelView) (q : rsList) (vs : VirtualServer) (rs : RealServer) (k' : KernelView) (q' : rsList) : Prop :=
  let name := GetUniqueRSName vs rs in
  match reals_of k' (VS_String vs) !! RS_String rs with
  | Some r => rs_Weight r = 0 ∧ is_Some (q' !! name)
  | None => match reals_of k (VS_String vs) !! RS_String rs with
            | Some r => held (mkItem vs rs) r = false
            | None => True
            end
  end ∧
  (∀ v n, (v, n) ≠ (VS_String vs, RS_String rs) → reals_of k' v !! n = reals_of k v !! n) ∧
  (∀ n, n ≠ name → q' !! n = q !! n) ∧ kv_servers k' = kv_servers k ∧ list_ok q'.

Lemma with_reals_at v n f k :
  (∀ m n', n' ≠ n → f m !! n' = m !! n') →
  ∀ v' n', (v', n') ≠ (v, n) → reals_of (with_reals v f k) v' !! n' = reals_of k v' !! n'.
Proof.
  intros Hf v' n' Hne. rewrite reals_of_with. case_decide; [|done]. subst v'. apply Hf. congruence.
Qed.

Lemma GracefulDeleteRS_effect w q vs rs w' q' :
  GracefulDeleteRS w q vs rs = (w', q', None) → list_ok q → gracefully_deleted (kview w) q vs rs (kview w') q'.
Proof.
  intros E Hok. unfold GracefulDeleteRS in E.
  destruct (deleteRsFunc w (mkItem vs rs)) as [w1 [d e]] eqn:Ed.
  apply deleteRsFunc_cases in Ed. unfold delete_outcome, item_vs, item_rs in Ed. cbn [li_VirtualServer li_RealServer] in Ed.
  unfold gracefully_deleted. destruct d.
  - simplify_eq. destruct Ed as [[Hk Hn]|(r & Hr & Hh & _ & Hk)]; rewrite Hk.
    + rewrite Hn by done. by split_and!.
    + split_and!; [..|done|done|done].
      * rewrite reals_of_with, decide_True, lookup_delete_eq by done. by rewrite Hr.
      * apply with_reals_at. intros. by apply lookup_delete_ne.
  - destruct Ed as [[Hk _]|(r & _ & _ & [=] & _)].
    pose proof (UpdateRealServer_ok w1 vs (set_Weight 0 rs)) as Heff. unfold effect in Heff.
    destruct (UpdateRealServer w1 vs _) as [w2 [e2|]]; simplify_eq. simpl in Heff. rewrite Hk in Heff.
    rewrite (RS_String_id (set_Weight 0 rs) rs) in Heff by done. rewrite Heff.
    assert (Hnm : listItem_String (mkItem vs (set_Weight 0 rs)) = GetUniqueRSName vs rs).
    { unfold listItem_String, GetUniqueRSName. cbn. by rewrite (RS_String_id (set_Weight 0 rs) rs). }
    split_and!; [..|done|by apply list_ok_add].
    + rewrite reals_of_with, decide_True, lookup_alter_eq by done.
      destruct (reals_of (kview w) _ !! _); [|done]. simpl. split; [done|]. unfold rsList_add. rewrite Hnm.
      case_match; simpl; [eauto|]. rewrite lookup_insert_eq. eauto.
    + apply with_reals_at. intros. by apply lookup_alter_ne.
    + intros n Hn. unfold rsList_add. case_match; [done|]. rewrite Hnm. by apply lookup_insert_ne.
Qed.

(** A graceful deletion that succeeds takes the real server out of service.
    Afterwards it is gone, or it takes no new connections (weight 0) and is on
    the termination list; it is gone only if nothing held it.  No other real
    server, virtual server or item of the list changes. *)
Theorem GracefulDeleteRS_spec w q vs rs w' q' :
  GracefulDeleteRS w q vs rs = (w', q', None) → list_ok q → gracefully_deleted (kview w) q vs rs (kview w') q'.
Proof. apply GracefulDeleteRS_effect. Qed.

(** With a reliable kernel it succeeds on every virtual server there is, and
    lists only a real server that stays. *)
Lemma GracefulDeleteRS_live w q vs rs :
  is_Some (kv_servers (kview w) !! VS_String vs) →
  ∃ w' q', GracefulDeleteRS w q vs rs = (w', q', None) ∧
    (reals_of (kview w') (VS_String vs) !! RS_String rs = None → q' = q).
Proof.
  intros Hs. unfold GracefulDeleteRS.
  destruct (deleteRsFunc_live w (mkItem vs rs) Hs) as (w1 & e & -> & Hsv & Hre).
  destruct (remains _ _) eqn:Hr; cbn [negb]; [|by eauto].
  assert (Hp : is_Some (reals_of (kview w1) (VS_String vs) !! RS_String rs)).
  { rewrite Hre. cbn [negb andb]. unfold remains, item_vs, item_rs in Hr. cbn in Hr. by destruct (reals_of _ _ !! _). }
  pose proof (UpdateRealServer_ok w1 vs (set_Weight 0 rs)) as Heff. unfold effect in Heff.
  rewrite UpdateRealServer_live in Heff; [|by rewrite Hsv|by rewrite (RS_String_id (set_Weight 0 rs) rs)].
  assert (Hlive : snd (UpdateRealServer w1 vs (set_Weight 0 rs)) = None).
  { apply UpdateRealServer_live; [by rewrite Hsv|]. by rewrite (RS_String_id (set_Weight 0 rs) rs). }
  destruct (UpdateRealServer _ _ _) as [w2 e2]. simpl in *. subst e2. eexists _, _. split; [done|].
  rewrite Heff, reals_of_with, decide_True by done. rewrite (RS_String_id (set_Weight 0 rs) rs), lookup_alter_eq by done.
  by destruct Hp as [r ->].
Qed.
End graceful.

(** ** A concrete node: one virtual server with a busy and an idle real server *)
Section demo.
Local Existing Instances list_runtime demo_ipvslib demo_kernel demo_ipvsnames demo_laws demo_reliable.

Definition demo_vs : VirtualServer := mkVS [10; 0; 0; 1] "TCP" 80 "rr" 0 0.
Definition demo_rs (last conns : Z) : RealServer := mkRS [10; 1; 0; last] 8080 1 conns 0.
Definition demo_node : demo_kworld :=
  fst (AddRealServer (fst (AddRealServer (fst (AddVirtualServer demo_kworld0 demo_vs)) demo_vs (demo_rs 1 2)))
         demo_vs (demo_rs 2 0)).
Definition demo_item (last conns : Z) : listItem := mkItem demo_vs (set_Weight 0 (demo_rs last conns)).
Definition demo_list : rsList :=
  <[listItem_String (demo_item 1 2) := demo_item 1 2]> {[ listItem_String (demo_item 2 0) := demo_item 2 0 ]}.

Lemma demo_list_ok : list_ok demo_list.
Proof. apply map_Forall_insert_2; [done|]. by apply map_Forall_singleton. Qed.

Lemma tryDeleteRs_drains_witness :
  dom (snd (tryDeleteRs demo_node demo_list)) = {[ "10.0.0.1:80/TCP/10.1.0.1:8080" ]} ∧
  let '(w', q') := tryDeleteRs demo_node demo_list in
  q' = filter (λ kv, remains (kview demo_node) (snd kv) = true) demo_list ∧
  map_Forall (λ _ it, reals_of (kview w') (item_vs it) !! item_rs it =
                      if remains (kview demo_node) it then reals_of (kview demo_node) (item_vs it) !! item_rs it
                      else None) demo_list.
Proof.
  split; [by apply (bool_decide_unpack _); vm_compute|].
  apply (tryDeleteRs_drains demo_node demo_list demo_list_ok).
  apply map_Forall_insert_2; [by apply (bool_decide_unpack _); vm_compute|].
  apply map_Forall_singleton. by apply (bool_decide_unpack _); vm_compute.
Defined.

Definition demo_deleted := GracefulDeleteRS demo_node ∅ demo_vs (demo_rs 1 0).

Lemma GracefulDeleteRS_spec_witness :
  rs_Weight <$> (reals_of (kview (demo_deleted.1.1)) "10.0.0.1:80/TCP" !! "10.1.0.1:8080") = Some 0 ∧
  is_Some (demo_deleted.1.2 !! "10.0.0.1:80/TCP/10.1.0.1:8080") ∧
  gracefully_deleted (kview demo_node) ∅ demo_vs (demo_rs 1 0) (kview demo_deleted.1.1) demo_deleted.1.2.
Proof.
  assert (En : demo_deleted.2 = None) by (vm_compute; reflexivity).
  assert (E : demo_deleted = (demo_deleted.1.1, demo_deleted.1.2, None)) by (rewrite <- En; by destruct demo_deleted as [[] ?]).
  unfold demo_deleted in E at 1.
  split; [by vm_compute|]. split; [by apply (bool_decide_unpack _); vm_compute|].
  exact (GracefulDeleteRS_spec demo_node ∅ demo_vs (demo_rs 1 0) _ _ E list_ok_empty).
Defined.

Lemma tryDeleteRs_safe_witness :
  is_Some (reals_of (kview (fst (tryDeleteRs demo_node demo_list))) "10.0.0.1:80/TCP" !! "10.1.0.1:8080") ∧
  reals_of (kview (fst (tryDeleteRs demo_node demo_list))) "10.0.0.1:80/TCP" !! "10.1.0.2:8080" = None ∧
  spared (kview demo_node) (kview (fst (tryDeleteRs demo_node demo_list))) (map_to_list demo_list).*2.
Proof.
  split; [by apply (bool_decide_unpack _); vm_compute|]. split; [by vm_compute|].
  exact (tryDeleteRs_safe demo_node demo_list).
Defined.
End demo.
