(* ===== verification/IpSet.v ===== *)
(** * IP sets of the proxier

    [pkg/proxy/ipvs/ipset.go] and the table [ipsetInfo] of
    [pkg/proxy/ipvs/proxier.go].  An IP set of the proxier is a set of the kernel
    with the entries it should have; [syncIPSetEntries] makes the kernel's set
    agree. *)
From stdpp Require Import prelude gmap strings list.
From S2P Require Import Prelude NetAddr K8s ProxyEndpoints HostPort Kernel.
Open Scope Z_scope.

Record IPSet := mkIPSet { is_IPSet : UtilIPSet; activeEntries : gset string }.
Definition is_Name (s : IPSet) : string := uset_Name (is_IPSet s).

(** [utilversion]: parsing and comparing versions. *)
Class VersionLib := { Version : Type; ParseGeneric : string → option Version; LessThan : Version → Version → bool }.

Definition MinIPSetCheckVersion : string := "6.0".
Definition kubeLoopBackIPSet : string := "KUBE-LOOP-BACK".
Definition kubeClusterIPSet : string := "KUBE-CLUSTER-IP".
Definition kubeExternalIPSet : string := "KUBE-EXTERNAL-IP".
Definition kubeExternalIPLocalSet : string := "KUBE-EXTERNAL-IP-LOCAL".
Definition kubeLoadBalancerSet : string := "KUBE-LOAD-BALANCER".
Definition kubeLoadBalancerLocalSet : string := "KUBE-LOAD-BALANCER-LOCAL".
Definition kubeLoadBalancerFWSet : string := "KUBE-LOAD-BALANCER-FW".
Definition kubeLoadBalancerSourceIPSet : string := "KUBE-LOAD-BALANCER-SOURCE-IP".
Definition kubeLoadBalancerSourceCIDRSet : string := "KUBE-LOAD-BALANCER-SOURCE-CIDR".
Definition kubeNodePortSetTCP : string := "KUBE-NODE-PORT-TCP".
Definition kubeNodePortLocalSetTCP : string := "KUBE-NODE-PORT-LOCAL-TCP".
Definition kubeNodePortSetUDP : string := "KUBE-NODE-PORT-UDP".
Definition kubeNodePortLocalSetUDP : string := "KUBE-NODE-PORT-LOCAL-UDP".
Definition kubeNodePortSetSCTP : string := "KUBE-NODE-PORT-SCTP-HASH".
Definition kubeNodePortLocalSetSCTP : string := "KUBE-NODE-PORT-LOCAL-SCTP-HASH".
Definition kubeHealthCheckNodePortSet : string := "KUBE-HEALTH-CHECK-NODE-PORT".
Definition kubeIPVSSet : string := "KUBE-IPVS-IPS".

Section ipset.
Context `{GoRuntime} {W : Type} `{IpvsLib} `{KernelOps W}.

(** The table of the sets: name, type and comment. *)
Definition ipsetInfo : list (string * string * string) := [
  (kubeLoopBackIPSet, HashIPPortIP, "Kubernetes endpoints dst ip:port, source ip for solving hairpin purpose");
  (kubeClusterIPSet, HashIPPort, "Kubernetes service cluster ip + port for masquerade purpose");
  (kubeExternalIPSet, HashIPPort, "Kubernetes service external ip + port for masquerade and filter purpose");
  (kubeExternalIPLocalSet, HashIPPort, "Kubernetes service external ip + port with externalTrafficPolicy=local");
  (kubeLoadBalancerSet, HashIPPort, "Kubernetes service lb portal");
  (kubeLoadBalancerFWSet, HashIPPort, "Kubernetes service load balancer ip + port for load balancer with sourceRange");
  (kubeLoadBalancerLocalSet, HashIPPort, "Kubernetes service load balancer ip + port with externalTrafficPolicy=local");
  (kubeLoadBalancerSourceIPSet, HashIPPortIP, "Kubernetes service load balancer ip + port + source IP for packet filter purpose");
  (kubeLoadBalancerSourceCIDRSet, HashIPPortNet, "Kubernetes service load balancer ip + port + source cidr for packet filter purpose");
  (kubeNodePortSetTCP, BitmapPort, "Kubernetes nodeport TCP port for masquerade purpose");
  (kubeNodePortLocalSetTCP, BitmapPort, "Kubernetes nodeport TCP port with externalTrafficPolicy=local");
  (kubeNodePortSetUDP, BitmapPort, "Kubernetes nodeport UDP port for masquerade purpose");
  (kubeNodePortLocalSetUDP, BitmapPort, "Kubernetes nodeport UDP port with externalTrafficPolicy=local");
  (kubeNodePortSetSCTP, HashIPPort, "Kubernetes nodeport SCTP port for masquerade purpose with type 'hash ip:port'");
  (kubeNodePortLocalSetSCTP, HashIPPort, "Kubernetes nodeport SCTP port with externalTrafficPolicy=local with type 'hash ip:port'");
  (kubeHealthCheckNodePortSet, BitmapPort, "Kubernetes health check node port");
  (kubeIPVSSet, HashIP, "Addresses on the ipvs interface")].

(** For IPv6 the prefix [KUBE-] becomes [KUBE-6-] and the name is cut to the 31
    characters the kernel allows. *)
Definition ipset_name (name : string) (isIPv6 : bool) : string :=
  if isIPv6 && String.prefix "KUBE-" name then
    let name' := "KUBE-6-" +:+ String.substring 5 (String.length name - 5) name in
    if (31 <? String.length name')%nat then String.substring 0 31 name' else name'
  else name.

Definition NewIPSet (name setType : string) (isIPv6 : bool) (comment : string) : IPSet :=
  mkIPSet (mkUIPSet (ipset_name name isIPv6) setType (if isIPv6 then ProtocolFamilyIPV6 else ProtocolFamilyIPV4) comment) ∅.

Definition validateEntry (set : IPSet) (entry : IPSetEntry) : bool := Entry_Validate entry (is_IPSet set).
Definition isEmpty (set : IPSet) : bool := (size (activeEntries set) =? 0)%nat.
Definition quote : string := String (Ascii.ascii_of_nat 34) EmptyString.
Definition getComment (set : IPSet) : string := quote +:+ uset_Comment (is_IPSet set) +:+ quote.
Definition resetEntries (set : IPSet) : IPSet := mkIPSet (is_IPSet set) ∅.
Definition insertEntry (set : IPSet) (entry : string) : IPSet := mkIPSet (is_IPSet set) ({[entry]} ∪ activeEntries set).

(** Failures of single entries are logged and skipped. *)
Definition del_entries (w : W) (name : string) (l : list string) : W := foldl (λ w x, fst (DelEntry w x name)) w l.
Definition add_entries (w : W) (set : UtilIPSet) (l : list string) : W := foldl (λ w x, fst (AddEntry w x set true)) w l.

Definition syncIPSetEntries (w : W) (set : IPSet) : W :=
  match ListEntries w (is_Name set) with
  | inr _ => w
  | inl appliedEntries =>
      let currentIPSetEntries : gset string := list_to_set appliedEntries in
      if bool_decide (activeEntries set = currentIPSetEntries) then w
      else
        let w := del_entries w (is_Name set) (UnsortedList (currentIPSetEntries ∖ activeEntries set)) in
        add_entries w (is_IPSet set) (UnsortedList (activeEntries set ∖ currentIPSetEntries))
  end.

Definition ensureIPSet (w : W) (set : IPSet) : W * option string := CreateSet w (is_IPSet set) true.

Definition checkMinVersion `{VersionLib} (vstring : string) : bool :=
  match ParseGeneric vstring with
  | None => false
  | Some version =>
      match ParseGeneric MinIPSetCheckVersion with
      | None => false
      | Some minVersion => negb (LessThan version minVersion)
      end
  end.

(** ** Synchronisation *)
Context `{!KernelLaws W} `{!ReliableKernel W}.

Lemma with_entries_comp n f g k : with_entries n f (with_entries n g k) = with_entries n (λ s, f (g s)) k.
Proof.
  unfold with_entries, entries_of. cbn. rewrite lookup_insert_eq, insert_insert_eq. done.
Qed.

Lemma del_entries_ok w n l : NoDup l → list_to_set l ⊆ entries_of (kview w) n → is_Some (kv_sets (kview w) !! n) →
  kview (del_entries w n l) = with_entries n (λ s, s ∖ list_to_set l) (kview w).
Proof.
  revert w. induction l as [|x l IH]; intros w Hnd Hsub Hs.
  { destruct (kview w) as [a b c sets] eqn:E. cbn in *. unfold del_entries, with_entries, entries_of. cbn.
    rewrite E. f_equal. destruct Hs as [s Hs]. rewrite Hs. cbn. rewrite difference_empty_L. by rewrite insert_id. }
  apply NoDup_cons in Hnd as [Hx Hnd]. pose proof (DelEntry_ok w x n) as Heff. unfold effect in Heff.
  rewrite DelEntry_live in Heff by set_solver. unfold del_entries. cbn [foldl]. fold (del_entries (fst (DelEntry w x n)) n l).
  rewrite IH; [|done|..].
  - rewrite Heff, with_entries_comp. unfold with_entries. f_equal. f_equal. set_solver.
  - rewrite Heff, entries_of_with, decide_True by done. set_solver.
  - rewrite Heff. cbn. rewrite lookup_insert_eq. eauto.
Qed.

Lemma add_entries_ok w set l : is_Some (kv_sets (kview w) !! uset_Name set) →
  kview (add_entries w set l) = with_entries (uset_Name set) (λ s, list_to_set l ∪ s) (kview w).
Proof.
  revert w. induction l as [|x l IH]; intros w Hs.
  { destruct (kview w) as [a b c sets] eqn:E. cbn in *. unfold add_entries, with_entries, entries_of. cbn.
    rewrite E. f_equal. destruct Hs as [s Hs]. rewrite Hs. cbn. rewrite union_empty_l_L. by rewrite insert_id. }
  pose proof (AddEntry_ok w x set true) as Heff. unfold effect in Heff.
  rewrite AddEntry_live in Heff by done. unfold add_entries. cbn [foldl]. fold (add_entries (fst (AddEntry w x set true)) set l).
  rewrite IH.
  - rewrite Heff, with_entries_comp. unfold with_entries. f_equal. f_equal. set_solver.
  - rewrite Heff. cbn. rewrite lookup_insert_eq. eauto.
Qed.

Lemma syncIPSetEntries_view w set :
  is_Some (kv_sets (kview w) !! is_Name set) →
  kview (syncIPSetEntries w set) = with_entries (is_Name set) (λ _, activeEntries set) (kview w).
Proof.
  intros Hs. unfold syncIPSetEntries. destruct (ListEntries_live w (is_Name set) Hs) as [l El].
  pose proof (ListEntries_ok _ _ _ El) as Hl. rewrite El, Hl. clear El Hl. case_bool_decide as Heq.
  - rewrite Heq. destruct (kview w) as [a b c sets] eqn:E. unfold with_entries, entries_of. cbn. f_equal.
    destruct Hs as [s Hs]. cbn in Hs. rewrite Hs. cbn. by rewrite insert_id.
  - set (cur := entries_of (kview w) (is_Name set)).
    assert (Hlist : ∀ s : gset string, list_to_set (UnsortedList s) = s).
    { intros s. apply set_eq. intros x. by rewrite elem_of_list_to_set, elem_of_UnsortedList. }
    assert (Hd := del_entries_ok w (is_Name set) (UnsortedList (cur ∖ activeEntries set)) (NoDup_UnsortedList _)).
    rewrite Hlist in Hd. specialize (Hd ltac:(set_solver) Hs).
    rewrite add_entries_ok, Hd, Hlist.
    + unfold is_Name in *. rewrite with_entries_comp. unfold with_entries. f_equal. f_equal. fold cur.
      apply set_eq. intros x. destruct (decide (x ∈ cur)), (decide (x ∈ activeEntries set)); set_solver.
    + rewrite Hd. cbn. rewrite lookup_insert_eq. eauto.
Qed.

(** After [syncIPSetEntries] on a set that exists, the kernel's set holds
    exactly the active entries; no other set, address or server changes. *)
Theorem syncIPSetEntries_converges w set :
  is_Some (kv_sets (kview w) !! is_Name set) →
  kview (syncIPSetEntries w set) = with_entries (is_Name set) (λ _, activeEntries set) (kview w).
Proof. apply syncIPSetEntries_view. Qed.

(** The sets of the proxier are told apart by the kernel, in both address
    families: the names are no longer than the 31 characters it allows, and
    cutting them makes no two of them equal. *)
Theorem ipset_names_ok :
  let names f := (λ i, ipset_name i.1.1 f) <$> ipsetInfo in
  NoDup (names false ++ names true) ∧ Forall (λ n, (String.length n ≤ 31)%nat) (names false ++ names true).
Proof.
  split; refine (bool_decide_unpack _ _); vm_compute; exact I.
Qed.
End ipset.

(** ** A concrete set: one stale entry is removed, one missing entry is added *)
Section demo.
Local Existing Instances list_runtime demo_ipvslib demo_kernel demo_laws demo_reliable.

Definition demo_set : IPSet :=
  insertEntry (insertEntry (NewIPSet kubeClusterIPSet HashIPPort false EmptyString) "10.0.0.1,tcp:80") "10.0.0.2,tcp:80".
Definition demo_sets : demo_kworld :=
  add_entries (fst (ensureIPSet demo_kworld0 demo_set)) (is_IPSet demo_set) ["10.0.0.1,tcp:80"; "10.9.9.9,tcp:80"].

Lemma syncIPSetEntries_converges_witness :
  entries_of (kview demo_sets) kubeClusterIPSet ≠ activeEntries demo_set ∧
  entries_of (kview (syncIPSetEntries demo_sets demo_set)) kubeClusterIPSet = activeEntries demo_set.
Proof.
  split; [by apply (bool_decide_unpack _); vm_compute|].
  rewrite (syncIPSetEntries_converges demo_sets demo_set) by (by apply (bool_decide_unpack _); vm_compute).
  by rewrite entries_of_with, decide_True.
Defined.
End demo.
