(* ===== verification/Proxier.v ===== *)
(** * The IPVS proxier

    [pkg/proxy/ipvs/proxier.go]: the event handlers, [syncProxyRules] and the
    functions it calls.  The proxier's fields are a record, the kernel is the
    world [W].  The iptables rules, which [syncProxyRules] collects and
    nothing reads, are in [Iptables].  Health check servers are two fields that hold what
    they were last given; metrics and logs are left out. *)
From Stdlib Require Import Ascii.
From stdpp Require Import prelude gmap strings list.
From S2P Require Import Prelude NetAddr K8s ProxyEndpoints ProxyServices HostPort Kernel Graceful IpSet.
Open Scope Z_scope.

(** [netutils.IsIPv4] *)
Class NetutilsLib := { netutils_IsIPv4 : IP → bool }.

Record Proxier := mkProxier {
  px_ipFamily : string;
  px_endpointsChanges : EndpointChangeTracker;
  px_serviceImportChanges : ServiceImportChangeTracker;
  px_svcPortMap : SPMap;
  px_endpointsMap : EndpointsMap;
  px_nodeLabels : GoMap;
  px_initialSync : bool;
  px_endpointSlicesSynced : bool;
  px_servicesImportSynced : bool;
  px_initialized : bool;
  px_excludeCIDRs : list IPNet;
  px_hostname : string;
  px_ipvsScheduler : string;
  px_ipsetList : gmap string IPSet;
  px_rsList : rsList;
  px_noLocalInternal : gset string;
  px_noLocalExternal : gset string;
  px_healthServices : gmap NamespacedName Z;
  px_healthEndpoints : gmap NamespacedName Z }.

Definition with_changes (e : EndpointChangeTracker) (s : ServiceImportChangeTracker) (p : Proxier) : Proxier :=
  mkProxier (px_ipFamily p) e s (px_svcPortMap p) (px_endpointsMap p) (px_nodeLabels p) (px_initialSync p)
    (px_endpointSlicesSynced p) (px_servicesImportSynced p) (px_initialized p) (px_excludeCIDRs p) (px_hostname p)
    (px_ipvsScheduler p) (px_ipsetList p) (px_rsList p) (px_noLocalInternal p) (px_noLocalExternal p)
    (px_healthServices p) (px_healthEndpoints p).
Definition with_maps (s : SPMap) (e : EndpointsMap) (p : Proxier) : Proxier :=
  mkProxier (px_ipFamily p) (px_endpointsChanges p) (px_serviceImportChanges p) s e (px_nodeLabels p) (px_initialSync p)
    (px_endpointSlicesSynced p) (px_servicesImportSynced p) (px_initialized p) (px_excludeCIDRs p) (px_hostname p)
    (px_ipvsScheduler p) (px_ipsetList p) (px_rsList p) (px_noLocalInternal p) (px_noLocalExternal p)
    (px_healthServices p) (px_healthEndpoints p).
Definition with_flags (labels : GoMap) (initialSync slicesSynced importsSynced initialized : bool) (p : Proxier) : Proxier :=
  mkProxier (px_ipFamily p) (px_endpointsChanges p) (px_serviceImportChanges p) (px_svcPortMap p) (px_endpointsMap p)
    labels initialSync slicesSynced importsSynced initialized (px_excludeCIDRs p) (px_hostname p)
    (px_ipvsScheduler p) (px_ipsetList p) (px_rsList p) (px_noLocalInternal p) (px_noLocalExternal p)
    (px_healthServices p) (px_healthEndpoints p).
Definition with_sets (sets : gmap string IPSet) (p : Proxier) : Proxier :=
  mkProxier (px_ipFamily p) (px_endpointsChanges p) (px_serviceImportChanges p) (px_svcPortMap p) (px_endpointsMap p)
    (px_nodeLabels p) (px_initialSync p) (px_endpointSlicesSynced p) (px_servicesImportSynced p) (px_initialized p)
    (px_excludeCIDRs p) (px_hostname p) (px_ipvsScheduler p) sets (px_rsList p) (px_noLocalInternal p) (px_noLocalExternal p)
    (px_healthServices p) (px_healthEndpoints p).
Definition with_list (q : rsList) (int ext : gset string) (p : Proxier) : Proxier :=
  mkProxier (px_ipFamily p) (px_endpointsChanges p) (px_serviceImportChanges p) (px_svcPortMap p) (px_endpointsMap p)
    (px_nodeLabels p) (px_initialSync p) (px_endpointSlicesSynced p) (px_servicesImportSynced p) (px_initialized p)
    (px_excludeCIDRs p) (px_hostname p) (px_ipvsScheduler p) (px_ipsetList p) q int ext
    (px_healthServices p) (px_healthEndpoints p).
Definition with_health (s e : gmap NamespacedName Z) (p : Proxier) : Proxier :=
  mkProxier (px_ipFamily p) (px_endpointsChanges p) (px_serviceImportChanges p) (px_svcPortMap p) (px_endpointsMap p)
    (px_nodeLabels p) (px_initialSync p) (px_endpointSlicesSynced p) (px_servicesImportSynced p) (px_initialized p)
    (px_excludeCIDRs p) (px_hostname p) (px_ipvsScheduler p) (px_ipsetList p) (px_rsList p) (px_noLocalInternal p)
    (px_noLocalExternal p) s e.

Section proxier.
Context `{GoRuntime} {W : Type} `{ServiceLib} `{ProxyLib} `{NetutilsLib} `{IpvsLib} `{KernelOps W}.

(** ** [syncService] *)
Definition syncService (w : W) (vs : VirtualServer) (bindAddr : bool) (alreadyBoundAddrs : option (gset string))
    : W * option string :=
  let applied := match GetVirtualServer w vs with inl r => r | inr _ => None end in
  let '(w, err) :=
    match applied with
    | None => AddVirtualServer w vs
    | Some a => if VS_Equal a vs then (w, None) else UpdateVirtualServer w vs
    end in
  match err with
  | Some e => (w, Some e)
  | None =>
      if bindAddr then
        if match alreadyBoundAddrs with Some s => bool_decide (IP_String (vs_Address vs) ∈ s) | None => false end
        then (w, None)
        else EnsureAddressBind w (IP_String (vs_Address vs)) defaultDummyDevice
      else (w, None)
  end.

(** ** [syncEndpoint] *)

(** The endpoints of a service port that get traffic, and whether the service
    has none on this node although it asks for them. *)
Definition select_endpoints (p : Proxier) (spn : ServicePortName) (onlyNodeLocal : bool) (endpoints : list BaseEndpointInfo)
    : list BaseEndpointInfo * gset string * gset string :=
  match px_svcPortMap p !! spn with
  | None => (endpoints, px_noLocalInternal p, px_noLocalExternal p)
  | Some info =>
      let cat := CategorizeEndpoints endpoints (spi_base info) (px_nodeLabels p) in
      if onlyNodeLocal then
        if (0 <? length (cat_local cat))%nat then (cat_local cat, px_noLocalInternal p, px_noLocalExternal p)
        else (cat_cluster cat,
              if cat_hasAny cat && bsp_internalPolicyLocal (spi_base info)
              then {[NN_String (spn_nn spn)]} ∪ px_noLocalInternal p else px_noLocalInternal p,
              if cat_hasAny cat && bsp_externalPolicyLocal (spi_base info)
              then {[NN_String (spn_nn spn)]} ∪ px_noLocalExternal p else px_noLocalExternal p)
      else (cat_cluster cat, px_noLocalInternal p, px_noLocalExternal p)
  end.

(** [net.SplitHostPort], [strconv.Atoi] and [ParseIPSloppy] on an endpoint. *)
Definition parse_dest (ep : string) (weight : Z) : option RealServer :=
  match SplitHostPort ep with
  | Ret (ip, port) => match Atoi port with
                      | Ret n => Some (mkRS (ParseIPSloppy ip) (wrapu16 n) weight 0 0)
                      | _ => None
                      end
  | _ => None
  end.

Definition reset_weights (w : W) (applied : VirtualServer) (curDests : list RealServer) (newDest : RealServer) : W :=
  foldl (λ w dest, if negb (rs_Weight dest =? rs_Weight newDest) then fst (UpdateRealServer w applied newDest) else w)
    w curDests.

(** One new endpoint. *)
Definition create_endpoint (vs applied : VirtualServer) (initialSync : bool) (curDests : list RealServer)
    (curEndpoints : gset string) (st : W * rsList) (ep : string) : W * rsList :=
  let '(w, q) := st in
  match parse_dest ep 1 with
  | None => (w, q)
  | Some newDest =>
      if bool_decide (ep ∈ curEndpoints) then
        let w := if initialSync then reset_weights w applied curDests newDest else w in
        let uniqueRS := GetUniqueRSName vs newDest in
        if negb (InTerminationList q uniqueRS) then (w, q)
        else match MoveRSOutofGracefulDeleteList w q uniqueRS with
             | (w, q, Some _) => (w, q)
             | (w, q, None) => (fst (AddRealServer w applied newDest), q)
             end
      else (fst (AddRealServer w applied newDest), q)
  end.

(** One endpoint that is not wanted any more. *)
Definition delete_endpoint (vs applied : VirtualServer) (st : W * rsList) (ep : string) : W * rsList :=
  let '(w, q) := st in
  let uniqueRS := VS_String vs +:+ "/" +:+ ep in
  if InTerminationList q uniqueRS then (w, q)
  else match parse_dest ep 0 with
       | None => (w, q)
       | Some delDest => fst (GracefulDeleteRS w q applied delDest)
       end.

Definition syncEndpoint (p : Proxier) (w : W) (spn : ServicePortName) (onlyNodeLocal : bool) (vs : VirtualServer)
    : Proxier * W * option string :=
  match GetVirtualServer w vs with
  | inr e => (p, w, Some e)
  | inl None => (p, w, Some "IPVS virtual service does not exist")
  | inl (Some applied) =>
      match GetRealServers w applied with
      | inr e => (p, w, Some e)
      | inl curDests =>
          let curEndpoints : gset string := list_to_set (RS_String <$> curDests) in
          match px_endpointsMap p !! spn with
          | None => (p, w, None)
          | Some endpoints =>
              let '(selected, int, ext) := select_endpoints p spn onlyNodeLocal endpoints in
              let newEndpoints : gset string := list_to_set (bei_Endpoint <$> selected) in
              let st := foldl (create_endpoint vs applied (px_initialSync p) curDests curEndpoints)
                          (w, px_rsList p) (sort_strings (UnsortedList newEndpoints)) in
              let '(w, q) := foldl (delete_endpoint vs applied) st (UnsortedList (curEndpoints ∖ newEndpoints)) in
              (with_list q int ext p, w, None)
          end
      end
  end.

(** ** Removal of virtual servers that are not active *)
Definition isIPInExcludeCIDRs (p : Proxier) (ip : IP) : bool := existsb (λ c, Contains c ip) (px_excludeCIDRs p).
Definition getIPFamily (ip : IP) : string := if netutils_IsIPv4 ip then "IPv4" else "IPv6".

Definition clean_service (p : Proxier) (activeServices : gset string) (w : W) (cs : string * VirtualServer) : W :=
  let '(name, svc) := cs in
  if isIPInExcludeCIDRs p (vs_Address svc) then w
  else if bool_decide (getIPFamily (vs_Address svc) ≠ px_ipFamily p) then w
  else if bool_decide (name ∈ activeServices) then w
  else fst (DeleteVirtualServer w svc).

Definition cleanLegacyService (p : Proxier) (w : W) (activeServices : gset string)
    (currentServices : gmap string VirtualServer) : W :=
  foldl (clean_service p activeServices) w (go_range currentServices).

(** ** [syncProxyRules] *)
Definition lower_char (c : ascii) : ascii :=
  let v := char_val c in if (65 <=? v) && (v <=? 90) then ascii_of_N (Z.to_N (v + 32)) else c.
Fixpoint ToLower (s : string) : string :=
  match s with EmptyString => EmptyString | String c s' => String (lower_char c) (ToLower s') end.

Definition insert_entry (sets : gmap string IPSet) (name : string) (entry : IPSetEntry) : outcome (gmap string IPSet * bool) :=
  set ← deref (sets !! name);
  if validateEntry set entry then Ret (<[name := insertEntry set (Entry_String entry)]> sets, true) else Ret (sets, false).

(** The local endpoints of a service port, for traffic that loops back. *)
Fixpoint loopback_entries (protocol : string) (eps : list BaseEndpointInfo) (sets : gmap string IPSet) : outcome (gmap string IPSet) :=
  match eps with
  | [] => Ret sets
  | ep :: rest =>
      let epIP := IPPart (bei_Endpoint ep) in
      match bei_IsLocal ep, PortPart (bei_Endpoint ep) with
      | true, Ret epPort =>
          if bool_decide (epIP = EmptyString) then loopback_entries protocol rest sets
          else '(sets, _) ← insert_entry sets kubeLoopBackIPSet (mkEntry epIP epPort protocol epIP HashIPPortIP);
               loopback_entries protocol rest sets
      | _, _ => loopback_entries protocol rest sets
      end
  end.

(** The virtual server of a service port. *)
Definition virtual_server (p : Proxier) (info : servicePortInfo) : VirtualServer :=
  let b := spi_base info in
  let flags := if bool_decide (bsp_sessionAffinityType b = "ClientIP") then FlagPersistent else 0 in
  let timeout := if bool_decide (bsp_sessionAffinityType b = "ClientIP") then bsp_stickyMaxAgeSeconds b mod 2 ^ 32 else 0 in
  let flags := if bool_decide (px_ipvsScheduler p = "mh") then Z.lor flags FlagSourceHash else flags in
  mkVS (bsp_clusterIP b) (bsp_protocol b) (wrapu16 (bsp_port b)) (px_ipvsScheduler p) flags timeout.

Record syncState := mkSync { sy_p : Proxier; sy_w : W; sy_active : gset string; sy_bind : gset string }.

Definition sync_one (alreadyBoundAddrs : option (gset string)) (st : syncState) (spn : ServicePortName) (info : servicePortInfo)
    : outcome syncState :=
  let p := sy_p st in
  let protocol := ToLower (bsp_protocol (spi_base info)) in
  sets ← loopback_entries protocol (default [] (px_endpointsMap p !! spn)) (px_ipsetList p);
  '(sets, valid) ← insert_entry sets kubeClusterIPSet
    (mkEntry (IP_String (bsp_clusterIP (spi_base info))) (bsp_port (spi_base info)) protocol EmptyString HashIPPort);
  let p := with_sets sets p in
  if negb valid then Ret (mkSync p (sy_w st) (sy_active st) (sy_bind st))
  else
    let serv := virtual_server p info in
    match syncService (sy_w st) serv true alreadyBoundAddrs with
    | (w, Some _) => Ret (mkSync p w (sy_active st) (sy_bind st))
    | (w, None) =>
        let '(p, w, _) := syncEndpoint p w spn (bsp_internalPolicyLocal (spi_base info)) serv in
        Ret (mkSync p w ({[VS_String serv]} ∪ sy_active st) ({[IP_String (vs_Address serv)]} ∪ sy_bind st))
    end.

Fixpoint sync_services (bound : option (gset string)) (svcs : list (ServicePortName * servicePortInfo)) (st : syncState)
    : outcome syncState :=
  match svcs with
  | [] => Ret st
  | (spn, info) :: rest => st ← sync_one bound st spn info; sync_services bound rest st
  end.

(** Every set is made sure to exist and emptied; the first failure ends the
    sync. *)
Fixpoint ensure_sets (sets : list (string * IPSet)) (w : W) (acc : gmap string IPSet) : W * gmap string IPSet * bool :=
  match sets with
  | [] => (w, acc, true)
  | (name, set) :: rest =>
      match ensureIPSet w set with
      | (w, Some _) => (w, acc, false)
      | (w, None) => ensure_sets rest w (<[name := resetEntries set]> acc)
      end
  end.

Definition unbind_all (w : W) (addrs : list string) : W := foldl (λ w a, fst (UnbindAddress w a defaultDummyDevice)) w addrs.

(** The part after the services: IP sets, addresses, legacy services, health. *)
Definition finish_sync (bound : option (gset string)) (st : syncState) : outcome (Proxier * W) :=
  let p := sy_p st in
  ipvsSet ← deref (px_ipsetList p !! kubeIPVSSet);
  let sets := <[kubeIPVSSet := mkIPSet (is_IPSet ipvsSet) (sy_bind st)]> (px_ipsetList p) in
  let w := foldl (λ w ns, syncIPSetEntries w (snd ns)) (sy_w st) (go_range sets) in
  let w := unbind_all w (UnsortedList (default ∅ bound ∖ sy_bind st)) in
  let current : gmap string VirtualServer :=
    match GetVirtualServers w with
    | inl l => foldl (λ m vs, <[VS_String vs := vs]> m) ∅ l
    | inr _ => ∅
    end in
  let w := cleanLegacyService p w (sy_active st) current in
  Ret (with_health (HealthCheckNodePorts (px_svcPortMap p)) (LocalReadyEndpoints (px_endpointsMap p)) (with_sets sets p), w).

(** The deferred [initialSync = false]. *)
Definition end_initialSync (p : Proxier) : Proxier :=
  with_flags (px_nodeLabels p) false (px_endpointSlicesSynced p) (px_servicesImportSynced p) (px_initialized p) p.

Definition syncProxyRules (p : Proxier) (w : W) : outcome (Proxier * W) :=
  if negb (px_initialized p) then Ret (p, w)
  else
    let '(svcs, sct, _) := ServicePortMap_Update (px_svcPortMap p) (px_serviceImportChanges p) in
    '(epm, ect, _) ← EndpointsMap_Update (px_endpointsMap p) (Some (px_endpointsChanges p));
    let p := with_list (px_rsList p) ∅ ∅ (with_maps svcs epm (with_changes (default (px_endpointsChanges p) ect) sct p)) in
    match EnsureDummyDevice w defaultDummyDevice with
    | (w, Some _) => Ret (end_initialSync p, w)
    | (w, None) =>
        let '(w, sets, ok) := ensure_sets (go_range (px_ipsetList p)) w (px_ipsetList p) in
        let p := with_sets sets p in
        if negb ok then Ret (end_initialSync p, w)
        else
          let bound := match GetLocalAddresses w defaultDummyDevice with inl s => Some s | inr _ => None end in
          st ← sync_services bound (go_range (px_svcPortMap p)) (mkSync p w ∅ ∅);
          '(p, w) ← finish_sync bound st;
          Ret (end_initialSync p, w)
    end.

(** ** Event handlers.  [true] asks the runner for a sync; the two [Synced]
    handlers sync at once. *)
Definition setInitialized (p : Proxier) (value slicesSynced importsSynced : bool) : Proxier :=
  with_flags (px_nodeLabels p) (px_initialSync p) slicesSynced importsSynced value p.

Definition OnServiceImportUpdate (p : Proxier) (old new : option ServiceImport) : outcome (Proxier * bool) :=
  '(sct, changed) ← SICT_Update (px_serviceImportChanges p) old new;
  let p := with_changes (px_endpointsChanges p) sct p in
  Ret (p, changed && px_initialized p).
Definition OnServiceImportAdd (p : Proxier) (si : ServiceImport) := OnServiceImportUpdate p None (Some si).
Definition OnServiceImportDelete (p : Proxier) (si : ServiceImport) := OnServiceImportUpdate p (Some si) None.

Definition OnEndpointSlice (p : Proxier) (slice : EndpointSlice) (remove : bool) : outcome (Proxier * bool) :=
  '(ect, changed) ← EndpointSliceUpdate (px_endpointsChanges p) (Some slice) remove;
  let p := with_changes ect (px_serviceImportChanges p) p in
  Ret (p, changed && px_initialized p).
Definition OnEndpointSliceAdd (p : Proxier) (slice : EndpointSlice) := OnEndpointSlice p slice false.
Definition OnEndpointSliceUpdate (p : Proxier) (slice : EndpointSlice) := OnEndpointSlice p slice false.
Definition OnEndpointSliceDelete (p : Proxier) (slice : EndpointSlice) := OnEndpointSlice p slice true.

Definition OnServiceImportSynced (p : Proxier) (w : W) : outcome (Proxier * W) :=
  syncProxyRules (setInitialized p (px_endpointSlicesSynced p) (px_endpointSlicesSynced p) true) w.
Definition OnEndpointSlicesSynced (p : Proxier) (w : W) : outcome (Proxier * W) :=
  syncProxyRules (setInitialized p (px_servicesImportSynced p) true (px_servicesImportSynced p)) w.

Definition set_nodeLabels (labels : GoMap) (p : Proxier) : Proxier :=
  with_flags labels (px_initialSync p) (px_endpointSlicesSynced p) (px_servicesImportSynced p) (px_initialized p) p.
(** [reflect.DeepEqual] tells a nil map from an empty one. *)
Definition OnNodeAdd (p : Proxier) (node : Node) : Proxier * bool :=
  if bool_decide (Name (node_meta node) ≠ px_hostname p) then (p, false)
  else if bool_decide (px_nodeLabels p = Labels (node_meta node)) then (p, false)
  else (set_nodeLabels (Some (mentries (Labels (node_meta node)))) p, true).
Definition OnNodeUpdate (p : Proxier) (_ node : Node) : Proxier * bool :=
  if bool_decide (Name (node_meta node) ≠ px_hostname p) then (p, false)
  else if bool_decide (px_nodeLabels p = Labels (node_meta node)) then (p, false)
  else (set_nodeLabels (Some (mentries (Labels (node_meta node)))) p, true).
Definition OnNodeDelete (p : Proxier) (node : Node) : Proxier * bool :=
  if bool_decide (Name (node_meta node) ≠ px_hostname p) then (p, false) else (set_nodeLabels None p, true).

(** The fields [NewProxier] sets. *)
Definition NewProxier (ipFamily hostname scheduler : string) (excludeCIDRs : list IPNet) (now : Time) : Proxier :=
  mkProxier ipFamily (NewEndpointChangeTracker hostname ipFamily now) (NewServiceImportChangeTracker ipFamily) ∅ ∅ None
    true false false false excludeCIDRs hostname
    (if bool_decide (scheduler = EmptyString) then "rr" else scheduler)
    (foldl (λ m '(name, setType, comment), <[name := NewIPSet name setType (bool_decide (ipFamily = "IPv6")) comment]> m) ∅ ipsetInfo)
    NewGracefulTerminationManager ∅ ∅ ∅ ∅.

(** ** What a sync of a service's endpoints achieves *)
Context `{!IpvsNames} `{!KernelLaws W} `{!ReliableKernel W}.

Definition listed (q : rsList) (v n : string) : Prop := is_Some (q !! (v +:+ "/" +:+ n)).

(** An endpoint string that comes back from the real server made of it. *)
Definition canonical (ep : string) : Prop :=
  match parse_dest ep 1 with Some rs => RS_String rs = ep | None => False end.
#[global] Instance canonical_dec ep : Decision (canonical ep).
Proof. unfold canonical. destruct (parse_dest ep 1); apply _. Defined.

(** The address and port of an endpoint survive the round trip through its
    string: the real server that [syncEndpoint] parses from the endpoint that the
    slice cache built with [net.JoinHostPort] has the same address and port,
    also for IPv6 addresses, which are put in brackets. *)
Theorem endpoint_roundtrip ip nodeName zone port isLocal ready serving terminating zoneHints weight :
  has_char "[" ip = false → has_char "]" ip = false → 0 ≤ port < 2 ^ 16 →
  parse_dest (bei_Endpoint (newBaseEndpointInfo ip nodeName zone port isLocal ready serving terminating zoneHints)) weight =
  Some (mkRS (ParseIPSloppy ip) port weight 0 0).
Proof.
  intros Ho Hc Hp. unfold parse_dest, newBaseEndpointInfo. cbn [bei_Endpoint].
  rewrite SplitHostPort_JoinHostPort by done. rewrite Atoi_Itoa by lia. unfold wrapu16. by rewrite Z.mod_small.
Qed.

Lemma parse_dest_weight ep z : parse_dest ep z = set_Weight z <$> parse_dest ep 1.
Proof. unfold parse_dest. repeat case_match; done. Qed.

Lemma canonical_parse ep z : canonical ep →
  ∃ rs, parse_dest ep z = Some rs ∧ RS_String rs = ep ∧ rs_Weight rs = z.
Proof.
  unfold canonical. rewrite (parse_dest_weight ep z). destruct (parse_dest ep 1) as [rs|]; [|done]. intros E.
  eexists. split; [done|]. split; [|done]. rewrite <- E. by apply RS_String_id.
Qed.

(** A step that touches only the real server [n] of [v] and its item. *)
Definition only_at (v n : string) (w : W) (q : rsList) (w' : W) (q' : rsList) : Prop :=
  kv_servers (kview w') = kv_servers (kview w) ∧
  (∀ v' n', (v', n') ≠ (v, n) → reals_of (kview w') v' !! n' = reals_of (kview w) v' !! n') ∧
  (∀ key, key ≠ v +:+ "/" +:+ n → q' !! key = q !! key) ∧ list_ok q'.

(** The real server takes traffic, or it takes none any more. *)
Definition in_service (v n : string) (w : W) (q : rsList) : Prop :=
  ¬ listed q v n ∧ ∃ r, reals_of (kview w) v !! n = Some r ∧ rs_Weight r = 1.
Definition out_of_service (v n : string) (w : W) (q : rsList) : Prop :=
  match reals_of (kview w) v !! n with None => ¬ listed q v n | Some r => rs_Weight r = 0 ∧ listed q v n end.

Lemma only_at_trans v n w q w1 q1 w2 q2 :
  only_at v n w q w1 q1 → only_at v n w1 q1 w2 q2 → only_at v n w q w2 q2.
Proof.
  intros (A1 & A2 & A3 & A4) (B1 & B2 & B3 & B4). split_and!; [congruence|..|done].
  - intros v' n' Hne. by rewrite B2, A2.
  - intros key Hk. by rewrite B3, A3.
Qed.

Lemma only_at_effect v n w q r f : list_ok q → snd r = None → effect kview w r (with_reals v f) →
  (∀ m n', n' ≠ n → f m !! n' = m !! n') → only_at v n w q (fst r) q.
Proof.
  intros Hok Hr Heff Hf. unfold effect in Heff. rewrite Hr in Heff. unfold only_at. rewrite Heff.
  split_and!; [done| |done|done]. by apply with_reals_at.
Qed.

Section one_server.
Context (vs applied : VirtualServer) (Happlied : VS_String applied = VS_String vs).
Let v := VS_String vs.

Lemma add_ok w q ep rs : is_Some (kv_servers (kview w) !! v) → list_ok q →
  RS_String rs = ep → rs_Weight rs = 1 → reals_of (kview w) v !! ep = None → ¬ listed q v ep →
  let w' := fst (AddRealServer w applied rs) in only_at v ep w q w' q ∧ in_service v ep w' q.
Proof.
  intros Hs Hok Hn Hw Hnone Hl w'. pose proof (AddRealServer_ok w applied rs) as Heff. rewrite Happlied in Heff.
  assert (Hlive : snd (AddRealServer w applied rs) = None).
  { apply AddRealServer_live; rewrite Happlied; [done|by rewrite Hn]. }
  split.
  - eapply only_at_effect; [done|done|exact Heff|]. intros m n' Hne. rewrite Hn. by apply lookup_insert_ne.
  - split; [done|]. exists rs. split; [|done]. unfold effect in Heff. rewrite Hlive in Heff. unfold w'. rewrite Heff.
    rewrite reals_of_with, decide_True by done. rewrite Hn. apply lookup_insert_eq.
Qed.

(** The weight after the reset of the first sync is 1. *)
Lemma reset_ok w q ep newDest dests r : is_Some (kv_servers (kview w) !! v) → list_ok q →
  RS_String newDest = ep → rs_Weight newDest = 1 → reals_of (kview w) v !! ep = Some r →
  let w' := reset_weights w applied dests newDest in
  only_at v ep w q w' q ∧
  ∃ r', reals_of (kview w') v !! ep = Some r' ∧ (rs_Weight r' = 1 ∨ (r' = r ∧ Forall (λ d, rs_Weight d = 1) dests)).
Proof.
  intros Hs Hok Hn Hw. revert w r Hs. induction dests as [|d dests IH]; intros w r Hs Hr.
  { split; [by split_and!|]. exists r. split; [exact Hr|]. right. by split. }
  change (reset_weights w applied (d :: dests) newDest) with
    (reset_weights (if negb (rs_Weight d =? rs_Weight newDest) then fst (UpdateRealServer w applied newDest) else w)
       applied dests newDest).
  rewrite Hw. destruct (Z.eqb_spec (rs_Weight d) 1) as [Hd|Hd]; cbn [negb].
  - destruct (IH w r Hs Hr) as [Hat (r' & Hr' & Hcase)]. split; [done|]. exists r'. split; [done|].
    destruct Hcase as [?|[? ?]]; [by left|]. right. by split; [|constructor].
  - pose proof (UpdateRealServer_ok w applied newDest) as Heff. rewrite Happlied, Hn in Heff.
    assert (Hlive : snd (UpdateRealServer w applied newDest) = None).
    { apply UpdateRealServer_live; rewrite Happlied; [done|]. rewrite Hn. fold v. by rewrite Hr. }
    assert (Hat : only_at v ep w q (fst (UpdateRealServer w applied newDest)) q).
    { eapply only_at_effect; [done|done|exact Heff|]. intros. by apply lookup_alter_ne. }
    assert (Hr1 : reals_of (kview (fst (UpdateRealServer w applied newDest))) v !! ep = Some (set_Weight 1 r)).
    { unfold effect in Heff. rewrite Hlive in Heff. rewrite Heff, reals_of_with, decide_True, lookup_alter_eq by done.
      fold v. by rewrite Hr, Hw. }
    destruct (IH _ _ ltac:(by rewrite (proj1 Hat)) Hr1) as [Hat' (r' & Hr' & Hcase)].
    split; [by eapply only_at_trans|]. exists r'. split; [done|]. left.
    destruct Hcase as [?|[-> _]]; done.
Qed.
Lemma unique_name ep rs : RS_String rs = ep → GetUniqueRSName vs rs = v +:+ "/" +:+ ep.
Proof. unfold GetUniqueRSName. by intros ->. Qed.

Lemma move_ok w q ep rs : is_Some (kv_servers (kview w) !! v) → list_ok q → RS_String rs = ep →
  listed q v ep → is_Some (reals_of (kview w) v !! ep) →
  ∃ w' q', MoveRSOutofGracefulDeleteList w q (GetUniqueRSName vs rs) = (w', q', None) ∧
    only_at v ep w q w' q' ∧ reals_of (kview w') v !! ep = None ∧ ¬ listed q' v ep.
Proof.
  intros Hs Hok Hn [it Hit] Hr. rewrite (unique_name ep rs Hn). unfold MoveRSOutofGracefulDeleteList, rsList_exist.
  rewrite Hit. pose proof (Hok _ _ Hit) as Hnm. simpl in Hnm. rewrite <- (unique_name ep rs Hn) in Hnm.
  destruct (unique_names _ _ _ _ Hnm) as [Hv Hrs].
  pose proof (DeleteRealServer_ok w (li_VirtualServer it) (li_RealServer it)) as Heff. rewrite Hv, Hrs, Hn in Heff. fold v in Heff.
  assert (Hlive : snd (DeleteRealServer w (li_VirtualServer it) (li_RealServer it)) = None).
  { apply DeleteRealServer_live; rewrite Hv; [done|]. by rewrite Hrs, Hn. }
  destruct (DeleteRealServer w _ _) as [w1 e1] eqn:Ed. simpl in Hlive. subst e1.
  eexists _, _. split; [done|]. unfold rsList_remove. rewrite Hnm, (unique_name ep rs Hn), Hit. simpl.
  split_and!.
  - destruct (only_at_effect v ep w q (w1, None) _ Hok eq_refl Heff ltac:(intros; by apply lookup_delete_ne)) as (B1 & B2 & _ & _).
    split_and!; [done|done| |by apply map_Forall_delete]. intros key Hk. by apply lookup_delete_ne.
  - unfold effect in Heff. simpl in Heff. rewrite Heff, reals_of_with, decide_True by done. apply lookup_delete_eq.
  - unfold listed. rewrite lookup_delete_eq. by intros [? ?].
Qed.

(** What is known of an endpoint before it is handled. *)
Definition fresh_at (initialSync : bool) (curDests : list RealServer) (ep : string) (w : W) (q : rsList) : Prop :=
  is_Some (kv_servers (kview w) !! v) ∧ list_ok q ∧
  (listed q v ep → ∃ r, reals_of (kview w) v !! ep = Some r ∧ rs_Weight r = 0) ∧
  (∀ r, reals_of (kview w) v !! ep = Some r → r ∈ curDests) ∧
  (initialSync = true ∨ ∀ r, reals_of (kview w) v !! ep = Some r → ¬ listed q v ep → rs_Weight r = 1).

Lemma create_endpoint_ok initialSync curDests curEndpoints ep w q :
  fresh_at initialSync curDests ep w q → canonical ep →
  (ep ∈ curEndpoints ↔ is_Some (reals_of (kview w) v !! ep)) →
  let '(w', q') := create_endpoint vs applied initialSync curDests curEndpoints (w, q) ep in
  only_at v ep w q w' q' ∧ in_service v ep w' q'.
Proof.
  intros (Hs & Hok & Hlst & Hdst & Hinit) Hcan Hcur. unfold create_endpoint.
  destruct (canonical_parse ep 1 Hcan) as (rs & -> & Hn & Hw). case_bool_decide as Hin.
  2:{ destruct (reals_of (kview w) v !! ep) eqn:Hr; [exfalso; apply Hin, Hcur; eauto|]. apply add_ok; try done.
      intros Hl. destruct (Hlst Hl) as (r & Hr' & _). congruence. }
  apply Hcur in Hin as [r Hr].
  assert (∃ w1, (if initialSync then reset_weights w applied curDests rs else w) = w1 ∧ only_at v ep w q w1 q ∧
    ∃ r1, reals_of (kview w1) v !! ep = Some r1 ∧ (¬ listed q v ep → rs_Weight r1 = 1)) as (w1 & -> & Hat & r1 & Hr1 & Hw1).
  { destruct initialSync.
    - destruct (reset_ok w q ep rs curDests r Hs Hok Hn Hw Hr) as (Hat & r' & Hr' & Hcase).
      eexists. split; [done|]. split; [done|]. exists r'. split; [done|]. intros _.
      destruct Hcase as [?|[-> Hall]]; [done|]. rewrite Forall_forall in Hall. apply Hall, Hdst, Hr.
    - exists w. split; [done|]. split; [by split_and!|]. exists r. split; [done|]. destruct Hinit as [|Hi]; [done|].
      by apply Hi. }
  rewrite (unique_name ep rs Hn). unfold InTerminationList, rsList_exist. case_bool_decide as Hl; cbn [negb].
  - destruct (move_ok w1 q ep rs) as (w2 & q2 & Hm & Hat2 & Hnone & Hnl); try done.
    { by rewrite (proj1 Hat). }
    rewrite (unique_name ep rs Hn) in Hm. rewrite Hm.
    destruct (add_ok w2 q2 ep rs) as [Hat3 Hserv]; try done.
    { by rewrite (proj1 Hat2), (proj1 Hat). }
    { apply Hat2. }
    split; [|done]. eapply only_at_trans; [exact Hat|]. by eapply only_at_trans.
  - split; [done|]. split; [done|]. exists r1. split; [done|]. by apply Hw1.
Qed.

Lemma delete_endpoint_ok initialSync curDests ep w q :
  fresh_at initialSync curDests ep w q → canonical ep →
  let '(w', q') := delete_endpoint vs applied (w, q) ep in
  only_at v ep w q w' q' ∧ out_of_service v ep w' q'.
Proof.
  intros (Hs & Hok & Hlst & _ & _) Hcan. unfold delete_endpoint, InTerminationList, rsList_exist. fold v.
  case_bool_decide as Hl.
  { split; [by split_and!|]. unfold out_of_service. destruct (Hlst Hl) as (r & -> & Hr). by split. }
  destruct (canonical_parse ep 0 Hcan) as (rs & -> & Hn & _).
  destruct (GracefulDeleteRS_live w q applied rs ltac:(by rewrite Happlied)) as (w' & q' & E & Hgone).
  rewrite E. cbn [fst]. rewrite Happlied, Hn in Hgone. fold v in Hgone.
  pose proof (GracefulDeleteRS_effect _ _ _ _ _ _ E Hok) as (G1 & G2 & G3 & G4 & G5).
  rewrite Happlied, Hn in G1, G2. fold v in G1, G2.
  assert (Hname : GetUniqueRSName applied rs = v +:+ "/" +:+ ep).
  { unfold GetUniqueRSName. by rewrite Happlied, Hn. }
  rewrite Hname in G1, G3. split; [by split_and!|]. unfold out_of_service.
  destruct (reals_of (kview w') v !! ep); [done|]. by rewrite Hgone.
Qed.
End one_server.

(** ** Loops over distinct endpoints of one virtual server *)
Definition only_in (v : string) (l : list string) (w : W) (q : rsList) (w' : W) (q' : rsList) : Prop :=
  kv_servers (kview w') = kv_servers (kview w) ∧
  (∀ v' n', v' ≠ v ∨ n' ∉ l → reals_of (kview w') v' !! n' = reals_of (kview w) v' !! n') ∧
  (∀ key, Forall (λ n, key ≠ v +:+ "/" +:+ n) l → q' !! key = q !! key) ∧ list_ok q'.

(** The endpoint [ep] of [v] and its item look the same. *)
Definition same_at (v ep : string) (w : W) (q : rsList) (w' : W) (q' : rsList) : Prop :=
  reals_of (kview w') v !! ep = reals_of (kview w) v !! ep ∧ (listed q' v ep ↔ listed q v ep) ∧
  kv_servers (kview w') = kv_servers (kview w) ∧ list_ok q'.
Definition local_to (v : string) (P : string → W → rsList → Prop) : Prop :=
  ∀ ep w q w' q', same_at v ep w q w' q' → P ep w q → P ep w' q'.

Lemma name_inj v n n' : v +:+ "/" +:+ n = v +:+ "/" +:+ n' → n = n'.
Proof. intros E. apply (inj (String.append v)) in E. by apply (inj (String.append "/")) in E. Qed.

Lemma only_at_same v n w q w' q' ep : n ≠ ep → only_at v n w q w' q' → same_at v ep w q w' q'.
Proof.
  intros Hne (A1 & A2 & A3 & A4). unfold same_at, listed. rewrite A3; [|by intros E%name_inj].
  split_and!; [apply A2; congruence|done..].
Qed.

Lemma only_in_same v l w q w' q' ep : ep ∉ l → only_in v l w q w' q' → same_at v ep w q w' q'.
Proof.
  intros Hne (A1 & A2 & A3 & A4). unfold same_at, listed. rewrite A3.
  - split_and!; [apply A2; by right|done..].
  - apply Forall_forall. intros n Hn E%name_inj. by subst.
Qed.

Lemma in_service_local v : local_to v (in_service v).
Proof. intros ep w q w' q' (E1 & E2 & _) [Hl Hr]. split; [by rewrite E2|by rewrite E1]. Qed.

Lemma out_of_service_local v : local_to v (out_of_service v).
Proof.
  intros ep w q w' q' (E1 & E2 & _). unfold out_of_service. rewrite E1. case_match; by rewrite E2.
Qed.

Lemma fresh_at_local vs i d : local_to (VS_String vs) (fresh_at vs i d).
Proof.
  intros ep w q w' q' (E1 & E2 & E3 & E4) (F1 & F2 & F3 & F4 & F5).
  unfold fresh_at. rewrite E1, E3. setoid_rewrite E2. by split_and!.
Qed.

Lemma foldl_endpoints v (f : W * rsList → string → W * rsList) (pre post : string → W → rsList → Prop) l w q :
  local_to v pre → local_to v post → NoDup l → list_ok q →
  (∀ ep w q, ep ∈ l → pre ep w q → let '(w', q') := f (w, q) ep in only_at v ep w q w' q' ∧ post ep w' q') →
  (∀ ep, ep ∈ l → pre ep w q) →
  let '(w', q') := foldl f (w, q) l in only_in v l w q w' q' ∧ ∀ ep, ep ∈ l → post ep w' q'.
Proof.
  intros Lpre Lpost. revert w q. induction l as [|ep l IH]; intros w q Hnd Hok Hstep Hpre; cbn [foldl].
  { split; [|by intros ep ?%elem_of_nil]. split_and!; done. }
  apply NoDup_cons in Hnd as [Hni Hnd].
  pose proof (Hstep ep w q ltac:(by left) (Hpre ep ltac:(by left))) as Hone.
  destruct (f (w, q) ep) as [w1 q1]. destruct Hone as [Hat Hpost].
  specialize (IH w1 q1 Hnd ltac:(apply Hat) ltac:(intros; apply Hstep; [by right|done])
    ltac:(intros ep' Hin; eapply Lpre; [eapply only_at_same; [|exact Hat]; by intros ->|apply Hpre; by right])).
  destruct (foldl f (w1, q1) l) as [w' q']. destruct IH as [Hin Hall]. split.
  - destruct Hat as (A1 & A2 & A3 & A4), Hin as (I1 & I2 & I3 & I4). split_and!; [congruence|..|done].
    + intros v' n' Hvn. rewrite not_elem_of_cons in Hvn. rewrite I2, A2; [done|naive_solver..].
    + intros key Hk. apply Forall_cons in Hk as [Hk1 Hk2]. by rewrite I3, A3.
  - intros ep' [->|?]%elem_of_cons; [|by apply Hall]. eapply Lpost; [by eapply only_in_same|done].
Qed.

(** The real servers of [v] between two syncs: each one is in service or on its
    way out; before the first sync nothing is known of those that are not
    listed. *)
Definition steady (initialSync : bool) (v : string) (w : W) (q : rsList) : Prop :=
  list_ok q ∧
  ∀ n, (listed q v n → out_of_service v n w q) ∧ (initialSync = true ∨ in_service v n w q ∨ out_of_service v n w q).

Lemma steady_start v w : steady true v w ∅.
Proof.
  split; [apply list_ok_empty|]. intros n. unfold listed. rewrite lookup_empty. split; [by intros [? ?]|by left].
Qed.

Lemma steady_fresh i vs w q l ep : steady i (VS_String vs) w q → is_Some (kv_servers (kview w) !! VS_String vs) →
  (∀ r, reals_of (kview w) (VS_String vs) !! ep = Some r → r ∈ l) → fresh_at vs i l ep w q.
Proof.
  intros [Hok Hst] Hs Hl. destruct (Hst ep) as [H6 H7]. split_and!; [done|done| |done|].
  - intros Hlst. specialize (H6 Hlst). unfold out_of_service in H6. destruct (reals_of _ _ !! _) as [r|]; [|done].
    exists r. naive_solver.
  - destruct H7 as [->|[[Hn Hr]|Ho]]; [by left|right|right]; intros r Hrr Hnl; [naive_solver|].
    unfold out_of_service in Ho. rewrite Hrr in Ho. naive_solver.
Qed.

(** The two loops of [syncEndpoint], from the current endpoints [cur] to the
    new ones. *)
Lemma endpoint_loops vs applied i dests (cur new : gset string) w q :
  let v := VS_String vs in VS_String applied = v →
  list_ok q → (∀ ep, fresh_at vs i dests ep w q) →
  (∀ n, n ∈ cur ↔ is_Some (reals_of (kview w) v !! n)) → (∀ n, n ∈ new ∨ n ∈ cur → canonical n) →
  let st := foldl (create_endpoint vs applied i dests cur) (w, q) (sort_strings (UnsortedList new)) in
  let '(w', q') := foldl (delete_endpoint vs applied) st (UnsortedList (cur ∖ new)) in
  list_ok q' ∧ (∀ v' n, v' ≠ v → reals_of (kview w') v' !! n = reals_of (kview w) v' !! n) ∧
  (∀ n, if bool_decide (n ∈ new) then in_service v n w' q' else out_of_service v n w' q') ∧
  (∀ key, (∀ n, n ∈ new ∨ n ∈ cur → key ≠ v +:+ "/" +:+ n) → q' !! key = q !! key).
Proof.
  intros v Ha Hok Hfresh Hcur Hcan. cbv zeta.
  assert (Hnew : ∀ n, n ∈ sort_strings (UnsortedList new) ↔ n ∈ new).
  { intros n. by rewrite sort_strings_perm, elem_of_UnsortedList. }
  pose proof (foldl_endpoints v (create_endpoint vs applied i dests cur)
    (λ ep w q, fresh_at vs i dests ep w q ∧ (ep ∈ cur ↔ is_Some (reals_of (kview w) v !! ep))) (in_service v)
    (sort_strings (UnsortedList new)) w q) as Hc1.
  destruct (foldl _ (w, q) _) as [w1 q1]. destruct Hc1 as [Hin1 Hs1].
  - intros ep w0 q0 w0' q0' Hsame [F G]. split; [by eapply fresh_at_local|]. by rewrite (proj1 Hsame).
  - apply in_service_local.
  - rewrite sort_strings_perm. apply NoDup_UnsortedList.
  - done.
  - intros ep w0 q0 Hep%Hnew [F G]. apply create_endpoint_ok; [done|done|apply Hcan; by left|done].
  - intros ep _. by split.
  - pose proof (foldl_endpoints v (delete_endpoint vs applied) (fresh_at vs i dests) (out_of_service v)
      (UnsortedList (cur ∖ new)) w1 q1) as Hc2.
    destruct (foldl _ (w1, q1) _) as [w' q']. destruct Hc2 as [Hin2 Hs2].
    + apply fresh_at_local.
    + apply out_of_service_local.
    + apply NoDup_UnsortedList.
    + apply Hin1.
    + intros ep w0 q0 Hep F. apply (delete_endpoint_ok vs applied Ha i dests); [done|]. apply Hcan. right.
      apply elem_of_UnsortedList in Hep. set_solver +Hep.
    + intros ep Hep%elem_of_UnsortedList. eapply fresh_at_local; [|apply Hfresh]. eapply only_in_same; [|exact Hin1].
      rewrite Hnew. set_solver +Hep.
    + split_and!; [apply Hin2|..].
      * intros v' n Hv. rewrite (proj1 (proj2 Hin2)) by by left. by rewrite (proj1 (proj2 Hin1)) by by left.
      * intros n. case_bool_decide as Hn.
        -- eapply in_service_local; [|apply Hs1; by apply Hnew]. eapply only_in_same; [|exact Hin2].
           rewrite elem_of_UnsortedList. set_solver +Hn.
        -- destruct (decide (n ∈ cur)) as [Hc|Hc]; [apply Hs2, elem_of_UnsortedList; set_solver +Hn Hc|].
           eapply out_of_service_local; [eapply only_in_same; [|exact Hin2]; rewrite elem_of_UnsortedList; set_solver +Hc|].
           eapply out_of_service_local; [eapply only_in_same; [by rewrite Hnew|exact Hin1]|].
           unfold out_of_service. rewrite Hcur in Hc. destruct (reals_of (kview w) v !! n) eqn:Hr; [by destruct Hc|].
           destruct (Hfresh n) as (_ & _ & Hl & _). intros Hlst. destruct (Hl Hlst) as (r & Hr' & _).
           unfold v in Hr. congruence.
      * intros key Hkey. destruct Hin1 as (_ & _ & K1 & _), Hin2 as (_ & _ & K2 & _).
        rewrite K2; [apply K1|]; apply Forall_forall; intros n Hn; apply Hkey; [left; by apply Hnew|right].
        apply elem_of_UnsortedList in Hn. set_solver +Hn.
Qed.

(** What a sync of the endpoints of [vs] achieves: the selected ones are in service,
    all others are not, and nothing but the items of the endpoints [new] and of the
    real servers of [vs] changes on the termination list. *)
Definition endpoints_synced (vs : VirtualServer) (new : gset string) (p : Proxier) (w : W) (p' : Proxier) (w' : W) : Prop :=
  let v := VS_String vs in
  (∀ n, if bool_decide (n ∈ new) then in_service v n w' (px_rsList p') else out_of_service v n w' (px_rsList p')) ∧
  (∀ v' n, v' ≠ v → reals_of (kview w') v' !! n = reals_of (kview w) v' !! n) ∧
  steady false v w' (px_rsList p') ∧
  (∀ key, (∀ n, n ∈ new ∨ is_Some (reals_of (kview w) v !! n) → key ≠ v +:+ "/" +:+ n) → px_rsList p' !! key = px_rsList p !! key) ∧
  ∃ q int ext, p' = with_list q int ext p.

Lemma syncEndpoint_synced p w spn onlyNodeLocal vs endpoints :
  let v := VS_String vs in
  let new : gset string := list_to_set (bei_Endpoint <$> (select_endpoints p spn onlyNodeLocal endpoints).1.1) in
  px_endpointsMap p !! spn = Some endpoints →
  is_Some (kv_servers (kview w) !! v) →
  steady (px_initialSync p) v w (px_rsList p) →
  (∀ n, n ∈ new ∨ is_Some (reals_of (kview w) v !! n) → canonical n) →
  let '(p', w', err) := syncEndpoint p w spn onlyNodeLocal vs in err = None ∧ endpoints_synced vs new p w p' w'.
Proof.
  intros v new Heps [a Ha] Hst Hcan. unfold syncEndpoint.
  rewrite (GetVirtualServer_live _ _ _ Ha). pose proof (servers_named _ _ _ Ha) as Hav.
  destruct (GetRealServers_live w a) as [dests Hd]; [by rewrite Hav, Ha|]. rewrite Hd, Heps.
  destruct (select_endpoints p spn onlyNodeLocal endpoints) as [[selected int] ext]. cbn [fst] in new. fold new.
  set (cur := list_to_set (RS_String <$> dests) : gset string).
  assert (Hcur : ∀ n, n ∈ cur ↔ is_Some (reals_of (kview w) v !! n)).
  { intros n. unfold cur. rewrite elem_of_list_to_set, list_elem_of_fmap. split.
    - intros (r & -> & Hr). rewrite (reals_listed _ _ _ _ Hd), Hav in Hr. fold v in Hr. by rewrite Hr.
    - intros [r Hr]. pose proof (reals_named _ _ _ _ Hr) as Hn. exists r. split; [done|].
      apply (reals_listed _ _ _ _ Hd). by rewrite Hav, Hn. }
  assert (Hfresh : ∀ ep, fresh_at vs (px_initialSync p) dests ep w (px_rsList p)).
  { intros ep. apply steady_fresh; [done|eauto|]. intros r Hr.
    pose proof (reals_named _ _ _ _ Hr) as Hn. apply (reals_listed _ _ _ _ Hd). by rewrite Hav, Hn. }
  pose proof (endpoint_loops vs a (px_initialSync p) dests cur new w (px_rsList p) Hav (proj1 Hst) Hfresh Hcur
    ltac:(intros n [?|?%Hcur]; apply Hcan; auto)) as Hloop. cbv zeta in Hloop.
  destruct (foldl (delete_endpoint vs a) _ _) as [w' q']. destruct Hloop as (L1 & L2 & L3 & L4).
  split; [done|]. split; [done|]. split; [done|]. split.
  { split; [done|]. intros n. specialize (L3 n). case_bool_decide as Hn; [split; [by destruct L3|auto]|auto]. }
  split; [|by eexists _, _, _]. intros key Hkey. apply L4. intros n [?|?%Hcur]; auto.
Qed.


(** After [syncEndpoint] exactly the selected endpoints get traffic.  With a
    kernel that answers and endpoints whose strings are in canonical form, the
    sync succeeds; every selected endpoint is a real server of weight 1 that is
    not on the termination list; every other real server of the virtual server
    has weight 0 and waits on the list for its connections, or is gone.  The
    real servers of other virtual servers are untouched, and the next sync
    starts from a state of the same kind. *)
Theorem syncEndpoint_serves p w spn onlyNodeLocal vs endpoints :
  let v := VS_String vs in
  let new : gset string := list_to_set (bei_Endpoint <$> (select_endpoints p spn onlyNodeLocal endpoints).1.1) in
  px_endpointsMap p !! spn = Some endpoints →
  is_Some (kv_servers (kview w) !! v) →
  steady (px_initialSync p) v w (px_rsList p) →
  (∀ n, n ∈ new ∨ is_Some (reals_of (kview w) v !! n) → canonical n) →
  let '(p', w', err) := syncEndpoint p w spn onlyNodeLocal vs in
  err = None ∧
  (∀ n, if bool_decide (n ∈ new) then in_service v n w' (px_rsList p') else out_of_service v n w' (px_rsList p')) ∧
  (∀ v' n, v' ≠ v → reals_of (kview w') v' !! n = reals_of (kview w) v' !! n) ∧
  steady false v w' (px_rsList p').
Proof.
  intros v new Heps Ha Hst Hcan. pose proof (syncEndpoint_synced _ _ _ _ _ _ Heps Ha Hst Hcan) as Hs.
  destruct (syncEndpoint p w spn onlyNodeLocal vs) as [[p' w'] err]. by destruct Hs as (-> & ? & ? & ? & _).
Qed.

(** ** Virtual servers *)

(** The virtual servers [cleanLegacyService] must leave alone. *)
Definition kept (p : Proxier) (active : gset string) (nv : string * VirtualServer) : bool :=
  isIPInExcludeCIDRs p (vs_Address (snd nv)) || bool_decide (getIPFamily (vs_Address (snd nv)) ≠ px_ipFamily p)
  || bool_decide (fst nv ∈ active).

Lemma clean_service_ok p active w n vs : kv_servers (kview w) !! n = Some vs →
  kview (clean_service p active w (n, vs)) =
    if kept p active (n, vs) then kview w else drop_reals n (with_servers (delete n) (kview w)).
Proof.
  intros Hn. unfold clean_service, kept. cbn [fst snd]. repeat case_match; subst; cbn [orb]; try done.
  pose proof (servers_named _ _ _ Hn) as Hv. pose proof (DeleteVirtualServer_ok w vs) as Heff. unfold effect in Heff.
  rewrite DeleteVirtualServer_live in Heff by (rewrite Hv; eauto). by rewrite Hv in Heff.
Qed.

Definition cleaned (p : Proxier) (active : gset string) (l : list (string * VirtualServer)) (k k' : KernelView) : Prop :=
  (∀ n vs, (n, vs) ∈ l → kv_servers k' !! n = if kept p active (n, vs) then Some vs else None) ∧
  (∀ n, n ∉ l.*1 → kv_servers k' !! n = kv_servers k !! n) ∧
  (∀ n, is_Some (kv_servers k' !! n) → reals_of k' n = reals_of k n) ∧
  kv_bound k' = kv_bound k ∧ kv_sets k' = kv_sets k.

Lemma clean_loop p active l w : NoDup l.*1 → (∀ n vs, (n, vs) ∈ l → kv_servers (kview w) !! n = Some vs) →
  cleaned p active l (kview w) (kview (foldl (clean_service p active) w l)).
Proof.
  revert w. induction l as [|[n vs] l IH]; intros w Hnd Hl; cbn [foldl].
  { split_and!; [set_solver|done..]. }
  rewrite fmap_cons, NoDup_cons in Hnd. destruct Hnd as [Hni Hnd]. cbn [fst] in Hni.
  pose proof (clean_service_ok p active w n vs (Hl n vs ltac:(by left))) as Hone.
  assert (Hother : ∀ n', n' ≠ n → kv_servers (kview (clean_service p active w (n, vs))) !! n' = kv_servers (kview w) !! n').
  { intros n' Hne. rewrite Hone. case_match; [done|]. cbn. by rewrite lookup_delete_ne. }
  assert (Hkey : ∀ n' vs', (n', vs') ∈ l → n' ≠ n).
  { intros n' vs' Hin ->. apply Hni, list_elem_of_fmap. by exists (n, vs'). }
  destruct (IH (clean_service p active w (n, vs))) as (I1 & I2 & I3 & I4 & I5); [done|..].
  { intros n' vs' Hin. rewrite Hother by by eapply Hkey. apply Hl. by right. }
  split_and!.
  - intros n' vs' [[= -> ->]|Hin]%elem_of_cons; [|by apply I1]. rewrite I2 by done. rewrite Hone.
    case_match; [apply Hl; by left|apply lookup_delete_eq].
  - intros n' Hn. rewrite fmap_cons, not_elem_of_cons in Hn. destruct Hn as [Hne Hn]. by rewrite I2, Hother.
  - intros n' Hs. rewrite I3 by done. rewrite Hone. case_match; [done|]. rewrite reals_of_drop. case_decide as He; [|done].
    subst n'. rewrite I2 in Hs by done. rewrite Hone in Hs. cbn in Hs. rewrite lookup_delete_eq in Hs. by destruct Hs.
  - rewrite I4, Hone. by case_match.
  - rewrite I5, Hone. by case_match.
Qed.

Lemma cleanLegacyService_view p w active :
  let k := kview w in let k' := kview (cleanLegacyService p w active (kv_servers k)) in
  kv_servers k' = filter (λ nv, kept p active nv = true) (kv_servers k) ∧
  (∀ n, is_Some (kv_servers k' !! n) → reals_of k' n = reals_of k n) ∧
  kv_bound k' = kv_bound k ∧ kv_sets k' = kv_sets k.
Proof.
  intros k k'. destruct (clean_loop p active (go_range (kv_servers k)) w) as (C1 & C2 & C3 & C4 & C5).
  - apply NoDup_go_range.
  - intros n vs Hin. by apply elem_of_go_range in Hin.
  - split; [|done]. apply map_eq. intros n. unfold k', cleanLegacyService. destruct (kv_servers k !! n) as [vs|] eqn:Hn.
    + rewrite (C1 n vs) by by apply elem_of_go_range. symmetry. destruct (kept p active (n, vs)) eqn:Hk.
      * by apply map_lookup_filter_Some.
      * apply map_lookup_filter_None. right. intros vs' Hvs. rewrite Hn in Hvs. simplify_eq. congruence.
    + rewrite C2; [fold k; rewrite Hn; symmetry; apply map_lookup_filter_None; by left|].
      intros ([m vs] & -> & Hin)%list_elem_of_fmap. apply elem_of_go_range in Hin. simpl in *. congruence.
Qed.

(** Removal of legacy services is exact.  Called with the virtual servers of
    the kernel, [cleanLegacyService] deletes those of its own address family
    that lie outside the excluded networks and are not active, and only those;
    the ones that stay keep their real servers, and no address or IP set is
    touched. *)
Theorem cleanLegacyService_exact p w active :
  let k := kview w in let k' := kview (cleanLegacyService p w active (kv_servers k)) in
  kv_servers k' = filter (λ nv, kept p active nv = true) (kv_servers k) ∧
  (∀ n, is_Some (kv_servers k' !! n) → reals_of k' n = reals_of k n) ∧
  kv_bound k' = kv_bound k ∧ kv_sets k' = kv_sets k.
Proof. apply cleanLegacyService_view. Qed.

Lemma applied_server w vs :
  match GetVirtualServer w vs with inl r => r | inr _ => None end = kv_servers (kview w) !! VS_String vs.
Proof.
  destruct (GetVirtualServer w vs) as [r|e] eqn:E; [by apply GetVirtualServer_ok in E|].
  destruct (kv_servers (kview w) !! VS_String vs) eqn:Hs; [|done]. apply GetVirtualServer_live in Hs. congruence.
Qed.

(** The server is added, updated or left as it is. *)
Lemma server_applied w vs : VS_Equal vs vs = true →
  ∃ w1, (match kv_servers (kview w) !! VS_String vs with
         | None => AddVirtualServer w vs
         | Some a => if VS_Equal a vs then (w, None) else UpdateVirtualServer w vs
         end) = (w1, None) ∧
    (∃ a, kv_servers (kview w1) !! VS_String vs = Some a ∧ VS_Equal a vs = true) ∧
    (∀ n, n ≠ VS_String vs → kv_servers (kview w1) !! n = kv_servers (kview w) !! n) ∧
    reals_of (kview w1) (VS_String vs) = (if kv_servers (kview w) !! VS_String vs then reals_of (kview w) (VS_String vs) else ∅).
Proof.
  intros Hrefl. destruct (kv_servers (kview w) !! VS_String vs) as [a|] eqn:Hs.
  - destruct (VS_Equal a vs) eqn:Heq; [exists w; split_and!; eauto|].
    pose proof (UpdateVirtualServer_ok w vs) as Heff. unfold effect in Heff.
    pose proof (UpdateVirtualServer_live w vs ltac:(eauto)) as Hlv. rewrite Hlv in Heff.
    destruct (UpdateVirtualServer w vs) as [w1 e]. simpl in *. subst e. exists w1. rewrite Heff. cbn. split_and!; [done|..|done].
    + exists vs. by rewrite lookup_insert_eq.
    + intros n Hn. by rewrite lookup_insert_ne.
  - pose proof (AddVirtualServer_ok w vs) as Heff. unfold effect in Heff.
    pose proof (AddVirtualServer_live w vs Hs) as Hlv. rewrite Hlv in Heff.
    destruct (AddVirtualServer w vs) as [w1 e]. simpl in *. subst e. exists w1. rewrite Heff. split_and!; [done|..].
    + exists vs. cbn. by rewrite lookup_insert_eq.
    + intros n Hn. cbn. by rewrite lookup_insert_ne.
    + by rewrite reals_of_drop, decide_True.
Qed.

(** [syncService] brings the virtual server to its new configuration and its
    address to the dummy device.  With a kernel that answers, it succeeds; the
    virtual server is then one that equals the new one, and unless the address
    is recorded as bound already, it is bound; a server that existed keeps its
    real servers, a new one starts with none. *)
Theorem syncService_spec w vs bound :
  VS_Equal vs vs = true → bindable (IP_String (vs_Address vs)) →
  let '(w', err) := syncService w vs true bound in
  let k := kview w in let k' := kview w' in
  err = None ∧
  (∃ a, kv_servers k' !! VS_String vs = Some a ∧ VS_Equal a vs = true) ∧
  (∀ n, n ≠ VS_String vs → kv_servers k' !! n = kv_servers k !! n) ∧
  reals_of k' (VS_String vs) = (if kv_servers k !! VS_String vs then reals_of k (VS_String vs) else ∅) ∧
  (IP_String (vs_Address vs) ∈ kv_bound k' ∨ IP_String (vs_Address vs) ∈ default ∅ bound).
Proof.
  intros Hrefl Hbind. unfold syncService. rewrite applied_server.
  destruct (server_applied w vs Hrefl) as (w1 & -> & A1 & A2 & A3).
  destruct (match bound with Some s => _ | None => false end) eqn:Hb.
  - split_and!; [done|done|done|done|]. right. destruct bound as [s|]; [|done]. by apply bool_decide_eq_true in Hb.
  - pose proof (EnsureAddressBind_ok w1 (IP_String (vs_Address vs)) Hbind) as Heff. unfold effect in Heff.
    pose proof (EnsureAddressBind_live w1 (IP_String (vs_Address vs)) Hbind) as Hlv. rewrite Hlv in Heff.
    destruct (EnsureAddressBind _ _ _) as [w2 e]. simpl in *. subst e. rewrite Heff. cbn. split_and!; [done..|].
    left. set_solver.
Qed.

(** A service that loses its last endpoint keeps sending traffic to it.
    The endpoint map holds no entry for a service port without endpoints, and
    [syncEndpoint] returns on a missing entry before it deletes anything: it
    reports success and the kernel is left as it was. *)
Theorem syncEndpoint_missing_keeps p w spn onlyNodeLocal vs :
  px_endpointsMap p !! spn = None → is_Some (kv_servers (kview w) !! VS_String vs) →
  syncEndpoint p w spn onlyNodeLocal vs = (p, w, None).
Proof.
  intros Hm [a Ha]. unfold syncEndpoint. rewrite (GetVirtualServer_live _ _ _ Ha).
  destruct (GetRealServers_live w a) as [l ->]; [rewrite (servers_named _ _ _ Ha); eauto|]. by rewrite Hm.
Qed.
End proxier.

(** ** A concrete node *)
Section demo.
Local Existing Instances list_runtime demo_ipvslib demo_kernel demo_ipvsnames demo_laws demo_reliable demo_proxylib.
Definition demo_servicelib : ServiceLib := {| ParseIPSloppy := ParseIP |}.
Definition demo_netutils : NetutilsLib := {| netutils_IsIPv4 := λ ip, negb (bool_decide (To4 ip = [])) |}.
Local Existing Instances demo_servicelib demo_netutils.

Definition demo_import : ServiceImport :=
  mkSImport (mkMeta "web" EmptyString "ns" EmptyString EmptyString 0 0 None None None [] [])
    [mkImportPort "http" "TCP" None 80] ["10.0.0.1"] ClusterSetIP.

(** The proxier at start, with the import and a slice, after its first sync. *)
Definition demo_start : outcome (Proxier * demo_kworld) :=
  '(p, _) ← OnServiceImportAdd (NewProxier "IPv4" "node" EmptyString [] 0) demo_import;
  '(p, _) ← OnEndpointSliceAdd p (demo_export "c1" "10.1.0.1");
  '(p, w) ← OnServiceImportSynced p demo_kworld0;
  OnEndpointSlicesSynced p w.
(** The slice is deleted. *)
Definition demo_removed : outcome (Proxier * demo_kworld) :=
  '(p, w) ← demo_start; '(p, _) ← OnEndpointSliceDelete p (demo_export "c1" "10.1.0.1"); syncProxyRules p w.
(** The slice moves to another address. *)
Definition demo_moved : outcome (Proxier * demo_kworld) :=
  '(p, w) ← demo_start; '(p, _) ← OnEndpointSliceUpdate p (demo_export "c1" "10.1.0.9"); syncProxyRules p w.

Definition traffic (o : outcome (Proxier * demo_kworld)) : option (list (string * Z)) :=
  match o with
  | Ret (_, w) => Some (prod_map id rs_Weight <$> map_to_list (reals_of (kview w) "10.0.0.1:80/TCP"))
  | _ => None
  end.

(** End to end: after the slice of a service is deleted and the rules are
    synced, the virtual server still sends traffic (weight 1) to the deleted
    endpoint, while a move of the endpoint to another address is followed. *)
Theorem deleted_endpoint_keeps_traffic :
  traffic demo_start = Some [("10.1.0.1:80", 1)] ∧ traffic demo_moved = Some [("10.1.0.9:80", 1)] ∧
  traffic demo_removed = Some [("10.1.0.1:80", 1)].
Proof. vm_compute. split_and!; reflexivity. Qed.

(** [demo_node] has a busy real server 10.1.0.1:8080 and an idle one
    10.1.0.2:8080; the service's endpoints are now 10.1.0.2 and 10.1.0.3. *)
Definition demo_endpoint (ep : string) : BaseEndpointInfo := mkBEI ep false None true true false EmptyString EmptyString.
Definition demo_spnode : ServicePortName := mkSPN (mkNN "ns" "web") "0" "TCP".
Definition demo_eps : list BaseEndpointInfo := [demo_endpoint "10.1.0.2:8080"; demo_endpoint "10.1.0.3:8080"].
Definition demo_proxier : Proxier :=
  with_maps ∅ {[demo_spnode := demo_eps]} (NewProxier "IPv4" "node" EmptyString [] 0).

Definition demo_new : gset string :=
  list_to_set (bei_Endpoint <$> (select_endpoints demo_proxier demo_spnode false demo_eps).1.1).
Definition demo_result := syncEndpoint demo_proxier demo_node demo_spnode false demo_vs.

Lemma demo_canonical n : n ∈ demo_new ∨ is_Some (reals_of (kview demo_node) (VS_String demo_vs) !! n) → canonical n.
Proof.
  intros Hn. assert (Hin : n ∈ demo_new ∪ dom (reals_of (kview demo_node) (VS_String demo_vs))).
  { rewrite elem_of_union, elem_of_dom. done. }
  assert (Hall : set_Forall canonical (demo_new ∪ dom (reals_of (kview demo_node) (VS_String demo_vs)))).
  { apply set_Forall_elements. by apply (bool_decide_unpack _); vm_compute. }
  by apply Hall.
Qed.

Lemma syncEndpoint_serves_witness :
  traffic (Ret demo_result.1) = Some [("10.1.0.3:8080", 1); ("10.1.0.1:8080", 0); ("10.1.0.2:8080", 1)] ∧
  let '(p', w', err) := demo_result in
  err = None ∧
  (∀ n, if bool_decide (n ∈ demo_new) then in_service (VS_String demo_vs) n w' (px_rsList p')
        else out_of_service (VS_String demo_vs) n w' (px_rsList p')) ∧
  (∀ v' n, v' ≠ VS_String demo_vs → reals_of (kview w') v' !! n = reals_of (kview demo_node) v' !! n) ∧
  steady false (VS_String demo_vs) w' (px_rsList p').
Proof.
  split; [vm_compute; reflexivity|].
  apply (syncEndpoint_serves demo_proxier demo_node demo_spnode false demo_vs demo_eps).
  - reflexivity.
  - by apply (bool_decide_unpack _); vm_compute.
  - exact (steady_start (VS_String demo_vs) demo_node).
  - apply demo_canonical.
Defined.

Lemma syncEndpoint_missing_keeps_witness :
  syncEndpoint (NewProxier "IPv4" "node" EmptyString [] 0) demo_node demo_spnode false demo_vs =
    (NewProxier "IPv4" "node" EmptyString [] 0, demo_node, None).
Proof.
  apply syncEndpoint_missing_keeps; [reflexivity|]. by apply (bool_decide_unpack _); vm_compute.
Defined.

Lemma syncService_spec_witness :
  VS_Equal demo_vs demo_vs = true ∧
  ∃ a, kv_servers (kview (fst (syncService demo_kworld0 demo_vs true None))) !! VS_String demo_vs = Some a ∧
       VS_Equal a demo_vs = true.
Proof.
  split; [reflexivity|]. pose proof (syncService_spec demo_kworld0 demo_vs None eq_refl I) as Hspec.
  destruct (syncService demo_kworld0 demo_vs true None) as [w' err]. exact (proj1 (proj2 Hspec)).
Defined.

Lemma endpoint_roundtrip_witness :
  bei_Endpoint (newBaseEndpointInfo "fd00::1" "n1" "z1" 8080 true true true false None) = "[fd00::1]:8080" ∧
  parse_dest (bei_Endpoint (newBaseEndpointInfo "fd00::1" "n1" "z1" 8080 true true true false None)) 1 =
  Some (mkRS (ParseIPSloppy "fd00::1") 8080 1 0 0).
Proof.
  split; [vm_compute; reflexivity|]. apply endpoint_roundtrip; [vm_compute; reflexivity|vm_compute; reflexivity|lia].
Defined.

Lemma cleanLegacyService_exact_witness :
  (kept demo_proxier ∅ (VS_String demo_vs, demo_vs) = false ∧ kept demo_proxier {[VS_String demo_vs]} (VS_String demo_vs, demo_vs) = true) ∧
  kv_servers (kview (cleanLegacyService demo_proxier demo_node ∅ (kv_servers (kview demo_node)))) =
    filter (λ nv, kept demo_proxier ∅ nv = true) (kv_servers (kview demo_node)).
Proof.
  split; [split; vm_compute; reflexivity|]. exact (proj1 (cleanLegacyService_exact demo_proxier demo_node ∅)).
Defined.
End demo.
