(* ===== verification/ProxySync.v ===== *)
(** * A sync of the proxier, end to end

    What [syncProxyRules] of [pkg/proxy/ipvs/proxier.go] leaves in the kernel, composed
    from the theorems on its parts: the virtual servers, their real servers, the
    addresses of the dummy device and the IP sets are those of the service
    map and the endpoint map. *)
From Stdlib Require Import Ascii.
From stdpp Require Import prelude gmap strings list.
From S2P Require Import Prelude NetAddr K8s ProxyEndpoints ProxyServices HostPort Kernel Graceful IpSet Proxier.
Open Scope Z_scope.

Section sync.
Context `{GoRuntime} {W : Type} `{ServiceLib} `{ProxyLib} `{NetutilsLib} `{IpvsLib} `{KernelOps W}.
Context `{!IpvsNames} `{!KernelLaws W} `{!ReliableKernel W}.
Implicit Types (w : W) (p : Proxier) (vs : VirtualServer).

(** ** Frames *)

(** All of the view but the real servers. *)
Definition rest_of (k : KernelView) := (kv_servers k, kv_bound k, kv_sets k).

Lemma effect_rest w r v f : effect kview w r (with_reals v f) → rest_of (kview (fst r)) = rest_of (kview w).
Proof. unfold effect. intros ->. by destruct (snd r). Qed.

Lemma AddRealServer_rest w vs rs : rest_of (kview (fst (AddRealServer w vs rs))) = rest_of (kview w).
Proof. eapply effect_rest, AddRealServer_ok. Qed.
Lemma UpdateRealServer_rest w vs rs : rest_of (kview (fst (UpdateRealServer w vs rs))) = rest_of (kview w).
Proof. eapply effect_rest, UpdateRealServer_ok. Qed.
Lemma DeleteRealServer_rest w vs rs : rest_of (kview (fst (DeleteRealServer w vs rs))) = rest_of (kview w).
Proof. eapply effect_rest, DeleteRealServer_ok. Qed.

Lemma reset_weights_rest w vs dests rs : rest_of (kview (reset_weights w vs dests rs)) = rest_of (kview w).
Proof.
  unfold reset_weights. revert w. induction dests as [|d dests IH]; intros w; [done|]. cbn [foldl]. rewrite IH.
  case_match; [|done]. apply UpdateRealServer_rest.
Qed.

Lemma deleteRsFunc_rest w it : rest_of (kview (fst (deleteRsFunc w it))) = rest_of (kview w).
Proof.
  unfold deleteRsFunc. destruct (GetRealServers _ _) as [rss|]; [|done].
  induction rss as [|rs rss IH]; [done|]. cbn [delete_loop]. repeat case_match; try done;
    match goal with E : DeleteRealServer _ _ _ = _ |- _ => pose proof (DeleteRealServer_rest w (li_VirtualServer it) rs) as Hr; by rewrite E in Hr end.
Qed.

Lemma GracefulDeleteRS_rest w q vs rs : rest_of (kview (fst (fst (GracefulDeleteRS w q vs rs)))) = rest_of (kview w).
Proof.
  unfold GracefulDeleteRS. pose proof (deleteRsFunc_rest w (mkItem vs rs)) as Hd.
  destruct (deleteRsFunc w (mkItem vs rs)) as [w1 [d e]]. destruct d; [done|].
  pose proof (UpdateRealServer_rest w1 vs (set_Weight 0 rs)) as Hu.
  destruct (UpdateRealServer _ _ _) as [w2 [e'|]]; simpl in *; congruence.
Qed.

Lemma MoveRSOut_rest w q u : rest_of (kview (fst (fst (MoveRSOutofGracefulDeleteList w q u)))) = rest_of (kview w).
Proof.
  unfold MoveRSOutofGracefulDeleteList. destruct (rsList_exist q u) as [it|]; [|done].
  pose proof (DeleteRealServer_rest w (li_VirtualServer it) (li_RealServer it)) as Hd. by destruct (DeleteRealServer _ _ _) as [w1 [e|]].
Qed.

Lemma create_endpoint_rest vs applied i dests cur w q ep :
  rest_of (kview (fst (create_endpoint vs applied i dests cur (w, q) ep))) = rest_of (kview w).
Proof.
  unfold create_endpoint. destruct (parse_dest ep 1) as [rs|]; [|done]. case_bool_decide; [|apply AddRealServer_rest].
  set (w0 := if i then _ else w). assert (H0' : rest_of (kview w0) = rest_of (kview w)).
  { unfold w0. destruct i; [apply reset_weights_rest|done]. }
  case_match; [done|]. pose proof (MoveRSOut_rest w0 q (GetUniqueRSName vs rs)) as Hm.
  destruct (MoveRSOutofGracefulDeleteList _ _ _) as [[w1 q1] [e|]]; simpl in *; [congruence|].
  rewrite AddRealServer_rest. congruence.
Qed.

Lemma delete_endpoint_rest vs applied w q ep :
  rest_of (kview (fst (delete_endpoint vs applied (w, q) ep))) = rest_of (kview w).
Proof. unfold delete_endpoint. repeat case_match; try done. apply GracefulDeleteRS_rest. Qed.

Lemma foldl_rest (f : W * rsList → string → W * rsList) l st :
  (∀ w q ep, rest_of (kview (fst (f (w, q) ep))) = rest_of (kview w)) → rest_of (kview (fst (foldl f st l))) = rest_of (kview (fst st)).
Proof.
  intros Hf. revert st. induction l as [|x l IH]; intros [w q]; [done|]. cbn [foldl]. rewrite IH. apply Hf.
Qed.

(** [syncEndpoint] touches only real servers. *)
Lemma syncEndpoint_rest p w spn b vs : rest_of (kview (snd (fst (syncEndpoint p w spn b vs)))) = rest_of (kview w).
Proof.
  unfold syncEndpoint. repeat case_match; try done. simplify_eq/=.
  match goal with E : foldl _ _ _ = (?w1, ?q1) |- _ =>
    change w1 with (fst (w1, q1)); rewrite <- E, foldl_rest by (intros; apply delete_endpoint_rest);
    rewrite foldl_rest by (intros; apply create_endpoint_rest) end.
  done.
Qed.

(** ** One service *)

(** The kernel after [syncService], as a function of what it was. *)
Definition put_server (vs : VirtualServer) (k : KernelView) : KernelView :=
  match kv_servers k !! VS_String vs with
  | None => drop_reals (VS_String vs) (with_servers <[VS_String vs := vs]> k)
  | Some a => if VS_Equal a vs then k else with_servers <[VS_String vs := vs]> k
  end.

Lemma syncService_view w vs bound : bindable (IP_String (vs_Address vs)) →
  ∃ w', syncService w vs true bound = (w', None) ∧
    let a := IP_String (vs_Address vs) in
    kview w' = if bool_decide (a ∈ default ∅ bound) then put_server vs (kview w) else with_bound (union {[a]}) (put_server vs (kview w)).
Proof.
  intros Hbind. unfold syncService. rewrite applied_server.
  assert (Hput : ∃ w1, (match kv_servers (kview w) !! VS_String vs with
      | None => AddVirtualServer w vs
      | Some a => if VS_Equal a vs then (w, None) else UpdateVirtualServer w vs end) = (w1, None) ∧ kview w1 = put_server vs (kview w)).
  { unfold put_server. destruct (kv_servers (kview w) !! VS_String vs) as [a|] eqn:Hs.
    - destruct (VS_Equal a vs); [by exists w|]. pose proof (UpdateVirtualServer_ok w vs) as Heff. unfold effect in Heff.
      pose proof (UpdateVirtualServer_live w vs ltac:(eauto)) as Hlv. rewrite Hlv in Heff.
      destruct (UpdateVirtualServer w vs) as [w1 e]. simpl in *. subst e. eauto.
    - pose proof (AddVirtualServer_ok w vs) as Heff. unfold effect in Heff.
      pose proof (AddVirtualServer_live w vs Hs) as Hlv. rewrite Hlv in Heff.
      destruct (AddVirtualServer w vs) as [w1 e]. simpl in *. subst e. eauto. }
  destruct Hput as (w1 & -> & Hw1). cbn zeta.
  destruct (match bound with Some s => _ | None => false end) eqn:Hb.
  - exists w1. split; [done|]. destruct bound as [b|]; [|done]. change (default ∅ (Some b)) with b. by rewrite Hb.
  - pose proof (EnsureAddressBind_ok w1 (IP_String (vs_Address vs)) Hbind) as Heff. unfold effect in Heff.
    pose proof (EnsureAddressBind_live w1 (IP_String (vs_Address vs)) Hbind) as Hlv. rewrite Hlv in Heff.
    destruct (EnsureAddressBind _ _ _) as [w2 e]. simpl in *. subst e. exists w2. split; [done|]. rewrite Heff, Hw1.
    destruct bound as [b|]; [change (default ∅ (Some b)) with b; by rewrite Hb|]. by rewrite bool_decide_eq_false_2 by set_solver.
Qed.

Lemma put_server_servers vs k : VS_Equal vs vs = true →
  (∃ a, kv_servers (put_server vs k) !! VS_String vs = Some a ∧ VS_Equal a vs = true) ∧
  (∀ n, n ≠ VS_String vs → kv_servers (put_server vs k) !! n = kv_servers k !! n).
Proof.
  intros Hr. unfold put_server. destruct (kv_servers k !! VS_String vs) as [a|] eqn:Hs; [destruct (VS_Equal a vs) eqn:He|];
    cbn; split; eauto; try (intros n Hn; by rewrite lookup_insert_ne); exists vs; by rewrite lookup_insert_eq.
Qed.

Lemma put_server_reals vs k :
  reals_of (put_server vs k) (VS_String vs) = (if kv_servers k !! VS_String vs then reals_of k (VS_String vs) else ∅) ∧
  (∀ v, v ≠ VS_String vs → reals_of (put_server vs k) v = reals_of k v).
Proof.
  unfold put_server. destruct (kv_servers k !! VS_String vs) as [a|] eqn:Hs; [by destruct (VS_Equal a vs)|].
  split; [by rewrite reals_of_drop, decide_True|]. intros v Hv. rewrite reals_of_drop. by rewrite decide_False by congruence.
Qed.

Lemma put_server_frame vs k : kv_bound (put_server vs k) = kv_bound k ∧ kv_sets (put_server vs k) = kv_sets k.
Proof. unfold put_server. by repeat case_match. Qed.

(** ** What a service needs and what it gets *)

(** The fields of the proxier that a round of services does not change. *)
Definition conf (p : Proxier) :=
  (px_svcPortMap p, px_endpointsMap p, px_nodeLabels p, px_initialSync p, px_ipvsScheduler p, px_ipFamily p, px_excludeCIDRs p).

Definition server_name (p : Proxier) (info : servicePortInfo) : string := VS_String (virtual_server p info).
Definition address (info : servicePortInfo) : string := IP_String (bsp_clusterIP (spi_base info)).
Definition selected (p : Proxier) (spn : ServicePortName) (info : servicePortInfo) (eps : list BaseEndpointInfo) : gset string :=
  list_to_set (bei_Endpoint <$> (select_endpoints p spn (bsp_internalPolicyLocal (spi_base info)) eps).1.1).
Definition cluster_entry (info : servicePortInfo) : IPSetEntry :=
  mkEntry (address info) (bsp_port (spi_base info)) (ToLower (bsp_protocol (spi_base info))) EmptyString HashIPPort.

Lemma conf_server p p0 info : conf p = conf p0 → virtual_server p info = virtual_server p0 info.
Proof. intros E. unfold virtual_server. by assert (px_ipvsScheduler p = px_ipvsScheduler p0) as -> by (unfold conf in E; congruence). Qed.
Lemma conf_selected p p0 spn info eps : conf p = conf p0 → selected p spn info eps = selected p0 spn info eps.
Proof.
  unfold conf, selected, select_endpoints. intros E.
  assert (px_svcPortMap p = px_svcPortMap p0) as -> by congruence. assert (px_nodeLabels p = px_nodeLabels p0) as -> by congruence.
  destruct (px_svcPortMap p0 !! spn); [|done]. by repeat case_match.
Qed.

(** A service before the sync: its entry is valid and its address can be bound; its server, if there is one, is between
    two syncs, and if there is none, no item of the termination list waits for it;
    the strings of its endpoints are in canonical form. *)
Definition ready (p : Proxier) (w : W) (q : rsList) (spn : ServicePortName) (info : servicePortInfo) : Prop :=
  let v := server_name p info in
  VS_Equal (virtual_server p info) (virtual_server p info) = true ∧
  (∃ s, px_ipsetList p !! kubeClusterIPSet = Some s ∧ validateEntry s (cluster_entry info) = true) ∧
  bindable (address info) ∧
  (if kv_servers (kview w) !! v then steady (px_initialSync p) v w q else ∀ n, ¬ listed q v n) ∧
  (∀ eps n, px_endpointsMap p !! spn = Some eps →
    n ∈ selected p spn info eps ∨ (is_Some (kv_servers (kview w) !! v) ∧ is_Some (reals_of (kview w) v !! n)) → canonical n).

(** The real servers of [v] and their items are those of before, none where the server is new. *)
Definition untouched (v : string) (w : W) (q : rsList) (w' : W) (q' : rsList) : Prop :=
  reals_of (kview w') v = (if kv_servers (kview w) !! v then reals_of (kview w) v else ∅) ∧ ∀ n, listed q' v n ↔ listed q v n.

(** A service after the sync that started from [w] and [q]: its server is there, and exactly its selected endpoints
    are in service; without an entry in the endpoint map its real servers are left as they were. *)
Definition synced (p : Proxier) (w : W) (q : rsList) (w' : W) (q' : rsList) (spn : ServicePortName) (info : servicePortInfo) : Prop :=
  let v := server_name p info in
  (∃ a, kv_servers (kview w') !! v = Some a ∧ VS_Equal a (virtual_server p info) = true) ∧
  match px_endpointsMap p !! spn with
  | Some eps => ∀ n, if bool_decide (n ∈ selected p spn info eps) then in_service v n w' q' else out_of_service v n w' q'
  | None => untouched v w q w' q'
  end.

(** The server [v], its real servers and their items look the same. *)
Definition same_server (v : string) (w : W) (q : rsList) (w' : W) (q' : rsList) : Prop :=
  kv_servers (kview w') !! v = kv_servers (kview w) !! v ∧ reals_of (kview w') v = reals_of (kview w) v ∧
  ∀ n, listed q' v n ↔ listed q v n.

Lemma same_server_trans v w q w1 q1 w2 q2 : same_server v w q w1 q1 → same_server v w1 q1 w2 q2 → same_server v w q w2 q2.
Proof.
  intros (A1 & A2 & A3) (B1 & B2 & B3). split_and!; [congruence|congruence|]. intros n. by rewrite B3.
Qed.

Lemma in_service_same v w q w' q' n : same_server v w q w' q' → in_service v n w q → in_service v n w' q'.
Proof. intros (_ & E & Hl). unfold in_service. by rewrite E, Hl. Qed.
Lemma out_of_service_same v w q w' q' n : same_server v w q w' q' → out_of_service v n w q → out_of_service v n w' q'.
Proof. intros (_ & E & Hl). unfold out_of_service. rewrite E. case_match; by rewrite Hl. Qed.
Lemma steady_same i v w q w' q' : same_server v w q w' q' → list_ok q' → steady i v w q → steady i v w' q'.
Proof.
  intros Hs Hok [_ Hst]. split; [done|]. intros n. destruct (Hst n) as [H1' H2']. split.
  - intros Hl. eapply out_of_service_same; [done|]. apply H1'. by apply Hs.
  - destruct H2' as [?|[?|?]]; eauto using in_service_same, out_of_service_same.
Qed.

Lemma ready_same p w q w' q' spn info :
  same_server (server_name p info) w q w' q' → list_ok q' → ready p w q spn info → ready p w' q' spn info.
Proof.
  intros Hs Hok (R1 & R2 & Rb & R3 & R4). pose proof Hs as (E1 & E2 & E3). unfold ready. rewrite E1, E2.
  split_and!; [done|done|done| |done]. destruct (kv_servers (kview w) !! server_name p info); [by eapply steady_same|].
  intros n. by rewrite E3.
Qed.
Lemma synced_same p w0 q0 w q w' q' spn info :
  same_server (server_name p info) w q w' q' → synced p w0 q0 w q spn info → synced p w0 q0 w' q' spn info.
Proof.
  intros Hs [S1 S2]. pose proof Hs as (E1 & E2 & E3). unfold synced. rewrite E1. split; [done|].
  destruct (px_endpointsMap p !! spn) as [eps|].
  - intros n. specialize (S2 n). case_bool_decide; eauto using in_service_same, out_of_service_same.
  - destruct S2 as [U1 U2]. split; [congruence|]. intros n. by rewrite E3.
Qed.
Lemma synced_start p w0 q0 w q w' q' spn info :
  same_server (server_name p info) w0 q0 w q → synced p w q w' q' spn info → synced p w0 q0 w' q' spn info.
Proof.
  intros (E1 & E2 & E3) [S1 S2]. split; [done|]. destruct (px_endpointsMap p !! spn); [done|].
  destruct S2 as [U1 U2]. unfold untouched. rewrite <- E1, <- E2. split; [done|]. intros n. by rewrite U2.
Qed.

(** ** Names

    The keys of the termination list are the name of the server and that of the
    real server, with a slash between them. *)
Lemma has_char_last c s : has_char c s = true → ∃ x y, s = x +:+ String c y ∧ has_char c y = false.
Proof.
  induction s as [|d s IH]; [done|]. cbn [has_char]. destruct (has_char c s) eqn:Hs.
  - intros _. destruct (IH eq_refl) as (x & y & -> & Hy). by exists (String d x), y.
  - rewrite orb_false_r. intros Hd. exists EmptyString, s. split; [|done]. by apply bool_decide_eq_true in Hd as ->.
Qed.

Lemma key_inj v n v' n' : has_char "/" n = false → v +:+ "/" +:+ n = v' +:+ "/" +:+ n' →
  v = v' ∨ ∃ x, v = v' +:+ "/" +:+ x.
Proof.
  intros Hn E. destruct (has_char "/" n') eqn:Hn'.
  - apply has_char_last in Hn' as (x & y & -> & Hy). right. exists x.
    change (v' +:+ "/" +:+ (x +:+ String "/" y)) with (v' +:+ String "/" (x +:+ String "/" y)) in E.
    apply (f_equal (split_last "/")) in E. change ("/" +:+ n) with (String "/" n) in E. rewrite split_last_app in E by done.
    change (String "/" (x +:+ String "/" y)) with ("/" +:+ (x +:+ String "/" y)) in E.
    rewrite !string_app_assoc, split_last_app in E by done. injection E as -> _. by rewrite string_app_assoc.
  - left. apply (f_equal (split_last "/")) in E. change ("/" +:+ n) with (String "/" n) in E.
    change ("/" +:+ n') with (String "/" n') in E. rewrite !split_last_app in E by done. by injection E.
Qed.

Lemma canonical_no_slash n : canonical n → has_char "/" n = false.
Proof. unfold canonical. destruct (parse_dest n 1) as [rs|]; [|done]. intros <-. apply RS_String_no_slash. Qed.

(** ** The two calls for a service *)
Lemma rest_of_inv w w' : rest_of (kview w') = rest_of (kview w) →
  kv_servers (kview w') = kv_servers (kview w) ∧ kv_bound (kview w') = kv_bound (kview w) ∧ kv_sets (kview w') = kv_sets (kview w).
Proof. unfold rest_of. intros. by simplify_eq. Qed.

(** After [syncService] the server is ready for [syncEndpoint]. *)
Lemma steady_put p w w1 q vs :
  list_ok q → (if kv_servers (kview w) !! VS_String vs then steady (px_initialSync p) (VS_String vs) w q else ∀ n, ¬ listed q (VS_String vs) n) →
  reals_of (kview w1) (VS_String vs) = (if kv_servers (kview w) !! VS_String vs then reals_of (kview w) (VS_String vs) else ∅) →
  steady (px_initialSync p) (VS_String vs) w1 q.
Proof.
  intros Hok Hst Hr. destruct (kv_servers (kview w) !! VS_String vs).
  - destruct Hst as [_ Hst]. split; [done|]. intros n. unfold in_service, out_of_service. rewrite Hr. apply Hst.
  - split; [done|]. intros n. split; [by intros ?%Hst|]. right. right. unfold out_of_service. rewrite Hr, lookup_empty. apply Hst.
Qed.

Definition served (p0 p : Proxier) (w : W) (spn : ServicePortName) (info : servicePortInfo) (bound : option (gset string)) (p' : Proxier) (w' : W) : Prop :=
  (∃ q int ext, p' = with_list q int ext p) ∧ list_ok (px_rsList p') ∧ synced p0 w (px_rsList p) w' (px_rsList p') spn info ∧
  (∀ v, v ≠ server_name p0 info → (∀ x, server_name p0 info ≠ v +:+ "/" +:+ x) → same_server v w (px_rsList p) w' (px_rsList p')) ∧
  (∀ v, v ≠ server_name p0 info → kv_servers (kview w') !! v = kv_servers (kview w) !! v) ∧
  kv_bound (kview w') = (if bool_decide (address info ∈ default ∅ bound) then ∅ else {[address info]}) ∪ kv_bound (kview w) ∧
  kv_sets (kview w') = kv_sets (kview w).

Lemma serve_ok p0 p w spn info bound :
  conf p = conf p0 → list_ok (px_rsList p) → ready p0 w (px_rsList p) spn info →
  ∃ w1, syncService w (virtual_server p info) true bound = (w1, None) ∧
    let '(p', w', _) := syncEndpoint p w1 spn (bsp_internalPolicyLocal (spi_base info)) (virtual_server p info) in
    served p0 p w spn info bound p' w'.
Proof.
  intros Hc Hok (R1 & _ & Rb & R3 & R4). rewrite (conf_server p p0) by done. set (vs := virtual_server p0 info) in *.
  destruct (syncService_view w vs bound Rb) as (w1 & Ess & Hw1). exists w1. split; [done|]. cbn zeta in Hw1.
  change (IP_String (vs_Address vs)) with (address info) in Hw1.
  assert (Hk : kv_servers (kview w1) = kv_servers (put_server vs (kview w)) ∧ kv_reals (kview w1) = kv_reals (put_server vs (kview w)) ∧
    kv_bound (kview w1) = (if bool_decide (address info ∈ default ∅ bound) then ∅ else {[address info]}) ∪ kv_bound (kview w) ∧
    kv_sets (kview w1) = kv_sets (kview w)).
  { destruct (put_server_frame vs (kview w)) as [<- <-]. rewrite Hw1. case_bool_decide; [|done]. by rewrite union_empty_l_L. }
  destruct Hk as (K1 & K2 & K3 & K4). destruct (put_server_servers vs (kview w) R1) as [[a [Ha1 Ha2]] Ha3].
  assert (Hre : ∀ v, reals_of (kview w1) v = reals_of (put_server vs (kview w)) v) by (intros v; unfold reals_of; by rewrite K2).
  destruct (put_server_reals vs (kview w)) as [P1 P2]. rewrite <- Hre in P1.
  assert (Hst : steady (px_initialSync p) (VS_String vs) w1 (px_rsList p)).
  { eapply (steady_put p); [done| |exact P1]. replace (px_initialSync p) with (px_initialSync p0) by (unfold conf in Hc; congruence). exact R3. }
  assert (Hsame1 : ∀ v, v ≠ VS_String vs → same_server v w (px_rsList p) w1 (px_rsList p)).
  { intros v Hv. split_and!; [by rewrite K1, Ha3|by rewrite Hre, P2|done]. }
  pose proof (syncEndpoint_rest p w1 spn (bsp_internalPolicyLocal (spi_base info)) vs) as Hrest.
  assert (Hep : px_endpointsMap p = px_endpointsMap p0) by (unfold conf in Hc; congruence).
  destruct (px_endpointsMap p0 !! spn) as [eps|] eqn:He.
  - assert (Hin : ∀ n, n ∈ selected p0 spn info eps ∨ is_Some (reals_of (kview w1) (VS_String vs) !! n) → canonical n).
    { intros n [Hn|Hn]; apply (R4 eps n); auto. right. rewrite P1 in Hn. unfold server_name. fold vs.
      destruct (kv_servers (kview w) !! VS_String vs); [eauto|]. rewrite lookup_empty in Hn. by destruct Hn. }
    pose proof (syncEndpoint_synced p w1 spn (bsp_internalPolicyLocal (spi_base info)) vs eps ltac:(by rewrite Hep, He)
      ltac:(rewrite K1; eauto) Hst) as Hsync. fold (selected p spn info eps) in Hsync. rewrite (conf_selected p p0) in Hsync by done.
    specialize (Hsync Hin). destruct (syncEndpoint p w1 spn _ vs) as [[p' w'] err]. cbn [fst snd] in Hrest.
    apply rest_of_inv in Hrest as (F1 & F2 & F3). destruct Hsync as (_ & S1 & S2 & S3 & S4 & S5).
    split_and!; [done|apply S3| | |intros v Hv; by rewrite F1, K1, Ha3|congruence|congruence].
    + split; [exists a; by rewrite F1, K1|]. by rewrite He.
    + intros v Hv Hx. eapply same_server_trans; [by apply Hsame1|]. split_and!; [by rewrite F1|apply map_eq; intros n; by apply S2|].
      intros n. unfold listed. rewrite S4; [done|]. intros m Hm%Hin%canonical_no_slash E. symmetry in E.
      apply key_inj in E as [E|[x E]]; [by apply Hv|by apply (Hx x)|done].
  - rewrite syncEndpoint_missing_keeps by (rewrite ?Hep, ?K1; eauto). split_and!; [by exists (px_rsList p), (px_noLocalInternal p), (px_noLocalExternal p); destruct p|done| |auto|intros v Hv; by rewrite K1, Ha3|done|done].
    split; [exists a; by rewrite K1|]. rewrite He. by split.
Qed.

(** ** The IP sets of a round *)

(** The sets are the same but for their entries. *)
Definition same_sets (sets sets' : gmap string IPSet) : Prop := is_IPSet <$> sets' = is_IPSet <$> sets.

Lemma same_sets_lookup sets sets' name s : same_sets sets sets' → sets !! name = Some s →
  ∃ s', sets' !! name = Some s' ∧ is_IPSet s' = is_IPSet s.
Proof.
  intros E Hs. apply (f_equal (.!! name)) in E. rewrite !lookup_fmap, Hs in E.
  destruct (sets' !! name) as [s'|]; [|done]. exists s'. split; [done|]. simpl in E. congruence.
Qed.

Lemma insert_entry_ok sets name e s : sets !! name = Some s →
  ∃ sets', insert_entry sets name e = Ret (sets', validateEntry s e) ∧ same_sets sets sets' ∧
    (∀ k, k ≠ name → sets' !! k = sets !! k) ∧
    sets' !! name = Some (if validateEntry s e then insertEntry s (Entry_String e) else s).
Proof.
  intros Hs. unfold insert_entry. rewrite Hs. cbn [deref mbind outcome_bind]. destruct (validateEntry s e).
  - eexists. split; [done|]. split_and!.
    + unfold same_sets. rewrite fmap_insert. apply insert_id. by rewrite lookup_fmap, Hs.
    + intros k Hk. by rewrite lookup_insert_ne.
    + apply lookup_insert_eq.
  - by exists sets.
Qed.

Lemma loopback_entries_ok protocol eps sets : is_Some (sets !! kubeLoopBackIPSet) →
  ∃ sets', loopback_entries protocol eps sets = Ret sets' ∧ same_sets sets sets' ∧ (∀ k, k ≠ kubeLoopBackIPSet → sets' !! k = sets !! k).
Proof.
  revert sets. induction eps as [|ep eps IH]; intros sets [s Hs]; cbn [loopback_entries]; [by exists sets|].
  repeat case_match; try (apply IH; by rewrite Hs).
  match goal with |- context [insert_entry sets kubeLoopBackIPSet ?e] => destruct (insert_entry_ok sets kubeLoopBackIPSet e s Hs) as (sets1 & -> & H1' & H2' & H3') end.
  cbn [mbind outcome_bind]. destruct (IH sets1) as (sets' & -> & J1 & J2); [by rewrite H3'|].
  exists sets'. split; [done|]. split; [unfold same_sets in *; congruence|]. intros k Hk. by rewrite J2, H2'.
Qed.

(** ** The round of services *)

(** The state of a round: it has the configuration and the sets of [p0]. *)
Definition round_ok (p0 : Proxier) (st : syncState (W := W)) : Prop :=
  conf (sy_p st) = conf p0 ∧ same_sets (px_ipsetList p0) (px_ipsetList (sy_p st)) ∧ list_ok (px_rsList (sy_p st)).

Definition cluster_entries (p : Proxier) : gset string := default ∅ (activeEntries <$> px_ipsetList p !! kubeClusterIPSet).

(** What the round adds for the services [l]. *)
Definition names (p : Proxier) (l : list (ServicePortName * servicePortInfo)) : gset string := list_to_set ((λ e, server_name p e.2) <$> l).
Definition addresses (l : list (ServicePortName * servicePortInfo)) : gset string := list_to_set ((λ e, address e.2) <$> l).
Definition entries (l : list (ServicePortName * servicePortInfo)) : gset string := list_to_set ((λ e, Entry_String (cluster_entry e.2)) <$> l).

Definition round_adds (p0 : Proxier) (bound : option (gset string)) (l : list (ServicePortName * servicePortInfo)) (st st' : syncState (W := W)) : Prop :=
  sy_active st' = names p0 l ∪ sy_active st ∧ sy_bind st' = addresses l ∪ sy_bind st ∧
  cluster_entries (sy_p st') = entries l ∪ cluster_entries (sy_p st) ∧
  kv_bound (kview (sy_w st')) = (addresses l ∖ default ∅ bound) ∪ kv_bound (kview (sy_w st)) ∧
  kv_sets (kview (sy_w st')) = kv_sets (kview (sy_w st)) ∧
  (∀ v, v ∉ names p0 l → kv_servers (kview (sy_w st')) !! v = kv_servers (kview (sy_w st)) !! v).

Lemma round_adds_trans p0 bound e l st st1 st2 :
  round_adds p0 bound [e] st st1 → round_adds p0 bound l st1 st2 → round_adds p0 bound (e :: l) st st2.
Proof.
  intros (A1 & A2 & A3 & A4 & A5 & A6) (B1 & B2 & B3 & B4 & B5 & B6). unfold round_adds.
  rewrite B1, B2, B3, B4, B5, A1, A2, A3, A4, A5. unfold names, addresses, entries in *. rewrite !fmap_cons. cbn [list_to_set fmap list_fmap].
  split_and!; [set_solver..|]. intros v Hv. rewrite B6, A6; [done|..]; cbn [list_to_set fmap list_fmap] in *; set_solver.
Qed.

Lemma sync_one_ok p0 bound st spn info :
  round_ok p0 st → is_Some (px_ipsetList p0 !! kubeLoopBackIPSet) → ready p0 (sy_w st) (px_rsList (sy_p st)) spn info →
  ∃ st', sync_one bound st spn info = Ret st' ∧ round_ok p0 st' ∧ round_adds p0 bound [(spn, info)] st st' ∧
    synced p0 (sy_w st) (px_rsList (sy_p st)) (sy_w st') (px_rsList (sy_p st')) spn info ∧
    (∀ v, v ≠ server_name p0 info → (∀ x, server_name p0 info ≠ v +:+ "/" +:+ x) →
      same_server v (sy_w st) (px_rsList (sy_p st)) (sy_w st') (px_rsList (sy_p st'))).
Proof.
  intros (Hc & Hsets & Hok) [s0 Hs0] Hr. pose proof Hr as (_ & (sc & Hsc & Hval) & _).
  destruct st as [p w active bind]. cbn [sy_p sy_w sy_active sy_bind] in *.
  destruct (same_sets_lookup _ _ _ _ Hsets Hs0) as (s1 & Hs1 & _).
  destruct (same_sets_lookup _ _ _ _ Hsets Hsc) as (s2 & Hs2 & Hs2').
  unfold sync_one. cbn [sy_p sy_w sy_active sy_bind].
  destruct (loopback_entries_ok (ToLower (bsp_protocol (spi_base info))) (default [] (px_endpointsMap p !! spn)) (px_ipsetList p))
    as (sets1 & -> & L1 & L2); [by rewrite Hs1|]. cbn [mbind outcome_bind].
  fold (address info). fold (cluster_entry info).
  destruct (insert_entry_ok sets1 kubeClusterIPSet (cluster_entry info) s2) as (sets2 & -> & I1 & I2 & I3); [by rewrite L2|].
  assert (validateEntry s2 (cluster_entry info) = true) as Hv2 by (unfold validateEntry in *; congruence).
  rewrite Hv2 in *. cbn [mbind outcome_bind negb]. set (p1 := with_sets sets2 p).
  destruct (serve_ok p0 p1 w spn info bound Hc Hok Hr) as (w1 & -> & Hserved).
  destruct (syncEndpoint p1 w1 _ _ _) as [[p' w'] err]. destruct Hserved as ((q & int & ext & ->) & Q1 & Q2 & Q3 & Q6 & Q4 & Q5).
  eexists. split; [done|]. cbn [sy_p sy_w sy_active sy_bind]. split_and!.
  - split; [exact Hc|]. split; [|exact Q1]. unfold same_sets in *. cbn. congruence.
  - unfold round_adds, names, addresses, entries. cbn [sy_active sy_bind sy_p sy_w fmap list_fmap list_to_set foldr snd].
    rewrite !union_empty_r_L. split_and!; [|done| |rewrite Q4; case_bool_decide; set_solver|done|intros v Hv; apply Q6; set_solver].
    + unfold server_name. by rewrite (conf_server p1 p0).
    + unfold cluster_entries. cbn [with_list px_ipsetList]. unfold p1. cbn [with_sets px_ipsetList]. by rewrite I3, Hs2.
  - exact Q2.
  - exact Q3.
Qed.

(** Two names of servers neither of which is a path below the other. *)
Definition apart (v v' : string) : Prop := v ≠ v' ∧ (∀ x, v ≠ v' +:+ "/" +:+ x) ∧ (∀ x, v' ≠ v +:+ "/" +:+ x).

Lemma sync_services_ok p0 bound l st :
  round_ok p0 st → is_Some (px_ipsetList p0 !! kubeLoopBackIPSet) → NoDup l.*1 →
  (∀ e e', e ∈ l → e' ∈ l → e.1 ≠ e'.1 → apart (server_name p0 e.2) (server_name p0 e'.2)) →
  (∀ e, e ∈ l → ready p0 (sy_w st) (px_rsList (sy_p st)) e.1 e.2) →
  ∃ st', sync_services bound l st = Ret st' ∧ round_ok p0 st' ∧ round_adds p0 bound l st st' ∧
    (∀ e, e ∈ l → synced p0 (sy_w st) (px_rsList (sy_p st)) (sy_w st') (px_rsList (sy_p st')) e.1 e.2) ∧
    (∀ v, (∀ e, e ∈ l → v ≠ server_name p0 e.2 ∧ ∀ x, server_name p0 e.2 ≠ v +:+ "/" +:+ x) →
      same_server v (sy_w st) (px_rsList (sy_p st)) (sy_w st') (px_rsList (sy_p st'))).
Proof.
  revert st. induction l as [|[spn info] l IH]; intros st Hst Hloop Hnd Hap Hr; cbn [sync_services].
  { exists st. split; [done|]. split; [done|]. split; [|split; [set_solver|done]].
    unfold round_adds, names, addresses, entries. cbn [fmap list_fmap list_to_set]. split_and!; set_solver. }
  rewrite fmap_cons, NoDup_cons in Hnd. destruct Hnd as [Hni Hnd].
  assert (Hkey : ∀ e, e ∈ l → apart (server_name p0 info) (server_name p0 e.2)).
  { intros e He. apply (Hap (spn, info) e); [left|by right|]. cbn. intros Ee. apply Hni, list_elem_of_fmap. by exists e. }
  destruct (sync_one_ok p0 bound st spn info Hst Hloop (Hr (spn, info) ltac:(left))) as (st1 & -> & Hst1 & Hadd1 & Hsy1 & Hsame1).
  cbn [mbind outcome_bind]. destruct (IH st1 Hst1 Hloop Hnd) as (st' & -> & Hst' & Hadd' & Hsy' & Hsame').
  { intros e e' He He'. apply Hap; by right. }
  { intros e He. destruct (Hkey e He) as (A1 & A2 & A3). eapply ready_same; [apply Hsame1; auto|apply Hst1|apply Hr; by right]. }
  exists st'. split; [done|]. split; [done|]. split; [by eapply round_adds_trans|]. split.
  - intros e [->|He]%elem_of_cons.
    + eapply synced_same; [|exact Hsy1]. apply Hsame'. intros e He. destruct (Hkey e He) as (A1 & A2 & A3). auto.
    + eapply synced_start; [|by apply Hsy']. destruct (Hkey e He) as (A1 & A2 & A3). apply Hsame1; auto.
  - intros v Hv. eapply same_server_trans; [|apply Hsame'; intros e He; apply Hv; by right]. apply Hsame1; apply (Hv (spn, info)); left.
Qed.

(** ** The sets are made, filled and the rest removed *)
Lemma ensure_sets_ok l w acc :
  ∃ w' acc', ensure_sets l w acc = (w', acc', true) ∧
    acc' = foldl (λ m e, <[e.1 := resetEntries e.2]> m) acc l ∧
    kv_servers (kview w') = kv_servers (kview w) ∧ kv_reals (kview w') = kv_reals (kview w) ∧ kv_bound (kview w') = kv_bound (kview w) ∧
    (∀ n, is_Some (kv_sets (kview w) !! n) ∨ n ∈ (λ e, is_Name e.2) <$> l → is_Some (kv_sets (kview w') !! n)).
Proof.
  revert w acc. induction l as [|[name s] l IH]; intros w acc; cbn [ensure_sets foldl].
  { exists w, acc. split_and!; try done. intros n [?|?]; [done|set_solver]. }
  unfold ensureIPSet. pose proof (CreateSet_ok w (is_IPSet s) true) as Heff. unfold effect in Heff. rewrite CreateSet_live in Heff.
  pose proof (CreateSet_live w (is_IPSet s)) as Hlv. destruct (CreateSet w (is_IPSet s) true) as [w1 e]. simpl in Hlv, Heff. subst e.
  destruct (IH w1 (<[name := resetEntries s]> acc)) as (w' & acc' & -> & -> & E1 & E2 & E3 & E4).
  exists w', (foldl (λ m e, <[e.1 := resetEntries e.2]> m) (<[name := resetEntries s]> acc) l). rewrite E1, E2, E3, Heff. split_and!; try done.
  intros n Hn. apply E4. rewrite Heff. cbn. rewrite fmap_cons, elem_of_cons in Hn.
  destruct (decide (uset_Name (is_IPSet s) = n)) as [<-|Hne]; [left; rewrite lookup_insert_eq; eauto|].
  rewrite lookup_insert_ne by done. unfold is_Name in *. naive_solver.
Qed.

Lemma fill_sets_ok l w :
  (∀ e, e ∈ l → is_Some (kv_sets (kview w) !! is_Name e.2)) → NoDup ((λ e : string * IPSet, is_Name e.2) <$> l) →
  let w' := foldl (λ w ns, syncIPSetEntries w (snd ns)) w l in
  kv_servers (kview w') = kv_servers (kview w) ∧ kv_reals (kview w') = kv_reals (kview w) ∧ kv_bound (kview w') = kv_bound (kview w) ∧
  (∀ e, e ∈ l → entries_of (kview w') (is_Name e.2) = activeEntries e.2) ∧
  (∀ n, n ∉ (λ e, is_Name e.2) <$> l → entries_of (kview w') n = entries_of (kview w) n).
Proof.
  revert w. induction l as [|e l IH]; intros w Hs Hnd; cbn [foldl]; [split_and!; set_solver|].
  rewrite fmap_cons, NoDup_cons in Hnd. destruct Hnd as [Hni Hnd].
  pose proof (syncIPSetEntries_view w e.2 (Hs e ltac:(left))) as Hv.
  destruct (IH (syncIPSetEntries w e.2)) as (I1 & I2 & I3 & I4 & I5); [|done|].
  { intros e' He'. rewrite Hv. cbn. destruct (decide (is_Name e.2 = is_Name e'.2)) as [->|Hne]; [rewrite lookup_insert_eq; eauto|].
    rewrite lookup_insert_ne by done. apply Hs. by right. }
  rewrite I1, I2, I3, Hv. split_and!; try done.
  - intros e' [->|He']%elem_of_cons; [|by apply I4]. rewrite I5 by done. by rewrite Hv, entries_of_with, decide_True.
  - intros n Hn. rewrite fmap_cons, not_elem_of_cons in Hn. destruct Hn as [Hn1 Hn2]. rewrite I5 by done.
    by rewrite Hv, entries_of_with, decide_False by congruence.
Qed.

Lemma unbind_all_ok l w : NoDup l → (∀ a, a ∈ l → a ∈ kv_bound (kview w)) →
  kview (unbind_all w l) = with_bound (λ s, s ∖ list_to_set l) (kview w).
Proof.
  revert w. induction l as [|a l IH]; intros w Hnd Hb.
  { unfold unbind_all. cbn. destruct (kview w). unfold with_bound. cbn. f_equal. set_solver. }
  apply NoDup_cons in Hnd as [Hni Hnd]. unfold unbind_all. cbn [foldl]. fold (unbind_all (fst (UnbindAddress w a defaultDummyDevice)) l).
  pose proof (UnbindAddress_ok w a (bound_bindable w a (Hb a ltac:(left)))) as Heff. unfold effect in Heff.
  rewrite UnbindAddress_live in Heff by (apply Hb; left).
  rewrite IH, Heff; [|done|].
  - unfold with_bound. cbn. f_equal. set_solver.
  - intros b Hbl. rewrite Heff. cbn. apply elem_of_difference. split; [apply Hb; by right|]. intros ->%elem_of_singleton. done.
Qed.

(** ** The whole sync *)
Lemma current_servers w l : GetVirtualServers w = inl l →
  foldl (λ m vs, <[VS_String vs := vs]> m) (∅ : gmap string VirtualServer) l = kv_servers (kview w).
Proof.
  intros El%GetVirtualServers_ok.
  assert (Hin : ∀ vs, vs ∈ l ↔ kv_servers (kview w) !! VS_String vs = Some vs).
  { intros vs. rewrite El, list_elem_of_fmap. split.
    - intros ([n vs'] & -> & Hn%elem_of_map_to_list). cbn. by rewrite (servers_named _ _ _ Hn).
    - intros Hn. exists (VS_String vs, vs). by rewrite elem_of_map_to_list. }
  assert (Hfold : ∀ l', (∀ vs, vs ∈ l' → vs ∈ l) → ∀ n vs,
    foldl (λ m vs, <[VS_String vs := vs]> m) (∅ : gmap string VirtualServer) l' !! n = Some vs ↔ vs ∈ l' ∧ VS_String vs = n).
  { induction l' as [|b l' IH] using rev_ind; intros Hsub n vs.
    - cbn [foldl]. rewrite lookup_empty. set_solver.
    - rewrite foldl_snoc, lookup_insert_Some, IH by set_solver. rewrite elem_of_app, list_elem_of_singleton. split.
      + intros [[<- <-]|[? [? ?]]]; auto.
      + intros [[Hv| ->] <-]; [|by left]. destruct (decide (VS_String b = VS_String vs)) as [E|]; [left|by right].
        split; [done|]. assert (Hb : b ∈ l) by set_solver. assert (Hv' : vs ∈ l) by set_solver.
        apply Hin in Hb, Hv'. congruence. }
  apply map_eq. intros n. apply option_eq. intros vs. rewrite Hfold by done. rewrite Hin. split; [by intros [? <-]|].
  intros Hn. by rewrite (servers_named _ _ _ Hn).
Qed.

Lemma foldl_reset (f : IPSet → IPSet) l (m : gmap string IPSet) k :
  NoDup l.*1 → foldl (λ m e, <[e.1 := f e.2]> m) m l !! k = match (list_to_map l : gmap string IPSet) !! k with Some s => Some (f s) | None => m !! k end.
Proof.
  revert m. induction l as [|[k' s] l IH]; intros m; [done|]. rewrite fmap_cons, NoDup_cons. intros [Hni Hnd]. cbn [foldl list_to_map foldr fst snd].
  rewrite IH by done. destruct (decide (k' = k)) as [->|Hne].
  - rewrite lookup_insert_eq. rewrite not_elem_of_list_to_map_1 by done. by rewrite lookup_insert_eq.
  - rewrite !lookup_insert_ne by done. done.
Qed.

Lemma reset_all (m : gmap string IPSet) : foldl (λ m e, <[e.1 := resetEntries e.2]> m) m (go_range m) = resetEntries <$> m.
Proof.
  apply map_eq. intros k. rewrite foldl_reset by apply NoDup_go_range. rewrite list_to_map_go_range, lookup_fmap. by destruct (m !! k).
Qed.

(** The sets that [NewProxier] makes: the three that a sync looks up are there, and the
    kernel tells them all apart. *)
Definition sets_ok (sets : gmap string IPSet) : Prop :=
  is_Some (sets !! kubeLoopBackIPSet) ∧ is_Some (sets !! kubeClusterIPSet) ∧ is_Some (sets !! kubeIPVSSet) ∧
  ∀ k1 k2 s1 s2, sets !! k1 = Some s1 → sets !! k2 = Some s2 → is_Name s1 = is_Name s2 → k1 = k2.

Lemma sets_ok_same sets sets' : same_sets sets sets' → sets_ok sets → sets_ok sets'.
Proof.
  intros E ([s1 S1] & [s2 S2] & [s3 S3] & Hinj). split_and!;
    [edestruct same_sets_lookup as (?&->&_); [exact E|exact S1|done]|edestruct same_sets_lookup as (?&->&_); [exact E|exact S2|done]
    |edestruct same_sets_lookup as (?&->&_); [exact E|exact S3|done]|].
  intros k1 k2 t1 t2 T1 T2 Hn. symmetry in E.
  destruct (same_sets_lookup _ _ _ _ E T1) as (u1 & U1 & V1), (same_sets_lookup _ _ _ _ E T2) as (u2 & U2 & V2).
  eapply Hinj; [done|done|]. unfold is_Name in *. congruence.
Qed.

Lemma sets_ok_nodup sets : sets_ok sets → NoDup ((λ e : string * IPSet, is_Name e.2) <$> go_range sets).
Proof.
  intros (_ & _ & _ & Hinj). apply NoDup_fmap_2_strong; [|eapply NoDup_fmap_1, NoDup_go_range].
  intros [k1 s1] [k2 s2] E1%elem_of_go_range E2%elem_of_go_range Hn. cbn in Hn. assert (k1 = k2) as -> by eauto. congruence.
Qed.

(** The part of the sync after the services. *)
Definition finished (bound : option (gset string)) (st : syncState (W := W)) (p' : Proxier) (w' : W) : Prop :=
  let p := sy_p st in let k := kview (sy_w st) in let k' := kview w' in
  conf p' = conf p ∧ px_rsList p' = px_rsList p ∧
  kv_servers k' = filter (λ nv, kept p (sy_active st) nv = true) (kv_servers k) ∧
  (∀ n, is_Some (kv_servers k' !! n) → reals_of k' n = reals_of k n) ∧
  kv_bound k' = kv_bound k ∖ (default ∅ bound ∖ sy_bind st) ∧
  (∀ name s, px_ipsetList p !! name = Some s →
    entries_of k' (is_Name s) = if decide (name = kubeIPVSSet) then sy_bind st else activeEntries s).

Lemma finish_sync_ok bound st :
  sets_ok (px_ipsetList (sy_p st)) →
  (∀ name s, px_ipsetList (sy_p st) !! name = Some s → is_Some (kv_sets (kview (sy_w st)) !! is_Name s)) →
  default ∅ bound ∖ sy_bind st ⊆ kv_bound (kview (sy_w st)) →
  ∃ p' w', finish_sync bound st = Ret (p', w') ∧ finished bound st p' w'.
Proof.
  intros Hso Hkv Hb. destruct st as [p w active bind]. cbn [sy_p sy_w sy_active sy_bind] in *.
  pose proof Hso as (_ & _ & [si Hsi] & _). unfold finish_sync. cbn [sy_p sy_w sy_active sy_bind]. rewrite Hsi. cbn [deref mbind outcome_bind].
  set (sets := <[kubeIPVSSet := mkIPSet (is_IPSet si) bind]> (px_ipsetList p)).
  assert (Hss : same_sets (px_ipsetList p) sets).
  { unfold same_sets, sets. rewrite fmap_insert. apply insert_id. by rewrite lookup_fmap, Hsi. }
  pose proof (sets_ok_nodup _ (sets_ok_same _ _ Hss Hso)) as Hnd.
  destruct (fill_sets_ok (go_range sets) w) as (F1 & F2 & F3 & F4 & _); [|done|].
  { intros [name t] Ht%elem_of_go_range. cbn [snd]. symmetry in Hss. destruct (same_sets_lookup _ _ _ _ Hss Ht) as (u & Hu & Eu).
    specialize (Hkv _ _ Hu). unfold is_Name in *. by rewrite <- Eu. }
  set (w1 := foldl (λ w ns, syncIPSetEntries w (snd ns)) w (go_range sets)) in *.
  pose proof (unbind_all_ok (UnsortedList (default ∅ bound ∖ bind)) w1 (NoDup_UnsortedList _)) as Hu.
  rewrite F3 in Hu. specialize (Hu ltac:(intros a Ha%elem_of_UnsortedList; by apply Hb)).
  set (w2 := unbind_all w1 _) in *. destruct (GetVirtualServers_live w2) as [l El]. rewrite El, (current_servers _ _ El).
  destruct (cleanLegacyService_view p w2 active) as (C1 & C2 & C3 & C4).
  set (w3 := cleanLegacyService p w2 active (kv_servers (kview w2))) in *.
  eexists _, _. split; [done|]. cbn zeta in *. unfold finished. cbn [sy_p sy_w sy_active sy_bind].
  assert (Hl : list_to_set (UnsortedList (default ∅ bound ∖ bind)) = default ∅ bound ∖ bind).
  { apply set_eq. intros x. by rewrite elem_of_list_to_set, elem_of_UnsortedList. }
  split; [done|]. split; [done|]. rewrite C1, C3, Hu. cbn [with_bound kv_servers kv_bound]. rewrite F1, F3, Hl. split_and!; try done.
  - intros n Hn. rewrite C2 by (rewrite C1, Hu; cbn [with_bound kv_servers]; by rewrite F1).
    unfold reals_of. rewrite Hu. cbn [with_bound kv_reals]. by rewrite F2.
  - intros name t Ht. unfold entries_of. rewrite C4, Hu. cbn [with_bound kv_sets]. fold (entries_of (kview w1) (is_Name t)).
    case_decide as Hn.
    + subst name. assert (si = t) as <- by congruence. apply (F4 (kubeIPVSSet, mkIPSet (is_IPSet si) bind)).
      apply elem_of_go_range, lookup_insert_eq.
    + apply (F4 (name, t)). apply elem_of_go_range. unfold sets. by rewrite lookup_insert_ne.
Qed.

(** The kernel follows the maps of [p]: there is a virtual server for every service port,
    and none besides but those outside the proxier's family or in an excluded
    network; every service is synced; the dummy device has the addresses of the
    services and no others, the set of cluster addresses has their entries and the set of the dummy device's addresses
    their addresses. *)
Definition in_sync (p : Proxier) (w : W) (p' : Proxier) (w' : W) : Prop :=
  (∀ n, is_Some (kv_servers (kview w') !! n) ↔
    (∃ spn info, px_svcPortMap p !! spn = Some info ∧ n = server_name p info) ∨
    (∃ a, kv_servers (kview w) !! n = Some a ∧ (isIPInExcludeCIDRs p (vs_Address a) = true ∨ getIPFamily (vs_Address a) ≠ px_ipFamily p))) ∧
  (∀ spn info, px_svcPortMap p !! spn = Some info → synced p w (px_rsList p) w' (px_rsList p') spn info) ∧
  (∀ a, a ∈ kv_bound (kview w') ↔ ∃ spn info, px_svcPortMap p !! spn = Some info ∧ a = address info) ∧
  (∀ s x, px_ipsetList p !! kubeClusterIPSet = Some s →
    x ∈ entries_of (kview w') (is_Name s) ↔ ∃ spn info, px_svcPortMap p !! spn = Some info ∧ x = Entry_String (cluster_entry info)) ∧
  (∀ s x, px_ipsetList p !! kubeIPVSSet = Some s →
    x ∈ entries_of (kview w') (is_Name s) ↔ ∃ spn info, px_svcPortMap p !! spn = Some info ∧ x = address info).

Lemma elem_of_services {A} `{Countable A} (f : servicePortInfo → A) (m : SPMap) a :
  a ∈ (list_to_set ((λ e, f e.2) <$> go_range m) : gset A) ↔ ∃ spn info, m !! spn = Some info ∧ a = f info.
Proof.
  rewrite elem_of_list_to_set, list_elem_of_fmap. split.
  - intros ([spn info] & -> & E%elem_of_go_range). eauto.
  - intros (spn & info & E & ->). exists (spn, info). by rewrite elem_of_go_range.
Qed.

Lemma ready_conf p p0 w q spn info :
  conf p0 = conf p → same_sets (px_ipsetList p) (px_ipsetList p0) → ready p w q spn info → ready p0 w q spn info.
Proof.
  intros Hc Hs (R1 & (s & Hs1 & Hv) & Rb & R3 & R4). unfold ready, server_name. rewrite (conf_server p0 p) by done. split_and!; [done| |done|..].
  - destruct (same_sets_lookup _ _ _ _ Hs Hs1) as (s' & Hs' & E). exists s'. split; [done|]. unfold validateEntry in *. by rewrite E.
  - replace (px_initialSync p0) with (px_initialSync p) by (unfold conf in Hc; congruence). exact R3.
  - intros eps n. replace (px_endpointsMap p0) with (px_endpointsMap p) by (unfold conf in Hc; congruence).
    rewrite (conf_selected p0 p) by done. apply R4.
Qed.

Lemma kept_conf p p0 active nv : conf p0 = conf p → kept p0 active nv = kept p active nv.
Proof.
  intros Hc. unfold kept, isIPInExcludeCIDRs. by assert (px_excludeCIDRs p0 = px_excludeCIDRs p) as -> by (unfold conf in Hc; congruence);
    assert (px_ipFamily p0 = px_ipFamily p) as -> by (unfold conf in Hc; congruence).
Qed.

Lemma synced_conf p p0 w q w' q' spn info : conf p0 = conf p → synced p0 w q w' q' spn info → synced p w q w' q' spn info.
Proof.
  intros Hc [S1 S2]. unfold synced, server_name in *. rewrite (conf_server p0 p) in S1, S2 by done. split; [done|].
  replace (px_endpointsMap p) with (px_endpointsMap p0) by (unfold conf in Hc; congruence). destruct (px_endpointsMap p0 !! spn); [|done].
  intros n. specialize (S2 n). by rewrite (conf_selected p0 p) in S2 by done.
Qed.

Lemma kept_cases p active n a : kept p active (n, a) = true ↔
  n ∈ active ∨ isIPInExcludeCIDRs p (vs_Address a) = true ∨ getIPFamily (vs_Address a) ≠ px_ipFamily p.
Proof. unfold kept. cbn [fst snd]. rewrite !orb_true_iff, !bool_decide_eq_true. tauto. Qed.

(** The servers that are left are those of the services and those the proxier keeps away from. *)
Lemma servers_left p0 st w0 w' :
  kv_servers (kview w') = filter (λ nv, kept p0 (names p0 (go_range (px_svcPortMap p0))) nv = true) (kv_servers (kview (sy_w st))) →
  (∀ v, v ∉ names p0 (go_range (px_svcPortMap p0)) → kv_servers (kview (sy_w st)) !! v = kv_servers (kview w0) !! v) →
  (∀ e, e ∈ go_range (px_svcPortMap p0) → is_Some (kv_servers (kview (sy_w st)) !! server_name p0 e.2)) →
  ∀ n, is_Some (kv_servers (kview w') !! n) ↔
    n ∈ names p0 (go_range (px_svcPortMap p0)) ∨
    ∃ a, kv_servers (kview w0) !! n = Some a ∧ (isIPInExcludeCIDRs p0 (vs_Address a) = true ∨ getIPFamily (vs_Address a) ≠ px_ipFamily p0).
Proof.
  intros F3 B6 Hsy n. set (L := go_range (px_svcPortMap p0)) in *. rewrite F3.
  assert (Hname : n ∈ names p0 L → ∃ a, kv_servers (kview (sy_w st)) !! n = Some a).
  { unfold names. rewrite elem_of_list_to_set, list_elem_of_fmap. intros (e & -> & He). exact (Hsy e He). }
  assert (Hf : is_Some (filter (λ nv, kept p0 (names p0 L) nv = true) (kv_servers (kview (sy_w st))) !! n) ↔
    ∃ a, kv_servers (kview (sy_w st)) !! n = Some a ∧ kept p0 (names p0 L) (n, a) = true).
  { split; [intros [a Ha]|intros (a & Ha & Hk); exists a]; [exists a; by apply map_lookup_filter_Some in Ha|by apply map_lookup_filter_Some]. }
  rewrite Hf. setoid_rewrite kept_cases. destruct (decide (n ∈ names p0 L)) as [Hn|Hn].
  - split; [by left|]. intros _. destruct (Hname Hn) as [a Ha]. eauto.
  - rewrite B6 by done. naive_solver.
Qed.

Lemma rebound (A B : gset string) a : a ∈ (A ∖ B ∪ B) ∖ (B ∖ A) ↔ a ∈ A.
Proof.
  rewrite elem_of_difference, elem_of_union, !elem_of_difference. destruct (decide (a ∈ A)), (decide (a ∈ B)); naive_solver.
Qed.

(** A round of all services from a state whose sets are empty, and the rest of the sync. *)
Lemma round_in_sync p0 w0 :
  sets_ok (px_ipsetList p0) → cluster_entries p0 = ∅ → list_ok (px_rsList p0) →
  (∀ name s, px_ipsetList p0 !! name = Some s → is_Some (kv_sets (kview w0) !! is_Name s)) →
  (∀ spn spn' info info', px_svcPortMap p0 !! spn = Some info → px_svcPortMap p0 !! spn' = Some info' → spn ≠ spn' →
    apart (server_name p0 info) (server_name p0 info')) →
  (∀ spn info, px_svcPortMap p0 !! spn = Some info → ready p0 w0 (px_rsList p0) spn info) →
  let bound := Some (kv_bound (kview w0)) in
  ∃ st p' w', sync_services bound (go_range (px_svcPortMap p0)) (mkSync p0 w0 ∅ ∅) = Ret st ∧
    finish_sync bound st = Ret (p', w') ∧ conf p' = conf p0 ∧ in_sync p0 w0 p' w'.
Proof.
  intros Hso Hce Hok Hkv Hap Hr bound. set (L := go_range (px_svcPortMap p0)).
  destruct (sync_services_ok p0 bound L (mkSync p0 w0 ∅ ∅)) as (st & Est & (Hc & Hss & _) & (B1 & B2 & B3 & B4 & B5 & B6) & Hsy & _).
  { by split_and!. } { apply Hso. } { apply NoDup_go_range. }
  { intros [spn info] [spn' info'] E%elem_of_go_range E'%elem_of_go_range Hne. by eapply Hap. }
  { intros [spn info] E%elem_of_go_range. by apply Hr. }
  cbn [sy_p sy_w sy_active sy_bind] in *. rewrite union_empty_r_L in B1, B2. rewrite Hce, union_empty_r_L in B3.
  change (default ∅ bound) with (kv_bound (kview w0)) in B4.
  destruct (finish_sync_ok bound st) as (p' & w' & Efs & F1 & F2 & F3 & F4 & F5 & F6).
  { by eapply sets_ok_same. }
  { intros name s Hs. rewrite B5. symmetry in Hss. destruct (same_sets_lookup _ _ _ _ Hss Hs) as (u & Hu & Eu).
    specialize (Hkv _ _ Hu). unfold is_Name in *. by rewrite <- Eu. }
  { rewrite B4. change (default ∅ bound) with (kv_bound (kview w0)). set_solver. }
  exists st, p', w'. split; [done|]. split; [done|]. split; [congruence|].
  rewrite B1 in F3. assert (F3' : kv_servers (kview w') = filter (λ nv, kept p0 (names p0 L) nv = true) (kv_servers (kview (sy_w st)))).
  { rewrite F3. apply map_filter_ext. intros i x _. by rewrite (kept_conf p0 (sy_p st) _ _ Hc). }
  assert (Hserv : ∀ e, e ∈ L → is_Some (kv_servers (kview (sy_w st)) !! server_name p0 e.2)).
  { intros e He. destruct (Hsy e He) as [(a & Ha & _) _]. rewrite Ha. eauto. }
  assert (Hleft := servers_left p0 st w0 w' F3' B6 Hserv). fold L in Hleft. split_and!.
  - intros n. rewrite Hleft. unfold names, L. by rewrite (elem_of_services (server_name p0)).
  - intros spn info E. assert (He : (spn, info) ∈ L) by (by apply elem_of_go_range). destruct (Hserv _ He) as [a Ha]. cbn [snd] in Ha.
    assert (Hw' : kv_servers (kview w') !! server_name p0 info = Some a).
    { rewrite F3'. apply map_lookup_filter_Some. split; [done|]. apply kept_cases. left. unfold names, L. apply (elem_of_services (server_name p0)). eauto. }
    eapply synced_same; [|apply (Hsy (spn, info) He)]. split_and!; [by rewrite Hw', Ha|apply F4; by rewrite Hw'|]. intros n. by rewrite F2.
  - intros a. rewrite F5, B4, B2. change (default ∅ bound) with (kv_bound (kview w0)). rewrite <- (elem_of_services address). apply rebound.
  - intros s x Hs. destruct (same_sets_lookup _ _ _ _ Hss Hs) as (s' & Hs' & En). unfold is_Name. rewrite <- En. fold (is_Name s').
    rewrite (F6 _ _ Hs'), decide_False by done. unfold cluster_entries in B3. rewrite Hs' in B3. cbn in B3. rewrite B3. unfold entries, L.
    by rewrite (elem_of_services (λ info, Entry_String (cluster_entry info))).
  - intros s x Hs. destruct (same_sets_lookup _ _ _ _ Hss Hs) as (s' & Hs' & En). unfold is_Name. rewrite <- En. fold (is_Name s').
    rewrite (F6 _ _ Hs'), decide_True, B2 by done. unfold addresses, L. apply (elem_of_services address).
Qed.

Lemma in_sync_conf p p0 w w0 p' p'' w' :
  conf p0 = conf p → same_sets (px_ipsetList p) (px_ipsetList p0) → kv_servers (kview w0) = kv_servers (kview w) →
  kv_reals (kview w0) = kv_reals (kview w) → px_rsList p0 = px_rsList p →
  px_rsList p'' = px_rsList p' → in_sync p0 w0 p' w' → in_sync p w p'' w'.
Proof.
  intros Hc Hs Hk Hr Hl Hq (I1 & I2 & I3 & I4 & I5).
  assert (Hm : px_svcPortMap p0 = px_svcPortMap p) by (unfold conf in Hc; congruence).
  assert (He : px_excludeCIDRs p0 = px_excludeCIDRs p) by (unfold conf in Hc; congruence).
  assert (Hf : px_ipFamily p0 = px_ipFamily p) by (unfold conf in Hc; congruence).
  rewrite Hm in I1, I2, I3, I4, I5. rewrite Hk, Hf in I1. unfold isIPInExcludeCIDRs in I1. rewrite He in I1. split_and!.
  - intros n. rewrite I1. unfold server_name. split; (intros [(spn & info & ? & ->)|?]; [left|by right]; exists spn, info; split; [done|]);
      by rewrite (conf_server p0 p).
  - intros spn info E. rewrite Hq. eapply synced_conf; [done|]. rewrite <- Hl. eapply synced_start; [|by apply I2].
    split_and!; [by rewrite Hk|unfold reals_of; by rewrite Hr|done].
  - done.
  - intros s x E. destruct (same_sets_lookup _ _ _ _ Hs E) as (s' & E' & Es). unfold is_Name in *. rewrite <- Es. by apply I4.
  - intros s x E. destruct (same_sets_lookup _ _ _ _ Hs E) as (s' & E' & Es). unfold is_Name in *. rewrite <- Es. by apply I5.
Qed.

(** C4: a sync brings the kernel to the state the maps describe.  Where the kernel answers, the
    services have virtual servers whose names are told apart, the endpoint
    strings are in canonical form and every existing virtual server is between two
    syncs, [syncProxyRules] returns and then: the virtual servers are those of
    the service ports, with the configuration of the port, and besides them only those the
    proxier must not touch; of each service with an entry in the endpoint map exactly the selected
    endpoints get traffic, and a service without an entry keeps the real servers it had, none where its server is new; the addresses
    of the dummy device are those of the services, and so are the entries of the two sets of cluster addresses. *)
Theorem syncProxyRules_correct p w svcs sct r1 epm ect r2 :
  px_initialized p = true →
  ServicePortMap_Update (px_svcPortMap p) (px_serviceImportChanges p) = (svcs, sct, r1) →
  EndpointsMap_Update (px_endpointsMap p) (Some (px_endpointsChanges p)) = Ret (epm, ect, r2) →
  let p1 := with_maps svcs epm p in
  sets_ok (px_ipsetList p) → list_ok (px_rsList p) →
  (∀ spn spn' info info', svcs !! spn = Some info → svcs !! spn' = Some info' → spn ≠ spn' →
    apart (server_name p1 info) (server_name p1 info')) →
  (∀ spn info, svcs !! spn = Some info → ready p1 w (px_rsList p) spn info) →
  ∃ p' w', syncProxyRules p w = Ret (p', w') ∧ in_sync p1 w p' w' ∧
    px_svcPortMap p' = svcs ∧ px_endpointsMap p' = epm ∧ px_initialSync p' = false.
Proof.
  intros Hi Es Ee p1 Hso Hok Hap Hr. unfold syncProxyRules. rewrite Hi, Es, Ee. cbn [negb mbind outcome_bind].
  pose proof (EnsureDummyDevice_ok w) as Hd. unfold effect in Hd. rewrite EnsureDummyDevice_live in Hd.
  pose proof (EnsureDummyDevice_live w) as Hl. destruct (EnsureDummyDevice w defaultDummyDevice) as [w1 e].
  cbn [fst snd id] in *. subst e. set (p2 := with_list _ _ _ _).
  destruct (ensure_sets_ok (go_range (px_ipsetList p2)) w1 (px_ipsetList p2)) as (w0 & sets & -> & -> & E1 & E2 & E3 & E4).
  rewrite reset_all. cbn [negb]. set (p0 := with_sets (resetEntries <$> px_ipsetList p2) p2).
  assert (Hss : same_sets (px_ipsetList p) (px_ipsetList p0)).
  { unfold same_sets, p0. cbn [with_sets px_ipsetList]. rewrite <- map_fmap_compose. by apply map_fmap_ext. }
  assert (Hsame : ∀ v, same_server v w (px_rsList p) w0 (px_rsList p)).
  { intros v. unfold same_server, reals_of. by rewrite E1, E2, Hd. }
  destruct (GetLocalAddresses_live w0) as [b Eb]. rewrite Eb. apply GetLocalAddresses_ok in Eb as ->.
  destruct (round_in_sync p0 w0) as (st & p' & w' & Est & Efs & Hc & Hin).
  - by eapply sets_ok_same.
  - unfold cluster_entries, p0. cbn [with_sets px_ipsetList]. rewrite lookup_fmap. by destruct (px_ipsetList p2 !! kubeClusterIPSet).
  - exact Hok.
  - intros name s Hs. symmetry in Hss. destruct (same_sets_lookup _ _ _ _ Hss Hs) as (u & Hu & Eu). apply E4. right.
    apply list_elem_of_fmap. exists (name, u). unfold is_Name. rewrite <- Eu. split; [done|]. by apply elem_of_go_range.
  - exact Hap.
  - intros spn info E. eapply (ready_conf p1); [done|exact Hss|]. eapply ready_same; [apply Hsame|exact Hok|]. by apply Hr.
  - change (px_svcPortMap (with_sets (resetEntries <$> px_ipsetList p2) p2)) with (px_svcPortMap p0). rewrite Est. cbn [mbind outcome_bind].
    rewrite Efs. cbn [mbind outcome_bind]. eexists _, _. split; [done|]. split.
    + eapply (in_sync_conf p1 p0); [done|exact Hss| | |done|reflexivity|exact Hin]; by rewrite ?E1, ?E2, Hd.
    + unfold conf in Hc. split_and!; [change (px_svcPortMap p' = px_svcPortMap p0); congruence
        |change (px_endpointsMap p' = px_endpointsMap p0); congruence|done].
Qed.
End sync.

(** ** A concrete sync

    The kernel has the virtual server of the service with two real servers of an
    earlier life of the proxier; the service has one endpoint now. *)
Section demo.
#[local] Existing Instances list_runtime demo_ipvslib demo_kernel demo_ipvsnames demo_laws demo_reliable demo_proxylib demo_servicelib demo_netutils.

Definition demo_pending : Proxier :=
  let p0 := NewProxier "IPv4" "node" EmptyString [] 0 in
  match ('(p, _) ← OnServiceImportAdd p0 demo_import; '(p, _) ← OnEndpointSliceAdd p (demo_export "c1" "10.1.0.1"); Ret p) with
  | Ret p => setInitialized p true true true
  | _ => p0
  end.
Definition demo_service_update := ServicePortMap_Update (px_svcPortMap demo_pending) (px_serviceImportChanges demo_pending).
Definition demo_endpoint_update := EndpointsMap_Update (px_endpointsMap demo_pending) (Some (px_endpointsChanges demo_pending)).
Definition demo_endpoint_result := match demo_endpoint_update with Ret r => r | _ => (∅, None, mkUER ∅ [] [] ∅) end.
Definition demo_svcs : SPMap := demo_service_update.1.1.
Definition demo_epm : EndpointsMap := demo_endpoint_result.1.1.

Lemma triple_eta {A B C} (x : A * B * C) : x = (x.1.1, x.1.2, x.2).
Proof. by destruct x as [[? ?] ?]. Qed.
Lemma returned_eta {A B C} (o : outcome (A * B * C)) d :
  match o with Ret _ => true | _ => false end = true →
  o = Ret ((match o with Ret r => r | _ => d end).1.1, (match o with Ret r => r | _ => d end).1.2, (match o with Ret r => r | _ => d end).2).
Proof. by destruct o as [[[? ?] ?]| | |]. Qed.

Lemma sets_ok_check (sets : gmap string IPSet) :
  bool_decide (is_Some (sets !! kubeLoopBackIPSet) ∧ is_Some (sets !! kubeClusterIPSet) ∧ is_Some (sets !! kubeIPVSSet) ∧
    NoDup ((λ e : string * IPSet, is_Name e.2) <$> map_to_list sets)) = true → sets_ok sets.
Proof.
  intros (H1 & H2 & H3 & Hnd)%bool_decide_eq_true. split_and!; try done. intros k1 k2 s1 s2 E1 E2 Hn.
  apply elem_of_map_to_list, list_elem_of_lookup in E1 as [i E1], E2 as [j E2].
  assert (Hij : i = j) by (eapply NoDup_lookup; [exact Hnd|..]; rewrite list_lookup_fmap, ?E1, ?E2; cbn; by rewrite ?Hn).
  subst j. congruence.
Qed.

Lemma demo_services spn info : demo_svcs !! spn = Some info → (spn, info) ∈ map_to_list demo_svcs.
Proof. by rewrite elem_of_map_to_list. Qed.

Lemma demo_ready spn info : demo_svcs !! spn = Some info →
  ready (with_maps demo_svcs demo_epm demo_pending) demo_node ∅ spn info.
Proof.
  intros Hs%demo_services. set (P := ready _ _ _). assert (Hall : Forall (λ e, P e.1 e.2) (map_to_list demo_svcs)).
  2: { rewrite Forall_forall in Hall. exact (Hall _ Hs). }
  unfold P. clear P Hs spn info. set (p1 := with_maps demo_svcs demo_epm demo_pending).
  assert (Hl : ∃ e, map_to_list demo_svcs = [e] ∧ server_name p1 e.2 = VS_String demo_vs ∧ VS_Equal (virtual_server p1 e.2) (virtual_server p1 e.2) = true ∧
    (∃ s, px_ipsetList p1 !! kubeClusterIPSet = Some s ∧ validateEntry s (cluster_entry e.2) = true) ∧
    ∃ eps, px_endpointsMap p1 !! e.1 = Some eps ∧
      set_Forall canonical (selected p1 e.1 e.2 eps ∪ dom (reals_of (kview demo_node) (VS_String demo_vs)))).
  { eexists. split; [vm_compute; reflexivity|]. split; [vm_compute; reflexivity|]. split; [vm_compute; reflexivity|].
    split; [eexists; split; vm_compute; reflexivity|]. eexists. split; [vm_compute; reflexivity|].
    apply set_Forall_elements. by apply (bool_decide_unpack _); vm_compute. }
  destruct Hl as (e & -> & Hn & He & Hc & eps & Heps & Hcan). apply Forall_singleton. unfold ready. rewrite Hn. split_and!; [done|done|done|..].
  - exact (steady_start (VS_String demo_vs) demo_node).
  - intros eps' n He' Hin. apply Hcan. rewrite elem_of_union, elem_of_dom. rewrite Heps in He'. injection He' as <-. tauto.
Qed.

Lemma syncProxyRules_correct_witness :
  ∃ p' w', syncProxyRules demo_pending demo_node = Ret (p', w') ∧ in_sync (with_maps demo_svcs demo_epm demo_pending) demo_node p' w' ∧
    px_svcPortMap p' = demo_svcs ∧ px_endpointsMap p' = demo_epm ∧ px_initialSync p' = false.
Proof.
  apply (syncProxyRules_correct demo_pending demo_node demo_svcs demo_service_update.1.2 demo_service_update.2
    demo_epm demo_endpoint_result.1.2 demo_endpoint_result.2).
  - reflexivity.
  - apply triple_eta.
  - apply returned_eta. vm_compute. reflexivity.
  - apply sets_ok_check. vm_compute. reflexivity.
  - apply list_ok_empty.
  - intros spn spn' info info' E E' Hne. exfalso. apply demo_services in E, E'.
    assert (Hl : ∃ e, map_to_list demo_svcs = [e]) by (eexists; vm_compute; reflexivity). destruct Hl as [e He].
    rewrite He in E, E'. apply list_elem_of_singleton in E, E'. congruence.
  - intros spn info. apply demo_ready.
Defined.
End demo.
