(* ===== verification/NetLink.v ===== *)
(** * The netlink handle of the proxier

    [pkg/proxy/ipvs/netlink_linux.go]: the implementation of [NetLinkHandle] on top of
    netlink.  [netlinkHandle_refines] discharges what [Kernel] lets the proxier
    rely on: the handle binds and unbinds exactly the address it is given,
    for every address in the form in which it lists them.  The netlink library, [net.Interfaces] and
    two functions of Kubernetes' utilities are the class [Netlink]. *)
From Stdlib Require Import Ascii.
From stdpp Require Import prelude gmap strings list.
From S2P Require Import Prelude NetAddr K8s ProxyEndpoints ProxyServices Kernel.
Open Scope Z_scope.

Inductive DeviceType := Dummy | Device (type : string).
Inductive Errno := EEXIST | ENXIO | OtherErrno.
#[export] Instance Errno_eq_dec : EqDecision Errno.
Proof. solve_decision. Defined.
Record NlError := mkNlError { nl_Errno : Errno; nl_Msg : string }.
Record LinkError := mkLinkError { le_NotFound : bool; le_Msg : string }.

Class Netlink (W : Type) := {
  h_LinkByName : W → string → DeviceType + LinkError;
  h_LinkAddDummy : W → string → W * option string;
  h_LinkDel : W → string → W * option string;
  h_AddrAdd : W → string → IPNet → W * option NlError;
  h_AddrDel : W → string → IPNet → W * option NlError;
  h_AddrList : W → string → list IPNet + string;
  NewIPNet : IP → IPNet;
  net_InterfaceAddrs : W → list IPNet + string;
  net_InterfaceByName : W → string → option string;
  net_Interfaces : W → list string + string;
  iface_Addrs : W → string → list IPNet + string;
  netutils_IsIPv6 : IP → bool;
  AddressSet : (IP → bool) → list IPNet → gset string
}.

(** [IP.IsLoopback] and [IP.IsLinkLocalUnicast] of the [net] package. *)
Definition IsLoopback (ip : IP) : bool :=
  match To4 ip with
  | a :: _ => a =? 127
  | [] => bool_decide (ip = replicate 15 0 ++ [1])
  end.
Definition IsLinkLocalUnicast (ip : IP) : bool :=
  match To4 ip with
  | a :: b :: _ => (a =? 169) && (b =? 254)
  | _ => match ip with
         | a :: b :: _ => (length ip =? 16)%nat && (a =? 254) && (Z.land b 192 =? 128)
         | _ => false
         end
  end.

Record netlinkHandle := mkHandle { isIPv6 : bool }.
Definition NewNetLinkHandle (isIPv6 : bool) : netlinkHandle := mkHandle isIPv6.

Section handle.
Context {W : Type} `{ServiceLib} `{Netlink W}.
Variable h : netlinkHandle.

Definition isValidForSet (ip : IP) : bool :=
  if negb (Bool.eqb (isIPv6 h) (netutils_IsIPv6 ip)) then false
  else if isIPv6 h && IsLinkLocalUnicast ip then false
  else negb (IsLoopback ip).

(** The result tells whether the address was bound already. *)
Definition handle_EnsureAddressBind (w : W) (address devName : string) : W * (bool + string) :=
  match h_LinkByName w devName with
  | inr err => (w, inr ("error get interface: " +:+ devName +:+ ", err: " +:+ le_Msg err))
  | inl _ =>
      let addr := ParseIPSloppy address in
      if bool_decide (addr = []) then (w, inr ("error parse ip address: " +:+ address))
      else match h_AddrAdd w devName (NewIPNet addr) with
           | (w, Some err) =>
               if bool_decide (nl_Errno err = EEXIST) then (w, inl true)
               else (w, inr ("error bind address: " +:+ address +:+ " to interface: " +:+ devName +:+ ", err: " +:+ nl_Msg err))
           | (w, None) => (w, inl false)
           end
  end.

Definition handle_UnbindAddress (w : W) (address devName : string) : W * option string :=
  match h_LinkByName w devName with
  | inr err => (w, Some ("error get interface: " +:+ devName +:+ ", err: " +:+ le_Msg err))
  | inl _ =>
      let addr := ParseIPSloppy address in
      if bool_decide (addr = []) then (w, Some ("error parse ip address: " +:+ address))
      else match h_AddrDel w devName (NewIPNet addr) with
           | (w, Some err) =>
               if bool_decide (nl_Errno err = ENXIO) then (w, None)
               else (w, Some ("error unbind address: " +:+ address +:+ " from interface: " +:+ devName +:+ ", err: " +:+ nl_Msg err))
           | (w, None) => (w, None)
           end
  end.

(** Every error of the lookup makes the device be added. *)
Definition handle_EnsureDummyDevice (w : W) (devName : string) : W * (bool * option string) :=
  match h_LinkByName w devName with
  | inl _ => (w, (true, None))
  | inr _ => let '(w, err) := h_LinkAddDummy w devName in (w, (false, err))
  end.

Definition DeleteDummyDevice (w : W) (devName : string) : W * option string :=
  match h_LinkByName w devName with
  | inr err => if le_NotFound err then (w, None)
               else (w, Some ("error deleting a non-exist dummy device: " +:+ devName +:+ ", " +:+ le_Msg err))
  | inl (Device type) => (w, Some ("expect dummy device, got device type: " +:+ type))
  | inl Dummy => h_LinkDel w devName
  end.

Definition ListBindAddress (w : W) (devName : string) : list string + string :=
  match h_LinkByName w devName with
  | inr err => inr ("error get interface: " +:+ devName +:+ ", err: " +:+ le_Msg err)
  | inl _ => match h_AddrList w devName with
             | inr err => inr ("error list bound address of interface: " +:+ devName +:+ ", err: " +:+ err)
             | inl addrs => inl ((λ a, IP_String (net_IP a)) <$> addrs)
             end
  end.

Definition GetAllLocalAddresses (w : W) : gset string + string :=
  match net_InterfaceAddrs w with
  | inr err => inr ("could not get addresses: " +:+ err)
  | inl addr => inl (AddressSet isValidForSet addr)
  end.

Definition handle_GetLocalAddresses (w : W) (dev : string) : gset string + string :=
  match net_InterfaceByName w dev with
  | Some err => inr ("could not get interface " +:+ dev +:+ ": " +:+ err)
  | None => match iface_Addrs w dev with
            | inr err => inr ("can't get addresses from " +:+ dev +:+ ": " +:+ err)
            | inl addr => inl (AddressSet isValidForSet addr)
            end
  end.

(** The addresses of the other interfaces; one that cannot be read is skipped. *)
Fixpoint other_addrs (w : W) (dev : string) (ifaces : list string) : list IPNet :=
  match ifaces with
  | [] => []
  | iface :: rest =>
      if bool_decide (iface = dev) then other_addrs w dev rest
      else match iface_Addrs w iface with
           | inr _ => other_addrs w dev rest
           | inl ifadr => ifadr ++ other_addrs w dev rest
           end
  end.
Definition GetAllLocalAddressesExcept (w : W) (dev : string) : gset string + string :=
  match net_Interfaces w with
  | inr err => inr err
  | inl ifaces => inl (AddressSet isValidForSet (other_addrs w dev ifaces))
  end.

(** The interface of the proxier: it does not look at the first results. *)
Definition netlink_handle : NetLinkHandle W := {|
  EnsureDummyDevice := λ w dev, let '(w, (_, err)) := handle_EnsureDummyDevice w dev in (w, err);
  GetLocalAddresses := handle_GetLocalAddresses;
  EnsureAddressBind := λ w a dev,
    match handle_EnsureAddressBind w a dev with (w, inl _) => (w, None) | (w, inr err) => (w, Some err) end;
  UnbindAddress := handle_UnbindAddress |}.
End handle.

(** ** What netlink does

    [dev_addrs] are the host addresses of a device, [rest_view] all else the proxier sees.
    The dummy device carries host addresses only, since nobody but the handle
    puts addresses there, in the form in which [ParseIPSloppy] returns them. *)
Definition address_strings (valid : IP → bool) (l : list IP) : gset string := list_to_set (IP_String <$> filter (λ ip, valid ip = true) l).

Class NetlinkLaws (W : Type) `{ServiceLib} `{Netlink W} := {
  dev_addrs : W → string → list IP;
  rest_view : W → KernelView;
  addrs_parse : ∀ w ip, ip ∈ dev_addrs w defaultDummyDevice → ParseIPSloppy (IP_String ip) = ip ∧ ip ≠ [];
  AddressSet_ok : ∀ valid l, AddressSet valid l = address_strings valid (net_IP <$> l);
  iface_Addrs_ok : ∀ w dev l valid, iface_Addrs w dev = inl l → AddressSet valid l = address_strings valid (dev_addrs w dev);
  LinkAddDummy_ok : ∀ w dev w' e, h_LinkAddDummy w dev = (w', e) →
    rest_view w' = rest_view w ∧ dev_addrs w' defaultDummyDevice = dev_addrs w defaultDummyDevice;
  hAddrAdd_ok : ∀ w dev ip w' e, h_AddrAdd w dev (NewIPNet ip) = (w', e) → rest_view w' = rest_view w ∧
    match e with
    | None => dev_addrs w' dev = ip :: dev_addrs w dev
    | Some err => dev_addrs w' dev = dev_addrs w dev ∧ (nl_Errno err = EEXIST → ip ∈ dev_addrs w dev)
    end;
  hAddrDel_ok : ∀ w dev ip w' e, h_AddrDel w dev (NewIPNet ip) = (w', e) → rest_view w' = rest_view w ∧
    match e with
    | None => dev_addrs w' dev = filter (.≠ ip) (dev_addrs w dev)
    | Some err => dev_addrs w' dev = dev_addrs w dev ∧ (nl_Errno err = ENXIO → ip ∉ dev_addrs w dev)
    end
}.

Section refinement.
Context {W : Type} `{NetlinkLaws W}.
Variable h : netlinkHandle.
#[local] Existing Instance netlink_handle.

(** What the proxier sees of a node, and the addresses it can bind there. *)
Definition node_view (w : W) : KernelView :=
  with_bound (λ _, address_strings (isValidForSet h) (dev_addrs w defaultDummyDevice)) (rest_view w).
Definition node_bindable (a : string) : Prop :=
  IP_String (ParseIPSloppy a) = a ∧ ParseIPSloppy a ≠ [] ∧ isValidForSet h (ParseIPSloppy a) = true.

Lemma elem_of_address_strings valid l a : a ∈ address_strings valid l ↔ ∃ ip, ip ∈ l ∧ valid ip = true ∧ a = IP_String ip.
Proof.
  unfold address_strings. rewrite elem_of_list_to_set, list_elem_of_fmap. setoid_rewrite list_elem_of_filter. naive_solver.
Qed.

Lemma node_view_eq w w' : rest_view w' = rest_view w → dev_addrs w' defaultDummyDevice = dev_addrs w defaultDummyDevice →
  node_view w' = node_view w.
Proof. unfold node_view. by intros -> ->. Qed.

Lemma node_view_bound w w' f : rest_view w' = rest_view w →
  (∀ a, a ∈ address_strings (isValidForSet h) (dev_addrs w' defaultDummyDevice) ↔
        a ∈ (f (address_strings (isValidForSet h) (dev_addrs w defaultDummyDevice)) : gset string)) →
  node_view w' = with_bound f (node_view w).
Proof. unfold node_view. intros -> E. unfold with_bound. cbn. f_equal. by apply set_eq. Qed.

Lemma dummy_parse w ip : ip ∈ dev_addrs w defaultDummyDevice → ParseIPSloppy (IP_String ip) = ip.
Proof. intros Hi. by apply addrs_parse in Hi as [? _]. Qed.

Lemma bind_effect w a : node_bindable a →
  effect node_view w (EnsureAddressBind (NetLinkHandle := netlink_handle h) w a defaultDummyDevice) (with_bound (union {[a]})).
Proof.
  intros (Hs & Hne & Hv). unfold effect. cbn [EnsureAddressBind netlink_handle]. unfold handle_EnsureAddressBind.
  destruct (h_LinkByName _ _); [|done]. rewrite bool_decide_eq_false_2 by done.
  destruct (h_AddrAdd _ _ _) as [w' [err|]] eqn:E; apply hAddrAdd_ok in E as [Er Ea].
  - destruct Ea as [Ea Hx]. case_bool_decide as He; [|by apply node_view_eq]. cbn [fst snd]. apply node_view_bound; [done|].
    intros b. rewrite elem_of_union, elem_of_singleton, !elem_of_address_strings, Ea. split; [by right|].
    intros [->|?]; [|done]. exists (ParseIPSloppy a). auto.
  - cbn [fst snd]. apply node_view_bound; [done|]. intros b. rewrite elem_of_union, elem_of_singleton, !elem_of_address_strings, Ea.
    setoid_rewrite elem_of_cons. naive_solver congruence.
Qed.

Lemma unbind_effect w a : node_bindable a →
  effect node_view w (UnbindAddress (NetLinkHandle := netlink_handle h) w a defaultDummyDevice) (with_bound (λ s, s ∖ {[a]})).
Proof.
  intros (Hs & Hne & Hv). unfold effect. cbn [UnbindAddress netlink_handle]. unfold handle_UnbindAddress.
  destruct (h_LinkByName _ _); [|done]. rewrite bool_decide_eq_false_2 by done.
  assert (Hother : ∀ ip, ip ∈ dev_addrs w defaultDummyDevice → IP_String ip = a ↔ ip = ParseIPSloppy a).
  { intros ip Hip%dummy_parse. split; [intros <-; congruence|by intros ->]. }
  destruct (h_AddrDel _ _ _) as [w' [err|]] eqn:E; apply hAddrDel_ok in E as [Er Ea].
  - destruct Ea as [Ea Hx]. case_bool_decide as He; [|by apply node_view_eq]. cbn [fst snd]. apply node_view_bound; [done|].
    intros b. rewrite elem_of_difference, elem_of_singleton, !elem_of_address_strings, Ea. split; [|by intros [? _]].
    intros (ip & Hip & Hvi & ->). split; [eauto|]. intros Hab. apply Hother in Hab; [|done]. subst ip. by apply Hx.
  - cbn [fst snd]. apply node_view_bound; [done|]. intros b. rewrite elem_of_difference, elem_of_singleton, !elem_of_address_strings, Ea.
    setoid_rewrite list_elem_of_filter. split.
    + intros (ip & [Hn Hip] & Hvi & ->). split; [eauto|]. by intros Hab%Hother.
    + intros [(ip & Hip & Hvi & ->) Hn]. exists ip. split_and!; try done. intros ->. by apply Hn.
Qed.

(** C27: the netlink handle implements what the proxier relies on.  The addresses it lists can be
    bound; [EnsureAddressBind] that succeeds adds exactly the address it was given,
    also when the kernel says it is there already, and [UnbindAddress] removes
    exactly it, also when it is gone already; a call that fails changes
    nothing; making sure of the dummy device changes no address. *)
Theorem netlinkHandle_refines : @NetLinkLaws W (netlink_handle h) node_view node_bindable.
Proof.
  split.
  - intros w a. unfold node_view. cbn. intros (ip & Hip & Hv & ->)%elem_of_address_strings.
    destruct (addrs_parse w ip Hip) as [Hp Hne]. unfold node_bindable. by rewrite Hp.
  - intros w. unfold effect. cbn. unfold handle_EnsureDummyDevice. destruct (h_LinkByName _ _); [done|].
    destruct (h_LinkAddDummy w defaultDummyDevice) as [w' e] eqn:E. apply LinkAddDummy_ok in E as [E1 E2]. cbn.
    rewrite (node_view_eq _ _ E1 E2). by destruct e.
  - intros w s. cbn. unfold handle_GetLocalAddresses. destruct (net_InterfaceByName _ _); [done|].
    destruct (iface_Addrs _ _) as [l|] eqn:E; [|done]. intros [= <-]. by apply iface_Addrs_ok.
  - apply bind_effect.
  - apply unbind_effect.
Qed.
End refinement.

(** [GetAllLocalAddressesExcept] on a node whose interfaces can be read: an address is in the
    result exactly if an interface other than [dev] carries it, whether or
    not [dev] carries it too. *)
Theorem except_keeps_shared `{NetlinkLaws W} h (w : W) dev ifaces :
  net_Interfaces w = inl ifaces → (∀ i, i ∈ ifaces → ∃ l, iface_Addrs w i = inl l) →
  ∃ s, GetAllLocalAddressesExcept h w dev = inl s ∧
    ∀ a, a ∈ s ↔ ∃ i l net, i ∈ ifaces ∧ i ≠ dev ∧ iface_Addrs w i = inl l ∧ net ∈ l ∧ isValidForSet h (net_IP net) = true ∧ a = IP_String (net_IP net).
Proof.
  intros Ei Hl. unfold GetAllLocalAddressesExcept. rewrite Ei. eexists. split; [done|]. intros a.
  rewrite AddressSet_ok, elem_of_address_strings. setoid_rewrite list_elem_of_fmap.
  assert (Ho : ∀ net, net ∈ other_addrs w dev ifaces ↔ ∃ i l, i ∈ ifaces ∧ i ≠ dev ∧ iface_Addrs w i = inl l ∧ net ∈ l).
  { intros net. clear Ei. induction ifaces as [|i ifaces IH].
    { split; [by intros ?%elem_of_nil|by intros (? & ? & ?%elem_of_nil & _)]. }
    cbn [other_addrs].
    destruct (Hl i ltac:(left)) as [l El]. specialize (IH ltac:(intros; apply Hl; by right)). rewrite El. setoid_rewrite elem_of_cons.
    case_bool_decide as Hd.
    - subst i. rewrite IH. split; [intros (j & l' & ? & ?); eauto|]. intros (j & l' & [->|?] & ? & ?); [done|eauto].
    - rewrite elem_of_app, IH. split.
      + intros [?|(j & l' & ? & ?)]; [exists i, l; auto|exists j, l'; auto].
      + intros (j & l' & [->|?] & ? & ? & ?); [left; congruence|right; exists j, l'; auto]. }
  setoid_rewrite Ho. split.
  - intros (ip & (net & -> & i & l & ? & ? & ? & ?) & ? & ->). exists i, l, net. repeat split; done.
  - intros (i & l & net & ? & ? & ? & ? & ? & ->). exists (net_IP net). split; [exists net; split; [done|]; exists i, l; repeat split; done|repeat split; done].
Qed.

(** ** A concrete node: the addresses of the dummy device *)
Section demo.
Definition demo_sloppy : ServiceLib := {| ParseIPSloppy := ParseIP |}.
#[local] Existing Instance demo_sloppy.
Definition host_ip (ip : IP) : Prop := ParseIPSloppy (IP_String ip) = ip ∧ ip ≠ [].
#[local] Instance host_ip_dec ip : Decision (host_ip ip).
Proof. unfold host_ip. apply _. Defined.

Definition demo_addrs4 (w : list IP) : list IPNet := (λ ip, mkIPNet ip (mask_bytes 4 32)) <$> filter host_ip w.
Definition demo_netlink_lib : Netlink (list IP) := {|
  h_LinkByName := λ _ _, inl Dummy;
  h_LinkAddDummy := λ w _, (w, None);
  h_LinkDel := λ w _, (w, None);
  h_AddrAdd := λ w _ n,
    if bool_decide (net_IP n ∈ filter host_ip w) then (w, Some (mkNlError EEXIST "file exists"))
    else if bool_decide (host_ip (net_IP n)) then (net_IP n :: w, None) else (w, Some (mkNlError OtherErrno "invalid argument"));
  h_AddrDel := λ w _ n, (filter (.≠ net_IP n) w, None);
  h_AddrList := λ w _, inl (demo_addrs4 w);
  NewIPNet := λ ip, mkIPNet ip (mask_bytes 4 32);
  net_InterfaceAddrs := λ w, inl (demo_addrs4 w);
  net_InterfaceByName := λ _ _, None;
  net_Interfaces := λ _, inl [defaultDummyDevice];
  iface_Addrs := λ w _, inl (demo_addrs4 w);
  netutils_IsIPv6 := λ ip, bool_decide (To4 ip = []);
  AddressSet := λ valid l, address_strings valid (net_IP <$> l) |}.
#[local] Existing Instance demo_netlink_lib.

#[local] Program Instance demo_netlink_lib_laws : NetlinkLaws (list IP) := {|
  dev_addrs := λ w _, filter host_ip w; rest_view := λ _, mkKV ∅ ∅ ∅ ∅ |}.
Next Obligation. intros w ip [Hi _]%list_elem_of_filter. exact Hi. Qed.
Next Obligation. done. Qed.
Next Obligation.
  intros w dev l valid [= <-]. simpl. unfold demo_addrs4. rewrite <- list_fmap_compose. f_equal. rewrite <- (list_fmap_id (filter host_ip w)) at 2.
  by apply list_fmap_ext.
Qed.
Next Obligation. by intros w dev w' e [= <- <-]. Qed.
Next Obligation.
  simpl. intros w dev ip w' e. case_bool_decide as Hin; [by intros [= <- <-]|].
  case_bool_decide as Hh; intros [= <- <-]; [|done]. split; [done|]. by rewrite filter_cons_True.
Qed.
Next Obligation.
  simpl. intros w dev ip w' e [= <- <-]. split; [done|]. rewrite !list_filter_filter. apply list_filter_iff. naive_solver.
Qed.

Lemma netlinkHandle_refines_witness :
  let h := NewNetLinkHandle false in
  let w := fst (@EnsureAddressBind _ (netlink_handle h) [] "10.0.0.1" defaultDummyDevice) in
  node_bindable h "10.0.0.1" ∧ kv_bound (node_view h w) = {["10.0.0.1"]} ∪ ∅ ∧ w = [ParseIP "10.0.0.1"].
Proof.
  cbv zeta. assert (Hb : node_bindable (NewNetLinkHandle false) "10.0.0.1") by (repeat split; vm_compute; done || discriminate).
  split; [exact Hb|]. split; [|vm_compute; reflexivity].
  pose proof (@EnsureAddressBind_ok _ _ _ _ (netlinkHandle_refines (W := list IP) (NewNetLinkHandle false)) [] "10.0.0.1" Hb) as Heff.
  apply (f_equal kv_bound) in Heff. exact Heff.
Defined.
End demo.
