(* ===== verification/Iptables.v ===== *)
(** * The iptables rules of the proxier

    [writeIptablesRules], [acceptIPVSTraffic] and [cleanupIptablesLeftovers] of
    [pkg/proxy/ipvs/proxier.go].  A rule is the list of words of a line, as it is
    given to [LineBuffer.Write]; the rules of a sync are those of the nat table and those of the
    filter table.  [syncProxyRules] puts them into [iptablesData], which is not
    handed to iptables. *)
From Stdlib Require Import Ascii.
From stdpp Require Import prelude gmap strings list.
From S2P Require Import Prelude NetAddr HostPort Kernel IpSet.
Open Scope Z_scope.

Definition rule : Type := list string.

Definition kubeServicesChain : string := "KUBE-SERVICES".
Definition kubeProxyFirewallChain : string := "KUBE-PROXY-FIREWALL".
Definition kubeSourceRangesFirewallChain : string := "KUBE-SOURCE-RANGES-FIREWALL".
Definition kubePostroutingChain : string := "KUBE-POSTROUTING".
Definition kubeMarkMasqChain : string := "KUBE-MARK-MASQ".
Definition kubeNodePortChain : string := "KUBE-NODE-PORT".
Definition kubeForwardChain : string := "KUBE-FORWARD".
Definition kubeLoadBalancerChain : string := "KUBE-LOAD-BALANCER".
Definition kubeIPVSFilterChain : string := "KUBE-IPVS-FILTER".

Inductive Table := TableNAT | TableFilter.
#[export] Instance Table_eq_dec : EqDecision Table.
Proof. solve_decision. Defined.

(** Table, from, to and comment of a jump. *)
Definition iptablesJumpChain : list (Table * string * string * string) := [
  (TableNAT, "OUTPUT", kubeServicesChain, "kubernetes service portals");
  (TableNAT, "PREROUTING", kubeServicesChain, "kubernetes service portals");
  (TableNAT, "POSTROUTING", kubePostroutingChain, "kubernetes postrouting rules");
  (TableFilter, "FORWARD", kubeForwardChain, "kubernetes forwarding rules");
  (TableFilter, "INPUT", kubeNodePortChain, "kubernetes health check rules");
  (TableFilter, "INPUT", kubeProxyFirewallChain, "kube-proxy firewall rules");
  (TableFilter, "FORWARD", kubeProxyFirewallChain, "kube-proxy firewall rules");
  (TableFilter, "INPUT", kubeIPVSFilterChain, "kubernetes ipvs access filter")].

Definition iptablesCleanupChains : list (Table * string) := [
  (TableNAT, kubeServicesChain); (TableNAT, kubePostroutingChain); (TableNAT, kubeNodePortChain); (TableNAT, kubeLoadBalancerChain);
  (TableFilter, kubeForwardChain); (TableFilter, kubeNodePortChain); (TableFilter, kubeProxyFirewallChain);
  (TableFilter, kubeSourceRangesFirewallChain); (TableFilter, kubeIPVSFilterChain)].

(** A set with the chain its rule is in, the chain it jumps to, the directions of
    the match and the protocol. *)
Record setRule := mkSetRule { sr_name : string; sr_table : Table; sr_from : string; sr_to : string; sr_matchType : string; sr_protocolMatch : string }.
Definition ipsetWithIptablesChain : list setRule := [
  mkSetRule kubeLoopBackIPSet TableNAT kubePostroutingChain "MASQUERADE" "dst,dst,src" EmptyString;
  mkSetRule kubeLoadBalancerSet TableNAT kubeServicesChain kubeLoadBalancerChain "dst,dst" EmptyString;
  mkSetRule kubeLoadBalancerLocalSet TableNAT kubeLoadBalancerChain "RETURN" "dst,dst" EmptyString;
  mkSetRule kubeNodePortLocalSetTCP TableNAT kubeNodePortChain "RETURN" "dst" "tcp";
  mkSetRule kubeNodePortSetTCP TableNAT kubeNodePortChain kubeMarkMasqChain "dst" "tcp";
  mkSetRule kubeNodePortLocalSetUDP TableNAT kubeNodePortChain "RETURN" "dst" "udp";
  mkSetRule kubeNodePortSetUDP TableNAT kubeNodePortChain kubeMarkMasqChain "dst" "udp";
  mkSetRule kubeNodePortLocalSetSCTP TableNAT kubeNodePortChain "RETURN" "dst,dst" "sctp";
  mkSetRule kubeNodePortSetSCTP TableNAT kubeNodePortChain kubeMarkMasqChain "dst,dst" "sctp";
  mkSetRule kubeLoadBalancerFWSet TableFilter kubeProxyFirewallChain kubeSourceRangesFirewallChain "dst,dst" EmptyString;
  mkSetRule kubeLoadBalancerSourceCIDRSet TableFilter kubeSourceRangesFirewallChain "RETURN" "dst,dst,src" EmptyString;
  mkSetRule kubeLoadBalancerSourceIPSet TableFilter kubeSourceRangesFirewallChain "RETURN" "dst,dst,src" EmptyString].

(** The fields of the proxier that shape the rules; [localDetector] is [None] when it is
    not implemented, and else the words of [IfNotLocal]. *)
Record iptConf := mkIptConf {
  ic_ipFamily : string; ic_masqueradeAll : bool; ic_masqueradeMark : string; ic_localDetector : option (list string); ic_HasRandomFully : bool }.

(** [fmt.Sprintf] with the verb [%#08x]: eight digits or more after the prefix. *)
Fixpoint hex_digits (fuel : nat) (z : Z) (acc : string) : string :=
  match fuel with
  | O => acc
  | S f => if z <=? 0 then acc else hex_digits f (z / 16) (String (hex_digit (z mod 16)) acc)
  end.
Definition hex08 (z : Z) : string :=
  let d := hex_digits 16 z EmptyString in
  "0x" +:+ Nat.iter (8 - String.length d) (String "0") d.
Definition masqueradeMark (masqueradeBit : Z) : string := hex08 (Z.shiftl 1 masqueradeBit).

Definition jump (args : rule) (to : string) : rule := args ++ ["-j"; to].

Section rules.
Context `{IpvsLib}.
Variable c : iptConf.
Variable sets : gmap string IPSet.

Definition comment_args (comment : string) : rule := ["-m"; "comment"; "--comment"; comment].
Definition set_args (name matchType : string) : rule := ["-m"; "set"; "--match-set"; name; matchType].

(** The rule of one row of [ipsetWithIptablesChain]: none for a set that is empty. *)
Definition set_rule (s : setRule) : list rule :=
  match sets !! sr_name s with
  | None => []
  | Some set =>
      if isEmpty set then []
      else [jump (["-A"; sr_from s] ++ (if bool_decide (sr_protocolMatch s = EmptyString) then [] else ["-p"; sr_protocolMatch s])
                  ++ comment_args (getComment set) ++ set_args (is_Name set) (sr_matchType s)) (sr_to s)]
  end.
Definition set_rules (table : Table) : list rule :=
  concat (set_rule <$> filter (λ s, sr_table s = table) ipsetWithIptablesChain).

(** The rules for the addresses of the services, depending on what is masqueraded. *)
Definition cluster_rules : outcome (list rule) :=
  set ← deref (sets !! kubeClusterIPSet);
  Ret (if isEmpty set then []
       else let args := ["-A"; kubeServicesChain] ++ comment_args (getComment set) in
            if ic_masqueradeAll c then [jump (args ++ set_args (is_Name set) "dst,dst") kubeMarkMasqChain]
            else match ic_localDetector c with
                 | Some ifNotLocal => [jump (args ++ set_args (is_Name set) "dst,dst" ++ ifNotLocal) kubeMarkMasqChain]
                 | None => [jump (args ++ set_args (is_Name set) "src,dst") kubeMarkMasqChain]
                 end).

Definition externalIPRules (args : rule) : list rule := [
  jump (args ++ ["-m"; "physdev"; "!"; "--physdev-is-in"; "-m"; "addrtype"; "!"; "--src-type"; "LOCAL"]) "ACCEPT";
  jump (args ++ ["-m"; "addrtype"; "--dst-type"; "LOCAL"]) "ACCEPT"].
Definition external_args (set : IPSet) : rule :=
  ["-A"; kubeServicesChain] ++ comment_args (getComment set) ++ set_args (is_Name set) "dst,dst".
Definition external_rules : outcome (list rule) :=
  set ← deref (sets !! kubeExternalIPSet);
  local ← deref (sets !! kubeExternalIPLocalSet);
  Ret ((if isEmpty set then [] else jump (external_args set) kubeMarkMasqChain :: externalIPRules (external_args set))
       ++ (if isEmpty local then [] else externalIPRules (external_args local))).

Definition accept_rule (name : string) : outcome (list rule) :=
  set ← deref (sets !! name);
  Ret (if isEmpty set then []
       else [jump (["-A"; kubeServicesChain] ++ set_args (is_Name set)
                   (if bool_decide (uset_SetType (is_IPSet set) = BitmapPort) then "dst" else "dst,dst")) "ACCEPT"]).
Definition acceptIPVSTraffic : outcome (list rule) :=
  cluster ← accept_rule kubeClusterIPSet; lb ← accept_rule kubeLoadBalancerSet; Ret (cluster ++ lb).

Definition mark_words : rule := ["--mark"; ic_masqueradeMark c +:+ "/" +:+ ic_masqueradeMark c].
Definition set_name (name : string) : outcome string := set ← deref (sets !! name); Ret (is_Name set).

(** The chain that keeps the host's ports from being reached through the virtual
    addresses. *)
Definition filter_chain_rules : outcome (list rule) :=
  health ← deref (sets !! kubeHealthCheckNodePortSet);
  lb ← set_name kubeLoadBalancerSet; cluster ← set_name kubeClusterIPSet;
  ext ← set_name kubeExternalIPSet; extLocal ← set_name kubeExternalIPLocalSet; ipvs ← set_name kubeIPVSSet;
  Ret [ jump (["-A"; kubeForwardChain] ++ comment_args (quote +:+ "kubernetes forwarding rules" +:+ quote) ++ "-m" :: "mark" :: mark_words) "ACCEPT";
        jump (["-A"; kubeForwardChain] ++ comment_args (quote +:+ "kubernetes forwarding conntrack rule" +:+ quote)
              ++ ["-m"; "conntrack"; "--ctstate"; "RELATED,ESTABLISHED"]) "ACCEPT";
        jump (["-A"; kubeNodePortChain] ++ comment_args (getComment health) ++ set_args (is_Name health) "dst") "ACCEPT";
        jump (["-A"; kubeIPVSFilterChain] ++ set_args lb "dst,dst") "RETURN";
        jump (["-A"; kubeIPVSFilterChain] ++ set_args cluster "dst,dst") "RETURN";
        jump (["-A"; kubeIPVSFilterChain] ++ set_args ext "dst,dst") "RETURN";
        jump (["-A"; kubeIPVSFilterChain] ++ set_args extLocal "dst,dst") "RETURN";
        jump (["-A"; kubeIPVSFilterChain] ++ set_args (is_Name health) "dst") "RETURN";
        jump (["-A"; kubeIPVSFilterChain; "-m"; "conntrack"; "--ctstate"; "NEW"] ++ set_args ipvs "dst") "REJECT" ].

(** The mark is tested, cleared and its packets masqueraded; or set. *)
Definition postrouting_rules : list rule := [
  jump (["-A"; kubePostroutingChain; "-m"; "mark"; "!"] ++ mark_words) "RETURN";
  jump ["-A"; kubePostroutingChain] "MARK" ++ ["--xor-mark"; ic_masqueradeMark c];
  jump (["-A"; kubePostroutingChain] ++ comment_args (quote +:+ "kubernetes service traffic requiring SNAT" +:+ quote)) "MASQUERADE"
    ++ (if ic_HasRandomFully c then ["--random-fully"] else [])].
Definition mark_rule : rule := jump ["-A"; kubeMarkMasqChain] "MARK" ++ ["--or-mark"; ic_masqueradeMark c].

Definition loopback_rule : rule :=
  jump ["-A"; kubeServicesChain; "-s"; if bool_decide (ic_ipFamily c = "IPv6") then "::1/128" else "127.0.0.0/8"] "RETURN".
Definition nodeport_rule : rule := jump ["-A"; kubeServicesChain; "-m"; "addrtype"; "--dst-type"; "LOCAL"] kubeNodePortChain.

(** The lines of the nat table and of the filter table. *)
Definition writeIptablesRules : outcome (list rule * list rule) :=
  cluster ← cluster_rules; external ← external_rules; accept ← acceptIPVSTraffic; chains ← filter_chain_rules;
  Ret ([loopback_rule] ++ set_rules TableNAT ++ cluster ++ external
         ++ [nodeport_rule; jump ["-A"; kubeLoadBalancerChain] kubeMarkMasqChain] ++ accept
         ++ postrouting_rules ++ [mark_rule; ["COMMIT"]],
       set_rules TableFilter ++ [jump ["-A"; kubeSourceRangesFirewallChain] "DROP"] ++ chains ++ [["COMMIT"]]).

(** What [syncProxyRules] collects: the headers are all of the chains' lines. *)
Definition iptablesData : outcome (list rule) :=
  '(nat, flt) ← writeIptablesRules; Ret ([["*nat"]] ++ nat ++ [["*filter"]] ++ flt).
End rules.

(** ** [cleanupIptablesLeftovers] *)
Record IptError := mkIptError { ipt_NotFound : bool; ipt_Msg : string }.
Class IptOps (W : Type) := {
  DeleteRule : W → Table → string → list string → W * option IptError;
  FlushChain : W → Table → string → W * option IptError;
  DeleteChain : W → Table → string → W * option IptError
}.

Section cleanup.
Context {W : Type} `{IptOps W}.

(** An error counts unless it says that there is nothing to remove. *)
Definition counts (err : option IptError) : bool := match err with Some e => negb (ipt_NotFound e) | None => false end.
Definition each {A} (f : W → A → W * option IptError) (l : list A) (st : W * bool) : W * bool :=
  foldl (λ '(w, bad) a, let '(w, err) := f w a in (w, bad || counts err)) st l.

Definition cleanupIptablesLeftovers (w : W) : W * bool :=
  let st := each (λ w '(table, from, to, comment), DeleteRule w table from (comment_args comment ++ ["-j"; to])) iptablesJumpChain (w, false) in
  let st := each (λ w '(table, chain), FlushChain w table chain) iptablesCleanupChains st in
  each (λ w '(table, chain), DeleteChain w table chain) iptablesCleanupChains st.
End cleanup.

(** ** The rules are well formed *)

(** The chains of a table, each with a rank, and the targets of iptables the rules use. *)
Definition chains_of (t : Table) : list (string * nat) :=
  match t with
  | TableNAT => [(kubeServicesChain, 2%nat); (kubePostroutingChain, 1%nat); (kubeNodePortChain, 1%nat); (kubeLoadBalancerChain, 1%nat); (kubeMarkMasqChain, 0%nat)]
  | TableFilter => [(kubeForwardChain, 0%nat); (kubeNodePortChain, 0%nat); (kubeProxyFirewallChain, 1%nat); (kubeSourceRangesFirewallChain, 0%nat);
                    (kubeIPVSFilterChain, 0%nat)]
  end.
Definition builtin_targets (t : Table) : list string :=
  match t with TableNAT => ["RETURN"; "ACCEPT"; "MARK"; "MASQUERADE"] | TableFilter => ["RETURN"; "ACCEPT"; "DROP"; "REJECT"] end.

(** A rule of the table: it belongs to one of its chains and its target is a target of
    iptables or a chain of the same table of a lower rank, so that jumps do
    not form a cycle. *)
Definition target_ok (t : Table) (k : nat) (target : string) : Prop :=
  target ∈ builtin_targets t ∨ ∃ j, (target, j) ∈ chains_of t ∧ (j < k)%nat.
Definition typed_rule (t : Table) (r : rule) : Prop :=
  ∃ chain k args target opts, r = "-A" :: chain :: args ++ ["-j"; target] ++ opts ∧ (chain, k) ∈ chains_of t ∧ target_ok t k target.

Definition target_okb (t : Table) (k : nat) (target : string) : bool :=
  existsb (String.eqb target) (builtin_targets t) || existsb (λ e, String.eqb target e.1 && (e.2 <? k)%nat) (chains_of t).
Definition edge_ok (t : Table) (chain target : string) : bool :=
  existsb (λ e, String.eqb chain e.1 && target_okb t e.2 target) (chains_of t).

Lemma target_okb_spec t k target : target_okb t k target = true → target_ok t k target.
Proof.
  unfold target_okb. rewrite orb_true_iff, !existsb_exists. intros [(x & Hx & ->%String.eqb_eq)|([x j] & Hx & Hb)].
  - left. by apply list_elem_of_In.
  - apply andb_true_iff in Hb as [->%String.eqb_eq Hj%Nat.ltb_lt]. right. exists j. split; [by apply list_elem_of_In|done].
Qed.

Lemma typed_jump t chain args target opts :
  edge_ok t chain target = true → typed_rule t (jump ("-A" :: chain :: args) target ++ opts).
Proof.
  unfold edge_ok. rewrite existsb_exists. intros ([x k] & Hx & [->%String.eqb_eq Ht%target_okb_spec]%andb_true_iff).
  exists x, k, args, target, opts. split; [|split; [by apply list_elem_of_In|done]].
  unfold jump. cbn [app]. by rewrite <- app_assoc.
Qed.

Lemma typed_jump0 t chain args target : edge_ok t chain target = true → typed_rule t (jump ("-A" :: chain :: args) target).
Proof. intros Hj. rewrite <- (app_nil_r (jump _ _)). by apply typed_jump. Qed.

(** Every row of the table of sets makes typed rules. *)
Lemma set_rows_ok : forallb (λ s, edge_ok (sr_table s) (sr_from s) (sr_to s)) ipsetWithIptablesChain = true.
Proof. vm_compute. reflexivity. Qed.

Section typed.
Context `{IpvsLib}.
Variables (c : iptConf) (sets : gmap string IPSet).

Lemma set_rules_typed t : Forall (typed_rule t) (set_rules sets t).
Proof.
  unfold set_rules. apply Forall_concat, Forall_fmap, Forall_forall. intros s [Ht Hs]%list_elem_of_filter. cbn.
  unfold set_rule. destruct (sets !! sr_name s) as [set|]; [|constructor]. destruct (isEmpty set); [constructor|].
  constructor; [|constructor]. apply typed_jump0. subst t.
  pose proof set_rows_ok as Hall. rewrite forallb_forall in Hall. by apply Hall, list_elem_of_In.
Qed.

Ltac typed := repeat (constructor || (apply typed_jump0; reflexivity) || (apply typed_jump; reflexivity)).

Lemma cluster_rules_typed l : cluster_rules c sets = Ret l → Forall (typed_rule TableNAT) l.
Proof. unfold cluster_rules. intros E. inv_Ret E. subst l. repeat case_match; typed. Qed.
Lemma external_rules_typed l : external_rules sets = Ret l → Forall (typed_rule TableNAT) l.
Proof. unfold external_rules. intros E. inv_Ret E. subst l. apply Forall_app. split; case_match; typed. Qed.
Lemma acceptIPVSTraffic_typed l : acceptIPVSTraffic sets = Ret l → Forall (typed_rule TableNAT) l.
Proof.
  unfold acceptIPVSTraffic, accept_rule. intros E. inv_Ret E. subst l. inv_Ret E0. inv_Ret E1. subst. apply Forall_app. split; case_match; typed.
Qed.
Lemma filter_chain_rules_typed l : filter_chain_rules c sets = Ret l → Forall (typed_rule TableFilter) l.
Proof. unfold filter_chain_rules. intros E. inv_Ret E. subst l. typed. Qed.

(** C28: the rules the proxier writes are well formed.  With every set of the proxier present
    [writeIptablesRules] returns; each of the two tables is a sequence of
    rules followed by one COMMIT; every rule is appended to one of the proxier's
    chains of that table, and its target is a target of iptables or a chain
    of the same table of a lower rank: there is no jump across tables and no cycle
    of jumps. *)
Theorem writeIptablesRules_typed :
  (∀ name, name ∈ ipsetInfo.*1.*1 → is_Some (sets !! name)) →
  ∃ nat flt, writeIptablesRules c sets = Ret (nat ++ [["COMMIT"]], flt ++ [["COMMIT"]]) ∧
    Forall (typed_rule TableNAT) nat ∧ Forall (typed_rule TableFilter) flt.
Proof.
  intros Hall.
  assert (Hd : ∀ name, name ∈ ipsetInfo.*1.*1 → ∃ s, deref (sets !! name) = Ret s).
  { intros name [s ->]%Hall. by exists s. }
  destruct (Hd kubeClusterIPSet) as [s1 E1]; [set_solver|]. destruct (Hd kubeExternalIPSet) as [s2 E2]; [set_solver|].
  destruct (Hd kubeExternalIPLocalSet) as [s3 E3]; [set_solver|]. destruct (Hd kubeLoadBalancerSet) as [s4 E4]; [set_solver|].
  destruct (Hd kubeHealthCheckNodePortSet) as [s5 E5]; [set_solver|]. destruct (Hd kubeIPVSSet) as [s6 E6]; [set_solver|].
  assert (Hr : ∃ a b d e, cluster_rules c sets = Ret a ∧ external_rules sets = Ret b ∧ acceptIPVSTraffic sets = Ret d ∧ filter_chain_rules c sets = Ret e).
  { unfold cluster_rules, external_rules, acceptIPVSTraffic, accept_rule, filter_chain_rules, set_name.
    rewrite E1, E2, E3, E4, E5, E6. cbn [mbind outcome_bind]. eauto 10. }
  destruct Hr as (l1 & l2 & l3 & l4 & R1 & R2 & R3 & R4). unfold writeIptablesRules. rewrite R1, R2, R3, R4. cbn [mbind outcome_bind].
  eexists ([loopback_rule c] ++ set_rules sets TableNAT ++ l1 ++ l2 ++ [nodeport_rule; jump ["-A"; kubeLoadBalancerChain] kubeMarkMasqChain] ++ l3
    ++ postrouting_rules c ++ [mark_rule c]), (set_rules sets TableFilter ++ [jump ["-A"; kubeSourceRangesFirewallChain] "DROP"] ++ l4).
  split; [by rewrite <- !app_assoc|]. rewrite !Forall_app. pose proof set_rules_typed as Hs.
  apply cluster_rules_typed in R1. apply external_rules_typed in R2. apply acceptIPVSTraffic_typed in R3. apply filter_chain_rules_typed in R4.
  unfold postrouting_rules, mark_rule. split_and!; try done; typed.
Qed.
End typed.

(** ** A concrete set of rules *)
Section demo.
#[local] Existing Instance demo_ipvslib.

Definition demo_ipt : iptConf := mkIptConf "IPv4" false (masqueradeMark 14) None true.
Definition demo_rule_sets : gmap string IPSet :=
  <[kubeClusterIPSet := insertEntry (NewIPSet kubeClusterIPSet HashIPPort false "cluster") "10.0.0.1,tcp:80"]>
    (list_to_map ((λ e, (e.1.1, NewIPSet e.1.1 e.1.2 false e.2)) <$> ipsetInfo)).

Example demo_mark : masqueradeMark 14 = "0x00004000".
Proof. vm_compute. reflexivity. Qed.

Lemma writeIptablesRules_typed_witness :
  (∃ lines, iptablesData demo_ipt demo_rule_sets = Ret lines ∧ length lines = 23%nat) ∧
  ∃ nat flt, writeIptablesRules demo_ipt demo_rule_sets = Ret (nat ++ [["COMMIT"]], flt ++ [["COMMIT"]]) ∧
    Forall (typed_rule TableNAT) nat ∧ Forall (typed_rule TableFilter) flt.
Proof.
  split; [eexists; split; [vm_compute; reflexivity|vm_compute; reflexivity]|].
  apply (writeIptablesRules_typed demo_ipt demo_rule_sets).
  assert (Hall : Forall (λ n, is_Some (demo_rule_sets !! n)) ipsetInfo.*1.*1) by (apply (bool_decide_unpack _); vm_compute; exact I).
  intros n Hn. rewrite Forall_forall in Hall. exact (Hall n Hn).
Defined.
End demo.
