(* ===== verification/ProxierSetup.v ===== *)
(** * Start and clean-up of the proxier

    The rest of [pkg/proxy/ipvs/proxier.go]: the probe [CanUseIPVSProxier], the
    kernel settings [NewProxier] makes before it builds the proxier, and
    [CleanupLeftovers]. *)
From Stdlib Require Import Ascii.
From stdpp Require Import prelude gmap strings list.
From S2P Require Import Prelude NetAddr K8s ProxyEndpoints ProxyServices HostPort Kernel Graceful IpSet Proxier NetLink Iptables.
Open Scope Z_scope.

Definition defaultScheduler : string := "rr".
Definition connReuseMinSupportedKernelVersion : string := "4.1".
Definition connReuseFixedKernelVersion : string := "5.9".
Definition sysctlBridgeCallIPTables : string := "net/bridge/bridge-nf-call-iptables".
Definition sysctlVSConnTrack : string := "net/ipv4/vs/conntrack".
Definition sysctlConnReuse : string := "net/ipv4/vs/conn_reuse_mode".
Definition sysctlExpireNoDestConn : string := "net/ipv4/vs/expire_nodest_conn".
Definition sysctlExpireQuiescentTemplate : string := "net/ipv4/vs/expire_quiescent_template".
Definition sysctlForward : string := "net/ipv4/ip_forward".
Definition sysctlArpIgnore : string := "net/ipv4/conf/all/arp_ignore".
Definition sysctlArpAnnounce : string := "net/ipv4/conf/all/arp_announce".

(** [strings.TrimSpace] on the content of a file of ASCII. *)
Definition is_space (x : ascii) : bool := existsb (Ascii.eqb x) ["009"; "010"; "011"; "012"; "013"; " "]%char.
Fixpoint trim_left (s : string) : string :=
  match s with EmptyString => EmptyString | String x s' => if is_space x then trim_left s' else s end.
Fixpoint trim_right (s : string) : string :=
  match s with
  | EmptyString => EmptyString
  | String x s' => match trim_right s' with EmptyString => if is_space x then EmptyString else String x EmptyString | t => String x t end
  end.
Definition TrimSpace (s : string) : string := trim_left (trim_right s).

Definition GetKernelVersion (ReadFile : string → string + string) : outcome string :=
  match ReadFile "/proc/sys/kernel/osrelease" with
  | inr err => Err ("error reading osrelease file " +:+ quote +:+ "/proc/sys/kernel/osrelease" +:+ quote +:+ ": " +:+ err)
  | inl content => Ret (TrimSpace content)
  end.

(** ** [CanUseIPVSProxier] *)
Section probe.
Context {W : Type} `{IpvsLib} `{KernelOps W} `{VersionLib} `{ServiceLib}.

Definition probe_server (scheduler : string) : VirtualServer :=
  mkVS (ParseIPSloppy "198.51.100.0") "TCP" 20000 scheduler 0 0.

Definition probe (scheduler : string) : proc W () :=
  vservers ← (λ w, match GetVirtualServers w with inl l => (w, Ret l) | inr e => (w, Err e) end) : proc W (list VirtualServer);
  if existsb (λ vs, bool_decide (vs_Scheduler vs = scheduler)) vservers then mret ()
  else
    _ ← (λ w, match AddVirtualServer w (probe_server scheduler) with (w, None) => (w, Ret ()) | (w, Some e) => (w, Err e) end) : proc W ();
    vservers ← (λ w, match GetVirtualServers w with inl l => (w, Ret l) | inr e => (w, Err e) end) : proc W (list VirtualServer);
    if bool_decide (vservers = []) then lift (Err "ipvs not supported")
    else λ w, match DeleteVirtualServer w (probe_server scheduler) with (w, None) => (w, Ret ()) | (w, Some e) => (w, Err e) end.

(** [ipvs] is false when the parameter is nil. *)
Definition CanUseIPVSProxier (ipvs : bool) (ipsetVersion : string + string) (scheduler : string) : proc W () :=
  if negb ipvs then lift (Err "ipvs not supported by the kernel")
  else match ipsetVersion with
       | inr err => lift (Err ("error getting ipset version, error: " +:+ err))
       | inl versionString =>
           if negb (checkMinVersion versionString)
           then lift (Err ("ipset version: " +:+ versionString +:+ " is less than min required version: " +:+ MinIPSetCheckVersion))
           else probe (if bool_decide (scheduler = EmptyString) then defaultScheduler else scheduler)
       end.
End probe.

(** ** The settings of the kernel *)
Class Sysctl (W : Type) := {
  EnsureSysctl : W → string → Z → W * option string;
  ConfigureTimeouts : W → Z → Z → Z → W * option string
}.

Section settings.
Context {W : Type} `{Sysctl W} `{VersionLib}.

Definition ensure (name : string) (value : Z) : proc W () := λ w,
  match EnsureSysctl w name value with (w, None) => (w, Ret ()) | (w, Some e) => (w, Err e) end.

(** [version.MustParseGeneric] panics on a string that is no version. *)
Definition MustParseGeneric (s : string) : outcome Version := match ParseGeneric s with Some v => Ret v | None => Panic end.

(** The reuse of connections is switched off between the two versions of the kernel. *)
Definition conn_reuse (version : Version) : proc W () :=
  low ← lift (MustParseGeneric connReuseMinSupportedKernelVersion);
  if LessThan version low then mret ()
  else
    fixed ← lift (MustParseGeneric connReuseFixedKernelVersion);
    if negb (LessThan version fixed) then mret () else ensure sysctlConnReuse 0.

(** An error of the timeouts is logged. *)
Definition configure_timeouts (tcpTimeout tcpFinTimeout udpTimeout : Z) : proc W () := λ w,
  if (0 <? tcpTimeout) || (0 <? tcpFinTimeout) || (0 <? udpTimeout)
  then (fst (ConfigureTimeouts w tcpTimeout tcpFinTimeout udpTimeout), Ret ()) else (w, Ret ()).

(** [kernelVersion] is the result of [GetKernelVersion]. *)
Definition NewProxier_settings (kernelVersion : outcome string) (strictARP : bool) (tcpTimeout tcpFinTimeout udpTimeout : Z) : proc W () :=
  _ ← ensure sysctlVSConnTrack 1;
  kernelVersionStr ← lift (wrap_err "error determining kernel version to find required kernel modules for ipvs support" kernelVersion);
  version ← lift (match ParseGeneric kernelVersionStr with
                  | Some v => Ret v
                  | None => Err ("error parsing kernel version " +:+ quote +:+ kernelVersionStr +:+ quote)
                  end);
  _ ← conn_reuse version;
  _ ← ensure sysctlExpireNoDestConn 1;
  _ ← ensure sysctlExpireQuiescentTemplate 1;
  _ ← ensure sysctlForward 1;
  _ ← (if strictARP then _ ← ensure sysctlArpIgnore 1; ensure sysctlArpAnnounce 2 else mret ());
  configure_timeouts tcpTimeout tcpFinTimeout udpTimeout.
End settings.

(** ** [CleanupLeftovers] *)
Record IpsetError := mkIpsetError { ipset_NotFound : bool; ipset_Msg : string }.
Class CleanupOps (W : Type) := {
  ipvs_Flush : W → W * option string;
  DestroySet : W → string → W * option IpsetError
}.

Section cleanup.
Context {W : Type} `{IpvsLib} `{ServiceLib} `{Netlink W} `{IptOps W} `{CleanupOps W}.

Definition destroy_sets (names : list string) (st : W * bool) : W * bool :=
  foldl (λ '(w, bad) name, let '(w, err) := DestroySet w name in
    (w, bad || match err with Some e => negb (ipset_NotFound e) | None => false end)) st names.

(** [ipvs] is false when the parameter is nil.  The sets are destroyed by the names of the
    table, which are those of the IPv4 proxier. *)
Definition CleanupLeftovers (ipvs : bool) (w : W) : W * bool :=
  let '(w, bad) := if ipvs then let '(w, err) := ipvs_Flush w in (w, bool_decide (is_Some err)) else (w, false) in
  let '(w, err) := DeleteDummyDevice w defaultDummyDevice in
  let bad := bad || bool_decide (is_Some err) in
  let '(w, bad') := cleanupIptablesLeftovers w in
  destroy_sets ipsetInfo.*1.*1 (w, bad' || bad).
End cleanup.

(** ** Theorems *)
Section probe_theorems.
Context {W : Type} `{KernelLaws W} `{VersionLib} `{ServiceLib}.

(** The probe leaves no trace: when it reports that the scheduler can be used, and no
    virtual server had the probe's reserved address before, the virtual
    servers, addresses and sets are those from before, and so are the real servers of
    every other virtual server. *)
Theorem probe_leaves_no_trace scheduler (w w' : W) :
  probe scheduler w = (w', Ret ()) → kv_servers (kview w) !! VS_String (probe_server scheduler) = None →
  kv_servers (kview w') = kv_servers (kview w) ∧ kv_bound (kview w') = kv_bound (kview w) ∧ kv_sets (kview w') = kv_sets (kview w) ∧
  ∀ v, v ≠ VS_String (probe_server scheduler) → reals_of (kview w') v = reals_of (kview w) v.
Proof.
  unfold probe, mbind, proc_bind. intros E Hn. destruct (GetVirtualServers w) as [l|]; [|done].
  destruct (existsb _ l); [by injection E as <-|].
  pose proof (AddVirtualServer_ok w (probe_server scheduler)) as Ha. unfold effect in Ha.
  destruct (AddVirtualServer w _) as [w1 [e|]]; [done|]. cbn in Ha.
  destruct (GetVirtualServers w1) as [l'|]; [|done]. case_bool_decide; [done|].
  pose proof (DeleteVirtualServer_ok w1 (probe_server scheduler)) as Hd. unfold effect in Hd.
  destruct (DeleteVirtualServer w1 _) as [w2 [e|]]; [done|]. injection E as <-. cbn in Hd. rewrite Hd, Ha. split_and!; [|done|done|].
  - cbn. by rewrite delete_insert_id.
  - intros v Hv. rewrite reals_of_drop, decide_False by congruence. unfold reals_of. cbn. by rewrite lookup_delete_ne by congruence.
Qed.
End probe_theorems.

Class SysctlLaws (W : Type) `{Sysctl W} := {
  sysctls : W → gmap string Z;
  EnsureSysctl_ok : ∀ w n v w', EnsureSysctl w n v = (w', None) → sysctls w' = <[n := v]> (sysctls w);
  ConfigureTimeouts_ok : ∀ w a b c, sysctls (fst (ConfigureTimeouts w a b c)) = sysctls w
}.

Section settings_theorems.
Context {W : Type} `{SysctlLaws W} `{VersionLib}.

Lemma ensure_ok n v (w w' : W) : ensure n v w = (w', Ret ()) → sysctls w' = <[n := v]> (sysctls w).
Proof. unfold ensure. destruct (EnsureSysctl w n v) as [w1 [e|]] eqn:E; [done|]. intros [= <-]. by apply EnsureSysctl_ok. Qed.

Lemma conn_reuse_ok version (w w' : W) : conn_reuse version w = (w', Ret ()) →
  ∃ low, ParseGeneric connReuseMinSupportedKernelVersion = Some low ∧
    sysctls w' = if LessThan version low then sysctls w
      else match ParseGeneric connReuseFixedKernelVersion with
           | Some fixed => if LessThan version fixed then <[sysctlConnReuse := 0]> (sysctls w) else sysctls w
           | None => sysctls w
           end.
Proof.
  unfold conn_reuse, MustParseGeneric, mbind, proc_bind, lift. destruct (ParseGeneric connReuseMinSupportedKernelVersion) as [low|] eqn:El; [|done].
  intros E. exists low. split; [done|]. destruct (LessThan version low); [by injection E as <-|].
  destruct (ParseGeneric connReuseFixedKernelVersion) as [fixed|]; [|done].
  destruct (LessThan version fixed); [by apply ensure_ok in E|by injection E as <-].
Qed.

Lemma timeouts_ok a b c (w w' : W) : configure_timeouts a b c w = (w', Ret ()) → sysctls w' = sysctls w.
Proof. unfold configure_timeouts. case_match; intros [= <-]; [apply ConfigureTimeouts_ok|done]. Qed.

Lemma arp_ok (strictARP : bool) (w w' : W) u :
  (if strictARP then _ ← ensure sysctlArpIgnore 1; ensure sysctlArpAnnounce 2 else mret ()) w = (w', Ret u) →
  sysctls w' = if strictARP then <[sysctlArpAnnounce := 2]> (<[sysctlArpIgnore := 1]> (sysctls w)) else sysctls w.
Proof.
  destruct strictARP; [|by intros [= <-]]. intros (w1 & [] & E1%ensure_ok & E2)%proc_bind_Ret. destruct u. apply ensure_ok in E2. by rewrite E2, E1.
Qed.

(** The settings of the kernel after [NewProxier] got past them: connection tracking of IPVS, the
    expiry of connections and forwarding are on, with [strictARP] the two ARP
    settings are made, and the reuse of connections is switched off exactly for
    kernels from 4.1 up to, but without, 5.9, and left alone otherwise. *)
Theorem NewProxier_settings_ok kernelVersion strictARP a b c (w w' : W) :
  NewProxier_settings kernelVersion strictARP a b c w = (w', Ret ()) →
  ∃ v version low, kernelVersion = Ret v ∧ ParseGeneric v = Some version ∧ ParseGeneric connReuseMinSupportedKernelVersion = Some low ∧
  sysctls w' !! sysctlVSConnTrack = Some 1 ∧ sysctls w' !! sysctlExpireNoDestConn = Some 1 ∧
  sysctls w' !! sysctlExpireQuiescentTemplate = Some 1 ∧ sysctls w' !! sysctlForward = Some 1 ∧
  (strictARP = true → sysctls w' !! sysctlArpIgnore = Some 1 ∧ sysctls w' !! sysctlArpAnnounce = Some 2) ∧
  sysctls w' !! sysctlConnReuse = (if LessThan version low then sysctls w !! sysctlConnReuse
    else match ParseGeneric connReuseFixedKernelVersion with
         | Some fixed => if LessThan version fixed then Some 0 else sysctls w !! sysctlConnReuse
         | None => sysctls w !! sysctlConnReuse end).
Proof.
  unfold NewProxier_settings. intros E. repeat (apply proc_bind_Ret in E as (? & ? & ? & E)).
  repeat match goal with
  | H : ensure _ _ _ = (_, Ret ?u) |- _ => destruct u; apply ensure_ok in H
  | H : lift _ _ = (_, Ret _) |- _ => apply lift_Ret in H as [H ->]
  | H : conn_reuse _ _ = (_, Ret ?u) |- _ => destruct u; apply conn_reuse_ok in H as (low & Hlow & H)
  | H : (if strictARP then _ else _) _ = _ |- _ => apply arp_ok in H
  end.
  apply timeouts_ok in E. destruct kernelVersion as [v| | |]; try done.
  match goal with H : wrap_err _ (Ret v) = Ret ?x |- _ => injection H as <- end.
  destruct (ParseGeneric v) as [version|] eqn:Ev; [|done].
  match goal with H : Ret version = Ret ?x |- _ => injection H as <- end.
  exists v, version, low. do 3 (split; [done|]). rewrite E.
  repeat match goal with H : sysctls ?x = _ |- context [sysctls ?x] => rewrite H end.
  destruct strictARP, (LessThan version low), (ParseGeneric connReuseFixedKernelVersion) as [fixed|]; try destruct (LessThan version fixed);
    repeat split; by simplify_map_eq.
Qed.
End settings_theorems.

Class DestroyLaws (W : Type) `{CleanupOps W} := {
  sets_of : W → gset string;
  DestroySet_ok : ∀ w n w' e, DestroySet w n = (w', e) → sets_of w' = match e with None => sets_of w ∖ {[n]} | Some _ => sets_of w end
}.

(** [CleanupLeftovers] destroys the sets by their IPv4 names: the sets of the
    IPv6 proxier are all left in the kernel. *)
Theorem ipv6_sets_left `{IpvsLib} {W} `{DestroyLaws W} i st :
  i ∈ ipsetInfo → ipset_name i.1.1 true ∈ sets_of (fst st) ↔ ipset_name i.1.1 true ∈ sets_of (fst (destroy_sets ipsetInfo.*1.*1 st)).
Proof.
  intros Hi. assert (Hall : Forall (λ n, ipset_name i.1.1 true ≠ n) ipsetInfo.*1.*1).
  { pose proof ipset_names_ok as [Hnd _]. apply NoDup_app in Hnd as (_ & Hdis & _). apply Forall_forall. intros n Hn En.
    apply (Hdis n Hn). rewrite <- En. apply list_elem_of_fmap. eauto. }
  revert st. induction Hall as [|n l Hn Hall IH]; intros [w bad]; [done|]. unfold destroy_sets in *. cbn [foldl].
  destruct (DestroySet w n) as [w1 e] eqn:E. apply DestroySet_ok in E. rewrite <- IH. cbn [fst]. rewrite E. destruct e; set_solver.
Qed.
