(* ===== verification/Conntrack.v ===== *)
(** * Connection tracking limits

    [cmd/proxy/app/contrack.go] and the functions of [proxy_linux.go] that use
    it: [setupConntrack], [getConntrackMax] and [detectNumCPU].  The proxier raises
    the limits of the kernel before it starts.  Errors are a type of their own,
    because the code compares them with [errReadOnlySysFS]. *)
From Stdlib Require Import Ascii ZArith Lia.
From stdpp Require Import prelude gmap strings list.
From S2P Require Import Prelude NetAddr HostPort Kernel ProxierSetup.
Open Scope Z_scope.

Inductive ct_error := errReadOnlySysFS | ct_other (msg : string).
#[export] Instance ct_error_eq_dec : EqDecision ct_error.
Proof. solve_decision. Defined.

Record MountPoint := mkMount { mp_Device : string; mp_Path : string; mp_Type : string; mp_Opts : list string }.

(** [sysctl.GetSysctl] (which gives a value also with an error), [SetSysctl], [mount.List], [os.ReadFile] and
    [os.WriteFile]. *)
Class ConntrackSys (W : Type) := {
  GetSysctl : W → string → Z * option string;
  SetSysctl : W → string → Z → W * option string;
  mount_List : W → list MountPoint + string;
  os_ReadFile : W → string → string + string;
  os_WriteFile : W → string → string → W * option string
}.

Definition hashsizeFile : string := "/sys/module/nf_conntrack/parameters/hashsize".

Section conntrack.
Context {W : Type} `{ConntrackSys W}.

Definition readIntStringFile (w : W) (filename : string) : Z + string :=
  match os_ReadFile w filename with
  | inr e => inr e
  | inl b => match Atoi (TrimSpace b) with Ret v => inl v | Err e => inr e | _ => inr EmptyString end
  end.
Definition writeIntStringFile (w : W) (filename : string) (value : Z) : W * option string :=
  os_WriteFile w filename (Itoa value).

Fixpoint sysfs_mount (l : list MountPoint) : bool + ct_error :=
  match l with
  | [] => inr (ct_other "no sysfs mounted")
  | m :: rest =>
      if bool_decide (mp_Type m ≠ "sysfs") then sysfs_mount rest
      else if bool_decide (head (mp_Opts m) = Some "rw") then inl true
      else inr errReadOnlySysFS
  end.
Definition isSysFSWritable (w : W) : bool + ct_error :=
  match mount_List w with inr e => inr (ct_other e) | inl l => sysfs_mount l end.

Definition setIntSysCtl (w : W) (name : string) (value : Z) : W * option ct_error :=
  let entry := "net/netfilter/" +:+ name in
  let val := (GetSysctl w entry).1 in
  if negb (val =? value) && (val <? value) then
    match SetSysctl w entry value with (w, Some e) => (w, Some (ct_other e)) | (w, None) => (w, None) end
  else (w, None).

Definition SetMax (w : W) (max : Z) : W * option ct_error :=
  match setIntSysCtl w "nf_conntrack_max" max with
  | (w, Some e) => (w, Some e)
  | (w, None) =>
      match readIntStringFile w hashsizeFile with
      | inr e => (w, Some (ct_other e))
      | inl hashsize =>
          if Z.quot max 4 <=? hashsize then (w, None)
          else match isSysFSWritable w with
               | inr e => (w, Some e)
               | inl writable =>
                   if negb writable then (w, Some errReadOnlySysFS)
                   else match writeIntStringFile w hashsizeFile (Z.quot max 4) with
                        | (w, Some e) => (w, Some (ct_other e))
                        | (w, None) => (w, None)
                        end
               end
      end
  end.
Definition SetTCPEstablishedTimeout (w : W) (seconds : Z) := setIntSysCtl w "nf_conntrack_tcp_timeout_established" seconds.
Definition SetTCPCloseWaitTimeout (w : W) (seconds : Z) := setIntSysCtl w "nf_conntrack_tcp_timeout_close_wait" seconds.

(** [KubeProxyConntrackConfiguration]: int32 pointers, durations in nanoseconds. *)
Record ConntrackConfig := mkConntrack {
  MaxPerCore : option Z; ct_Min : option Z; TCPEstablishedTimeout : option Z; TCPCloseWaitTimeout : option Z }.

(** [topology] is the result of [machine.GetTopology], [goruntime] that of [NumCPU]. *)
Definition detectNumCPU (topology : Z + string) (goruntime : Z) : Z :=
  match topology with
  | inr _ => goruntime
  | inl numCPU => if numCPU <? 1 then goruntime else numCPU
  end.

Definition getConntrackMax (config : ConntrackConfig) (numCPU : Z) : Z :=
  match MaxPerCore config with
  | Some perCore =>
      if 0 <? perCore then
        let floor := default 0 (ct_Min config) in
        let scaled := wrap64 (perCore * numCPU) in
        if floor <? scaled then scaled else floor
      else 0
  | None => 0
  end.

Definition Second : Z := 1000000000.
Definition set_timeout (set : W → Z → W * option ct_error) (timeout : option Z) (w : W) : W * option ct_error :=
  match timeout with
  | Some d => if 0 <? d then set w (Z.quot d Second) else (w, None)
  | None => (w, None)
  end.

(** The result says whether the warning event on a read-only [/sys] was sent. *)
Definition setupConntrack (config : ConntrackConfig) (numCPU : Z) (w : W) : W * (bool + ct_error) :=
  let max := getConntrackMax config numCPU in
  let '(w, err) := if 0 <? max then SetMax w max else (w, None) in
  match err with
  | Some (ct_other e) => (w, inr (ct_other e))
  | _ =>
      let warned := bool_decide (err = Some errReadOnlySysFS) in
      match set_timeout SetTCPEstablishedTimeout (TCPEstablishedTimeout config) w with
      | (w, Some e) => (w, inr e)
      | (w, None) =>
          match set_timeout SetTCPCloseWaitTimeout (TCPCloseWaitTimeout config) w with
          | (w, Some e) => (w, inr e)
          | (w, None) => (w, inl warned)
          end
      end
  end.
End conntrack.

(** ** The documented behaviour of [/proc/sys] and [/sys] *)
Record CtView := mkCtView { ctv_sysctl : gmap string Z; ctv_files : gmap string string }.

Class ConntrackLaws (W : Type) `{ConntrackSys W} := {
  ct_view : W → CtView;
  GetSysctl_ok : ∀ w e, match ctv_sysctl (ct_view w) !! e with
                        | Some v => GetSysctl w e = (v, None)
                        | None => is_Some (GetSysctl w e).2 end;
  SetSysctl_ok : ∀ w e v, let r := SetSysctl w e v in
    ct_view r.1 = match r.2 with
                  | None => mkCtView (<[e := v]> (ctv_sysctl (ct_view w))) (ctv_files (ct_view w))
                  | Some _ => ct_view w end;
  os_ReadFile_ok : ∀ w f c, os_ReadFile w f = inl c → ctv_files (ct_view w) !! f = Some c;
  os_WriteFile_ok : ∀ w f c, let r := os_WriteFile w f c in
    ct_view r.1 = match r.2 with
                  | None => mkCtView (ctv_sysctl (ct_view w)) (<[f := c]> (ctv_files (ct_view w)))
                  | Some _ => ct_view w end
}.

Section laws.
Context {W : Type} `{ConntrackLaws W}.

(** The value of an entry. *)
Definition setting (w : W) (name : string) : option Z := ctv_sysctl (ct_view w) !! ("net/netfilter/" +:+ name).
Definition hashsize (w : W) : option Z :=
  c ← ctv_files (ct_view w) !! hashsizeFile; match Atoi (TrimSpace c) with Ret v => Some v | _ => None end.

(** Every entry is kept or raised. *)
Definition raised (w w' : W) : Prop :=
  (∀ e v, ctv_sysctl (ct_view w) !! e = Some v → ∃ v', ctv_sysctl (ct_view w') !! e = Some v' ∧ v ≤ v') ∧
  (∀ h, hashsize w = Some h → ∃ h', hashsize w' = Some h' ∧ h ≤ h').
#[local] Instance raised_po : PreOrder raised.
Proof.
  split.
  - intros w. split; eauto with lia.
  - intros w1 w2 w3 [A1 A2] [B1 B2]. split.
    + intros e v Hv. destruct (A1 _ _ Hv) as (v1 & Hv1 & ?). destruct (B1 _ _ Hv1) as (v2 & ? & ?). eauto with lia.
    + intros h Hh. destruct (A2 _ Hh) as (v1 & Hv1 & ?). destruct (B2 _ Hv1) as (v2 & ? & ?). eauto with lia.
Qed.
Definition at_least (o : option Z) (v : Z) : Prop := ∃ x, o = Some x ∧ v ≤ x.
Lemma at_least_raised w w' name v : raised w w' → at_least (setting w name) v → at_least (setting w' name) v.
Proof. intros [Hr _] (x & Hx & ?). destruct (Hr _ _ Hx) as (y & ? & ?). exists y. split; [done|lia]. Qed.

Lemma setIntSysCtl_raises w name v w' r : setIntSysCtl w name v = (w', r) → is_Some (setting w name) →
  raised w w' ∧ ctv_files (ct_view w') = ctv_files (ct_view w) ∧ (r = None → at_least (setting w' name) v) ∧ r ≠ Some errReadOnlySysFS.
Proof.
  intros E [x Hx]. unfold setIntSysCtl in E. set (entry := "net/netfilter/" +:+ name) in *. pose proof (GetSysctl_ok w entry) as Hg.
  fold entry in Hx. unfold setting in Hx. fold entry in Hx. rewrite Hx in Hg. rewrite Hg in E. cbn [fst] in E.
  destruct (negb (x =? v) && (x <? v)) eqn:Hb.
  - apply andb_true_iff in Hb as [_ Hlt%Z.ltb_lt]. pose proof (SetSysctl_ok w entry v) as Hs. destruct (SetSysctl w entry v) as [w1 [e|]]; cbn in Hs, E; injection E as <- <-.
    + split_and!; [|by rewrite Hs|done|done]. unfold raised, hashsize. rewrite Hs. split; eauto with lia.
    + split_and!; [|by rewrite Hs| |done].
      * unfold raised, hashsize. rewrite Hs. cbn. split; [|eauto with lia]. intros e y Hy. destruct (decide (e = entry)) as [->|Hne].
        -- exists v. rewrite lookup_insert_eq. split; [done|]. rewrite Hx in Hy. injection Hy as ->. lia.
        -- exists y. rewrite lookup_insert_ne by done. split; [done|lia].
      * intros _. exists v. unfold setting. fold entry. rewrite Hs. cbn. rewrite lookup_insert_eq. split; [done|lia].
  - injection E as <- <-. split_and!; [reflexivity|done| |done]. intros _. exists x. unfold setting. fold entry. split; [done|]. lia.
Qed.

Lemma no_space_cons x s : (∀ c, is_space c = true → has_char c (String x s) = false) →
  is_space x = false ∧ ∀ c, is_space c = true → has_char c s = false.
Proof.
  intros Hs. split.
  - apply not_true_iff_false. intros Hx. specialize (Hs x Hx). cbn [has_char] in Hs. by rewrite bool_decide_true in Hs.
  - intros c Hc. specialize (Hs c Hc). cbn [has_char] in Hs. by apply orb_false_iff in Hs as [_ ?].
Qed.
Lemma trim_left_id s : (∀ c, is_space c = true → has_char c s = false) → trim_left s = s.
Proof. destruct s as [|x s]; [done|]. intros [Hx _]%no_space_cons. cbn [trim_left]. by rewrite Hx. Qed.
Lemma trim_right_id s : (∀ c, is_space c = true → has_char c s = false) → trim_right s = s.
Proof.
  induction s as [|x s IH]; [done|]. intros [Hx Hs]%no_space_cons. cbn [trim_right]. rewrite (IH Hs), Hx. by destruct s.
Qed.
Lemma TrimSpace_Itoa z : TrimSpace (Itoa z) = Itoa z.
Proof.
  assert (Hs : ∀ c, is_space c = true → has_char c (Itoa z) = false).
  { intros c Hc. unfold is_space in Hc. apply existsb_exists in Hc as (d & Hd & ->%Ascii.eqb_eq).
    cbn in Hd. apply Itoa_char; repeat (destruct Hd as [<-|Hd]; [done|]); contradiction. }
  unfold TrimSpace. by rewrite trim_right_id, trim_left_id.
Qed.

Lemma quot4_range z : - 2 ^ 63 ≤ z < 2 ^ 63 → - 2 ^ 63 ≤ Z.quot z 4 < 2 ^ 63.
Proof. change (2 ^ 63) with 9223372036854775808. intros Hz. Z.to_euclidean_division_equations. lia. Qed.

(** A read-only [/sys] is reported only after the limit is set. *)
Lemma SetMax_raises w max w' r : SetMax w max = (w', r) → is_Some (setting w "nf_conntrack_max") → - 2 ^ 63 ≤ max < 2 ^ 63 →
  raised w w' ∧ (r = None ∨ r = Some errReadOnlySysFS → at_least (setting w' "nf_conntrack_max") max) ∧
  (r = None → at_least (hashsize w') (Z.quot max 4)).
Proof.
  intros E Hs Hmax. unfold SetMax in E. destruct (setIntSysCtl w "nf_conntrack_max" max) as [w1 r1] eqn:E1.
  destruct (setIntSysCtl_raises _ _ _ _ _ E1 Hs) as (Hr & Hf & Hv & Hne). destruct r1 as [e|].
  { injection E as <- <-. split_and!; [done|naive_solver|done]. }
  specialize (Hv eq_refl). unfold readIntStringFile in E. destruct (os_ReadFile w1 hashsizeFile) as [c|e] eqn:Ec; [|injection E as <- <-; by split_and!].
  apply os_ReadFile_ok in Ec. destruct (Atoi (TrimSpace c)) as [h|e| |] eqn:Ea; try (injection E as <- <-; by split_and!).
  assert (Hh : hashsize w1 = Some h) by (unfold hashsize; by rewrite Ec; cbn; rewrite Ea).
  destruct (Z.leb_spec (Z.quot max 4) h); [injection E as <- <-; split_and!; [done..|]; intros _; by exists h|].
  destruct (isSysFSWritable w1) as [[]|e]; cbn [negb] in E; try (injection E as <- <-; by split_and!).
  unfold writeIntStringFile in E. pose proof (os_WriteFile_ok w1 hashsizeFile (Itoa (Z.quot max 4))) as Hw.
  destruct (os_WriteFile _ _ _) as [w2 [e|]]; cbn in Hw; injection E as <- <-.
  - assert (Hss : raised w1 w2) by (unfold raised, hashsize; rewrite Hw; split; eauto with lia). split_and!; [by etrans|naive_solver|done].
  - assert (Hh2 : hashsize w2 = Some (Z.quot max 4)).
    { unfold hashsize. rewrite Hw. cbn. rewrite lookup_insert_eq. cbn. rewrite TrimSpace_Itoa, Atoi_Itoa; [done|]. by apply quot4_range. }
    assert (Hss : raised w1 w2).
    { split; [rewrite Hw; cbn; eauto with lia|]. intros h' Hh'. rewrite Hh in Hh'. injection Hh' as <-. exists (Z.quot max 4). split; [done|lia]. }
    split_and!; [by etrans|intros _; by eapply at_least_raised|]. intros _. exists (Z.quot max 4). split; [done|lia].
Qed.

Lemma set_timeout_raises name timeout w w' r : set_timeout (λ w v, setIntSysCtl w name v) timeout w = (w', r) → is_Some (setting w name) →
  raised w w' ∧ ∀ d, r = None → timeout = Some d → 0 < d → at_least (setting w' name) (Z.quot d Second).
Proof.
  unfold set_timeout. intros E Hs. destruct timeout as [d|]; [|injection E as <- <-; split; [reflexivity|done]].
  destruct (Z.ltb_spec 0 d).
  - destruct (setIntSysCtl_raises _ _ _ _ _ E Hs) as (Hr & _ & Hv & _). split; [done|]. intros d' Hn [= <-] _. by apply Hv.
  - injection E as <- <-. split; [reflexivity|]. intros d' _ [= <-] ?. lia.
Qed.

Lemma setting_raised w w' name : raised w w' → is_Some (setting w name) → is_Some (setting w' name).
Proof. intros [Hr _] [x Hx]. destruct (Hr _ _ Hx) as (y & Hy & _). unfold setting. by rewrite Hy. Qed.

(** The configured maximum is a 64-bit integer, and for 32-bit inputs the larger of the
    scaled limit and the floor: the product does not overflow. *)
Lemma getConntrackMax_range config ncpu : (∀ m, ct_Min config = Some m → - 2 ^ 31 ≤ m < 2 ^ 31) →
  - 2 ^ 63 ≤ getConntrackMax config ncpu < 2 ^ 63.
Proof.
  intros Hm. unfold getConntrackMax. pose proof (wrap64_range (default 0 (MaxPerCore config) * ncpu)) as Hw.
  assert (- 2 ^ 63 ≤ default 0 (ct_Min config) < 2 ^ 63) by (destruct (ct_Min config) as [m|]; cbn; [specialize (Hm m eq_refl)|]; lia).
  destruct (MaxPerCore config) as [c|]; cbn in Hw; repeat case_match; lia.
Qed.
Lemma getConntrackMax_max config ncpu c : MaxPerCore config = Some c → 0 < c < 2 ^ 31 → 0 < ncpu < 2 ^ 32 →
  getConntrackMax config ncpu = Z.max (c * ncpu) (default 0 (ct_Min config)).
Proof.
  intros Hc Hr Hn. unfold getConntrackMax. rewrite Hc. destruct (Z.ltb_spec 0 c); [|lia].
  rewrite wrap64_id by nia. destruct (Z.ltb_spec (default 0 (ct_Min config)) (c * ncpu)); lia.
Qed.

(** C30: the limits of connection tracking are raised as configured and never lowered.  Where
    the kernel has the three entries, [setupConntrack] lowers none, whatever fails; and when it
    succeeds the maximum is at least the configured one, the hash table has at least a quarter
    of it unless the warning about a read-only [/sys] was sent, and both
    timeouts are at least the configured seconds. *)
Theorem setupConntrack_ok config ncpu w w' r (max := getConntrackMax config ncpu) :
  is_Some (setting w "nf_conntrack_max") → is_Some (setting w "nf_conntrack_tcp_timeout_established") →
  is_Some (setting w "nf_conntrack_tcp_timeout_close_wait") → (∀ m, ct_Min config = Some m → - 2 ^ 31 ≤ m < 2 ^ 31) →
  setupConntrack config ncpu w = (w', r) →
  raised w w' ∧ ∀ warned, r = inl warned →
    (0 < max → at_least (setting w' "nf_conntrack_max") max ∧ (warned = false → at_least (hashsize w') (Z.quot max 4))) ∧
    (∀ d, TCPEstablishedTimeout config = Some d → 0 < d →
       at_least (setting w' "nf_conntrack_tcp_timeout_established") (Z.quot d Second)) ∧
    (∀ d, TCPCloseWaitTimeout config = Some d → 0 < d →
       at_least (setting w' "nf_conntrack_tcp_timeout_close_wait") (Z.quot d Second)).
Proof.
  intros H1 H2 H3 Hmax%(getConntrackMax_range _ ncpu) E. fold max in Hmax. unfold setupConntrack in E. fold max in E.
  destruct (if 0 <? max then SetMax w max else (w, None)) as [w1 e1] eqn:E1.
  assert (A1 : raised w w1 ∧ (0 < max → e1 = None ∨ e1 = Some errReadOnlySysFS → at_least (setting w1 "nf_conntrack_max") max) ∧
    (0 < max → e1 = None → at_least (hashsize w1) (Z.quot max 4))).
  { destruct (Z.ltb_spec 0 max); [|injection E1 as <- <-; split_and!; [reflexivity|lia..]].
    destruct (SetMax_raises _ _ _ _ E1 H1 Hmax) as (? & ? & ?). done. }
  destruct A1 as (R1 & M1 & M2).
  assert (Hgo : (∃ m, e1 = Some (ct_other m) ∧ (w', r) = (w1, inr (ct_other m))) ∨ (e1 = None ∨ e1 = Some errReadOnlySysFS)).
  { destruct e1 as [[|m]|]; [by right; right| |by right; left]. left. by exists m. }
  destruct Hgo as [(m & -> & [= -> ->])|He1]; [by split|].
  assert (E' : match set_timeout SetTCPEstablishedTimeout (TCPEstablishedTimeout config) w1 with
    | (w, Some e) => (w, inr e)
    | (w, None) => match set_timeout SetTCPCloseWaitTimeout (TCPCloseWaitTimeout config) w with
                   | (w, Some e) => (w, inr e)
                   | (w, None) => (w, inl (bool_decide (e1 = Some errReadOnlySysFS))) end end = (w', r)) by (by destruct He1 as [-> | ->]).
  clear E. destruct (set_timeout SetTCPEstablishedTimeout _ w1) as [w2 e2] eqn:E2. apply set_timeout_raises in E2 as [R2 T2]; [|by eapply setting_raised].
  destruct e2 as [e2|]; [injection E' as <- <-; split; [by etrans|done]|].
  destruct (set_timeout SetTCPCloseWaitTimeout _ w2) as [w3 e3] eqn:E3.
  apply set_timeout_raises in E3 as [R3 T3]; [|eapply setting_raised; [done|]; by eapply setting_raised].
  destruct e3 as [e3|]; injection E' as <- <-; (split; [by do 2 (etrans; [done|])|]); [done|]. intros warned [= <-]. split_and!.
  - intros Hm. split; [apply (at_least_raised w1); [by etrans|]; by apply M1|]. intros Hw%bool_decide_eq_false.
    destruct (M2 Hm) as (h & Hh & ?); [by destruct He1|]. destruct R2 as [_ R2], R3 as [_ R3]. destruct (R2 _ Hh) as (h2 & Hh2 & ?).
    destruct (R3 _ Hh2) as (h3 & Hh3 & ?). exists h3. split; [done|lia].
  - intros d Hd ?. eapply at_least_raised; [exact R3|]. by apply T2.
  - intros d Hd ?. by apply T3.
Qed.
End laws.

(** ** A machine with eight cores *)
Section demo.
Definition demo_machine : Type := CtView.
#[local] Instance demo_conntrack : ConntrackSys demo_machine := {|
  GetSysctl w e := match ctv_sysctl w !! e with Some v => (v, None) | None => (-1, Some "no such file") end;
  SetSysctl w e v := (mkCtView (<[e := v]> (ctv_sysctl w)) (ctv_files w), None);
  mount_List _ := inl [mkMount "proc" "/proc" "proc" ["rw"]; mkMount "sysfs" "/sys" "sysfs" ["rw"; "nosuid"]];
  os_ReadFile w f := match ctv_files w !! f with Some c => inl c | None => inr "no such file" end;
  os_WriteFile w f c := (mkCtView (ctv_sysctl w) (<[f := c]> (ctv_files w)), None) |}.
#[local] Instance demo_conntrack_laws : ConntrackLaws demo_machine.
Proof.
  refine {| ct_view := λ w, w |}.
  - intros w e. cbn. by destruct (ctv_sysctl w !! e).
  - done.
  - intros w f c. cbn. destruct (ctv_files w !! f); by intros [= ->].
  - done.
Defined.

Definition demo_limits : demo_machine :=
  mkCtView {["net/netfilter/nf_conntrack_max" := 65536; "net/netfilter/nf_conntrack_tcp_timeout_established" := 432000;
             "net/netfilter/nf_conntrack_tcp_timeout_close_wait" := 60]}
    {[hashsizeFile := "16384" +:+ String "010" EmptyString]}.
(** The defaults of kube-proxy: 32768 per core, at least 131072, a day and an hour. *)
Definition demo_config : ConntrackConfig := mkConntrack (Some 32768) (Some 131072) (Some (86400 * Second)) (Some (3600 * Second)).

Lemma setupConntrack_ok_witness :
  let '(w', r) := setupConntrack demo_config 8 demo_limits in
  r = inl false ∧ (setting w' "nf_conntrack_max" = Some 262144 ∧ setting w' "nf_conntrack_tcp_timeout_established" = Some 432000) ∧
  raised demo_limits w' ∧ at_least (hashsize w') 65536.
Proof.
  destruct (setupConntrack demo_config 8 demo_limits) as [w' r] eqn:E.
  destruct (setupConntrack_ok demo_config 8 demo_limits w' r) as [Hr Hok].
  - vm_compute. eauto.
  - vm_compute. eauto.
  - vm_compute. eauto.
  - cbn. intros m [= <-]. lia.
  - exact E.
  - assert (Er : r = inl false) by (change r with (w', r).2; rewrite <- E; vm_compute; reflexivity).
    split; [exact Er|]. split; [|split; [exact Hr|]].
    + change w' with (w', r).1. rewrite <- E. vm_compute. split; reflexivity.
    + destruct (Hok false Er) as [Hm _]. destruct Hm as [_ Hh]; [vm_compute; reflexivity|]. exact (Hh eq_refl).
Defined.
End demo.
