(* ===== verification/ProxyConfig.v ===== *)
(** * From the informers to the proxier

    [pkg/proxy/config/config.go]: the handlers that an informer calls and that
    pass its notifications on to the registered event handlers, and the way
    [ProxyServer.Run] puts them together with the proxier.

    What runs concurrently is modelled step by step: the two informers call their
    handlers from one goroutine each, two more goroutines run [Run] of the two
    configurations, one runs the sync loop, and a timer removes drained real servers.  A
    handler is the list of its atomic actions (an update of a change tracker holds the
    tracker's lock, a sync holds the proxier's, the flag [initialized] is
    read atomically), and the steps of the system interleave those lists in any order.  The
    main theorem says that no notification is lost: whenever nothing is left to do,
    the proxier's maps are those of the objects in the informers' caches, and the
    kernel was last synced with them. *)
From Stdlib Require Import Ascii.
From stdpp Require Import prelude gmap strings list functions relations.
From S2P Require Import Prelude NetAddr K8s ProxyEndpoints ProxyServices HostPort Kernel Graceful IpSet Proxier.

(** ** Objects and event handlers *)

(** What an informer passes as [interface{}]. *)
Inductive Obj :=
  | ObjServiceImport (si : ServiceImport)
  | ObjEndpointSlice (s : EndpointSlice)
  | DeletedFinalStateUnknown (Key : string) (o : Obj)
  | ObjOther.

(** The two interfaces, over the actions a handler performs. *)
Record ServiceImportHandler (act : Type) := mkSIH {
  sih_Add : ServiceImport → list act;
  sih_Update : ServiceImport → ServiceImport → list act;
  sih_Delete : ServiceImport → list act;
  sih_Synced : list act }.
Record EndpointSliceHandler (act : Type) := mkESH {
  esh_Add : EndpointSlice → list act;
  esh_Update : EndpointSlice → EndpointSlice → list act;
  esh_Delete : EndpointSlice → list act;
  esh_Synced : list act }.
Arguments sih_Add {_}. Arguments sih_Update {_}. Arguments sih_Delete {_}. Arguments sih_Synced {_}.
Arguments esh_Add {_}. Arguments esh_Update {_}. Arguments esh_Delete {_}. Arguments esh_Synced {_}.

(** A configuration is its event handlers; [listerSynced] is an argument of [Run]. *)
Definition ServiceImportConfig (act : Type) : Type := list (ServiceImportHandler act).
Definition EndpointSliceConfig (act : Type) : Type := list (EndpointSliceHandler act).

(** The functions registered with an informer. *)
Record ResourceEventHandlerFuncs (act : Type) := mkREHF {
  AddFunc : Obj → list act; UpdateFunc : Obj → Obj → list act; DeleteFunc : Obj → list act }.
Arguments AddFunc {_}. Arguments UpdateFunc {_}. Arguments DeleteFunc {_}.

(** [wait] is what [WaitForNamedCacheSync] returns. *)
Definition EndpointSliceConfig_Run {act} (wait : bool) (c : EndpointSliceConfig act) : list act :=
  if negb wait then [] else h ← c; esh_Synced h.
Definition ServiceImportConfig_Run {act} (wait : bool) (c : ServiceImportConfig act) : list act :=
  if negb wait then [] else h ← c; sih_Synced h.

Definition RegisterEndpointSliceHandler {act} (c : EndpointSliceConfig act) (h : EndpointSliceHandler act) : EndpointSliceConfig act :=
  c ++ [h].
Definition RegisterServiceImportHandler {act} (c : ServiceImportConfig act) (h : ServiceImportHandler act) : ServiceImportConfig act :=
  c ++ [h].

Definition handleAddEndpointSlice {act} (c : EndpointSliceConfig act) (obj : Obj) : list act :=
  match obj with
  | ObjEndpointSlice s => h ← c; esh_Add h s
  | _ => []
  end.
Definition handleUpdateEndpointSlice {act} (c : EndpointSliceConfig act) (oldObj newObj : Obj) : list act :=
  match oldObj with
  | ObjEndpointSlice old =>
      match newObj with
      | ObjEndpointSlice new => h ← c; esh_Update h old new
      | _ => []
      end
  | _ => []
  end.
(** A tombstone within a tombstone is not looked into. *)
Definition handleDeleteEndpointSlice {act} (c : EndpointSliceConfig act) (obj : Obj) : list act :=
  match obj with
  | ObjEndpointSlice s => h ← c; esh_Delete h s
  | DeletedFinalStateUnknown _ o =>
      match o with
      | ObjEndpointSlice s => h ← c; esh_Delete h s
      | _ => []
      end
  | _ => []
  end.

Definition handleAddServiceImport {act} (c : ServiceImportConfig act) (obj : Obj) : list act :=
  match obj with
  | ObjServiceImport si => h ← c; sih_Add h si
  | _ => []
  end.
Definition handleUpdateServiceImport {act} (c : ServiceImportConfig act) (oldObj newObj : Obj) : list act :=
  match oldObj with
  | ObjServiceImport old =>
      match newObj with
      | ObjServiceImport new => h ← c; sih_Update h old new
      | _ => []
      end
  | _ => []
  end.
Definition handleDeleteServiceImport {act} (c : ServiceImportConfig act) (obj : Obj) : list act :=
  match obj with
  | ObjServiceImport si => h ← c; sih_Delete h si
  | DeletedFinalStateUnknown _ o =>
      match o with
      | ObjServiceImport si => h ← c; sih_Delete h si
      | _ => []
      end
  | _ => []
  end.

(** The handlers read [eventHandlers] when they are called, so a handler
    registered later is called too. *)
Definition NewEndpointSliceConfig {act} (c : EndpointSliceConfig act) : ResourceEventHandlerFuncs act :=
  mkREHF _ (handleAddEndpointSlice c) (handleUpdateEndpointSlice c) (handleDeleteEndpointSlice c).
Definition NewServiceImportConfig {act} (c : ServiceImportConfig act) : ResourceEventHandlerFuncs act :=
  mkREHF _ (handleAddServiceImport c) (handleUpdateServiceImport c) (handleDeleteServiceImport c).

Inductive notification := Added (o : Obj) | Updated (old new : Obj) | Deleted (o : Obj).
Definition notify {act} (f : ResourceEventHandlerFuncs act) (n : notification) : list act :=
  match n with
  | Added o => AddFunc f o
  | Updated old new => UpdateFunc f old new
  | Deleted o => DeleteFunc f o
  end.

(** The goroutines. *)
Inductive tid := ImportListener | SliceListener | ImportRun | SliceRun | SyncLoop.
#[export] Instance tid_eq_dec : EqDecision tid.
Proof. solve_decision. Defined.

Section system.
Context `{GoRuntime} {W : Type} `{ServiceLib} `{ProxyLib} `{NetutilsLib} `{IpvsLib} `{KernelOps W}.

(** ** The proxier as an event handler *)
Inductive action :=
  | TrackImport (old new : option ServiceImport)
  | TrackSlice (s : EndpointSlice) (remove : bool)
  | CheckInitialized
  | SetImportsSynced
  | SetSlicesSynced
  | SyncRules.

(** [changed] is the result of the tracker, [requested] a pending run of the sync
    runner. *)
Definition exec (a : action) (changed : bool) (p : Proxier) (w : W) (requested : bool) : outcome (bool * Proxier * W * bool) :=
  match a with
  | TrackImport old new =>
      '(sct, changed) ← SICT_Update (px_serviceImportChanges p) old new;
      Ret (changed, with_changes (px_endpointsChanges p) sct p, w, requested)
  | TrackSlice s remove =>
      '(ect, changed) ← EndpointSliceUpdate (px_endpointsChanges p) (Some s) remove;
      Ret (changed, with_changes ect (px_serviceImportChanges p) p, w, requested)
  | CheckInitialized => Ret (changed, p, w, requested || (changed && px_initialized p))
  | SetImportsSynced => Ret (changed, setInitialized p (px_endpointSlicesSynced p) (px_endpointSlicesSynced p) true, w, requested)
  | SetSlicesSynced => Ret (changed, setInitialized p (px_servicesImportSynced p) true (px_servicesImportSynced p), w, requested)
  | SyncRules => '(p, w) ← syncProxyRules p w; Ret (changed, p, w, requested)
  end.

Definition proxier_imports : ServiceImportHandler action :=
  mkSIH _ (λ si, [TrackImport None (Some si); CheckInitialized])
    (λ old si, [TrackImport (Some old) (Some si); CheckInitialized])
    (λ si, [TrackImport (Some si) None; CheckInitialized])
    [SetImportsSynced; SyncRules].
Definition proxier_slices : EndpointSliceHandler action :=
  mkESH _ (λ s, [TrackSlice s false; CheckInitialized])
    (λ _ s, [TrackSlice s false; CheckInitialized])
    (λ s, [TrackSlice s true; CheckInitialized])
    [SetSlicesSynced; SyncRules].

(** The configurations of [ProxyServer.Run]. *)
Definition import_config : ServiceImportConfig action := RegisterServiceImportHandler [] proxier_imports.
Definition slice_config : EndpointSliceConfig action := RegisterEndpointSliceHandler [] proxier_slices.

Fixpoint exec_all (l : list action) (changed : bool) (p : Proxier) (w : W) (requested : bool) : outcome (Proxier * W * bool) :=
  match l with
  | [] => Ret (p, w, requested)
  | a :: rest => '(c, p, w, r) ← exec a changed p w requested; exec_all rest c p w r
  end.

(** Run without interruption the actions of the proxier's handlers are the
    handlers of [Proxier]. *)
Lemma imports_uninterrupted p w r :
  (∀ si, exec_all (sih_Add proxier_imports si) false p w r = '(p, b) ← OnServiceImportAdd p si; Ret (p, w, r || b)) ∧
  (∀ old si, exec_all (sih_Update proxier_imports old si) false p w r =
     '(p, b) ← OnServiceImportUpdate p (Some old) (Some si); Ret (p, w, r || b)) ∧
  (∀ si, exec_all (sih_Delete proxier_imports si) false p w r = '(p, b) ← OnServiceImportDelete p si; Ret (p, w, r || b)) ∧
  exec_all (sih_Synced proxier_imports) false p w r = '(p, w) ← OnServiceImportSynced p w; Ret (p, w, r).
Proof.
  assert (Hu : ∀ old new, exec_all [TrackImport old new; CheckInitialized] false p w r =
    '(p, b) ← OnServiceImportUpdate p old new; Ret (p, w, r || b)).
  { intros old new. unfold OnServiceImportUpdate. cbn [exec_all exec].
    by destruct (SICT_Update (px_serviceImportChanges p) old new) as [[sct b]| | |]. }
  split_and!; intros; [apply Hu..|]. unfold OnServiceImportSynced. cbn [exec_all exec sih_Synced proxier_imports].
  cbn [mbind outcome_bind]. by destruct (syncProxyRules _ w) as [[p' w']| | |].
Qed.
Lemma slices_uninterrupted p w r :
  (∀ s, exec_all (esh_Add proxier_slices s) false p w r = '(p, b) ← OnEndpointSliceAdd p s; Ret (p, w, r || b)) ∧
  (∀ old s, exec_all (esh_Update proxier_slices old s) false p w r = '(p, b) ← OnEndpointSliceUpdate p s; Ret (p, w, r || b)) ∧
  (∀ s, exec_all (esh_Delete proxier_slices s) false p w r = '(p, b) ← OnEndpointSliceDelete p s; Ret (p, w, r || b)) ∧
  exec_all (esh_Synced proxier_slices) false p w r = '(p, w) ← OnEndpointSlicesSynced p w; Ret (p, w, r).
Proof.
  assert (Hu : ∀ s rm, exec_all [TrackSlice s rm; CheckInitialized] false p w r =
    '(p, b) ← OnEndpointSlice p s rm; Ret (p, w, r || b)).
  { intros s rm. unfold OnEndpointSlice. cbn [exec_all exec].
    by destruct (EndpointSliceUpdate (px_endpointsChanges p) (Some s) rm) as [[ect b]| | |]. }
  split_and!; intros; [apply Hu..|]. unfold OnEndpointSlicesSynced. cbn [exec_all exec esh_Synced proxier_slices].
  cbn [mbind outcome_bind]. by destruct (syncProxyRules _ w) as [[p' w']| | |].
Qed.

(** ** The system *)
(** A goroutine: what its last tracker call returned, and the actions it has left. *)
Record thread := mkThread { th_changed : bool; th_todo : list action }.

(** The proxier, the kernel, the pending request, the goroutines, and what the two informers
    have notified. *)
Record System := mkSys {
  y_p : Proxier;
  y_w : W;
  y_requested : bool;
  y_threads : tid → thread;
  y_imports : gmap NamespacedName ServiceImport;
  y_slices : gmap NamespacedName EndpointSlice }.

(** What an informer notifies: the last known object is the old one, a missed
    deletion comes as a tombstone, a resync as an update. *)
Inductive import_informer (m : gmap NamespacedName ServiceImport) : notification → gmap NamespacedName ServiceImport → Prop :=
  | import_added si : m !! si_nn si = None → import_informer m (Added (ObjServiceImport si)) (<[si_nn si := si]> m)
  | import_updated old si : m !! si_nn si = Some old →
      import_informer m (Updated (ObjServiceImport old) (ObjServiceImport si)) (<[si_nn si := si]> m)
  | import_deleted si : m !! si_nn si = Some si → import_informer m (Deleted (ObjServiceImport si)) (delete (si_nn si) m)
  | import_missed si key : m !! si_nn si = Some si →
      import_informer m (Deleted (DeletedFinalStateUnknown key (ObjServiceImport si))) (delete (si_nn si) m).

Definition slice_id (s : EndpointSlice) : NamespacedName := mkNN (Namespace (es_meta s)) (es_Name s).

(** [owner k] is the service of the slices that are tracked under [k]. *)
Context (owner : NamespacedName → NamespacedName).
Definition slice_wf (s : EndpointSlice) : Prop := slice_good s = true ∧ slice_nn s = owner (slice_key s).

(** The label that names the service of a slice does not change. *)
Inductive slice_informer (m : gmap NamespacedName EndpointSlice) : notification → gmap NamespacedName EndpointSlice → Prop :=
  | slice_added s : slice_wf s → m !! slice_id s = None →
      slice_informer m (Added (ObjEndpointSlice s)) (<[slice_id s := s]> m)
  | slice_updated old s : slice_wf s → m !! slice_id s = Some old → slice_key old = slice_key s →
      slice_informer m (Updated (ObjEndpointSlice old) (ObjEndpointSlice s)) (<[slice_id s := s]> m)
  | slice_deleted s : m !! slice_id s = Some s → slice_informer m (Deleted (ObjEndpointSlice s)) (delete (slice_id s) m)
  | slice_missed s key : m !! slice_id s = Some s →
      slice_informer m (Deleted (DeletedFinalStateUnknown key (ObjEndpointSlice s))) (delete (slice_id s) m).

Definition start (t : tid) (l : list action) (y : System) : System :=
  mkSys (y_p y) (y_w y) (y_requested y) (<[t := mkThread false l]> (y_threads y)) (y_imports y) (y_slices y).
Definition set_imports (m : gmap NamespacedName ServiceImport) (y : System) : System :=
  mkSys (y_p y) (y_w y) (y_requested y) (y_threads y) m (y_slices y).
Definition set_slices (m : gmap NamespacedName EndpointSlice) (y : System) : System :=
  mkSys (y_p y) (y_w y) (y_requested y) (y_threads y) (y_imports y) m.
Definition take_request (y : System) : System :=
  mkSys (y_p y) (y_w y) false (y_threads y) (y_imports y) (y_slices y).
Definition idle (y : System) (t : tid) : Prop := th_todo (y_threads y t) = [].

Inductive step : System → System → Prop :=
  | step_import y n m : idle y ImportListener → import_informer (y_imports y) n m →
      step y (set_imports m (start ImportListener (notify (NewServiceImportConfig import_config) n) y))
  | step_slice y n m : idle y SliceListener → slice_informer (y_slices y) n m →
      step y (set_slices m (start SliceListener (notify (NewEndpointSliceConfig slice_config) n) y))
  | step_import_run y : idle y ImportRun → step y (start ImportRun (ServiceImportConfig_Run true import_config) y)
  | step_slice_run y : idle y SliceRun → step y (start SliceRun (EndpointSliceConfig_Run true slice_config) y)
  | step_loop y : idle y SyncLoop → step y (take_request (start SyncLoop [SyncRules] y))
  | step_exec y t c a rest c' p' w' r' : y_threads y t = mkThread c (a :: rest) →
      exec a c (y_p y) (y_w y) (y_requested y) = Ret (c', p', w', r') →
      step y (mkSys p' w' r' (<[t := mkThread c' rest]> (y_threads y)) (y_imports y) (y_slices y))
  | step_drain y w' q' : tryDeleteRs (y_w y) (px_rsList (y_p y)) = (w', q') →
      step y (mkSys (with_list q' (px_noLocalInternal (y_p y)) (px_noLocalExternal (y_p y)) (y_p y)) w' (y_requested y)
                (y_threads y) (y_imports y) (y_slices y)).

(** Nothing is being done and no sync is requested. *)
Definition quiet (y : System) : Prop := y_requested y = false ∧ ∀ t, idle y t.

Definition system_start (ipFamily hostname scheduler : string) (excludeCIDRs : list IPNet) (now : Time) (w : W) : System :=
  mkSys (NewProxier ipFamily hostname scheduler excludeCIDRs now) w false (λ _, mkThread false []) ∅ ∅.

(** ** The slices of a tracker *)
Definition slices_of (m : gmap NamespacedName EndpointSlice) (k : NamespacedName) : gmap string endpointSliceInfo :=
  list_to_map ((λ e : NamespacedName * EndpointSlice, (es_Name e.2, slice_info e.2 false)) <$>
    filter (λ e, slice_key e.2 = k) (map_to_list m)).

Definition slices_ok (m : gmap NamespacedName EndpointSlice) : Prop := map_Forall (λ id s, slice_id s = id ∧ slice_wf s) m.

Lemma slices_of_lookup m k n : slices_ok m →
  slices_of m k !! n =
    s ← m !! mkNN (nn_Namespace k) n; if decide (slice_key s = k) then Some (slice_info s false) else None.
Proof.
  intros Hm. apply option_eq. intros i. unfold slices_of. rewrite <- elem_of_list_to_map.
  - rewrite list_elem_of_fmap, bind_Some. split.
    + intros ([id s] & [= -> ->] & [Hk Hin%elem_of_map_to_list]%list_elem_of_filter). cbn in *. exists s.
      rewrite decide_True by done. split; [|done]. destruct (Hm _ _ Hin) as [<- _]. by subst k.
    + intros (s & Hs & Hi). case_decide as Hk; [|done]. injection Hi as <-. exists (mkNN (nn_Namespace k) n, s). cbn. split.
      * destruct (Hm _ _ Hs) as [[= _ Hn] _]. by rewrite Hn.
      * apply list_elem_of_filter. by rewrite elem_of_map_to_list.
  - rewrite <- list_fmap_compose. apply NoDup_fmap_2_strong; [|apply NoDup_filter, NoDup_map_to_list].
    intros [i1 s1] [i2 s2] [K1 E1%elem_of_map_to_list]%list_elem_of_filter [K2 E2%elem_of_map_to_list]%list_elem_of_filter Hn.
    cbn in *. destruct (Hm _ _ E1) as [Hi1 _], (Hm _ _ E2) as [Hi2 _]. unfold slice_id, slice_key in *. subst k.
    injection K2 as Hns _. assert (i1 = i2) by congruence. subst. congruence.
Qed.

Lemma slices_ok_insert m s : slices_ok m → slice_wf s → slices_ok (<[slice_id s := s]> m).
Proof. intros Hm Hs. by apply map_Forall_insert_2. Qed.
Lemma slices_ok_delete m id : slices_ok m → slices_ok (delete id m).
Proof. apply map_Forall_delete. Qed.

Lemma slices_of_insert m s k : slices_ok m → slice_wf s → (∀ old, m !! slice_id s = Some old → slice_key old = slice_key s) →
  slices_of (<[slice_id s := s]> m) k = latest_step k (slices_of m k) (PSlice s false).
Proof.
  intros Hm Hs Hold. apply map_eq. intros n. rewrite slices_of_lookup by (by apply slices_ok_insert). unfold latest_step.
  destruct (decide (mkNN (nn_Namespace k) n = slice_id s)) as [Hid|Hid].
  - injection Hid as Hns ->. rewrite Hns. rewrite lookup_insert_eq. cbn. destruct (decide (slice_key s = k)) as [Hk|Hk].
    + by rewrite lookup_insert_eq.
    + rewrite slices_of_lookup by done. rewrite Hns. fold (slice_id s). destruct (m !! slice_id s) as [old|] eqn:E; [|done].
      cbn. rewrite decide_False; [done|]. by rewrite (Hold _ eq_refl).
  - rewrite lookup_insert_ne by done. rewrite <- slices_of_lookup by done. case_decide as Hk; [|done].
    rewrite lookup_insert_ne; [done|]. intros <-. apply Hid. by rewrite <- Hk.
Qed.
Lemma slices_of_delete m s k : slices_ok m → m !! slice_id s = Some s →
  slices_of (delete (slice_id s) m) k = latest_step k (slices_of m k) (PSlice s true).
Proof.
  intros Hm Hold. apply map_eq. intros n. rewrite slices_of_lookup by (by apply slices_ok_delete). unfold latest_step.
  destruct (decide (mkNN (nn_Namespace k) n = slice_id s)) as [Hid|Hid].
  - injection Hid as Hns ->. rewrite Hns. rewrite lookup_delete_eq. cbn. destruct (decide (slice_key s = k)) as [Hk|Hk].
    + by rewrite lookup_delete_eq.
    + rewrite slices_of_lookup by done. rewrite Hns. fold (slice_id s). rewrite Hold. cbn. by rewrite decide_False.
  - rewrite lookup_delete_ne by done. rewrite <- slices_of_lookup by done. case_decide as Hk; [|done].
    rewrite lookup_delete_ne; [done|]. intros <-. apply Hid. by rewrite <- Hk.
Qed.

(** ** What a sync leaves alone *)

(** The fields that the part of a sync after the two updates does not change. *)
Definition input (p : Proxier) :=
  (px_endpointsChanges p, px_serviceImportChanges p, px_svcPortMap p, px_endpointsMap p, px_nodeLabels p,
   px_endpointSlicesSynced p, px_servicesImportSynced p, px_initialized p).

Lemma syncEndpoint_input p w spn b vs : input (syncEndpoint p w spn b vs).1.1 = input p.
Proof. unfold syncEndpoint. repeat case_match; simplify_eq; done. Qed.

Lemma sync_one_input bound st spn info st' : sync_one bound st spn info = Ret st' → input (sy_p st') = input (sy_p st).
Proof.
  unfold sync_one. intros E. apply bind_Ret in E as (sets & _ & E). apply bind_Ret in E as ([sets' valid] & _ & E).
  destruct valid; cbn [negb] in E; [|by injection E as <-]. destruct (syncService _ _ _ _) as [w [e|]]; [by injection E as <-|].
  pose proof (syncEndpoint_input (with_sets sets' (sy_p st)) w spn (bsp_internalPolicyLocal (spi_base info))
    (virtual_server (with_sets sets' (sy_p st)) info)) as Hi.
  destruct (syncEndpoint _ _ _ _ _) as [[p w'] e]. injection E as <-. exact Hi.
Qed.
Lemma sync_services_input bound l st st' : sync_services bound l st = Ret st' → input (sy_p st') = input (sy_p st).
Proof.
  revert st. induction l as [|[spn info] l IH]; intros st E; cbn [sync_services] in E; [by injection E as <-|].
  apply bind_Ret in E as (st1 & E1 & E). rewrite (IH _ E). by apply (sync_one_input _ _ _ _ _ E1).
Qed.

(** A sync takes the changes of both trackers into the maps, also when it fails later. *)
Lemma syncProxyRules_input p w p' w' : px_initialized p = true → syncProxyRules p w = Ret (p', w') →
  ∃ svcs sct r epm ect r', ServicePortMap_Update (px_svcPortMap p) (px_serviceImportChanges p) = (svcs, sct, r) ∧
    EndpointsMap_Update (px_endpointsMap p) (Some (px_endpointsChanges p)) = Ret (epm, ect, r') ∧
    input p' = input (with_maps svcs epm (with_changes (default (px_endpointsChanges p) ect) sct p)).
Proof.
  intros Hi E. unfold syncProxyRules in E. rewrite Hi in E. cbn [negb] in E.
  destruct (ServicePortMap_Update _ _) as [[svcs sct] r] eqn:Es. apply bind_Ret in E as ([[epm ect] r'] & Ee & E).
  exists svcs, sct, r, epm, ect, r'. split; [done|]. split; [done|].
  destruct (EnsureDummyDevice w defaultDummyDevice) as [w1 [e|]]; [by injection E as <- _|].
  destruct (ensure_sets _ _ _) as [[w2 sets] ok]. destruct ok; cbn [negb] in E; [|by injection E as <- _].
  apply bind_Ret in E as (st & Est%sync_services_input & E). apply bind_Ret in E as ([p1 w3] & Ef & E). injection E as <- _.
  unfold finish_sync in Ef. apply bind_Ret in Ef as (s & _ & Ef). injection Ef as <- _. exact Est.
Qed.

(** ** Nothing is lost *)
Context (c0 : EndpointSliceCache).

(** No change is waiting for a sync. *)
Definition clean (p : Proxier) : Prop :=
  sict_items (px_serviceImportChanges p) = ∅ ∧
  ∀ k n, effective (trk (ect_cache (px_endpointsChanges p)) k) n = applied (trk (ect_cache (px_endpointsChanges p)) k) !! n.

(** The trackers and maps of the proxier have seen the imports [ims] and the slices [ss]. *)
Record seen (ims : gmap NamespacedName ServiceImport) (ss : gmap NamespacedName EndpointSlice) (p : Proxier) : Prop := {
  seen_imports : svc_inv (mkSS ims (px_svcPortMap p) (px_serviceImportChanges p));
  seen_ok : slices_ok ss;
  seen_slices : ∃ hist, proxy_inv owner c0 hist (px_endpointsMap p, px_endpointsChanges p) ∧ ∀ k, latest k hist = slices_of ss k;
  seen_flag : px_initialized p = px_endpointSlicesSynced p && px_servicesImportSynced p;
  seen_labels : px_nodeLabels p = None }.

Lemma seen_input ims ss p p' : input p' = input p → seen ims ss p → seen ims ss p'.
Proof. unfold input. intros E [S1 S2 S3 S4 S5]. injection E as E1 E2 E3 E4 E5 E6 E7 E8. constructor; [by rewrite E2, E3|done|by rewrite E1, E4|congruence..]. Qed.

Lemma track_import ims ss p nn cur ims' :
  seen ims ss p → (∀ nn' si, ims' !! nn' = Some si → si_nn si = nn') → ims' !! nn = cur →
  (∀ nn', nn' ≠ nn → ims' !! nn' = ims !! nn') → (cur = None → is_Some (ims !! nn)) →
  ∃ sct b, SICT_Update (px_serviceImportChanges p) (ims !! nn) cur = Ret (sct, b) ∧
    seen ims' ss (with_changes (px_endpointsChanges p) sct p) ∧
    (b = false → clean p → clean (with_changes (px_endpointsChanges p) sct p)).
Proof.
  intros [S1 S2 S3 S4 S5] Hk Hcur Hoth Hex.
  destruct (SICT_Update_inv (mkSS ims (px_svcPortMap p) (px_serviceImportChanges p)) cur nn ims') as (sct & b & E & Hi & Hb); [done..|].
  exists sct, b. split; [exact E|]. split; [by constructor|]. intros Hf [_ Hc]. split; [by apply Hb|exact Hc].
Qed.

Lemma latest_snoc k hist e : latest k (hist ++ [e]) = latest_step k (latest k hist) e.
Proof. unfold latest. by rewrite foldl_app. Qed.

Lemma track_slice ims ss p s rm ss' :
  seen ims ss p → slice_wf s → slices_ok ss' → (∀ k, slices_of ss' k = latest_step k (slices_of ss k) (PSlice s rm)) →
  ∃ ect b, EndpointSliceUpdate (px_endpointsChanges p) (Some s) rm = Ret (ect, b) ∧
    seen ims ss' (with_changes ect (px_serviceImportChanges p) p) ∧
    (b = false → clean p → clean (with_changes ect (px_serviceImportChanges p) p)).
Proof.
  intros [S1 S2 (hist & Hi & Hl) S4 S5] Hs Hok Hss.
  destruct (EndpointSliceUpdate_inv owner c0 hist _ _ s rm Hi Hs) as (ect & b & E & Hi' & Hb).
  exists ect, b. split; [exact E|]. split.
  - constructor; [done..| |done|done]. exists (hist ++ [PSlice s rm]). split; [exact Hi'|]. intros k. by rewrite latest_snoc, Hl, Hss.
  - intros Hf [Hc1 Hc2]. split; [exact Hc1|]. cbn [with_changes px_endpointsChanges]. intros k n. rewrite (Hb Hf k). apply Hc2.
Qed.

Lemma sync_seen ims ss p w p' w' : px_initialized p = true → syncProxyRules p w = Ret (p', w') → seen ims ss p →
  seen ims ss p' ∧ clean p' ∧ px_initialized p' = true.
Proof.
  intros Hp E [S1 S2 (hist & Hi & Hl) S4 S5].
  destruct (syncProxyRules_input _ _ _ _ Hp E) as (svcs & sct & r & epm & ect & r' & Es & Ee & Hin).
  destruct (sync_inv _ S1) as (st' & Hst & Hv & _ & _). cbn [sstep ss_spm ss_sct ss_latest] in Hst. rewrite Es in Hst. injection Hst as <-.
  destruct (pstep_sync owner _ _ _ Hi) as ([epm' ect'] & Hst & Hi' & Happ). cbn [pstep] in Hst. rewrite Ee in Hst. cbn [mbind outcome_bind] in Hst.
  apply bind_Ret in Hst as (e & He & [= -> ->]). destruct ect as [e|]; [injection He as ->|done]. cbn [default] in Hin.
  unfold input in Hin. cbn in Hin. injection Hin as I1 I2 I3 I4 I5 I6 I7 I8. split; [|split].
  - constructor; rewrite ?I2, ?I3, ?I4, ?I5, ?I6, ?I7, ?I8; try done. exists (hist ++ [PSync]). rewrite I1. split; [done|].
    intros k. rewrite latest_snoc. cbn. apply Hl.
  - split.
    + rewrite I2. unfold ServicePortMap_Update in Es. destruct (foldl _ _ _). by injection Es as _ <- _.
    + rewrite I1. intros k n. pose proof (pi_effective _ _ _ _ Hi' k n) as Hf. cbn in Hf. rewrite Hf, latest_snoc. cbn.
      pose proof (Happ k) as Ha. cbn in Ha. by rewrite Ha.
  - by rewrite I8.
Qed.

(** What the maps hold when the proxier is clean. *)
Lemma clean_maps ims ss p : seen ims ss p → clean p →
  (∀ spn, px_svcPortMap p !! spn = default ∅ (service_map (ims !! spn_nn spn)) !! spn) ∧
  (∀ spn l, px_endpointsMap p !! spn = Some l → ∃ k m, owner k = spn_nn spn ∧ getEndpointsMap c0 (slices_of ss k) = Ret m ∧ m !! spn = Some l) ∧
  (∀ k, sole owner k → ∃ m, getEndpointsMap c0 (slices_of ss k) = Ret m ∧ ∀ spn, spn_nn spn = owner k → px_endpointsMap p !! spn = m !! spn).
Proof.
  intros [S1 S2 (hist & [Hok Hcf Heff Hepm Hfrom] & Hl) S4 S5] [Hc1 Hc2]. cbn in *.
  assert (Ha : ∀ k, applied (trk (ect_cache (px_endpointsChanges p)) k) = slices_of ss k).
  { intros k. apply map_eq. intros n. by rewrite <- Hc2, Heff, Hl. }
  split; [|split].
  - intros spn. apply (sv_clean _ S1); [|done]. cbn. by rewrite Hc1.
  - intros spn l He. destruct (Hfrom spn l He) as (k & m & Hk & Hm & Hs). exists k, m. by rewrite <- Ha.
  - intros k Hk. destruct (getEndpointsMap_total c0 (owner k) (applied (trk (ect_cache (px_endpointsChanges p)) k))) as (m & Hm & _).
    { intros n i Hn. by apply (tok_applied _ _ (Hok k) n). }
    exists m. rewrite <- Ha. split; [exact Hm|]. intros spn Hspn. by apply (Hepm k).
Qed.

(** One run of the timer that removes drained real servers. *)
Definition drain (qw qw' : rsList * W) : Prop := tryDeleteRs qw.2 qw.1 = (qw'.2, qw'.1).

(** The kernel was last synced with the maps of the proxier, and since then only drained. *)
Definition last_sync (p : Proxier) (w : W) : Prop :=
  ∃ p0 w0 p1 w1, px_initialized p0 = true ∧ syncProxyRules p0 w0 = Ret (p1, w1) ∧
    px_svcPortMap p = px_svcPortMap p1 ∧ px_endpointsMap p = px_endpointsMap p1 ∧
    rtc drain (px_rsList p1, w1) (px_rsList p, w).

(** A goroutine that will sync, or will ask for a sync if the proxier is initialized. *)
Definition is_sync (a : action) : bool := match a with SyncRules => true | _ => false end.
Definition owes (th : thread) : bool :=
  existsb is_sync (th_todo th) || match th_todo th with CheckInitialized :: _ => th_changed th | _ => false end.
Definition owed (y : System) : Prop := y_requested y = true ∨ ∃ t, owes (y_threads y t) = true.

(** What the listener of an informer has told the proxier, and what it has still to tell. *)
Inductive imports_at (ims : gmap NamespacedName ServiceImport) (th : thread) (m : gmap NamespacedName ServiceImport) : Prop :=
  | imports_told : th_todo th = [] ∨ th_todo th = [CheckInitialized] → m = ims → imports_at ims th m
  | imports_due nn cur : th_todo th = [TrackImport (ims !! nn) cur; CheckInitialized] →
      (∀ nn' si, m !! nn' = Some si → si_nn si = nn') → m !! nn = cur → (∀ nn', nn' ≠ nn → m !! nn' = ims !! nn') →
      (cur = None → is_Some (ims !! nn)) → imports_at ims th m.
Inductive slices_at (ss : gmap NamespacedName EndpointSlice) (th : thread) (m : gmap NamespacedName EndpointSlice) : Prop :=
  | slices_told : th_todo th = [] ∨ th_todo th = [CheckInitialized] → m = ss → slices_at ss th m
  | slices_due s rm : th_todo th = [TrackSlice s rm; CheckInitialized] → slice_wf s → slices_ok m →
      (∀ k, slices_of m k = latest_step k (slices_of ss k) (PSlice s rm)) → slices_at ss th m.

Lemma import_delivered ims ss p n m : seen ims ss p → import_informer ims n m →
  imports_at ims (mkThread false (notify (NewServiceImportConfig import_config) n)) m.
Proof.
  intros [[Hk _ _] _ _ _ _] Hn. cbn [ss_latest] in Hk. assert (Hset : ∀ si, ∀ nn' si', <[si_nn si:=si]> ims !! nn' = Some si' → si_nn si' = nn').
  { intros si nn' si' [[<- <-]|[_ ?]]%lookup_insert_Some; [done|by apply Hk]. }
  assert (Hdel : ∀ nn, ∀ nn' si', delete nn ims !! nn' = Some si' → si_nn si' = nn').
  { intros nn nn' si' [_ ?]%lookup_delete_Some. by apply Hk. }
  destruct Hn as [si E|old si E|si E|si key E].
  - apply (imports_due _ _ _ (si_nn si) (Some si)); [by rewrite E|apply Hset|apply lookup_insert_eq| |done]. intros. by rewrite lookup_insert_ne.
  - apply (imports_due _ _ _ (si_nn si) (Some si)); [by rewrite E|apply Hset|apply lookup_insert_eq| |done]. intros. by rewrite lookup_insert_ne.
  - apply (imports_due _ _ _ (si_nn si) None); [by rewrite E|apply Hdel|apply lookup_delete_eq| |by rewrite E]. intros. by rewrite lookup_delete_ne.
  - apply (imports_due _ _ _ (si_nn si) None); [by rewrite E|apply Hdel|apply lookup_delete_eq| |by rewrite E]. intros. by rewrite lookup_delete_ne.
Qed.

Lemma slice_delivered ims ss p n m : seen ims ss p → slice_informer ss n m →
  slices_at ss (mkThread false (notify (NewEndpointSliceConfig slice_config) n)) m.
Proof.
  intros [_ Hok _ _ _] Hn. destruct Hn as [s Hs E|old s Hs E Hk|s E|s key E].
  - apply (slices_due _ _ _ s false); [done|done|by apply slices_ok_insert|]. intros k. apply slices_of_insert; [done..|]. intros ? Ho. by rewrite E in Ho.
  - apply (slices_due _ _ _ s false); [done|done|by apply slices_ok_insert|]. intros k. apply slices_of_insert; [done..|]. intros ? Ho. rewrite E in Ho. by injection Ho as <-.
  - apply (slices_due _ _ _ s true); [done|by apply (Hok _ _ E)|by apply slices_ok_delete|]. intros k. by apply slices_of_delete.
  - apply (slices_due _ _ _ s true); [done|by apply (Hok _ _ E)|by apply slices_ok_delete|]. intros k. by apply slices_of_delete.
Qed.

(** The goroutines of the two [Run]s and of the sync loop. *)
Definition runs_ok (f : tid → thread) : Prop :=
  th_todo (f ImportRun) ∈ [[]; [SyncRules]; [SetImportsSynced; SyncRules]] ∧
  th_todo (f SliceRun) ∈ [[]; [SyncRules]; [SetSlicesSynced; SyncRules]] ∧
  th_todo (f SyncLoop) ∈ [[]; [SyncRules]].

Definition fresh (y : System) : Prop :=
  px_initialized (y_p y) = true → owed y ∨ (clean (y_p y) ∧ last_sync (y_p y) (y_w y)).

Definition sys_inv (y : System) : Prop :=
  ∃ ims ss, seen ims ss (y_p y) ∧ imports_at ims (y_threads y ImportListener) (y_imports y) ∧
    slices_at ss (y_threads y SliceListener) (y_slices y) ∧ runs_ok (y_threads y) ∧ fresh y.

Lemma owed_change y t th p w r i s : owed y → (owes (y_threads y t) = true → owes th = true ∨ r = true) →
  (y_requested y = true → r = true) → owed (mkSys p w r (<[t := th]> (y_threads y)) i s).
Proof.
  intros [Hr|[t' Ht]] Hth Hreq; [left; by apply Hreq|]. destruct (decide (t = t')) as [<-|Hne].
  - destruct (Hth Ht) as [Ho|Ho]; [right; exists t; cbn; by rewrite fn_lookup_insert|by left].
  - right. exists t'. cbn. by rewrite fn_lookup_insert_ne.
Qed.
Lemma owed_thread p w r f t th i s : owes th = true → owed (mkSys p w r (<[t := th]> f) i s).
Proof. intros Ho. right. exists t. cbn. by rewrite fn_lookup_insert. Qed.
Lemma idle_owes y t : idle y t → owes (y_threads y t) = false.
Proof. unfold idle, owes. by intros ->. Qed.

(** Two proxiers with the same trackers' verdict, maps and real servers to drain. *)
Lemma last_sync_same p p' w : px_svcPortMap p' = px_svcPortMap p → px_endpointsMap p' = px_endpointsMap p →
  px_rsList p' = px_rsList p → last_sync p w → last_sync p' w.
Proof. intros E1 E2 E3 (p0 & w0 & p1 & w1 & Hs). exists p0, w0, p1, w1. by rewrite E1, E2, E3. Qed.

(** *** An idle goroutine is given its actions *)
Lemma start_fresh y t l i s : idle y t → fresh y →
  fresh (mkSys (y_p y) (y_w y) (y_requested y) (<[t := mkThread false l]> (y_threads y)) i s).
Proof.
  intros Hi Hf Hp. destruct (Hf Hp) as [Ho|Hc]; [left|by right]. apply (owed_change y); [done| |done]. by rewrite (idle_owes _ _ Hi).
Qed.

(** *** The actions *)
Lemma exec_track_import y c ims ss nn cur rest (th := mkThread c (TrackImport (ims !! nn) cur :: rest)) c' p' w' r' :
  y_threads y ImportListener = th → rest = [CheckInitialized] → seen ims ss (y_p y) → fresh y →
  (∀ nn' si, y_imports y !! nn' = Some si → si_nn si = nn') → y_imports y !! nn = cur →
  (∀ nn', nn' ≠ nn → y_imports y !! nn' = ims !! nn') → (cur = None → is_Some (ims !! nn)) →
  exec (TrackImport (ims !! nn) cur) c (y_p y) (y_w y) (y_requested y) = Ret (c', p', w', r') →
  seen (y_imports y) ss p' ∧ fresh (mkSys p' w' r' (<[ImportListener := mkThread c' rest]> (y_threads y)) (y_imports y) (y_slices y)).
Proof.
  intros Ht -> Hs Hf K1 K2 K3 K4 E. destruct (track_import ims ss (y_p y) nn cur (y_imports y)) as (sct & b & E' & Hs' & Hc); [done..|].
  cbn [exec] in E. rewrite E' in E. cbn [mbind outcome_bind] in E. injection E as <- <- <- <-. split; [done|].
  intros Hp. destruct b; [left; by apply owed_thread|]. destruct (Hf Hp) as [Ho|[Hcl Hl]].
  - left. apply (owed_change y); [done| |done]. by rewrite Ht.
  - right. split; [by apply Hc|]. by apply (last_sync_same (y_p y)).
Qed.

Lemma exec_track_slice y c ims ss s rm rest (th := mkThread c (TrackSlice s rm :: rest)) c' p' w' r' :
  y_threads y SliceListener = th → rest = [CheckInitialized] → seen ims ss (y_p y) → fresh y → slice_wf s → slices_ok (y_slices y) →
  (∀ k, slices_of (y_slices y) k = latest_step k (slices_of ss k) (PSlice s rm)) →
  exec (TrackSlice s rm) c (y_p y) (y_w y) (y_requested y) = Ret (c', p', w', r') →
  seen ims (y_slices y) p' ∧ fresh (mkSys p' w' r' (<[SliceListener := mkThread c' rest]> (y_threads y)) (y_imports y) (y_slices y)).
Proof.
  intros Ht -> Hs Hf K1 K2 K3 E. destruct (track_slice ims ss (y_p y) s rm (y_slices y)) as (ect & b & E' & Hs' & Hc); [done..|].
  cbn [exec] in E. rewrite E' in E. cbn [mbind outcome_bind] in E. injection E as <- <- <- <-. split; [done|].
  intros Hp. destruct b; [left; by apply owed_thread|]. destruct (Hf Hp) as [Ho|[Hcl Hl]].
  - left. apply (owed_change y); [done| |done]. by rewrite Ht.
  - right. split; [by apply Hc|]. by apply (last_sync_same (y_p y)).
Qed.

Lemma exec_check y t c ims ss c' p' w' r' : y_threads y t = mkThread c [CheckInitialized] → seen ims ss (y_p y) → fresh y →
  exec CheckInitialized c (y_p y) (y_w y) (y_requested y) = Ret (c', p', w', r') →
  seen ims ss p' ∧ fresh (mkSys p' w' r' (<[t := mkThread c' []]> (y_threads y)) (y_imports y) (y_slices y)).
Proof.
  intros Ht Hs Hf E. cbn in E. injection E as <- <- <- <-. split; [done|]. intros Hp. cbn in Hp.
  destruct (Hf Hp) as [Ho|Hc]; [left|by right]. apply (owed_change y); [done| |by intros ->].
  rewrite Ht. unfold owes. cbn. intros ->. right. by rewrite Hp, orb_true_r.
Qed.

Lemma exec_set y t c ims ss a c' p' w' r' : a = SetImportsSynced ∨ a = SetSlicesSynced → seen ims ss (y_p y) →
  exec a c (y_p y) (y_w y) (y_requested y) = Ret (c', p', w', r') →
  seen ims ss p' ∧ fresh (mkSys p' w' r' (<[t := mkThread c' [SyncRules]]> (y_threads y)) (y_imports y) (y_slices y)).
Proof.
  intros Ha [S1 S2 S3 S4 S5] E.
  assert (∃ v sl im, p' = setInitialized (y_p y) v sl im ∧ v = sl && im ∧ c' = c) as (v & sl & im & -> & Hv & ->).
  { destruct Ha as [-> | ->]; injection E as <- <- _ _; do 3 eexists; split; [done| |done|]; [by rewrite andb_true_r|done]. }
  split; [by constructor|]. intros _. left. by apply owed_thread.
Qed.

Lemma exec_sync y t c ims ss c' p' w' r' : y_threads y t = mkThread c [SyncRules] → seen ims ss (y_p y) →
  exec SyncRules c (y_p y) (y_w y) (y_requested y) = Ret (c', p', w', r') →
  seen ims ss p' ∧ fresh (mkSys p' w' r' (<[t := mkThread c' []]> (y_threads y)) (y_imports y) (y_slices y)).
Proof.
  intros Ht Hs E. cbn [exec] in E. apply bind_Ret in E as ([p1 w1] & E1 & [= <- <- <- <-]).
  destruct (px_initialized (y_p y)) eqn:Hp.
  - destruct (sync_seen _ _ _ _ _ _ Hp E1 Hs) as (Hs' & Hc & _). split; [done|]. intros _. right. split; [done|].
    by exists (y_p y), (y_w y), p1, w1.
  - unfold syncProxyRules in E1. rewrite Hp in E1. injection E1 as <- <-. split; [done|]. intros Hp'. cbn in Hp'. congruence.
Qed.

Lemma drain_inv y w' q' : tryDeleteRs (y_w y) (px_rsList (y_p y)) = (w', q') → fresh y →
  fresh (mkSys (with_list q' (px_noLocalInternal (y_p y)) (px_noLocalExternal (y_p y)) (y_p y)) w' (y_requested y)
           (y_threads y) (y_imports y) (y_slices y)).
Proof.
  intros E Hf Hp. destruct (Hf Hp) as [Ho|[Hc (p0 & w0 & p1 & w1 & K1 & K2 & K3 & K4 & K5)]]; [by left|right]. split; [done|].
  exists p0, w0, p1, w1. split_and!; [done..|]. by eapply rtc_r; [exact K5|].
Qed.

(** A goroutine other than the two listeners has moved on. *)
Lemma sys_inv_runs y t c rest p w r ims ss : t ≠ ImportListener → t ≠ SliceListener →
  imports_at ims (y_threads y ImportListener) (y_imports y) → slices_at ss (y_threads y SliceListener) (y_slices y) →
  runs_ok (<[t := mkThread c rest]> (y_threads y)) →
  seen ims ss p ∧ fresh (mkSys p w r (<[t := mkThread c rest]> (y_threads y)) (y_imports y) (y_slices y)) →
  sys_inv (mkSys p w r (<[t := mkThread c rest]> (y_threads y)) (y_imports y) (y_slices y)).
Proof. intros N1 N2 Hi Hl Hr [Hs Hf]. exists ims, ss. cbn. by rewrite !fn_lookup_insert_ne. Qed.

Lemma runs_ok_other f t th : t = ImportListener ∨ t = SliceListener → runs_ok f → runs_ok (<[t := th]> f).
Proof. intros Ht. unfold runs_ok. by destruct Ht as [-> | ->]; rewrite !fn_lookup_insert_ne. Qed.

Lemma exec_inv_listener y t c a rest c' p' w' r' : t = ImportListener ∨ t = SliceListener →
  sys_inv y → y_threads y t = mkThread c (a :: rest) → exec a c (y_p y) (y_w y) (y_requested y) = Ret (c', p', w', r') →
  sys_inv (mkSys p' w' r' (<[t := mkThread c' rest]> (y_threads y)) (y_imports y) (y_slices y)).
Proof.
  intros Ht (ims & ss & Hs & Hi & Hl & Hr & Hf) Hth E. assert (Hr' := runs_ok_other _ t (mkThread c' rest) Ht Hr).
  destruct Ht as [-> | ->].
  - assert (Hat : seen (y_imports y) ss p' ∧ fresh (mkSys p' w' r' (<[ImportListener := mkThread c' rest]> (y_threads y)) (y_imports y) (y_slices y)) ∧
      (rest = [] ∨ rest = [CheckInitialized])).
    { destruct Hi as [[Hn|Hn] Hm|nn cur Hn K1 K2 K3 K4]; rewrite Hth in Hn; cbn in Hn; [done| |]; injection Hn as -> ->.
      - rewrite Hm. destruct (exec_check y ImportListener c ims ss c' p' w' r') as [? Hf']; [done..|]. rewrite Hm in Hf'. auto.
      - destruct (exec_track_import y c ims ss nn cur [CheckInitialized] c' p' w' r') as [? ?]; auto. }
    destruct Hat as (Hs' & Hf' & Ho). exists (y_imports y), ss. cbn. rewrite fn_lookup_insert, fn_lookup_insert_ne by done.
    split_and!; try done. by apply imports_told.
  - assert (Hat : seen ims (y_slices y) p' ∧ fresh (mkSys p' w' r' (<[SliceListener := mkThread c' rest]> (y_threads y)) (y_imports y) (y_slices y)) ∧
      (rest = [] ∨ rest = [CheckInitialized])).
    { destruct Hl as [[Hn|Hn] Hm|s rm Hn K1 K2 K3]; rewrite Hth in Hn; cbn in Hn; [done| |]; injection Hn as -> ->.
      - rewrite Hm. destruct (exec_check y SliceListener c ims ss c' p' w' r') as [? Hf']; [done..|]. rewrite Hm in Hf'. auto.
      - destruct (exec_track_slice y c ims ss s rm [CheckInitialized] c' p' w' r') as [? ?]; auto. }
    destruct Hat as (Hs' & Hf' & Ho). exists ims, (y_slices y). cbn. rewrite fn_lookup_insert, fn_lookup_insert_ne by done.
    split_and!; try done. by apply slices_told.
Qed.

(** The actions left of a goroutine that runs a [Synced] handler or the loop. *)
Lemma run_todo a rest (b : action) : a :: rest ∈ [[]; [SyncRules]; [b; SyncRules]] →
  (a = SyncRules ∧ rest = []) ∨ (a = b ∧ rest = [SyncRules]).
Proof. rewrite !elem_of_cons, elem_of_nil. naive_solver. Qed.

Lemma exec_inv_run y t b c a rest c' p' w' r' : t ≠ ImportListener → t ≠ SliceListener →
  b = SetImportsSynced ∨ b = SetSlicesSynced → (a = SyncRules ∧ rest = []) ∨ (a = b ∧ rest = [SyncRules]) →
  runs_ok (<[t := mkThread c' rest]> (y_threads y)) →
  sys_inv y → y_threads y t = mkThread c (a :: rest) → exec a c (y_p y) (y_w y) (y_requested y) = Ret (c', p', w', r') →
  sys_inv (mkSys p' w' r' (<[t := mkThread c' rest]> (y_threads y)) (y_imports y) (y_slices y)).
Proof.
  intros N1 N2 Hb Ha Hr' (ims & ss & Hs & Hi & Hl & Hr & Hf) Hth E. apply (sys_inv_runs y t c' rest p' w' r' ims ss); try done.
  destruct Ha as [[-> ->]|[-> ->]]; [by eapply exec_sync|by eapply exec_set].
Qed.

Lemma exec_inv y t c a rest c' p' w' r' :
  sys_inv y → y_threads y t = mkThread c (a :: rest) → exec a c (y_p y) (y_w y) (y_requested y) = Ret (c', p', w', r') →
  sys_inv (mkSys p' w' r' (<[t := mkThread c' rest]> (y_threads y)) (y_imports y) (y_slices y)).
Proof.
  intros Hinv Hth E. assert (Hr : runs_ok (y_threads y)) by (by destruct Hinv as (? & ? & _ & _ & _ & ? & _)). destruct Hr as (R1 & R2 & R3).
  destruct t; [by eapply exec_inv_listener; [by left|..]|by eapply exec_inv_listener; [by right|..]|..].
  - rewrite Hth in R1. apply run_todo in R1. eapply (exec_inv_run y ImportRun SetImportsSynced); try done; [by left|].
    unfold runs_ok. rewrite fn_lookup_insert, !fn_lookup_insert_ne by done. split_and!; [|done..]. destruct R1 as [[-> ->]|[-> ->]]; set_solver.
  - rewrite Hth in R2. apply run_todo in R2. eapply (exec_inv_run y SliceRun SetSlicesSynced); try done; [by right|].
    unfold runs_ok. rewrite fn_lookup_insert, !fn_lookup_insert_ne by done. split_and!; [done| |done]. destruct R2 as [[-> ->]|[-> ->]]; set_solver.
  - rewrite Hth in R3. cbn in R3. apply elem_of_cons in R3 as [[=]|R3]. apply list_elem_of_singleton in R3 as [= -> ->].
    eapply (exec_inv_run y SyncLoop SetSlicesSynced); try done; [by right|by left|].
    unfold runs_ok. rewrite fn_lookup_insert, !fn_lookup_insert_ne by done. split_and!; [done|done|]. set_solver.
Qed.

Lemma step_inv y y' : step y y' → sys_inv y → sys_inv y'.
Proof.
  intros Hst Hinv. pose proof Hinv as (ims & ss & Hs & Hi & Hl & Hr & Hf).
  destruct Hst as [y n m Hid Hn|y n m Hid Hn|y Hid|y Hid|y Hid|y t c a rest c' p' w' r' Hth E|y w' q' E].
  - destruct Hi as [_ Hm|? ? Hm]; [|by rewrite Hid in Hm]. rewrite Hm in Hn. exists ims, ss. cbn. rewrite fn_lookup_insert, fn_lookup_insert_ne by done.
    split_and!; [done|by eapply import_delivered|done|apply runs_ok_other; auto|]. by apply (start_fresh y).
  - destruct Hl as [_ Hm|? ? Hm]; [|by rewrite Hid in Hm]. rewrite Hm in Hn. exists ims, ss. cbn. rewrite fn_lookup_insert, fn_lookup_insert_ne by done.
    split_and!; [done|done|by eapply slice_delivered|apply runs_ok_other; auto|]. by apply (start_fresh y).
  - destruct Hr as (R1 & R2 & R3). apply (sys_inv_runs y _ _ _ _ _ _ ims ss); try done; [|split; [done|by apply start_fresh]].
    unfold runs_ok. rewrite fn_lookup_insert, !fn_lookup_insert_ne by done. split_and!; [|done..]. cbn. set_solver.
  - destruct Hr as (R1 & R2 & R3). apply (sys_inv_runs y _ _ _ _ _ _ ims ss); try done; [|split; [done|by apply start_fresh]].
    unfold runs_ok. rewrite fn_lookup_insert, !fn_lookup_insert_ne by done. split_and!; [done| |done]. cbn. set_solver.
  - destruct Hr as (R1 & R2 & R3). apply (sys_inv_runs y _ _ _ _ _ _ ims ss); try done; [|split; [done|]].
    + unfold runs_ok. rewrite fn_lookup_insert, !fn_lookup_insert_ne by done. split_and!; [done|done|]. cbn. set_solver.
    + intros _. left. by apply owed_thread.
  - by eapply exec_inv.
  - exists ims, ss. cbn. split_and!; [|done..|by apply drain_inv]. by apply (seen_input ims ss (y_p y)).
Qed.
End system.

Section claims.
Context `{GoRuntime} {W : Type} `{ServiceLib} `{ProxyLib} `{NetutilsLib} `{IpvsLib} `{KernelOps W}.
Context (owner : NamespacedName → NamespacedName).

Lemma reachable_inv family host scheduler cidrs now w y :
  rtc (step owner) (system_start family host scheduler cidrs now w) y → sys_inv owner (NewEndpointSliceCache host family) y.
Proof.
  assert (Hrun : ∀ y1 y2, rtc (step owner) y1 y2 → sys_inv owner (NewEndpointSliceCache host family) y1 →
    sys_inv owner (NewEndpointSliceCache host family) y2).
  { induction 1 as [|y1 y2 y3 Hst _ IH]; [done|]. intros Hi. eapply IH, step_inv; done. }
  intros Hr. apply (Hrun _ _ Hr). clear Hr.
  exists ∅, ∅. cbn. split; [|split_and!; [apply imports_told; auto|apply slices_told; auto|unfold runs_ok; set_solver|done]].
  constructor; cbn; [|done| |done|done].
  - constructor; cbn; [done| |done]. intros nn _ spn _. by rewrite !lookup_empty.
  - exists []. split; [apply proxy_inv_init|]. intros k. by apply map_eq.
Qed.

(** What holds when nothing is left to do. *)
Lemma quiet_maps family host scheduler cidrs now w y :
  rtc (step owner) (system_start family host scheduler cidrs now w) y → quiet y →
  px_endpointSlicesSynced (y_p y) = true → px_servicesImportSynced (y_p y) = true →
  slices_ok owner (y_slices y) ∧
  (∀ spn, px_svcPortMap (y_p y) !! spn = default ∅ (service_map (y_imports y !! spn_nn spn)) !! spn) ∧
  (∀ spn l, px_endpointsMap (y_p y) !! spn = Some l → ∃ k m, owner k = spn_nn spn ∧
     getEndpointsMap (NewEndpointSliceCache host family) (slices_of (y_slices y) k) = Ret m ∧ m !! spn = Some l) ∧
  (∀ k, sole owner k → ∃ m, getEndpointsMap (NewEndpointSliceCache host family) (slices_of (y_slices y) k) = Ret m ∧
     ∀ spn, spn_nn spn = owner k → px_endpointsMap (y_p y) !! spn = m !! spn) ∧
  last_sync (y_p y) (y_w y).
Proof.
  intros Hr [Hq Hid] F1 F2. destruct (reachable_inv _ _ _ _ _ _ _ Hr) as (ims & ss & Hs & Hi & Hl & _ & Hf).
  assert (Hp : px_initialized (y_p y) = true) by (by rewrite (seen_flag _ _ _ _ _ Hs), F1, F2).
  destruct (Hf Hp) as [[Ho|[t Ht]]|[Hc Hls]]; [congruence|by rewrite (idle_owes _ _ (Hid t)) in Ht|].
  destruct Hi as [_ ->|? ? Hn]; [|by rewrite (Hid ImportListener) in Hn]. destruct Hl as [_ ->|? ? Hn]; [|by rewrite (Hid SliceListener) in Hn].
  destruct (clean_maps _ _ _ _ _ Hs Hc) as (Hm1 & Hm2 & Hm3). split; [exact (seen_ok _ _ _ _ _ Hs)|done].
Qed.

(** C8: no notification is lost.  Whatever the informers notify of imports and well-formed slices (additions,
    updates, deletions, tombstones of missed deletions) and however their goroutines, the two
    [Run]s, the sync loop and the timer of the graceful terminations interleave: when
    nothing is left to do and both informers have synced, the proxier's service ports
    are those of the imports notified; every entry of its endpoint map is what the slices notified under one label of its service
    say, and a service with a single label has exactly the endpoints of all its slices; and the
    kernel is as a sync with these maps left it, but for real servers drained since. *)
Theorem notifications_reach_the_kernel family host scheduler cidrs now w y :
  rtc (step owner) (system_start family host scheduler cidrs now w) y → quiet y →
  px_endpointSlicesSynced (y_p y) = true → px_servicesImportSynced (y_p y) = true →
  (∀ spn, px_svcPortMap (y_p y) !! spn = default ∅ (service_map (y_imports y !! spn_nn spn)) !! spn) ∧
  (∀ spn l, px_endpointsMap (y_p y) !! spn = Some l → ∃ k m, owner k = spn_nn spn ∧
     getEndpointsMap (NewEndpointSliceCache host family) (slices_of (y_slices y) k) = Ret m ∧ m !! spn = Some l) ∧
  (∀ k, sole owner k → ∃ m, getEndpointsMap (NewEndpointSliceCache host family) (slices_of (y_slices y) k) = Ret m ∧
     ∀ spn, spn_nn spn = owner k → px_endpointsMap (y_p y) !! spn = m !! spn) ∧
  last_sync (y_p y) (y_w y).
Proof. intros Hr Hq F1 F2. by apply (quiet_maps _ _ _ _ _ _ _ Hr Hq F1 F2). Qed.

(** Topology hints are never followed: no informer of nodes is set up, so the proxier never
    learns the labels of its node, and the hints of the endpoints are ignored for every
    service. *)
Theorem hints_never_used family host scheduler cidrs now w y endpoints info :
  rtc (step owner) (system_start family host scheduler cidrs now w) y →
  canUseTopology endpoints info (px_nodeLabels (y_p y)) = false.
Proof.
  intros Hr. destruct (reachable_inv _ _ _ _ _ _ _ Hr) as (ims & ss & Hs & _). rewrite (seen_labels _ _ _ _ _ Hs).
  unfold canUseTopology. repeat case_match; done.
Qed.
End claims.

(** ** A run

    An import and a slice are notified before the two informers have synced; the
    last of them to sync starts the first sync of the rules. *)
Section demo.
#[local] Existing Instances list_runtime demo_ipvslib demo_kernel demo_ipvsnames demo_laws demo_reliable demo_proxylib demo_servicelib demo_netutils.

(** The next action of a goroutine, where it has one. *)
Definition act (t : tid) (y : System) : System :=
  match y_threads y t with
  | mkThread c (a :: rest) =>
      match exec a c (y_p y) (y_w y) (y_requested y) with
      | Ret (c', p', w', r') => mkSys p' w' r' (<[t := mkThread c' rest]> (y_threads y)) (y_imports y) (y_slices y)
      | _ => y
      end
  | mkThread _ [] => y
  end.

Lemma act_step owner t y z : rtc (step owner) (act t y) z → rtc (step owner) y z.
Proof.
  unfold act. destruct (y_threads y t) as [c [|a rest]] eqn:Ht; [done|].
  destruct (exec a c (y_p y) (y_w y) (y_requested y)) as [[[[c' p'] w'] r']| | |] eqn:E; [|done..].
  intros Hr. eapply rtc_l; [|exact Hr]. by eapply step_exec.
Qed.

Definition demo_y0 : System := system_start "IPv4" "node" EmptyString [] 0 demo_kworld0.
Definition demo_y1 : System :=
  set_imports (<[si_nn demo_import := demo_import]> (y_imports demo_y0))
    (start ImportListener (notify (NewServiceImportConfig import_config) (Added (ObjServiceImport demo_import))) demo_y0).
Definition demo_y2 : System := act ImportListener (act ImportListener demo_y1).
Definition demo_y3 (s : EndpointSlice) : System :=
  set_slices (<[slice_id s := s]> (y_slices demo_y2))
    (start SliceListener (notify (NewEndpointSliceConfig slice_config) (Added (ObjEndpointSlice s))) demo_y2).
Definition demo_y4 (s : EndpointSlice) : System := act SliceListener (act SliceListener (demo_y3 s)).
Definition demo_y5 (s : EndpointSlice) : System := start ImportRun (ServiceImportConfig_Run true import_config) (demo_y4 s).
Definition demo_y6 (s : EndpointSlice) : System := act ImportRun (act ImportRun (demo_y5 s)).
Definition demo_y7 (s : EndpointSlice) : System := start SliceRun (EndpointSliceConfig_Run true slice_config) (demo_y6 s).
Definition demo_y8 (s : EndpointSlice) : System := act SliceRun (act SliceRun (demo_y7 s)).

Lemma act_twice owner t y : rtc (step owner) y (act t (act t y)).
Proof. apply (act_step _ t), (act_step _ t), rtc_refl. Qed.
Lemma start_slices {W} t l (y : @System W) : y_slices (start t l y) = y_slices y.
Proof. done. Qed.
Lemma act_slices t y : y_slices (act t y) = y_slices y.
Proof. unfold act. by repeat case_match. Qed.

Lemma demo_run owner s : slice_wf owner s → idle (demo_y4 s) ImportRun → idle (demo_y6 s) SliceRun → rtc (step owner) demo_y0 (demo_y8 s).
Proof.
  intros Hs H4 H6.
  assert (R1 : rtc (step owner) demo_y0 demo_y1).
  { apply rtc_once, step_import; [vm_compute; reflexivity|]. apply import_added. vm_compute. reflexivity. }
  assert (R3 : rtc (step owner) demo_y2 (demo_y3 s)).
  { apply rtc_once, step_slice; [vm_compute; reflexivity|]. apply slice_added; [exact Hs|]. apply lookup_empty. }
  assert (R5 : rtc (step owner) (demo_y4 s) (demo_y5 s)) by (by apply rtc_once, step_import_run).
  assert (R7 : rtc (step owner) (demo_y6 s) (demo_y7 s)) by (by apply rtc_once, step_slice_run).
  assert (R2 : rtc (step owner) demo_y1 demo_y2) by apply act_twice.
  assert (R4 : rtc (step owner) (demo_y3 s) (demo_y4 s)) by apply act_twice.
  assert (R6 : rtc (step owner) (demo_y5 s) (demo_y6 s)) by apply act_twice.
  assert (R8 : rtc (step owner) (demo_y7 s) (demo_y8 s)) by apply act_twice.
  etrans; [exact R1|]. etrans; [exact R2|]. etrans; [exact R3|]. etrans; [exact R4|].
  etrans; [exact R5|]. etrans; [exact R6|]. etrans; [exact R7|exact R8].
Qed.

Lemma demo_y8_slices s : y_slices (demo_y8 s) = {[slice_id s := s]}.
Proof.
  assert (E2 : y_slices demo_y2 = ∅) by (vm_compute; reflexivity).
  assert (E3 : y_slices (demo_y3 s) = {[slice_id s := s]}) by (unfold demo_y3; cbn [set_slices y_slices]; by rewrite E2).
  assert (E4 : y_slices (demo_y4 s) = y_slices (demo_y3 s)) by (unfold demo_y4; by rewrite !act_slices).
  assert (E6 : y_slices (demo_y6 s) = y_slices (demo_y4 s)) by (unfold demo_y6, demo_y5; rewrite !act_slices; apply start_slices).
  assert (E8 : y_slices (demo_y8 s) = y_slices (demo_y6 s)) by (unfold demo_y8, demo_y7; rewrite !act_slices; apply start_slices).
  by rewrite E8, E6, E4.
Qed.

Definition demo_slice : EndpointSlice := demo_export "c1" "10.1.0.1".

Lemma demo_quiet : quiet (demo_y8 demo_slice).
Proof. split; [vm_compute; reflexivity|]. intros []; vm_compute; reflexivity. Qed.

Lemma notifications_reach_the_kernel_witness :
  bool_decide (is_Some (px_svcPortMap (y_p (demo_y8 demo_slice)) !! demo_spn)) = true ∧
  (∀ spn, px_svcPortMap (y_p (demo_y8 demo_slice)) !! spn = default ∅ (service_map (y_imports (demo_y8 demo_slice) !! spn_nn spn)) !! spn) ∧
  last_sync (y_p (demo_y8 demo_slice)) (y_w (demo_y8 demo_slice)).
Proof.
  split; [vm_compute; reflexivity|].
  destruct (notifications_reach_the_kernel demo_owner "IPv4" "node" EmptyString [] 0 demo_kworld0 (demo_y8 demo_slice)) as (E1 & _ & _ & E3).
  - apply demo_run; [split|..]; vm_compute; reflexivity.
  - exact demo_quiet.
  - vm_compute. reflexivity.
  - vm_compute. reflexivity.
  - split; [exact E1|exact E3].
Defined.
End demo.
