(* ===== verification/Utils.v ===== *)
(** * Shared utilities

    [utils/slice.go], [utils/utils.go], [utils/pod.go], [utils/deploy.go] and the
    pod helpers of [utils/netutil.go].  SHA-256 with base32, the JSON patch
    library, the environment and the pod lister are parameters. *)
From Stdlib Require Import Ascii.
From stdpp Require Import prelude gmap strings list.
From S2P Require Import Prelude NetAddr K8s ProxyEndpoints HostPort.
Open Scope Z_scope.

(** ** [utils/slice.go] *)
Definition CopyStrings (s : option (list string)) : option (list string) := s.
Definition SortStrings `{GoRuntime} (s : list string) : list string := sort_strings s.
Definition ContainsString (slice : list string) (s : string) : bool := existsb (λ item, bool_decide (item = s)) slice.
Definition ContainsPrefix (slice : list string) (s : string) : bool := existsb (λ item, String.prefix item s) slice.
Definition RemoveString (slice : list string) (s : string) : list string := filter (λ item, item ≠ s) slice.
Definition MaxInt (a b : Z) : Z := if b <? a then a else b.
Definition MinInt (a b : Z) : Z := if a <? b then a else b.
Definition SumArrayInt32 (array : list Z) : Z := foldl (λ sum v, wrap32 (sum + v)) 0 array.

(** The first ten characters of the lower-case base32 of the SHA-256. *)
Class HashLib := { hash10 : string → string }.
Definition DerivedName `{HashLib} (clusterID namespace seName : string) : string :=
  "derived" +:+ "-" +:+ clusterID +:+ "-" +:+ namespace +:+ "-" +:+ hash10 seName.

(** ** [strings.Split] at a character *)
Fixpoint split_on (c : ascii) (s : string) : list string :=
  match s with
  | EmptyString => [EmptyString]
  | String x s' =>
      if bool_decide (c = x) then EmptyString :: split_on c s'
      else match split_on c s' with
           | [] => [String x EmptyString]
           | f :: rest => String x f :: rest
           end
  end.

(** ** What [client-go] offers

    [cache.SplitMetaNamespaceKey] cuts a key; [retry.RetryOnConflict] runs a
    function and runs it again, as often as its backoff allows, as long as it
    fails with a conflict. *)
Inductive retried {S : Type} (f : S → S * option ApiError) : S → S → option ApiError → Prop :=
  | retried_last s s' r : f s = (s', r) → retried f s s' r
  | retried_conflict s s1 e s' r : f s = (s1, Some e) → IsConflict e = true → retried f s1 s' r → retried f s s' r.

Class ClientGo := {
  SplitMetaNamespaceKey : string → option (string * string);
  RetryOnConflict : ∀ {S : Type}, (S → S * option ApiError) → S → S * option ApiError;
  RetryOnConflict_run : ∀ {S : Type} (f : S → S * option ApiError) s s' r, RetryOnConflict f s = (s', r) → retried f s s' r
}.

(** Four attempts, as in [retry.DefaultBackoff], and keys cut at the slash. *)
Fixpoint demo_retry {S} (steps : nat) (f : S → S * option ApiError) (s : S) : S * option ApiError :=
  match f s with
  | (s, None) => (s, None)
  | (s, Some e) => match steps with
                   | O => (s, Some e)
                   | S steps' => if IsConflict e then demo_retry steps' f s else (s, Some e)
                   end
  end.

Lemma demo_retry_run {S} steps (f : S → S * option ApiError) s s' r : demo_retry steps f s = (s', r) → retried f s s' r.
Proof.
  revert s. induction steps as [|steps IH]; intros s; cbn [demo_retry]; destruct (f s) as [s1 [e|]] eqn:E;
    try (intros [= <- <-]; by apply retried_last).
  destruct (IsConflict e) eqn:He; [|intros [= <- <-]; by apply retried_last]. intros R. by eapply retried_conflict; [..|apply IH].
Qed.

Definition demo_clientgo : ClientGo := {|
  SplitMetaNamespaceKey := λ key, match split_on "/" key with
    | [name] => Some (EmptyString, name) | [namespace; name] => Some (namespace, name) | _ => None end;
  RetryOnConflict := λ S f s, demo_retry 3 f s;
  RetryOnConflict_run := λ S f s s' r, demo_retry_run 3 f s s' r |}.

(** ** [utils/utils.go] *)
Definition isPodStatusPhaseAlive (p : Pod) : bool :=
  negb (bool_decide (pod_Phase p = "Succeeded") && negb (bool_decide (pod_RestartPolicy p = "Always")))
  && negb (bool_decide (pod_Phase p = "Failed") && bool_decide (pod_RestartPolicy p = "Never"))
  && negb (bool_decide (pod_Phase p = "Failed") && bool_decide (pod_Reason p = "Evicted")).
Definition IsPodAlive (p : Pod) : bool :=
  match DeletionTimestamp (pod_meta p) with Some _ => false | None => isPodStatusPhaseAlive p end.

(** The annotations of a pod after [SetSpecificAnnotations]: a value is added to
    the comma-separated list of its key, unless it is there, or replaces it. *)
Fixpoint set_annotations (override : bool) (ann : gmap string string) (kvs : list (string * string)) : gmap string string :=
  match kvs with
  | [] => ann
  | (key, value) :: rest =>
      let ann' := match ann !! key with
                  | Some existing =>
                      if override then <[key := value]> ann
                      else if ContainsString (split_on "," existing) value then ann
                      else <[key := existing +:+ "," +:+ value]> ann
                  | None => <[key := value]> ann
                  end in
      set_annotations override ann' rest
  end.

Definition GetSpecificAnnotation (p : Pod) (keys : list string) : list string :=
  match Annotations (pod_meta p) with
  | None => []
  | Some annotations => keys ≫= λ key, match annotations !! key with Some val => split_on "," val | None => [] end
  end.

(** ** Pod helpers of [utils/netutil.go] *)
Definition GetEth0IP (p : Pod) : string :=
  match filter (λ ip, ip ≠ EmptyString) (pod_PodIPs p) with ip :: _ => ip | [] => EmptyString end.
Definition IsRunningAndHasIP (p : Pod) : bool :=
  bool_decide (pod_Phase p = "Running") && existsb (λ ip, negb (bool_decide (ip = EmptyString))) (pod_PodIPs p).

(** ** [utils/pod.go] *)

(** [strings.Split(arg, "=")[1]] panics without an equals sign. *)
Definition parameter_of (arg : string) : outcome string := index (split_on "=" arg) 1.

Fixpoint find_sub_arg (subArgs : list string) (parameter : string) : option (outcome string) :=
  match subArgs with
  | [] => None
  | subArg :: rest => if String.prefix parameter subArg then Some (parameter_of subArg) else find_sub_arg rest parameter
  end.

Fixpoint getParameterValue (args : list string) (parameter : string) : outcome string :=
  match args with
  | [] => Ret EmptyString
  | arg :: rest =>
      if String.prefix parameter arg then parameter_of arg
      else match (if has_char " " arg then find_sub_arg (split_on " " arg) parameter else None) with
           | Some r => r
           | None => getParameterValue rest parameter
           end
  end.

Class PodFinder := {
  findPods : string → string → outcome (list Pod);
  Getenv : string → string
}.

Fixpoint container_parameter (cs : list Container) (parameter : string) : outcome string :=
  match cs with
  | [] => Ret EmptyString
  | c :: rest =>
      val ← getParameterValue (c_Command c) parameter;
      if negb (bool_decide (val = EmptyString)) then Ret val
      else val ← getParameterValue (c_Args c) parameter;
           if negb (bool_decide (val = EmptyString)) then Ret val else container_parameter rest parameter
  end.

Fixpoint pods_parameter (pods : list Pod) (parameter : string) : outcome string :=
  match pods with
  | [] => Ret EmptyString
  | p :: rest => val ← container_parameter (pod_Containers p) parameter;
                 if negb (bool_decide (val = EmptyString)) then Ret val else pods_parameter rest parameter
  end.

Definition FindPodCommandParameter `{PodFinder} (key value parameter : string) : outcome string :=
  pods ← findPods key value; pods_parameter pods parameter.

(** The nested loops over label values and keys: the first answer or error. *)
Fixpoint first_parameter `{PodFinder} (labels : list (string * string)) (parameter : string) : outcome string :=
  match labels with
  | [] => Ret EmptyString
  | (key, value) :: rest =>
      range ← FindPodCommandParameter key value parameter;
      if negb (bool_decide (range = EmptyString)) then Ret range else first_parameter rest parameter
  end.

Definition ServiceClusterParam : string := "--service-cluster-ip-range".

Definition FindClusterServiceIPRange `{PodFinder} : outcome string :=
  range ← first_parameter [("component", "kube-apiserver"); ("app.kubernetes.io/component", "kube-apiserver");
                           ("component", "kube-controller-manager"); ("app.kubernetes.io/component", "kube-controller-manager")]
            ServiceClusterParam;
  if negb (bool_decide (range = EmptyString)) then Ret range
  else let env := Getenv "SERVICE_CIDR" in
       if negb (bool_decide (env = EmptyString)) then Ret env else Err "can't get service ip range".

Definition FindClusterPodIPRange `{PodFinder} : outcome string :=
  range ← first_parameter [("component", "kube-controller-manager"); ("app.kubernetes.io/component", "kube-controller-manager");
                           ("k8s-app", "kube-proxy")] "--cluster-cidr";
  if negb (bool_decide (range = EmptyString)) then Ret range
  else let env := Getenv "CLUSTER_CIDR" in
       if negb (bool_decide (env = EmptyString)) then Ret env else Err "can't get pod ip range".

(** ** [utils/deploy.go] *)
Record PatchOp := mkPatch { po_Operation : string; po_Path : string }.

Definition fieldsToBeIgnored : list string :=
  ["/metadata/generation"; "/metadata/creationTimestamp"; "/metadata/managedFields"; "/metadata/uid";
   "/metadata/selfLink"; "/metadata/resourceVersion"].
Definition sectionToBeIgnored : list string := ["/status"].
Definition shouldPatchBeIgnored (op : PatchOp) : bool :=
  ContainsString fieldsToBeIgnored (po_Path op) || ContainsPrefix sectionToBeIgnored (po_Path op).

(** One operation decides, or is skipped. *)
Definition patch_counts (ignoreAdd : bool) (op : PatchOp) : bool :=
  negb (shouldPatchBeIgnored op) &&
  (bool_decide (po_Operation op = "add") && negb ignoreAdd
   || bool_decide (po_Operation op = "remove") || bool_decide (po_Operation op = "replace")).

(** [json.Marshal] of both objects and [jsonpatch.CreatePatch]; [None] when one
    of them fails. *)
Class PatchLib (A : Type) := { CreatePatch : A → A → option (list PatchOp) }.

Definition ResourceNeedResync `{PatchLib A} (current modified : A) (ignoreAdd : bool) : bool :=
  match CreatePatch current modified with
  | None => false
  | Some patch => existsb (patch_counts ignoreAdd) patch
  end.

(** ** Annotations with several values *)
Definition values (ann : gmap string string) (key : string) : list string :=
  match ann !! key with Some v => split_on "," v | None => [] end.

Lemma split_on_nil c s : split_on c s ≠ [].
Proof. destruct s as [|x s]; simpl; [done|]. case_bool_decide; [done|]. by destruct (split_on c s). Qed.

Lemma split_on_app c a b : split_on c (a +:+ String c b) = split_on c a ++ split_on c b.
Proof.
  induction a as [|x a IH].
  - change (EmptyString +:+ String c b) with (String c b). cbn. by rewrite bool_decide_eq_true_2.
  - rewrite string_app_cons. cbn [split_on]. rewrite IH. case_bool_decide; [done|].
    destruct (split_on c a) eqn:E; [by apply split_on_nil in E|done].
Qed.

Lemma split_on_none c s : has_char c s = false → split_on c s = [s].
Proof.
  induction s as [|x s IH]; [done|]. cbn [has_char split_on]. rewrite orb_false_iff, bool_decide_eq_false.
  intros [Hx Hs]. rewrite bool_decide_eq_false_2 by done. by rewrite IH.
Qed.

Lemma ContainsString_spec l s : ContainsString l s = true ↔ s ∈ l.
Proof.
  unfold ContainsString. rewrite existsb_exists. split.
  - intros (x & Hin & E%bool_decide_eq_true). subst. by apply list_elem_of_In.
  - intros Hin. exists s. split; [by apply list_elem_of_In|]. by apply bool_decide_eq_true.
Qed.

(** One annotation, added without [override]. *)
Lemma set_annotation_values ann key value k : has_char "," value = false →
  let ann' := set_annotations false ann [(key, value)] in
  values ann' k = values ann k ++ (if decide (k = key ∧ value ∉ values ann key) then [value] else []).
Proof.
  intros Hv ann'. unfold ann', values. cbn [set_annotations]. destruct (ann !! key) as [v|] eqn:Hk.
  - destruct (ContainsString (split_on "," v) value) eqn:Hc.
    + rewrite ContainsString_spec in Hc. rewrite decide_False by tauto. by rewrite app_nil_r.
    + assert (value ∉ split_on "," v) by (rewrite <- ContainsString_spec; congruence).
      destruct (decide (k = key)) as [->|Hne].
      * rewrite lookup_insert_eq, Hk, decide_True by done.
        change (v +:+ "," +:+ value) with (v +:+ String "," value). by rewrite split_on_app, (split_on_none "," value).
      * rewrite lookup_insert_ne, decide_False by naive_solver. by rewrite app_nil_r.
  - destruct (decide (k = key)) as [->|Hne].
    + rewrite lookup_insert_eq, Hk, decide_True, (split_on_none "," value) by (done || (split; [done|]; set_solver)). done.
    + rewrite lookup_insert_ne, decide_False by naive_solver. by rewrite app_nil_r.
Qed.

Lemma set_annotations_cons override ann kv kvs :
  set_annotations override ann (kv :: kvs) = set_annotations override (set_annotations override ann [kv]) kvs.
Proof. by destruct kv. Qed.

Definition plain_values (kvs : list (string * string)) : Prop := Forall (λ kv, has_char "," (snd kv) = false) kvs.

Lemma set_annotations_mono ann kvs : plain_values kvs →
  (∀ k, values ann k `prefix_of` values (set_annotations false ann kvs) k) ∧
  (∀ k v, (k, v) ∈ kvs → v ∈ values (set_annotations false ann kvs) k).
Proof.
  revert ann. induction kvs as [|[key value] kvs IH]; intros ann Hkvs.
  { split; [done|by intros k v ?%elem_of_nil]. }
  apply Forall_cons in Hkvs as [Hv Hkvs]. simpl in Hv. rewrite set_annotations_cons.
  destruct (IH (set_annotations false ann [(key, value)]) Hkvs) as [I1 I2].
  pose proof (λ k, set_annotation_values ann key value k Hv) as Hone. cbv zeta in Hone. split.
  - intros k. etrans; [|apply I1]. rewrite Hone. by apply prefix_app_r.
  - intros k v [[= -> ->]|Hin]%elem_of_cons; [|by apply I2].
    eapply elem_of_prefix; [|apply I1]. rewrite Hone, elem_of_app.
    destruct (decide (value ∈ values ann key)); [by left|right]. rewrite decide_True by done. by left.
Qed.

(** Values that are there are not added. *)
Lemma set_annotations_there ann kvs : (∀ k v, (k, v) ∈ kvs → v ∈ values ann k) → set_annotations false ann kvs = ann.
Proof.
  induction kvs as [|[key value] kvs IH]; intros Hin; [done|]. rewrite set_annotations_cons.
  assert (E : set_annotations false ann [(key, value)] = ann).
  { specialize (Hin key value ltac:(by left)). unfold values in Hin. cbn.
    destruct (ann !! key) as [v|]; [|by apply elem_of_nil in Hin]. by rewrite (proj2 (ContainsString_spec _ _) Hin). }
  rewrite E. apply IH. intros k v ?. apply Hin. by right.
Qed.

(** Annotations with several values only grow.  Without [override],
    [SetSpecificAnnotations] keeps the values every key had, in their order,
    adds each new value to its key, and adds nothing twice: setting the same
    annotations again changes nothing. *)
Theorem set_annotations_grow ann kvs :
  plain_values kvs →
  let ann' := set_annotations false ann kvs in
  (∀ k, values ann k `prefix_of` values ann' k) ∧
  (∀ k v, (k, v) ∈ kvs → v ∈ values ann' k) ∧
  set_annotations false ann' kvs = ann'.
Proof.
  intros Hkvs ann'. destruct (set_annotations_mono ann kvs Hkvs) as [G1 G2].
  split_and!; [done|done|]. by apply set_annotations_there.
Qed.

Lemma set_annotations_grow_witness :
  let ann' := set_annotations false {["cidr" := "10.0.0.0/8"]} [("cidr", "10.1.0.0/16"); ("key", "k")] in
  values ann' "cidr" = ["10.0.0.0/8"; "10.1.0.0/16"] ∧
  set_annotations false ann' [("cidr", "10.1.0.0/16"); ("key", "k")] = ann'.
Proof.
  split; [reflexivity|].
  apply (set_annotations_grow {["cidr" := "10.0.0.0/8"]} [("cidr", "10.1.0.0/16"); ("key", "k")]). repeat constructor.
Defined.

(** A control-plane component started with the parameter and its value as
    two arguments, which its flag parser accepts, makes the search for the
    cluster's address range panic; with the equals sign the value is found, also
    in a shell command. *)
Theorem getParameterValue_separate_panics :
  getParameterValue ["kube-controller-manager"; "--cluster-cidr"; "10.244.0.0/16"] "--cluster-cidr" = Panic ∧
  getParameterValue ["kube-controller-manager"; "--cluster-cidr=10.244.0.0/16"] "--cluster-cidr" = Ret "10.244.0.0/16" ∧
  getParameterValue ["/bin/sh"; "-c"; "exec kube-controller-manager --cluster-cidr=10.244.0.0/16"] "--cluster-cidr" =
    Ret "10.244.0.0/16".
Proof. vm_compute. split_and!; reflexivity. Qed.
