(* ===== verification/ProxyServer.v ===== *)
(** * The proxy server

    [cmd/proxy/app]: the options of the command ([proxy.go]) and how a server is
    built from them ([newProxyServer], [platformSetup], [createProxier] of
    [proxy_linux.go]).  [logrus.Fatalf], which ends the process, is [Panic].  The
    clients of the API server are opaque; events, health server and metrics are left out. *)
From Stdlib Require Import Ascii ZArith Lia.
From stdpp Require Import prelude gmap strings list.
From S2P Require Import Prelude NetAddr K8s ProxyEndpoints ProxyServices HostPort Kernel IpSet Proxier NetLink Iptables ProxierSetup Conntrack Utils.
Open Scope Z_scope.

(** ** Configuration and options *)
Definition LocalModeClusterCIDR : string := "ClusterCIDR".
Definition LocalModeNodeCIDR : string := "NodeCIDR".
Definition LocalModeBridgeInterface : string := "BridgeInterface".
Definition LocalModeInterfaceNamePrefix : string := "InterfaceNamePrefix".
Definition ProxyModeIPVS : string := "ipvs".

(** [ClientConnectionConfiguration]; the rate, a float32 that is only copied, is kept as a number of thousandths. *)
Record ClientConnection := mkCC { Kubeconfig : string; AcceptContentTypes : string; ContentType : string; QPS : Z; Burst : Z }.

(** The fields of [KubeProxyConfiguration] that the code reads. *)
Record KubeProxyConfiguration := mkKPC {
  BindAddress : string;
  HealthzBindAddress : string;
  MetricsBindAddress : string;
  ClusterCIDR : string;
  cfg_HostnameOverride : string;
  cfg_Mode : string;
  DetectLocalMode : string;
  BridgeInterface : string;
  InterfaceNamePrefix : string;
  SourceVip : string;
  NodePortAddresses : list string;
  ExcludeCIDRs : list string;
  Scheduler : string;
  StrictARP : bool;
  TCPTimeout : Z;
  TCPFinTimeout : Z;
  UDPTimeout : Z;
  MasqueradeBit : option Z;
  Conntrack : ConntrackConfig;
  FeatureGates : gmap string bool;
  cfg_ClientConnection : ClientConnection }.

Definition set_HostnameOverride (h : string) (c : KubeProxyConfiguration) : KubeProxyConfiguration :=
  mkKPC (BindAddress c) (HealthzBindAddress c) (MetricsBindAddress c) (ClusterCIDR c) h (cfg_Mode c) (DetectLocalMode c)
    (BridgeInterface c) (InterfaceNamePrefix c) (SourceVip c) (NodePortAddresses c) (ExcludeCIDRs c) (Scheduler c) (StrictARP c)
    (TCPTimeout c) (TCPFinTimeout c) (UDPTimeout c) (MasqueradeBit c) (Conntrack c) (FeatureGates c) (cfg_ClientConnection c).

Record Options := mkOptions {
  ConfigFile : string;
  WriteConfigTo : string;
  CleanupAndExit : bool;
  o_config : KubeProxyConfiguration;
  o_master : string;
  o_hostnameOverride : string }.
Definition set_config (c : KubeProxyConfiguration) (o : Options) : Options :=
  mkOptions (ConfigFile o) (WriteConfigTo o) (CleanupAndExit o) c (o_master o) (o_hostnameOverride o).

(** [netutils.IPFamily] *)
Inductive IPFamily := IPFamilyUnknown | IPv4 | IPv6.
#[export] Instance IPFamily_eq_dec : EqDecision IPFamily.
Proof. solve_decision. Defined.
Definition IPFamily_String (f : IPFamily) : string := match f with IPFamilyUnknown => EmptyString | IPv4 => "4" | IPv6 => "6" end.

(** The detectors of [proxyutiliptables]. *)
Inductive LocalDetector := ByCIDR (cidr : string) | ByBridge (name : string) | ByPrefix (prefix : string) | NoOpDetector.

Record RestConfig := mkRest { rc_Host : string; rc_AcceptContentTypes : string; rc_ContentType : string; rc_QPS : Z; rc_Burst : Z }.

(** Feature gates, validation, [nodeutil.GetHostname], [netutils], [proxyutil] and the construction of clients. *)
Class AppLib := {
  SetFromMap : gmap string bool → option string;
  validate : KubeProxyConfiguration → list string;
  GetHostname : string → outcome string;
  IPFamilyOf : IP → IPFamily;
  IPFamilyOfString : string → IPFamily;
  IPFamilyOfCIDRString : string → IPFamily;
  ParseCIDRs : list string → list IPNet;
  MapCIDRsByIPFamily : list string → string → list string;
  NewDetectLocalByCIDR : string → outcome LocalDetector;
  NewDetectLocalByBridgeInterface : string → outcome LocalDetector;
  NewDetectLocalByInterfaceNamePrefix : string → outcome LocalDetector;
  InClusterConfig : RestConfig + string;
  Getenv : string → string;
  BuildConfigFromFlags : string → string → RestConfig + string;
  DeferredLoadingConfig : string → string → RestConfig + string;
  NewForConfig : RestConfig → () + string
}.

Section options.
Context `{AppLib}.

(** Mode and detect-local-mode are set whatever the flags say. *)
Definition platformApplyDefaults (c : KubeProxyConfiguration) : KubeProxyConfiguration :=
  mkKPC (BindAddress c) (HealthzBindAddress c) (MetricsBindAddress c) (ClusterCIDR c) (cfg_HostnameOverride c) ProxyModeIPVS LocalModeClusterCIDR
    (BridgeInterface c) (InterfaceNamePrefix c) (SourceVip c) (NodePortAddresses c) (ExcludeCIDRs c) (Scheduler c) (StrictARP c)
    (TCPTimeout c) (TCPFinTimeout c) (UDPTimeout c) (MasqueradeBit c) (Conntrack c) (FeatureGates c) (cfg_ClientConnection c).

Definition processHostnameOverrideFlag (o : Options) : outcome Options :=
  if bool_decide (o_hostnameOverride o = EmptyString) then Ret o
  else
    let hostName := TrimSpace (o_hostnameOverride o) in
    if bool_decide (hostName = EmptyString) then Err "empty hostname-override is invalid"
    else Ret (set_config (set_HostnameOverride (ToLower hostName) (o_config o)) o).

Definition Complete (o : Options) : outcome Options :=
  let o := set_config (platformApplyDefaults (o_config o)) o in
  o ← processHostnameOverrideFlag o;
  match SetFromMap (FeatureGates (o_config o)) with Some e => Err e | None => Ret o end.

(** The text of [utilerrors.NewAggregate]. *)
Definition aggregate (errs : list string) : string :=
  match errs with [e] => e | _ => "[" +:+ join ", " errs +:+ "]" end.

Definition Validate (o : Options) : outcome () :=
  match validate (o_config o) with [] => Ret () | errs => Err (aggregate errs) end.

(** ** Clients *)
Definition createClient (cc : ClientConnection) (masterOverride : string) : outcome RestConfig :=
  kubeConfig ←
    (if bool_decide (Kubeconfig cc = EmptyString) && bool_decide (masterOverride = EmptyString) then
       match InClusterConfig with
       | inl c => Ret c
       | inr _ =>
           let val := Getenv "KUBECONFIG" in
           let path := if bool_decide (val = EmptyString) then "~/.kube/config" else val in
           match BuildConfigFromFlags EmptyString path with inl c => Ret c | inr _ => Panic end
       end
     else match DeferredLoadingConfig (Kubeconfig cc) masterOverride with inl c => Ret c | inr e => Err e end);
  let kubeConfig := mkRest (rc_Host kubeConfig) (AcceptContentTypes cc) (ContentType cc) (QPS cc) (Burst cc) in
  match NewForConfig kubeConfig with inl _ => Ret kubeConfig | inr e => Err e end.

(** ** The address families of the configuration *)

(** Every CIDR of a list that is not empty is of the wrong family. *)
Fixpoint all_wrong (cidrs : list string) (wrongFamily : IPFamily) : bool :=
  match cidrs with
  | [] => true
  | cidr :: rest => if bool_decide (IPFamilyOfCIDRString cidr ≠ wrongFamily) then false else all_wrong rest wrongFamily
  end.
Definition badCIDRs (cidrs : list string) (wrongFamily : IPFamily) : bool :=
  match cidrs with [] => false | _ => all_wrong cidrs wrongFamily end.

Definition IsUnspecified (ip : IP) : bool := bool_decide (To4 ip = [0; 0; 0; 0]) || bool_decide (ip = replicate 16 0).

Context `{ServiceLib}.

(** Of a string that does not split the host is empty. *)
Definition badBindAddress (bindAddress : string) (wrongFamily : IPFamily) : bool :=
  let host := match SplitHostPort bindAddress with Ret (host, _) => host | _ => EmptyString end in
  if bool_decide (host = EmptyString) then false
  else
    let ip := ParseIPSloppy host in
    negb (bool_decide (ip = [])) && bool_decide (IPFamilyOf ip = wrongFamily) && negb (IsUnspecified ip).

(** The errors, and whether they are fatal. *)
Definition checkIPConfig (primary : string) (cfg : KubeProxyConfiguration) (podCIDRs : list string) (dualStackSupported : bool) : list string * bool :=
  let badFamily := if bool_decide (primary = "IPv4") then IPv6 else IPv4 in
  let clusterType := primary +:+ (if dualStackSupported then "-primary" else "-only") in
  let only what := "cluster is " +:+ clusterType +:+ " but " +:+ what +:+ " contains only IPv" +:+ IPFamily_String badFamily +:+ " addresses" in
  let wrong what := "cluster is " +:+ clusterType +:+ " but " +:+ what +:+ " is IPv" +:+ IPFamily_String badFamily in
  let cluster := negb (bool_decide (ClusterCIDR cfg = EmptyString)) && badCIDRs (split_on "," (ClusterCIDR cfg)) badFamily in
  let pods := badCIDRs podCIDRs badFamily in
  let fatal := (cluster && bool_decide (DetectLocalMode cfg = LocalModeClusterCIDR) && negb dualStackSupported) ||
               (pods && bool_decide (DetectLocalMode cfg = LocalModeNodeCIDR)) in
  ((if cluster then [only "clusterCIDRs"] else []) ++
   (if badCIDRs (NodePortAddresses cfg) badFamily then [only "nodePortAddresses"] else []) ++
   (if pods then [only "node.spec.podCIDRs"] else []) ++
   (if bool_decide (IPFamilyOfString (SourceVip cfg) = badFamily) then [wrong "winkernel.sourceVip"] else []) ++
   (if dualStackSupported then [] else
      (if badCIDRs (ExcludeCIDRs cfg) badFamily then [only "ipvs.excludeCIDRs"] else []) ++
      (if badBindAddress (HealthzBindAddress cfg) badFamily then [wrong "healthzBindAddress"] else []) ++
      (if badBindAddress (MetricsBindAddress cfg) badFamily then [wrong "metricsBindAddress"] else [])),
   fatal).

(** ** Node addresses.  [GetNodeIP] gives nil where the node is not found. *)
Definition IPv4zero : IP := v4InV6Prefix ++ [0; 0; 0; 0].
Definition IPv6zero : IP := replicate 16 0.
Context `{NetutilsLib}.
Definition detectNodeIPs (GetNodeIP : IP) (bindAddress : string) : string * gmap string IP :=
  let nodeIP := ParseIPSloppy bindAddress in
  let nodeIP := if IsUnspecified nodeIP then GetNodeIP else nodeIP in
  let nodeIP := if bool_decide (nodeIP = []) then ParseIPSloppy "127.0.0.1" else nodeIP in
  if netutils_IsIPv4 nodeIP then ("IPv4", {["IPv4" := nodeIP; "IPv6" := IPv6zero]})
  else ("IPv6", {["IPv4" := IPv4zero; "IPv6" := nodeIP]}).

(** ** Detection of local traffic *)
Definition getLocalDetector (ipFamily mode : string) (cfg : KubeProxyConfiguration) (nodePodCIDRs : list string) : outcome LocalDetector :=
  if bool_decide (mode = LocalModeClusterCIDR) then
    let clusterCIDRs := TrimSpace (ClusterCIDR cfg) in
    if bool_decide (clusterCIDRs = EmptyString) then Ret NoOpDetector
    else match MapCIDRsByIPFamily (split_on "," clusterCIDRs) ipFamily with
         | cidr :: _ => NewDetectLocalByCIDR cidr
         | [] => Ret NoOpDetector
         end
  else if bool_decide (mode = LocalModeNodeCIDR) then
    match MapCIDRsByIPFamily nodePodCIDRs ipFamily with
    | cidr :: _ => NewDetectLocalByCIDR cidr
    | [] => Ret NoOpDetector
    end
  else if bool_decide (mode = LocalModeBridgeInterface) then NewDetectLocalByBridgeInterface (BridgeInterface cfg)
  else if bool_decide (mode = LocalModeInterfaceNamePrefix) then NewDetectLocalByInterfaceNamePrefix (InterfaceNamePrefix cfg)
  else Ret NoOpDetector.

(** ** Waiting for the CIDRs of the node *)
Record WatchNode := mkWatchNode { wn_deleting : bool; wn_PodCIDR : string; wn_PodCIDRs : list string }.
Record WatchEvent := mkWatch { we_Type : string; we_Object : option WatchNode }.

(** An object of another type is [None]. *)
Definition podCIDR_condition (e : WatchEvent) : outcome bool :=
  if negb (bool_decide (we_Type e = "MODIFIED")) && negb (bool_decide (we_Type e = "ADDED")) then Ret false
  else match we_Object e with
       | None => Err "event object not of type Node"
       | Some n =>
           if wn_deleting n then Ret false
           else Ret (negb (bool_decide (wn_PodCIDR n = EmptyString)) && negb (bool_decide (wn_PodCIDRs n = [])))
       end.
(** [UntilWithSync] over the events until the timeout. *)
Fixpoint until (events : list WatchEvent) : outcome WatchEvent :=
  match events with
  | [] => Err "timed out waiting for the condition"
  | e :: rest => b ← podCIDR_condition e; if (b : bool) then Ret e else until rest
  end.
Definition waitForPodCIDR (events : list WatchEvent) : outcome WatchNode :=
  evt ← wrap_err ("timeout waiting for PodCIDR allocation to configure detect-local-mode " +:+ LocalModeNodeCIDR) (until events);
  match we_Object evt with Some n => Ret n | None => Err "event object not of type node" end.
End options.

(** ** The server *)
Record ProxyServer := mkServer {
  ps_Hostname : string;
  ps_PrimaryIPFamily : string;
  ps_NodeIPs : gmap string IP;
  ps_podCIDRs : list string;
  ps_detector : LocalDetector;
  ps_Proxier : Proxier }.

(** What the machine and the cluster say: CPUs, the address of the node, the
    events of the watch, versions, registration of the configuration. *)
Record Machine := mkMachine {
  m_numCPU : Z;
  m_GetNodeIP : string → IP;
  m_watch : string → list WatchEvent;
  m_kernelVersion : outcome string;
  m_ipsetVersion : string + string;
  m_ipvs : bool;
  m_configz : option string;
  m_now : Time }.

(** The file of the configuration and its encoder. *)
Class FileOps (W : Type) := {
  SupportsYAML : bool;
  os_Create : W → string → W * option string;
  file_Encode : W → string → KubeProxyConfiguration → W * option string;
  file_Close : W → string → W * option string
}.

Section server.
Context {W : Type} `{GoRuntime} `{AppLib} `{ServiceLib} `{ProxyLib} `{NetutilsLib} `{IpvsLib} `{KernelOps W} `{VersionLib} `{Sysctl W} `{ConntrackSys W}.

Definition ct_message (e : ct_error) : string := match e with errReadOnlySysFS => "readOnlySysFS" | ct_other m => m end.

Definition platformSetup (m : Machine) (cfg : KubeProxyConfiguration) (hostname : string) : proc W (list string) :=
  podCIDRs ← (if bool_decide (DetectLocalMode cfg = LocalModeNodeCIDR)
              then node ← lift (waitForPodCIDR (m_watch m hostname)); mret (wn_PodCIDRs node)
              else mret []);
  _ ← (λ w, match setupConntrack (Conntrack cfg) (m_numCPU m) w with
            | (w, inl _) => (w, Ret ())
            | (w, inr e) => (w, Err (ct_message e)) end) : proc W ();
  mret podCIDRs.

(** IPv4, IPv6 and dual stack. *)
Definition platformCheckSupported : bool * bool * bool := (true, false, false).

Definition createProxier (m : Machine) (cfg : KubeProxyConfiguration) (family hostname : string) (podCIDRs : list string) : proc W (LocalDetector * Proxier) :=
  _ ← handle (CanUseIPVSProxier (m_ipvs m) (m_ipsetVersion m) (Scheduler cfg))
        (λ r, match r with inl _ => mret () | inr e => lift (Err ("can't use the IPVS proxier: " +:+ e)) end);
  detector ← lift (wrap_err "unable to create proxier" (getLocalDetector family (DetectLocalMode cfg) cfg podCIDRs));
  _ ← lift (deref (MasqueradeBit cfg));
  _ ← handle (NewProxier_settings (m_kernelVersion m) (StrictARP cfg) (TCPTimeout cfg) (TCPFinTimeout cfg) (UDPTimeout cfg))
        (λ r, match r with inl _ => mret () | inr e => lift (Err ("unable to create proxier: " +:+ e)) end);
  mret (detector, NewProxier family hostname (Scheduler cfg) (ParseCIDRs (ExcludeCIDRs cfg)) (m_now m)).

Definition newProxyServer (m : Machine) (cfg : KubeProxyConfiguration) (master : string) : proc W ProxyServer :=
  _ ← lift (match m_configz m with Some e => Err ("unable to register configz: " +:+ e) | None => Ret () end);
  hostname ← lift (GetHostname (cfg_HostnameOverride cfg));
  _ ← lift (createClient (cfg_ClientConnection cfg) master);
  let '(family, nodeIPs) := detectNodeIPs (m_GetNodeIP m hostname) (BindAddress cfg) in
  podCIDRs ← platformSetup m cfg hostname;
  let '(ipv4Supported, ipv6Supported, dualStackSupported) := platformCheckSupported in
  if (bool_decide (family = "IPv4") && negb ipv4Supported) || (bool_decide (family = "IPv6") && negb ipv6Supported)
  then lift (Err ("no support for primary IP family " +:+ quote +:+ family +:+ quote))
  else
    let '(errs, fatal) := checkIPConfig family cfg podCIDRs dualStackSupported in
    if negb (bool_decide (errs = [])) && fatal
    then lift (Err ("kube-proxy configuration is incorrect: " +:+ aggregate errs))
    else
      '(detector, proxier) ← createProxier m cfg family hostname podCIDRs;
      mret (mkServer hostname family nodeIPs podCIDRs detector proxier).

(** ** Which slices the informer shows

    The selector of [Run]: no proxy name, not headless, with the name of the
    service. *)
Definition LabelServiceProxyName : string := "service.kubernetes.io/service-proxy-name".
Definition IsHeadlessService : string := "service.kubernetes.io/headless".
Definition slice_selected (labels : GoMap) : bool :=
  bool_decide (mget labels LabelServiceProxyName = None) && bool_decide (mget labels IsHeadlessService = None) &&
  bool_decide (is_Some (mget labels known_LabelServiceName)).

(** [Run] returns only when a requirement of the selector cannot be built ([badRequirement]): after
    that it waits on a channel nobody sends to. *)
Definition ProxyServer_Run (badRequirement : option string) : outcome (option string) :=
  match badRequirement with Some e => Ret (Some e) | None => Spin end.
(** A result without error is waited past. *)
Definition runLoop (badRequirement : option string) : outcome () :=
  err ← ProxyServer_Run badRequirement;
  match err with Some e => Err e | None => Spin end.

(** ** Clean-up *)
Context `{Netlink W} `{CleanupOps W} (iptables_CleanupLeftovers : IptOps W → W → W * bool).
Definition cleanupAndExit (ipts : list (IptOps W)) (w : W) : W * option string :=
  let '(w, encounteredError) :=
    foldl (λ '(w, bad) ipt,
      let '(w, b) := iptables_CleanupLeftovers ipt w in
      let bad := b || bad in
      let '(w, b) := CleanupLeftovers true w in
      (w, b || bad)) (w, false) ipts in
  (w, if encounteredError then Some "encountered an error while tearing down rules" else None).

(** ** The command *)
Context `{FileOps W}.

(** The file is closed also after a failed encoding, whose error wins. *)
Definition writeConfigFile (o : Options) : proc W () := λ w,
  if negb SupportsYAML then (w, Err ("unable to locate encoder -- " +:+ quote +:+ "application/yaml" +:+ quote +:+ " is not a supported media type"))
  else
    match os_Create w (WriteConfigTo o) with
    | (w, Some e) => (w, Err e)
    | (w, None) =>
        let '(w, err) := file_Encode w (WriteConfigTo o) (o_config o) in
        let '(w, ferr) := file_Close w (WriteConfigTo o) in
        (w, match err, ferr with Some e, _ => Err e | None, Some e => Err e | None, None => Ret () end)
    end.

Definition Options_Run (m : Machine) (ipts : list (IptOps W)) (badRequirement : option string) (o : Options) : proc W () :=
  if negb (bool_decide (WriteConfigTo o = EmptyString)) then writeConfigFile o
  else if CleanupAndExit o
  then λ w, match cleanupAndExit ipts w with (w, Some e) => (w, Err e) | (w, None) => (w, Ret ()) end
  else
    _ ← newProxyServer m (o_config o) (o_master o);
    lift (runLoop badRequirement).

(** [Args] and [RunE] of the command; [logging] is the error of setting up the logs. *)
Definition proxy_command (m : Machine) (ipts : list (IptOps W)) (badRequirement logging : option string) (args : list string) (o : Options) : proc W () :=
  if existsb (λ arg, negb (bool_decide (arg = EmptyString))) args then lift (Err "does not take any arguments")
  else
    o ← lift (wrap_err "failed complete" (Complete o));
    _ ← lift (match logging with Some e => Err ("initialize logging: " +:+ e) | None => Ret () end);
    _ ← lift (wrap_err "failed validate" (Validate o));
    Options_Run m ipts badRequirement o.

(** A proxy that has been started does not return: the command ends without an error only
    after writing the configuration or cleaning up. *)
Lemma proxy_command_returns m ipts badRequirement logging args o w w' :
  proxy_command m ipts badRequirement logging args o w = (w', Ret ()) → WriteConfigTo o ≠ EmptyString ∨ CleanupAndExit o = true.
Proof.
  unfold proxy_command. destruct (existsb _ args); [done|]. intros (w1 & o' & E1 & E)%proc_bind_Ret. apply lift_Ret in E1 as [E1 ->].
  assert (Ho : WriteConfigTo o' = WriteConfigTo o ∧ CleanupAndExit o' = CleanupAndExit o).
  { destruct (Complete o) as [o1| | |] eqn:Ec; try done. injection E1 as <-. unfold Complete in Ec. apply bind_Ret in Ec as (o2 & E2 & E3).
    destruct (SetFromMap _); [done|]. injection E3 as <-. unfold processHostnameOverrideFlag in E2. repeat case_match; try done; by injection E2 as <-. }
  destruct Ho as [<- <-]. apply proc_bind_Ret in E as (w2 & [] & _ & E). apply proc_bind_Ret in E as (w3 & [] & _ & E).
  unfold Options_Run in E. case_bool_decide; [|by left]. destruct (CleanupAndExit o'); [by right|]. cbn [negb] in E.
  apply proc_bind_Ret in E as (w4 & s & _ & E). apply lift_Ret in E as [E _]. unfold runLoop, ProxyServer_Run in E. by destruct badRequirement.
Qed.
End server.

(** ** Theorems *)
Section theorems.
Context {W : Type} `{GoRuntime} `{AppLib} `{ServiceLib} `{ProxyLib} `{NetutilsLib} `{IpvsLib} `{KernelOps W} `{VersionLib} `{SysctlLaws W} `{ConntrackSys W}.

Lemma all_wrong_iff cidrs f : all_wrong cidrs f = true ↔ Forall (λ c, IPFamilyOfCIDRString c = f) cidrs.
Proof.
  induction cidrs as [|c cidrs IH]; cbn; [done|]. rewrite Forall_cons. case_bool_decide as Hc; naive_solver.
Qed.
Lemma badCIDRs_false cidrs f : badCIDRs cidrs f = false → cidrs = [] ∨ ∃ c, c ∈ cidrs ∧ IPFamilyOfCIDRString c ≠ f.
Proof.
  destruct cidrs as [|c cidrs]; [by left|]. intros Hb. right. cbn [badCIDRs] in Hb.
  apply not_true_iff_false in Hb. rewrite all_wrong_iff in Hb. apply not_Forall_Exists in Hb; [|apply _].
  by apply Exists_exists.
Qed.

(** What [Complete] fixes whatever the flags. *)
Lemma Complete_defaults o o' : Complete o = Ret o' →
  cfg_Mode (o_config o') = ProxyModeIPVS ∧ DetectLocalMode (o_config o') = LocalModeClusterCIDR.
Proof.
  unfold Complete. intros (o1 & E1 & E2)%bind_Ret. destruct (SetFromMap _); [done|]. injection E2 as <-.
  unfold processHostnameOverrideFlag in E1. repeat case_match; try done; by injection E1 as <-.
Qed.

Lemma platformSetup_cluster m cfg hostname (w w' : W) podCIDRs : DetectLocalMode cfg = LocalModeClusterCIDR →
  platformSetup m cfg hostname w = (w', Ret podCIDRs) → podCIDRs = [].
Proof.
  intros Hm. unfold platformSetup. rewrite Hm. intros (w1 & l & E1 & E)%proc_bind_Ret. injection E1 as <- <-.
  apply proc_bind_Ret in E as (w2 & [] & _ & E). by injection E as _ <-.
Qed.

Definition kernel_ready (w : W) : Prop :=
  sysctls w !! sysctlVSConnTrack = Some 1 ∧ sysctls w !! sysctlExpireNoDestConn = Some 1 ∧
  sysctls w !! sysctlExpireQuiescentTemplate = Some 1 ∧ sysctls w !! sysctlForward = Some 1.

Lemma createProxier_ok m cfg family hostname podCIDRs (w w' : W) d p :
  createProxier m cfg family hostname podCIDRs w = (w', Ret (d, p)) →
  kernel_ready w' ∧ is_Some (MasqueradeBit cfg) ∧ getLocalDetector family (DetectLocalMode cfg) cfg podCIDRs = Ret d ∧
  p = NewProxier family hostname (Scheduler cfg) (ParseCIDRs (ExcludeCIDRs cfg)) (m_now m).
Proof.
  unfold createProxier. intros (w1 & [] & _ & E)%proc_bind_Ret. apply proc_bind_Ret in E as (w2 & d' & E2 & E).
  apply lift_Ret in E2 as [E2 ->]. apply proc_bind_Ret in E as (w3 & b & E3 & E). apply lift_Ret in E3 as [E3 ->].
  apply proc_bind_Ret in E as (w4 & [] & E4 & E). injection E as <- <- <-.
  apply handle_Ret in E4 as [(w5 & [] & E5 & [= <-])|(w5 & e & _ & E5)]; [|done].
  apply NewProxier_settings_ok in E5 as (v & version & low & _ & _ & _ & K1 & K2 & K3 & K4 & _).
  split; [done|]. split; [by destruct (MasqueradeBit cfg)|]. split; [|done]. by destruct (getLocalDetector _ _ _ _).
Qed.

(** A server with a fatal error is not built. *)
Lemma cluster_ok cfg errs fatal : DetectLocalMode cfg = LocalModeClusterCIDR → checkIPConfig "IPv4" cfg [] false = (errs, fatal) →
  negb (bool_decide (errs = [])) && fatal = false →
  ClusterCIDR cfg = EmptyString ∨ ∃ cidr, cidr ∈ split_on "," (ClusterCIDR cfg) ∧ IPFamilyOfCIDRString cidr ≠ IPv6.
Proof.
  intros Hm Ek Hf. unfold checkIPConfig in Ek. rewrite Hm in Ek.
  rewrite (bool_decide_true ("IPv4" = "IPv4")), (bool_decide_true (LocalModeClusterCIDR = LocalModeClusterCIDR)) in Ek by done.
  destruct (decide (ClusterCIDR cfg = EmptyString)) as [->|Hne]; [by left|right].
  rewrite bool_decide_false in Ek by done. cbn in Ek.
  destruct (badCIDRs (split_on "," (ClusterCIDR cfg)) IPv6) eqn:Eb; cbn in Ek.
  - assert (Hnil : errs ≠ []) by (by injection Ek as <- _). assert (fatal = true) as -> by (by injection Ek as _ <-).
    by rewrite bool_decide_false in Hf.
  - apply badCIDRs_false in Eb as [Hs|?]; [|done]. by destruct (ClusterCIDR cfg) as [|c r]; cbn in Hs; repeat case_match.
Qed.
Lemma detector_ok cfg d : getLocalDetector "IPv4" LocalModeClusterCIDR cfg [] = Ret d →
  d = NoOpDetector ∨ ∃ cidr rest, MapCIDRsByIPFamily (split_on "," (TrimSpace (ClusterCIDR cfg))) "IPv4" = cidr :: rest ∧
    NewDetectLocalByCIDR cidr = Ret d.
Proof.
  unfold getLocalDetector. rewrite bool_decide_true by done. case_bool_decide; [intros [= <-]; by left|].
  destruct (MapCIDRsByIPFamily _ _) as [|cidr rest] eqn:E; [intros [= <-]; by left|]. intros Hd. right. eauto.
Qed.

(** A proxy that starts is an IPv4 proxy on a prepared kernel.  With the options completed, when
    [newProxyServer] returns a server then its primary address is an IPv4 one, the cluster's CIDRs
    are not all IPv6, connection tracking, expiry and forwarding are switched on, local
    traffic is detected by the first IPv4 CIDR of the cluster or not at all, and the proxier is
    the fresh one of the node, for which no CIDR of the node was waited for. *)
Theorem newProxyServer_ok o o' m (w w' : W) s (cfg := o_config o') :
  Complete o = Ret o' → newProxyServer m cfg (o_master o') w = (w', Ret s) →
  ps_PrimaryIPFamily s = "IPv4" ∧ (∃ ip, ps_NodeIPs s !! "IPv4" = Some ip ∧ netutils_IsIPv4 ip = true) ∧
  (ClusterCIDR cfg = EmptyString ∨ ∃ cidr, cidr ∈ split_on "," (ClusterCIDR cfg) ∧ IPFamilyOfCIDRString cidr ≠ IPv6) ∧
  kernel_ready w' ∧
  (ps_detector s = NoOpDetector ∨ ∃ cidr rest, MapCIDRsByIPFamily (split_on "," (TrimSpace (ClusterCIDR cfg))) "IPv4" = cidr :: rest ∧
     NewDetectLocalByCIDR cidr = Ret (ps_detector s)) ∧
  ps_podCIDRs s = [] ∧ GetHostname (cfg_HostnameOverride cfg) = Ret (ps_Hostname s) ∧
  ps_Proxier s = NewProxier "IPv4" (ps_Hostname s) (Scheduler cfg) (ParseCIDRs (ExcludeCIDRs cfg)) (m_now m).
Proof.
  intros Hc E. apply Complete_defaults in Hc as [_ Hmode]. fold cfg in Hmode. unfold newProxyServer in E.
  apply proc_bind_Ret in E as (w1 & [] & E1 & E). apply lift_Ret in E1 as [_ ->].
  apply proc_bind_Ret in E as (w1 & host & E1 & E). apply lift_Ret in E1 as [Hhost ->].
  apply proc_bind_Ret in E as (w1 & rc & E1 & E). apply lift_Ret in E1 as [_ ->].
  destruct (detectNodeIPs _ _) as [family nodeIPs] eqn:Ed. apply proc_bind_Ret in E as (w1 & pods & Ep & E).
  apply (platformSetup_cluster _ _ _ _ _ _ Hmode) in Ep as ->. cbn [platformCheckSupported] in E.
  assert (Hf : family = "IPv4" ∧ ∃ ip, nodeIPs !! "IPv4" = Some ip ∧ netutils_IsIPv4 ip = true).
  { unfold detectNodeIPs in Ed. cbv zeta in Ed.
    match type of Ed with (if netutils_IsIPv4 ?ip then _ else _) = _ => destruct (netutils_IsIPv4 ip) eqn:Hv end; injection Ed as <- <-.
    - split; [done|]. eexists. split; [by rewrite lookup_insert_eq|done].
    - rewrite (bool_decide_true ("IPv6" = "IPv6")), orb_true_r in E by done. discriminate E. }
  destruct Hf as [-> Hip]. rewrite (bool_decide_false ("IPv4" = "IPv6")), andb_false_r in E by done. cbn [andb orb] in E. destruct (checkIPConfig "IPv4" cfg [] false) as [errs fatal] eqn:Ek.
  destruct (negb (bool_decide (errs = [])) && fatal) eqn:Hfatal; [done|].
  apply proc_bind_Ret in E as (w2 & [d p] & Ec & E). injection E as <- <-.
  apply createProxier_ok in Ec as (Hk & _ & Hd & ->). split; [done|]. split; [done|]. split; [by eapply cluster_ok|].
  split; [done|]. split; [|done]. rewrite Hmode in Hd. by apply detector_ok.
Qed.
End theorems.

(** ** A node on which the proxy starts *)
Section demo.
#[local] Existing Instances list_runtime demo_ipvslib demo_kernel demo_proxylib demo_servicelib demo_netutils demo_conntrack.

Definition demo_host : Type := demo_kworld * CtView.
Definition up {A} (w : demo_host) (r : demo_kworld * A) : demo_host * A := ((r.1, w.2), r.2).
#[local] Instance demo_host_netlink : NetLinkHandle demo_host := {|
  EnsureDummyDevice w d := up w (EnsureDummyDevice w.1 d);
  GetLocalAddresses w d := GetLocalAddresses w.1 d;
  EnsureAddressBind w a d := up w (EnsureAddressBind w.1 a d);
  UnbindAddress w a d := up w (UnbindAddress w.1 a d) |}.
#[local] Instance demo_host_kernel : KernelOps demo_host := {|
  GetVirtualServer w vs := GetVirtualServer w.1 vs;
  GetVirtualServers w := GetVirtualServers w.1;
  AddVirtualServer w vs := up w (AddVirtualServer w.1 vs);
  UpdateVirtualServer w vs := up w (UpdateVirtualServer w.1 vs);
  DeleteVirtualServer w vs := up w (DeleteVirtualServer w.1 vs);
  GetRealServers w vs := GetRealServers w.1 vs;
  AddRealServer w vs rs := up w (AddRealServer w.1 vs rs);
  UpdateRealServer w vs rs := up w (UpdateRealServer w.1 vs rs);
  DeleteRealServer w vs rs := up w (DeleteRealServer w.1 vs rs);
  CreateSet w s b := up w (CreateSet w.1 s b);
  ListEntries w n := ListEntries w.1 n;
  AddEntry w e s b := up w (AddEntry w.1 e s b);
  DelEntry w e n := up w (DelEntry w.1 e n) |}.
#[local] Instance demo_host_conntrack : ConntrackSys demo_host := {|
  GetSysctl w e := GetSysctl w.2 e;
  SetSysctl w e v := ((w.1, (SetSysctl w.2 e v).1), (SetSysctl w.2 e v).2);
  mount_List w := mount_List w.2;
  os_ReadFile w f := os_ReadFile w.2 f;
  os_WriteFile w f c := ((w.1, (os_WriteFile w.2 f c).1), (os_WriteFile w.2 f c).2) |}.
#[local] Instance demo_host_sysctl : Sysctl demo_host := {|
  EnsureSysctl w n v := ((w.1, mkCtView (<[n := v]> (ctv_sysctl w.2)) (ctv_files w.2)), None);
  ConfigureTimeouts w _ _ _ := (w, None) |}.
#[local] Instance demo_host_sysctl_laws : SysctlLaws demo_host.
Proof.
  refine {| sysctls := λ w : demo_host, ctv_sysctl w.2 |}.
  - by intros w n v w' [= <-].
  - done.
Defined.
(** Versions are the numbers before the first dot. *)
#[local] Instance demo_versions : VersionLib := {|
  Version := Z;
  ParseGeneric s := match Atoi (hd EmptyString (split_on "." s)) with Ret v => Some v | _ => None end;
  LessThan := Z.ltb |}.
Definition demo_family (s : string) : IPFamily := if has_char ":" s then IPv6 else if has_char "." s then IPv4 else IPFamilyUnknown.
#[local] Instance demo_app : AppLib := {|
  SetFromMap _ := None;
  validate _ := [];
  GetHostname s := if bool_decide (s = EmptyString) then Ret "node" else Ret s;
  IPFamilyOf ip := if bool_decide (To4 ip = []) then IPv6 else IPv4;
  IPFamilyOfString := demo_family;
  IPFamilyOfCIDRString := demo_family;
  ParseCIDRs _ := [];
  MapCIDRsByIPFamily l f := filter (λ c, demo_family c = if bool_decide (f = "IPv4") then IPv4 else IPv6) l;
  NewDetectLocalByCIDR c := Ret (ByCIDR c);
  NewDetectLocalByBridgeInterface n := Ret (ByBridge n);
  NewDetectLocalByInterfaceNamePrefix n := Ret (ByPrefix n);
  InClusterConfig := inl (mkRest "https://10.96.0.1" EmptyString EmptyString 0 0);
  Getenv _ := EmptyString;
  BuildConfigFromFlags _ _ := inr "no file";
  DeferredLoadingConfig _ _ := inr "no file";
  NewForConfig _ := inl () |}.

(** The flags ask for the iptables mode and for a detection by the node's CIDRs; neither is followed. *)
Definition demo_flags : Options :=
  mkOptions EmptyString EmptyString false
    (mkKPC "0.0.0.0" "0.0.0.0:10256" "127.0.0.1:10249" "fd00::/64,10.244.0.0/16" EmptyString "iptables" LocalModeNodeCIDR EmptyString EmptyString
       EmptyString [] [] EmptyString true 0 0 0 (Some 14) demo_config ∅ (mkCC EmptyString EmptyString "application/json" 5000 10)) EmptyString " Node-1 ".
Definition demo_setup : Machine :=
  mkMachine 8 (λ _, [192; 168; 1; 10]) (λ _, []) (Ret "5.15.0") (inl "7.15") true None 0.
Definition demo_empty_host : demo_host := (demo_kworld0, demo_limits).

Definition demo_options : Options := match Complete demo_flags with Ret o => o | _ => demo_flags end.
Definition demo_start_result := newProxyServer demo_setup (o_config demo_options) (o_master demo_options) demo_empty_host.
Definition demo_server : option ProxyServer := match demo_start_result.2 with Ret s => Some s | _ => None end.

Lemma returned_pair {A B} (r : A * outcome B) (o : option B) b :
  match r.2 with Ret s => Some s | _ => None end = o → o = Some b → r = (r.1, Ret b).
Proof. destruct r as [w [s| | |]]; cbn; by intros <- [= <-]. Qed.

Lemma newProxyServer_ok_witness :
  match demo_server with
  | Some s => (ps_Hostname s = "node-1" ∧ ps_detector s = ByCIDR "10.244.0.0/16") ∧
      ps_PrimaryIPFamily s = "IPv4" ∧ kernel_ready demo_start_result.1 ∧ ps_podCIDRs s = []
  | None => False
  end.
Proof.
  destruct demo_server as [s|] eqn:Es; [|by vm_compute in Es].
  destruct (newProxyServer_ok demo_flags demo_options demo_setup demo_empty_host demo_start_result.1 s) as (K1 & _ & _ & K4 & _ & K6 & _).
  - vm_compute. reflexivity.
  - exact (returned_pair demo_start_result demo_server s eq_refl Es).
  - split; [|split; [exact K1|split; [exact K4|exact K6]]].
    assert (Hn : option_map (λ s, (ps_Hostname s, ps_detector s)) demo_server = Some ("node-1", ByCIDR "10.244.0.0/16")) by (vm_compute; reflexivity).
    rewrite Es in Hn. injection Hn as H1 H2. split; [exact H1|exact H2].
Defined.

(** The selector does not protect the proxier: a slice with the name label but without the
    label of the service's namespace is shown to it, and the handler
    panics on it. *)
Theorem selected_slice_crashes :
  let slice := mkSlice (mkMeta "s" EmptyString "ns" EmptyString EmptyString 0 0 None
    (Some {[known_LabelServiceName := "web"; LabelServiceName := "web"]}) None [] []) "IPv4" [] [] in
  slice_selected (Labels (es_meta slice)) = true ∧
  OnEndpointSliceAdd (NewProxier "IPv4" "node" EmptyString [] 0) slice = Panic.
Proof. split; vm_compute; reflexivity. Qed.
End demo.
