(* ===== verification/SliceSync.v ===== *)
(** * Mirroring endpoint slices between namespaces and clusters

    The second half of [utils/endpointslice.go]: [ApplyEndPointSliceWithRetry] and
    [RemoveNonexistentEndpointslice], and the part the two multi-cluster service
    controllers share: remove what the source no longer has, then apply every
    source slice in a goroutine of its own.  [GoSched] is the order in which the
    goroutines run; the calls of one goroutine are not interleaved with those of
    another, which work on other names. *)
From Stdlib Require Import Ascii.
From stdpp Require Import prelude gmap strings list.
From S2P Require Import Prelude NetAddr K8s ProxyEndpoints HostPort Utils.
Open Scope Z_scope.

(** A label selector made from a set of labels. *)
Definition selects (sel : gmap string string) (s : EndpointSlice) : Prop := sel ⊆ mentries (Labels (es_meta s)).
#[export] Instance selects_dec sel s : Decision (selects sel s).
Proof. unfold selects. apply _. Defined.

Class SliceReader (W : Type) := {
  api_get : W → string → string → EndpointSlice + ApiError;
  api_list : W → string → gmap string string → list EndpointSlice + ApiError;
  api_delete_collection : W → string → gmap string string → W * option ApiError
}.

(** Reads see the stored slices; a call that fails because the object exists or
    because of a conflict changes nothing. *)
Class SliceReads (W : Type) `{SliceServer W} `{SliceReader W} := {
  api_named : ∀ w ns n s, api_slices w ns !! n = Some s → es_Name s = n;
  api_get_ok : ∀ w ns n s, api_get w ns n = inl s → api_slices w ns !! n = Some s;
  api_list_ok : ∀ w ns sel l, api_list w ns sel = inl l →
    ∀ s, s ∈ l ↔ api_slices w ns !! es_Name s = Some s ∧ selects sel s;
  api_delete_collection_ok : ∀ w ns sel w', api_delete_collection w ns sel = (w', None) →
    api_slices w' ns = filter (λ ns, ¬ selects sel (snd ns)) (api_slices w ns);
  api_create_rejected : ∀ w ns s w' e, api_create w ns s = (w', inr e) → IsAlreadyExists e || IsConflict e = true →
    api_slices w' ns = api_slices w ns;
  api_update_conflict : ∀ w ns s w' e, api_update w ns s = (w', inr e) → IsConflict e = true →
    api_slices w' ns = api_slices w ns
}.

(** The scheduler runs the goroutines in some order. *)
Class GoSched := {
  go_sched : ∀ {A : Type}, list A → list A;
  go_sched_perm : ∀ {A : Type} (l : list A), go_sched l ≡ₚ l
}.

(** What a slice publishes. *)
Definition payload (s : EndpointSlice) : string * list Endpoint * list EndpointPort :=
  (es_AddressType s, es_Endpoints s, es_Ports s).

(** A JSON patch between two slices that publish different things has an
    operation on one of the three fields. *)
Definition payload_path (path : string) : bool :=
  String.prefix "/addressType" path || String.prefix "/endpoints" path || String.prefix "/ports" path.
Class PatchLaws `{PatchLib EndpointSlice} := {
  patch_total : ∀ a b, is_Some (CreatePatch a b);
  patch_payload : ∀ a b ops, CreatePatch a b = Some ops → payload a ≠ payload b →
    ∃ op, op ∈ ops ∧ po_Operation op ∈ ["add"; "remove"; "replace"] ∧ payload_path (po_Path op) = true
}.

Section sync.
Context {W : Type} `{SliceClient W} `{SliceReader W} `{PatchLib EndpointSlice} `{GoSched} `{ClientGo}.

(** ** [ApplyEndPointSliceWithRetry] *)
Definition apply_slice (slice : EndpointSlice) (w : W) : W * option ApiError :=
  let ns := Namespace (es_meta slice) in
  match api_create w ns slice with
  | (w, inl _) => (w, None)
  | (w, inr lastError) =>
      if negb (IsAlreadyExists lastError) then (w, Some lastError)
      else match api_get w ns (es_Name slice) with
           | inr err => (w, Some err)
           | inl curObj =>
               if ResourceNeedResync curObj slice false then
                 let curObj := mkSlice (es_meta curObj) (es_AddressType slice) (es_Endpoints slice) (es_Ports slice) in
                 match api_update w ns curObj with
                 | (w, inl _) => (w, None)
                 | (w, inr lastError) => (w, Some lastError)
                 end
               else (w, None)
           end
  end.

Definition ApplyEndPointSliceWithRetry (w : W) (slice : EndpointSlice) : W * option ApiError :=
  RetryOnConflict (apply_slice slice) w.

(** ** [RemoveNonexistentEndpointslice] *)
Definition target_name (srcClusterID : string) (nameChanged : bool) (item : EndpointSlice) : string :=
  if nameChanged then srcClusterID +:+ "-" +:+ Namespace (es_meta item) +:+ "-" +:+ es_Name item else es_Name item.

Fixpoint remove_loop (w : W) (targetNamespace : string) (keep : gset string) (items : list EndpointSlice) : W * option ApiError :=
  match items with
  | [] => (w, None)
  | item :: rest =>
      if bool_decide (es_Name item ∈ keep) then remove_loop w targetNamespace keep rest
      else match api_delete w targetNamespace (es_Name item) with
           | (w, Some e) => (w, Some e)
           | (w, None) => remove_loop w targetNamespace keep rest
           end
  end.

(** [src] is the answer of the source lister; an error of the target's list is
    dropped. *)
Definition RemoveNonexistentEndpointslice (w : W) (src : list EndpointSlice + ApiError) (srcClusterID targetNamespace : string)
    (dstLabelMap : gmap string string) (nameChanged : bool) : W * (list EndpointSlice + ApiError) :=
  match (match src with inl l => inl l | inr e => if IsNotFound e then inl [] else inr e end) with
  | inr e => (w, inr e)
  | inl srcList =>
      let keep : gset string := list_to_set (target_name srcClusterID nameChanged <$> srcList) in
      match api_list w targetNamespace dstLabelMap with
      | inr _ => (w, inl srcList)
      | inl items => match remove_loop w targetNamespace keep items with
                     | (w, Some e) => (w, inr e)
                     | (w, None) => (w, inl srcList)
                     end
      end
  end.

(** ** The goroutines that apply the slices, and what each of them assigns to
    the error variable they share *)
Fixpoint apply_each (w : W) (slices : list EndpointSlice) : W * list (option ApiError) :=
  match slices with
  | [] => (w, [])
  | s :: rest =>
      let '(w, err) := ApplyEndPointSliceWithRetry w s in
      let '(w, errs) := apply_each w rest in
      (w, err :: errs)
  end.

Definition apply_all (w : W) (slices : list EndpointSlice) : W * list (option ApiError) := apply_each w (go_sched slices).

(** The common tail of the two handlers. *)
Definition sync_slices (w : W) (src : list EndpointSlice + ApiError) (srcClusterID targetNamespace : string)
    (dstLabelMap : gmap string string) (nameChanged : bool) (build : EndpointSlice → EndpointSlice) : W * list (option ApiError) :=
  match RemoveNonexistentEndpointslice w src srcClusterID targetNamespace dstLabelMap nameChanged with
  | (w, inr e) => (w, [Some e])
  | (w, inl endpointSliceList) => apply_all w (build <$> endpointSliceList)
  end.

(** ** Applying a slice *)
Context `{!SliceServer W} `{!SliceReads W} `{!PatchLaws}.

Lemma prefix_app p s : String.prefix p s = true → ∃ r, s = p +:+ r.
Proof.
  revert s. induction p as [|x p IH]; intros s Hp; [by exists s|]. destruct s as [|y s]; [done|]. cbn in Hp.
  destruct (ascii_dec x y) as [->|]; [|done]. destruct (IH s Hp) as [r ->]. by exists r.
Qed.

Lemma payload_counts op : po_Operation op ∈ ["add"; "remove"; "replace"] → payload_path (po_Path op) = true →
  patch_counts false op = true.
Proof.
  intros Hop Hpath. unfold patch_counts. apply andb_true_intro. split.
  - unfold shouldPatchBeIgnored, payload_path in *. rewrite !orb_true_iff in Hpath.
    destruct Hpath as [[Hp|Hp]|Hp]; apply prefix_app in Hp as [r ->]; reflexivity.
  - rewrite !elem_of_cons, elem_of_nil in Hop. destruct Hop as [->|[->|[->|[]]]]; reflexivity.
Qed.

Lemma needs_resync a b : payload a ≠ payload b → ResourceNeedResync a b false = true.
Proof.
  intros Hne. unfold ResourceNeedResync. destruct (patch_total a b) as [ops Hops]. rewrite Hops.
  destruct (patch_payload a b ops Hops Hne) as (op & Hin & Hop & Hpath).
  apply existsb_exists. exists op. split; [by apply list_elem_of_In|]. by apply payload_counts.
Qed.

(** The labels of a stored slice: the wanted ones when it was created, those it had
    when it was updated. *)
Definition labels_from (w : W) (ns : string) (s c : EndpointSlice) : Prop :=
  Labels (es_meta c) = Labels (es_meta s) ∨
  ∃ c0, api_slices w ns !! es_Name s = Some c0 ∧ Labels (es_meta c) = Labels (es_meta c0).

Lemma labels_from_selects w ns s c sel : labels_from w ns s c → selects sel s →
  (∀ c0, api_slices w ns !! es_Name s = Some c0 → selects sel c0) → selects sel c.
Proof. unfold selects. intros [->|(c0 & Hc0 & ->)] Hs Hold; [done|by apply Hold]. Qed.

Lemma labels_from_weaken w w1 ns s c : (∀ c0, api_slices w1 ns !! es_Name s = Some c0 → api_slices w ns !! es_Name s = Some c0) →
  labels_from w1 ns s c → labels_from w ns s c.
Proof. intros Hw [?|(c0 & Hc0 & ?)]; [by left|]. right. exists c0. split; [by apply Hw|done]. Qed.

(** The slice is stored with the wanted contents, and no other one changed. *)
Definition applied_as (w : W) (s : EndpointSlice) (w' : W) : Prop :=
  let ns := Namespace (es_meta s) in
  (∃ c, api_slices w' ns !! es_Name s = Some c ∧ payload c = payload s ∧ labels_from w ns s c) ∧
  ∀ n, n ≠ es_Name s → api_slices w' ns !! n = api_slices w ns !! n.

Lemma apply_slice_ok s w w' : es_Name s ≠ EmptyString → apply_slice s w = (w', None) → applied_as w s w'.
Proof.
  intros Hn E. unfold apply_slice in E. destruct (api_create w _ s) as [w1 [c|e1]] eqn:Ec.
  - simplify_eq. apply api_create_ok in Ec as (_ & _ & Hc & Hv & Hnm). specialize (Hnm Hn). split.
    + exists c. rewrite Hv, Hnm, lookup_insert_eq. destruct Hc as (? & ? & ? & ? & _).
      split_and!; [done|unfold payload; congruence|by left].
    + intros n Hne. by rewrite Hv, Hnm, lookup_insert_ne.
  - destruct (IsAlreadyExists e1) eqn:Hex; [|done]. cbn [negb] in E.
    pose proof (api_create_rejected _ _ _ _ _ Ec ltac:(by rewrite Hex)) as Hsame.
    destruct (api_get w1 _ _) as [cur|] eqn:Eg; [|done]. apply api_get_ok in Eg.
    destruct (ResourceNeedResync cur s false) eqn:Er.
    + destruct (api_update w1 _ _) as [w2 [c|e2]] eqn:Eu; simplify_eq.
      pose proof (api_named _ _ _ _ Eg) as Hcn. apply api_update_ok in Eu as (_ & Hcname & Hc & Hv).
      assert (Hv' : api_slices w' (Namespace (es_meta s)) = <[es_Name s := c]> (api_slices w1 (Namespace (es_meta s)))).
      { rewrite Hv. f_equal. exact Hcn. }
      split.
      * exists c. rewrite Hv', lookup_insert_eq. destruct Hc as (? & ? & ? & ? & _). simpl in *.
        split_and!; [done|unfold payload; congruence|]. right. exists cur. by rewrite <- Hsame.
      * intros n Hne. by rewrite Hv', lookup_insert_ne, Hsame.
    + simplify_eq. split.
      * exists cur. split_and!; [done| |right; exists cur; by rewrite <- Hsame].
        destruct (decide (payload cur = payload s)) as [|Hne]; [done|]. by rewrite needs_resync in Er.
      * intros n _. by rewrite Hsame.
Qed.

Lemma apply_slice_conflict s w w' e : apply_slice s w = (w', Some e) → IsConflict e = true →
  api_slices w' (Namespace (es_meta s)) = api_slices w (Namespace (es_meta s)).
Proof.
  intros E He. unfold apply_slice in E. destruct (api_create w _ s) as [w1 [c|e1]] eqn:Ec; [done|].
  destruct (IsAlreadyExists e1) eqn:Hex; cbn [negb] in E.
  - pose proof (api_create_rejected _ _ _ _ _ Ec ltac:(by rewrite Hex)) as Hsame.
    destruct (api_get w1 _ _) as [cur|]; [|by simplify_eq].
    destruct (ResourceNeedResync cur s false); [|done].
    destruct (api_update w1 _ _) as [w2 [c|e2]] eqn:Eu; simplify_eq.
    by rewrite (api_update_conflict _ _ _ _ _ Eu He).
  - simplify_eq. eapply api_create_rejected; [done|]. by rewrite He, orb_true_r.
Qed.

Lemma retry_apply_ok s w w' : es_Name s ≠ EmptyString → ApplyEndPointSliceWithRetry w s = (w', None) → applied_as w s w'.
Proof.
  intros Hn E. apply RetryOnConflict_run in E. remember None as r eqn:Hr. revert Hr.
  induction E as [w w' r E|w w1 e w' r E He _ IH]; intros ->; [by apply apply_slice_ok|].
  destruct (IH eq_refl) as [(c & Hc & Hp & Hl) Ho]. pose proof (apply_slice_conflict _ _ _ _ E He) as Hsame. split.
  - exists c. split_and!; [done..|]. revert Hl. apply labels_from_weaken. intros c0. by rewrite Hsame.
  - intros n Hne. by rewrite Ho, Hsame.
Qed.

(** A successful [ApplyEndPointSliceWithRetry], whatever conflicts it met on
    the way, leaves the slice stored under its name with the wanted address
    type, endpoints and ports, and no other slice of the namespace changed. *)
Theorem ApplyEndPointSliceWithRetry_ok w s w' : es_Name s ≠ EmptyString →
  ApplyEndPointSliceWithRetry w s = (w', None) → applied_as w s w'.
Proof. apply retry_apply_ok. Qed.

(** ** Removing what the source no longer has *)
Lemma remove_loop_ok ns keep items w w' :
  remove_loop w ns keep items = (w', None) →
  ∀ n, api_slices w' ns !! n =
    if bool_decide (n ∉ keep ∧ n ∈ es_Name <$> items) then None else api_slices w ns !! n.
Proof.
  revert w. induction items as [|item items IH]; intros w; cbn [remove_loop].
  { intros [= <-] n. rewrite bool_decide_eq_false_2; [done|]. set_solver. }
  case_bool_decide as Hk.
  - intros E n. rewrite (IH _ E). apply (f_equal (λ b : bool, if b then None else _)), bool_decide_ext. set_solver.
  - destruct (api_delete w ns (es_Name item)) as [w1 [e|]] eqn:Ed; [done|]. intros E n. rewrite (IH _ E).
    rewrite (api_delete_ok _ _ _ _ Ed). destruct (decide (n = es_Name item)) as [->|Hne].
    + rewrite lookup_delete_eq. trans (None : option EndpointSlice); [by destruct (bool_decide _)|].
      rewrite bool_decide_eq_true_2; [done|]. split; [done|]. rewrite fmap_cons. by left.
    + rewrite lookup_delete_ne by done. apply (f_equal (λ b : bool, if b then None else _)), bool_decide_ext. set_solver.
Qed.

Lemma apply_each_ok ns l w w' errs :
  NoDup (es_Name <$> l) → Forall (λ s, es_Name s ≠ EmptyString ∧ Namespace (es_meta s) = ns) l →
  apply_each w l = (w', errs) → Forall (λ e, e = None) errs →
  (∀ s, s ∈ l → ∃ c, api_slices w' ns !! es_Name s = Some c ∧ payload c = payload s ∧ labels_from w ns s c) ∧
  (∀ n, n ∉ es_Name <$> l → api_slices w' ns !! n = api_slices w ns !! n).
Proof.
  revert w errs. induction l as [|s l IH]; intros w errs0 Hnd Hall; cbn [apply_each].
  { intros [= <- <-] _. split; [by intros s ?%elem_of_nil|done]. }
  rewrite fmap_cons, NoDup_cons in Hnd. destruct Hnd as [Hni Hnd]. apply Forall_cons in Hall as [[Hn Hns] Hall].
  destruct (ApplyEndPointSliceWithRetry w s) as [w1 e] eqn:Ea. destruct (apply_each w1 l) as [w2 errs] eqn:El.
  intros [= <- <-] [He Herrs]%Forall_cons. subst e. apply retry_apply_ok in Ea as [(c & Hc & Hp & Hl) Ho]; [|done].
  rewrite Hns in Hc, Hl, Ho.
  destruct (IH w1 _ Hnd Hall El Herrs) as [I1 I2]. split.
  - intros s' [->|Hin]%elem_of_cons; [exists c; by rewrite I2|].
    destruct (I1 s' Hin) as (c' & Hc' & Hp' & Hl'). exists c'. split_and!; [done..|]. revert Hl'. apply labels_from_weaken.
    intros c0. rewrite Ho; [done|]. intros Heq. apply Hni. rewrite <- Heq. by apply list_elem_of_fmap_2.
  - intros n Hnin. rewrite fmap_cons, not_elem_of_cons in Hnin. destruct Hnin as [Hne Hnin]. by rewrite I2, Ho.
Qed.

(** The target namespace mirrors the source: every source slice is published
    under its name, and of the others exactly those are left, unchanged, that do
    not carry the labels. *)
Definition mirrors (w : W) (src : list EndpointSlice) (ns : string) (dst : gmap string string)
    (build : EndpointSlice → EndpointSlice) (w' : W) : Prop :=
  (∀ s, s ∈ src → ∃ c, api_slices w' ns !! es_Name (build s) = Some c ∧ payload c = payload (build s)) ∧
  (∀ n c, n ∉ (es_Name ∘ build) <$> src →
          api_slices w' ns !! n = Some c ↔ api_slices w ns !! n = Some c ∧ ¬ selects dst c).

(** No other slice of the target carries the labels. *)
Lemma mirrors_only w src ns dst build w' n c : mirrors w src ns dst build w' →
  api_slices w' ns !! n = Some c → selects dst c → ∃ s, s ∈ src ∧ n = es_Name (build s).
Proof.
  intros [_ Hm] Hc Hsel. destruct (decide (n ∈ (es_Name ∘ build) <$> src)) as [Hin|Hnin].
  - apply list_elem_of_fmap in Hin as (s & -> & Hs). by exists s.
  - by apply Hm in Hc as [_ Hns].
Qed.

(** The slices of the target carry the labels they were built with, or had before. *)
Definition keeps_labels (w : W) (src : list EndpointSlice) (ns : string) (build : EndpointSlice → EndpointSlice) (w' : W) : Prop :=
  ∀ s c, s ∈ src → api_slices w' ns !! es_Name (build s) = Some c → labels_from w ns (build s) c.

Lemma sync_slices_mirrors w src cluster ns dst changed build w' items errs :
  NoDup ((es_Name ∘ build) <$> src) →
  Forall (λ s, es_Name (build s) = target_name cluster changed s ∧ es_Name (build s) ≠ EmptyString ∧
               Namespace (es_meta (build s)) = ns) src →
  api_list w ns dst = inl items →
  sync_slices w (inl src) cluster ns dst changed build = (w', errs) → Forall (λ e, e = None) errs →
  mirrors w src ns dst build w' ∧ keeps_labels w src ns build w'.
Proof.
  intros Hnd Hall Hlist E Herrs. unfold sync_slices, RemoveNonexistentEndpointslice in E. rewrite Hlist in E.
  set (keep := list_to_set (target_name cluster changed <$> src) : gset string) in E.
  destruct (remove_loop w ns keep items) as [w1 [e|]] eqn:Er.
  { simplify_eq. by apply Forall_cons in Herrs as [? _]. }
  pose proof (remove_loop_ok _ _ _ _ _ Er) as Hrem. unfold apply_all in E.
  assert (Hnames : es_Name <$> go_sched (build <$> src) ≡ₚ (es_Name ∘ build) <$> src).
  { by rewrite go_sched_perm, <- list_fmap_compose. }
  apply (apply_each_ok ns) in E as [A1 A2]; [|..|done].
  2:{ by rewrite Hnames. }
  2:{ rewrite go_sched_perm, Forall_fmap. eapply Forall_impl; [exact Hall|]. intros s (_ & ? & ?). by split. }
  setoid_rewrite Hnames in A2.
  assert (Hkeep : ∀ n, n ∈ keep ↔ n ∈ (es_Name ∘ build) <$> src).
  { intros n. unfold keep. rewrite elem_of_list_to_set, !list_elem_of_fmap. rewrite Forall_forall in Hall.
    split; intros (s & -> & Hs); exists s; (split; [|done]); destruct (Hall s Hs) as [Heq _]; cbn; congruence. }
  assert (A1' : ∀ s, s ∈ src → ∃ c, api_slices w' ns !! es_Name (build s) = Some c ∧ payload c = payload (build s) ∧
    labels_from w1 ns (build s) c).
  { intros s Hs. apply (A1 (build s)). rewrite go_sched_perm. by apply list_elem_of_fmap_2. }
  unfold mirrors. split_and!.
  - intros s Hs. destruct (A1' s Hs) as (c & Hc & Hp & _). by exists c.
  - intros n c Hnin. rewrite A2, Hrem by done. case_bool_decide as Hb.
    + split; [done|]. intros [Hc Hsel]. destruct Hb as [_ (c' & -> & Hc')%list_elem_of_fmap].
      apply (api_list_ok _ _ _ _ Hlist) in Hc' as [Hc' Hsel']. rewrite Hc' in Hc. by simplify_eq.
    + split; [|by intros []]. intros Hc. split; [done|]. intros Hsel. apply Hb. split; [by rewrite Hkeep|].
      pose proof (api_named _ _ _ _ Hc) as Hn. apply list_elem_of_fmap. exists c. split; [done|].
      apply (api_list_ok _ _ _ _ Hlist). by rewrite Hn.
  - intros s c Hs Hc. destruct (A1' s Hs) as (c' & Hc' & _ & Hl). rewrite Hc in Hc'. injection Hc' as <-.
    revert Hl. apply labels_from_weaken. intros c0. rewrite Hrem. by case_bool_decide.
Qed.
End sync.

(** ** A concrete server with reads, for examples *)
Definition demo_reader : SliceReader demo_world := {|
  api_get := λ w ns n, match demo_slices w ns !! n with Some s => inl s | None => inr (mkErr ReasonNotFound "not found") end;
  api_list := λ w ns sel, inl (filter (selects sel) (map_to_list (demo_slices w ns)).*2);
  api_delete_collection := λ w ns sel, (<[ns := filter (λ x, ¬ selects sel (snd x)) (demo_slices w ns)]> w, None)
|}.

Program Definition demo_reads : @SliceReads demo_world demo_client demo_server demo_reader := {| api_named := _ |}.
Next Obligation. intros w ns n s Hs. by apply named_slices_lookup in Hs. Qed.
Next Obligation. simpl. intros w ns n s. destruct (demo_slices w ns !! n); by intros [= <-]. Qed.
Next Obligation.
  simpl. intros w ns sel l [= <-] s. rewrite list_elem_of_filter, list_elem_of_fmap. split.
  - intros (Hsel & [n s'] & -> & Hin). apply elem_of_map_to_list in Hin. simpl.
    by rewrite (named_slices_lookup _ _ _ Hin).
  - intros [Hs Hsel]. split; [done|]. exists (es_Name s, s). split; [done|]. by apply elem_of_map_to_list.
Qed.
Next Obligation.
  simpl. intros w ns sel w' [= <-]. apply demo_slices_set. intros n s Hs. apply map_lookup_filter_Some in Hs as [Hs _].
  by apply named_slices_lookup in Hs.
Qed.
Next Obligation. simpl. intros w ns s w' e. case_match; by intros [= <- <-]. Qed.
Next Obligation. simpl. intros w ns s w' e. case_match; by intros [= <- <-]. Qed.

Definition demo_sched : GoSched := {| go_sched := λ A l, reverse l; go_sched_perm := λ A l, reverse_Permutation l |}.

(** A patch library that replaces the fields that differ. *)
Definition demo_patch : PatchLib EndpointSlice := {|
  CreatePatch := λ a b, Some (if bool_decide (payload a = payload b) then [] else [mkPatch "replace" "/endpoints"]) |}.
Lemma demo_patchlaws : @PatchLaws demo_patch.
Proof.
  split; simpl.
  - eauto.
  - intros a b ops [= <-] Hne. rewrite bool_decide_eq_false_2 by done. eexists. split; [by left|]. split; [set_solver|done].
Qed.

Definition demo_named (n addr : string) : EndpointSlice :=
  mkSlice (set_Name n (mkMeta EmptyString EmptyString "ns" EmptyString EmptyString 0 0 None None None [] []))
    "IPv4" [mkEp [addr] (Some true) None None None None None None None] [].

Lemma ApplyEndPointSliceWithRetry_ok_witness :
  let w := {["ns" := {["s" := demo_named "s" "10.0.0.1"]}]} : demo_world in
  let r := @ApplyEndPointSliceWithRetry _ demo_client demo_reader demo_patch demo_clientgo w (demo_named "s" "10.0.0.2") in
  snd r = None ∧ @applied_as _ demo_client demo_server w (demo_named "s" "10.0.0.2") (fst r).
Proof.
  split; [vm_compute; reflexivity|].
  apply (@ApplyEndPointSliceWithRetry_ok _ demo_client demo_reader demo_patch demo_clientgo demo_server demo_reads demo_patchlaws);
    [done|vm_compute; reflexivity].
Defined.
