(* ===== verification/EpController.v ===== *)
(** * The endpoint slice controller

    [pkg/controller/endpointslice/endpointslice.go]: the event handlers, the work
    queue and the sync of one service.  The work queue of [client-go] is the class
    [WorkQueue]; the listers (informer caches) are the record [Listers]; the tracker
    and the topology cache are shared with the reconciler and live in its state. *)
From stdpp Require Import prelude gmap strings list.
From S2P Require Import Prelude K8s EpUtil Tracker SliceUtils Topology PortMapping Reconciler ReconcileSpec ProxyEndpoints HostPort Utils SliceSync.
Open Scope Z_scope.

(** [workqueue.RateLimitingInterface]; [q_Get] blocks until there is a key or the
    queue shuts down. *)
Class WorkQueue (Q : Type) := {
  q_Add : Q → string → Q;
  q_AddAfter : Q → string → Z → Q;
  q_AddRateLimited : Q → string → Q;
  q_Forget : Q → string → Q;
  q_NumRequeues : Q → string → Z;
  q_Get : Q → Q * option string;
  q_Done : Q → string → Q
}.

(** A key that was added, now or after a delay, is due until a worker gets it;
    [AddRateLimited] counts the failures of its key, [Forget] clears the count, and
    no other call touches a count. *)
Class QueueLaws (Q : Type) `{WorkQueue Q} := {
  q_due : Q → gset string;
  q_Add_due : ∀ q k, q_due (q_Add q k) = {[k]} ∪ q_due q;
  q_AddAfter_due : ∀ q k d, q_due (q_AddAfter q k d) = {[k]} ∪ q_due q;
  q_AddRateLimited_due : ∀ q k, q_due (q_AddRateLimited q k) = {[k]} ∪ q_due q;
  q_Forget_due : ∀ q k, q_due (q_Forget q k) = q_due q;
  q_Done_due : ∀ q k, q_due (q_Done q k) = q_due q;
  q_Get_due : ∀ q q' k, q_Get q = (q', Some k) → k ∈ q_due q ∧ q_due q' = q_due q ∖ {[k]};
  q_AddRateLimited_num : ∀ q k j, q_NumRequeues (q_AddRateLimited q k) j = q_NumRequeues q j + (if bool_decide (j = k) then 1 else 0);
  q_Forget_num : ∀ q k j, q_NumRequeues (q_Forget q k) j = if bool_decide (j = k) then 0 else q_NumRequeues q j;
  q_Done_num : ∀ q k j, q_NumRequeues (q_Done q k) j = q_NumRequeues q j;
  q_Get_num : ∀ q j, q_NumRequeues (fst (q_Get q)) j = q_NumRequeues q j
}.

(** The informer caches. *)
Record Listers := mkListers {
  services_Get : string → string → Service + ApiError;
  services_List : string → outcome (list Service);
  pods_List : string → gmap string string → list Pod + ApiError;
  slices_List : string → gmap string string → list EndpointSlice + ApiError;
  nodes_List : list Node + ApiError;
  nodes_Get : string → Node + ApiError }.

(** The configuration of a [Controller], and its state. *)
Record ControllerConfig := mkCC { cc_reconciler : ReconcilerConfig; cc_endpointUpdatesBatchPeriod : Z; cc_topologyFuel : nat }.
Record CState (W Q : Type) := mkCS {
  cs_rec : RState W; cs_triggerTimeTracker : TriggerTimeTracker; cs_queue : Q; cs_syncs : gmap string Z }.
Arguments mkCS {W Q} _ _ _ _.
Arguments cs_rec {W Q} _.
Arguments cs_triggerTimeTracker {W Q} _.
Arguments cs_queue {W Q} _.
Arguments cs_syncs {W Q} _.

(** An error of a sync; [utilerrors.NewAggregate] prints a list of them. *)
Inductive SyncErr := StaleInformerCache (msg : string) | SyncError (msg : string).
Class AggLib := { Aggregate_Error : list string → string }.

Definition maxRetries : Z := 15.
Definition second : Z := 1000000000.
Definition endpointSliceChangeMinSyncDelay : Z := second.
Definition ServiceTypeExternalName : string := "ExternalName".

Definition dropEndpointSlicesPendingDeletion (endpointSlices : list EndpointSlice) : list EndpointSlice :=
  filter (λ s, DeletionTimestamp (es_meta s) = None) endpointSlices.

Definition IsStaleInformerCacheErr (e : SyncErr) : bool := match e with StaleInformerCache _ => true | _ => false end.

(** What an informer hands to a delete handler, for slices and for services. *)
Inductive DeletedSlice :=
  | SliceObj (s : option EndpointSlice)
  | SliceTombstone (obj : option (option EndpointSlice))
  | SliceOther.
Definition getEndpointSliceFromDeleteAction (obj : DeletedSlice) : option EndpointSlice :=
  match obj with
  | SliceObj s => s
  | SliceTombstone (Some s) => s
  | SliceTombstone None => None
  | SliceOther => None
  end.

Section controller.
Context `{GoRuntime} `{EpLib} `{SliceLib} `{QuantityLib} `{SliceClient W} `{WorkQueue Q} `{ClientGo} `{AggLib}.
Context (c : ControllerConfig) (l : Listers).

Abbreviation state := (CState W Q).

Definition set_queue (q : Q) (st : state) : state := mkCS (cs_rec st) (cs_triggerTimeTracker st) q (cs_syncs st).
Definition set_rec (r : RState W) (st : state) : state := mkCS r (cs_triggerTimeTracker st) (cs_queue st) (cs_syncs st).
Definition set_tracker (t : EndpointSliceTracker) (st : state) : state :=
  set_rec (mkRS (rs_api (cs_rec st)) t (rs_metrics (cs_rec st)) (rs_topology (cs_rec st)) (rs_events (cs_rec st))) st.
Definition tracker (st : state) : EndpointSliceTracker := rs_tracker (cs_rec st).

(** [c.eventRecorder.Eventf] with a warning. *)
Definition warn (reason what : string) (service : Service) (err : string) (st : state) : state :=
  set_rec (mkRS (rs_api (cs_rec st)) (rs_tracker (cs_rec st)) (rs_metrics (cs_rec st)) (rs_topology (cs_rec st))
    (rs_events (cs_rec st) ++ [mkEvent "Warning" reason ("Error " +:+ what +:+ " for Service " +:+ Namespace (svc_meta service) +:+ "/"
      +:+ Name (svc_meta service) +:+ ": " +:+ err)])) st.

(** ** The sync of one service *)
Definition syncService (st : state) (key : string) : outcome (state * option SyncErr) :=
  match SplitMetaNamespaceKey key with
  | None => Ret (st, Some (SyncError ("unexpected key format: " +:+ key)))
  | Some (namespace, name) =>
      match services_Get l namespace name with
      | inr e =>
          if negb (IsNotFound e) then Ret (st, Some (SyncError (err_msg e)))
          else
            let ttt := TTT_DeleteService (cs_triggerTimeTracker st) namespace name in
            let r := Reconciler_DeleteService (cs_rec st) namespace name in
            let st := mkCS r ttt (cs_queue st) (cs_syncs st) in
            Ret (set_tracker (Tracker_DeleteService (tracker st) namespace name) st, None)
      | inl service =>
          if bool_decide (svc_Type service = ServiceTypeExternalName) then Ret (st, None)
          else match svc_Selector service with
          | None => Ret (st, None)
          | Some selector =>
              match pods_List l (Namespace (svc_meta service)) selector with
              | inr e => Ret (warn "FailedToListPods" "listing Pods" service (err_msg e) st, Some (SyncError (err_msg e)))
              | inl pods =>
                  let esLabelSelector : gmap string string :=
                    <[LabelManagedBy := GetControllerName (cc_reconciler c)]> {[LabelServiceName := Name (svc_meta service)]} in
                  match slices_List l (Namespace (svc_meta service)) esLabelSelector with
                  | inr e => Ret (warn "FailedToListEndpointSlices" "listing Endpoint Slices" service (err_msg e) st, Some (SyncError (err_msg e)))
                  | inl listed =>
                      let endpointSlices := dropEndpointSlicesPendingDeletion listed in
                      if StaleSlices (tracker st) service endpointSlices
                      then Ret (st, Some (StaleInformerCache "EndpointSlice informer cache is out of date"))
                      else
                        let '(ttt, lastChangeTriggerTime) :=
                          ComputeEndpointLastChangeTriggerTime (cs_triggerTimeTracker st) namespace service pods in
                        let st := mkCS (cs_rec st) ttt (cs_queue st) (cs_syncs st) in
                        '(r, errs) ← Reconcile (nodes_Get l) (cc_topologyFuel c) (cc_reconciler c) (cs_rec st) service pods
                                       endpointSlices lastChangeTriggerTime;
                        let st := set_rec r st in
                        match errs with
                        | [] => Ret (st, None)
                        | _ => let msg := Aggregate_Error errs in
                               Ret (warn "FailedToUpdateEndpointSlices" "updating Endpoint Slices" service msg st, Some (SyncError msg))
                        end
                  end
              end
          end
      end
  end.

(** ** The worker *)
Definition trackSync (st : state) (err : option SyncErr) : state :=
  let metricLabel := match err with
                     | None => "success"
                     | Some e => if IsStaleInformerCacheErr e then "stale" else "error"
                     end in
  mkCS (cs_rec st) (cs_triggerTimeTracker st) (cs_queue st) (<[metricLabel := default 0 (cs_syncs st !! metricLabel) + 1]> (cs_syncs st)).

Definition handleErr (st : state) (err : option SyncErr) (key : string) : state :=
  let st := trackSync st err in
  let q := cs_queue st in
  match err with
  | None => set_queue (q_Forget q key) st
  | Some _ => if q_NumRequeues q key <? maxRetries then set_queue (q_AddRateLimited q key) st
              else set_queue (q_Forget q key) st
  end.

Definition processNextWorkItem (st : state) : outcome (state * bool) :=
  match q_Get (cs_queue st) with
  | (q, None) => Ret (set_queue q st, false)
  | (q, Some cKey) =>
      '(st, err) ← syncService (set_queue q st) cKey;
      let st := handleErr st err cKey in
      Ret (set_queue (q_Done (cs_queue st) cKey) st, true)
  end.

(** [for c.processNextWorkItem() {}], still running when the fuel ends. *)
Fixpoint worker (fuel : nat) (st : state) : outcome state :=
  match fuel with
  | O => Spin
  | S fuel => '(st, more) ← processNextWorkItem st; if (more : bool) then worker fuel st else Ret st
  end.

(** ** Event handlers: services *)

(** The informer's object, or the key of one whose deletion was missed. *)
Inductive ServiceObj := ServiceEvent (s : Service) | ServiceTombstone (key : string) | ServiceOther.
Definition KeyFunc (obj : ServiceObj) : outcome string :=
  match obj with
  | ServiceEvent s => meta_key (svc_meta s)
  | ServiceTombstone key => Ret key
  | ServiceOther => Err "object has no meta"
  end.

Definition enqueue (st : state) (key : string) : state := set_queue (q_Add (cs_queue st) key) st.
Definition onServiceUpdate (st : state) (obj : ServiceObj) : state :=
  match KeyFunc obj with Ret key => enqueue st key | _ => st end.
Definition onServiceDelete (st : state) (obj : ServiceObj) : state :=
  match KeyFunc obj with Ret key => enqueue st key | _ => st end.

(** ** Event handlers: endpoint slices *)
Definition queueServiceForEndpointSlice (st : state) (endpointSlice : EndpointSlice) : state :=
  match ServiceControllerKey (Some endpointSlice) with
  | Ret key =>
      let delay := if endpointSliceChangeMinSyncDelay <? cc_endpointUpdatesBatchPeriod c
                   then cc_endpointUpdatesBatchPeriod c else endpointSliceChangeMinSyncDelay in
      set_queue (q_AddAfter (cs_queue st) key delay) st
  | _ => st
  end.

Definition onEndpointSliceAdd (st : state) (obj : option EndpointSlice) : state :=
  match obj with
  | None => st
  | Some endpointSlice =>
      if ManagedByController (cc_reconciler c) endpointSlice && ShouldSync (tracker st) endpointSlice
      then queueServiceForEndpointSlice st endpointSlice else st
  end.

Definition onEndpointSliceUpdate (st : state) (prevObj obj : option EndpointSlice) : state :=
  match prevObj, obj with
  | Some prevEndpointSlice, Some endpointSlice =>
      let svcName := mstr (Labels (es_meta endpointSlice)) LabelServiceName in
      let prevSvcName := mstr (Labels (es_meta prevEndpointSlice)) LabelServiceName in
      if bool_decide (svcName ≠ prevSvcName) then
        queueServiceForEndpointSlice (queueServiceForEndpointSlice st endpointSlice) prevEndpointSlice
      else if ManagedByChanged (cc_reconciler c) prevEndpointSlice endpointSlice
              || ManagedByController (cc_reconciler c) endpointSlice && ShouldSync (tracker st) endpointSlice
      then queueServiceForEndpointSlice st endpointSlice else st
  | _, _ => st
  end.

Definition onEndpointSliceDelete (st : state) (obj : DeletedSlice) : state :=
  match getEndpointSliceFromDeleteAction obj with
  | None => st
  | Some endpointSlice =>
      if ManagedByController (cc_reconciler c) endpointSlice && Tracker_Has (tracker st) endpointSlice then
        let '(t, handled) := HandleDeletion (tracker st) endpointSlice in
        let st := set_tracker t st in
        if negb handled then queueServiceForEndpointSlice st endpointSlice else st
      else st
  end.

(** ** Event handlers: pods and nodes *)
Definition queue_all (st : state) (keys : gset string) : state :=
  foldl (λ st key, set_queue (q_AddAfter (cs_queue st) key (cc_endpointUpdatesBatchPeriod c)) st) st (UnsortedList keys).

Definition addPod (st : state) (pod : Pod) : outcome state :=
  match GetPodServiceMemberships (services_List l) pod with
  | Ret services => Ret (queue_all st services)
  | Err _ => Ret st
  | Panic => Panic
  | Spin => Spin
  end.

Definition updatePod (st : state) (old cur : Pod) : outcome state :=
  services ← GetServicesToUpdateOnPodChange (services_List l) old cur; Ret (queue_all st services).

Definition deletePod (st : state) (obj : DeletedObj) : outcome state :=
  match GetPodFromDeleteAction obj with Some pod => addPod st pod | None => Ret st end.

Definition checkNodeTopologyDistribution (st : state) : state :=
  match rs_topology (cs_rec st) with
  | None => st
  | Some t =>
      match nodes_List l with
      | inr _ => st
      | inl nodes =>
          let t := SetNodes t nodes in
          let r := cs_rec st in
          let st := set_rec (mkRS (rs_api r) (rs_tracker r) (rs_metrics r) (Some t) (rs_events r)) st in
          foldl enqueue st (GetOverloadedServices t)
      end
  end.

Definition addNode (st : state) : state := checkNodeTopologyDistribution st.
Definition deleteNode (st : state) : state := checkNodeTopologyDistribution st.
Definition updateNode (st : state) (oldNode curNode : Node) : state :=
  if negb (eqb (isNodeReady oldNode) (isNodeReady curNode))
     || bool_decide (mstr (Labels (node_meta oldNode)) LabelTopologyZone ≠ mstr (Labels (node_meta curNode)) LabelTopologyZone)
  then checkNodeTopologyDistribution st else st.

(** ** [NewController] *)
Definition NewController (w : W) (q : Q) (topologyAwareHints : bool) (maxEndpointsPerSlice : Z) : state :=
  let topologyCache := if topologyAwareHints then Some NewTopologyCache else None in
  mkCS (NewReconciler w maxEndpointsPerSlice NewEndpointSliceTracker topologyCache) NewTriggerTimeTracker q ∅.
End controller.

(** ** What the workers do with the queue *)
Section queue_theorems.
Context `{GoRuntime} `{EpLib} `{SliceLib} `{QuantityLib} `{SliceClient W} `{QueueLaws Q} `{ClientGo} `{AggLib}.
Context (c : ControllerConfig) (l : Listers).

Abbreviation state := (CState W Q).

(** A sync does not touch the queue. *)
Lemma syncService_queue (st st' : state) key err :
  syncService c l st key = Ret (st', err) → cs_queue st' = cs_queue st.
Proof.
  unfold syncService, set_tracker, set_rec, warn. intros Hs.
  repeat (case_match; simplify_eq/=; try done).
  apply bind_Ret in Hs as ([r errs] & _ & Hs). case_match; by simplify_eq/=.
Qed.

(** One item: what becomes of the counts and of the keys that are due. *)
Definition dropped (st : state) (key : string) (err : option SyncErr) : bool :=
  match err with None => true | Some _ => maxRetries <=? q_NumRequeues (cs_queue st) key end.

Lemma processNextWorkItem_effect (st st' : state) (more : bool) :
  processNextWorkItem c l st = Ret (st', more) →
  (more = false ∧ snd (q_Get (cs_queue st)) = None) ∨
  ∃ key st1 err, snd (q_Get (cs_queue st)) = Some key ∧ more = true ∧ key ∈ q_due (cs_queue st) ∧
    syncService c l (set_queue (fst (q_Get (cs_queue st))) st) key = Ret (st1, err) ∧
    q_due (cs_queue st') = (if dropped st key err then ∅ else {[key]}) ∪ q_due (cs_queue st) ∖ {[key]} ∧
    ∀ j, q_NumRequeues (cs_queue st') j =
      if bool_decide (j = key) then (if dropped st key err then 0 else q_NumRequeues (cs_queue st) key + 1)
      else q_NumRequeues (cs_queue st) j.
Proof.
  unfold processNextWorkItem. destruct (q_Get (cs_queue st)) as [q [key|]] eqn:Eg; [|intros [= _ <-]; by left].
  intros ([st1 err] & Es & [= <- <-])%bind_Ret. right. exists key, st1, err. cbn [fst snd].
  destruct (q_Get_due _ _ _ Eg) as [Hin Hdue].
  assert (∀ j, q_NumRequeues q j = q_NumRequeues (cs_queue st) j) as Hnum.
  { intros j. change q with (fst (q, Some key)). rewrite <- Eg. apply q_Get_num. }
  pose proof (syncService_queue _ _ _ _ Es) as Hq. cbn [set_queue cs_queue] in Hq.
  do 4 (split; [done|]). unfold handleErr, dropped, trackSync. cbn [cs_queue set_queue].
  rewrite Hq, q_Done_due, <- (Hnum key). destruct err as [e|]; cbn [cs_queue].
  - rewrite Z.leb_antisym. destruct (q_NumRequeues q key <? maxRetries); cbn [negb cs_queue set_queue].
    + rewrite q_AddRateLimited_due, Hdue. split; [done|]. intros j.
      rewrite q_Done_num, q_AddRateLimited_num, Hnum. case_bool_decide; subst; rewrite ?Hnum; lia.
    + rewrite q_Forget_due, Hdue. split; [set_solver|]. intros j. rewrite q_Done_num, q_Forget_num, Hnum. done.
  - cbn [cs_queue set_queue]. rewrite q_Forget_due, Hdue. split; [set_solver|].
    intros j. rewrite q_Done_num, q_Forget_num, Hnum. done.
Qed.
(** A run of a worker in which the service [key] fails [n] times and never
    succeeds; other services are synced in between. *)
Inductive failing (key : string) : nat → state → state → Prop :=
  | failing_refl st : failing key 0 st st
  | failing_other n st st1 st' other :
      failing key n st st1 → snd (q_Get (cs_queue st1)) = Some other → other ≠ key →
      processNextWorkItem c l st1 = Ret (st', true) → failing key n st st'
  | failing_once n st st1 st2 st' e :
      failing key n st st1 → snd (q_Get (cs_queue st1)) = Some key →
      syncService c l (set_queue (fst (q_Get (cs_queue st1))) st1) key = Ret (st2, Some e) →
      processNextWorkItem c l st1 = Ret (st', true) → failing key (S n) st st'.

(** C24: the retry budget.  A service whose syncs keep failing is put back in the
    queue after each of its first fifteen failures, whatever other services are
    synced in between; the sixteenth failure drops it and clears its count, and
    unless an event queues it again there is no seventeenth. *)
Theorem retry_budget key n st st' :
  failing key n st st' → q_NumRequeues (cs_queue st) key = 0 → key ∈ q_due (cs_queue st) →
  (n ≤ 16)%nat ∧
  if (n =? 16)%nat then q_NumRequeues (cs_queue st') key = 0 ∧ key ∉ q_due (cs_queue st')
  else q_NumRequeues (cs_queue st') key = Z.of_nat n ∧ key ∈ q_due (cs_queue st').
Proof.
  induction 1 as [st|n st st1 st' other Hf IH Hg Hne Hp|n st st1 st2 st' e Hf IH Hg Hs Hp]; intros H0' Hin; [split; [lia|done]|..].
  - destruct IH as [Hle IH]; [done..|]. split; [done|].
    apply processNextWorkItem_effect in Hp as [[? _]|(k & s1 & err & Hk & _ & _ & _ & Hdue & Hnum)]; [done|].
    rewrite Hg in Hk. injection Hk as <-. rewrite Hnum, bool_decide_false, Hdue by done.
    destruct (n =? 16)%nat; (split; [apply IH|]); destruct IH; case_match; set_solver.
  - destruct IH as [Hle IH]; [done..|].
    apply processNextWorkItem_effect in Hp as [[? _]|(k & s1 & err & Hk & _ & Hkd & Hs' & Hdue & Hnum)]; [done|].
    rewrite Hg in Hk. injection Hk as <-. rewrite Hs in Hs'. injection Hs' as _ <-.
    destruct (Nat.eqb_spec n 16); [by destruct IH|]. destruct IH as [IHn _]. split; [lia|].
    rewrite Hnum, bool_decide_true, Hdue by done. unfold dropped, maxRetries. rewrite IHn.
    destruct (Z.leb_spec 15 (Z.of_nat n)), (Nat.eqb_spec (S n) 16); try lia; (split; [lia|set_solver]).
Qed.

(** ** Which slice events queue a service *)
Lemma queueServiceForEndpointSlice_due (st : state) s key :
  ServiceControllerKey (Some s) = Ret key →
  q_due (cs_queue (queueServiceForEndpointSlice c st s)) = {[key]} ∪ q_due (cs_queue st).
Proof. unfold queueServiceForEndpointSlice. intros ->. cbn [cs_queue set_queue]. apply q_AddAfter_due. Qed.

(** The version of [s] is not newer than what the controller itself wrote last. *)
Definition own_write (log : list TEvent) (s : EndpointSlice) : bool :=
  match expected log (getServiceNN s) (UID (es_meta s)) with
  | Some g => Generation (es_meta s) <=? g
  | None => false
  end.
(** The controller wrote [s] and did not delete it. *)
Definition own_live (log : list TEvent) (s : EndpointSlice) : bool :=
  match expected log (getServiceNN s) (UID (es_meta s)) with
  | Some g => negb (g =? deletionExpected)
  | None => false
  end.

Lemma ShouldSync_log log st s :
  tracker st = tracker_run NewEndpointSliceTracker (rev log) → ShouldSync (@tracker W Q st) s = negb (own_write log s).
Proof.
  intros ->. rewrite ShouldSync_tracked, tracker_refines. unfold own_write.
  destruct (expected _ _ _); [|done]. by rewrite Z.leb_antisym, negb_involutive.
Qed.

(** C22: which slice events queue a service, after any history of the tracker.  A slice
    that appears queues its service exactly when the controller manages it and it
    is newer than the controller's own last write of it; an update does so under
    the same condition or when the managing controller changed, and queues both
    services when the service label changed; a deletion queues the service exactly
    when the controller manages the slice, wrote it and did not delete it itself,
    and is forgotten in any of these cases. *)
Theorem slice_events_queue log (st : state) s key :
  tracker st = tracker_run NewEndpointSliceTracker (rev log) → ServiceControllerKey (Some s) = Ret key →
  let mine := ManagedByController (cc_reconciler c) s in
  let queued (b : bool) := (if b then {[key]} else ∅) ∪ q_due (cs_queue st) in
  q_due (cs_queue (onEndpointSliceAdd c st (Some s))) = queued (mine && negb (own_write log s)) ∧
  (∀ prev, getServiceNN prev = getServiceNN s →
    q_due (cs_queue (onEndpointSliceUpdate c st (Some prev) (Some s))) =
    queued (negb (eqb (ManagedByController (cc_reconciler c) prev) mine) || mine && negb (own_write log s))) ∧
  (∀ prev key', mstr (Labels (es_meta prev)) LabelServiceName ≠ mstr (Labels (es_meta s)) LabelServiceName →
    ServiceControllerKey (Some prev) = Ret key' →
    q_due (cs_queue (onEndpointSliceUpdate c st (Some prev) (Some s))) = {[key; key']} ∪ q_due (cs_queue st)) ∧
  (∀ obj, getEndpointSliceFromDeleteAction obj = Some s →
    let st' := onEndpointSliceDelete c st obj in
    q_due (cs_queue st') = queued (mine && own_live log s) ∧
    if mine then ∀ nn uid, tracked (tracker st') nn uid = expected (THandleDeletion s :: log) nn uid
    else st' = st).
Proof.
  intros Ht Hkey mine queued. split_and!.
  - unfold onEndpointSliceAdd, queued. rewrite (ShouldSync_log log) by done. fold mine.
    destruct (mine && _); [by apply queueServiceForEndpointSlice_due|set_solver].
  - intros prev Hnn. unfold onEndpointSliceUpdate, queued, ManagedByChanged. rewrite (ShouldSync_log log) by done.
    fold mine. injection Hnn as _ Hl. rewrite bool_decide_false by (rewrite Hl; tauto).
    destruct (_ || _); [by apply queueServiceForEndpointSlice_due|set_solver].
  - intros prev key' Hl Hkey'. unfold onEndpointSliceUpdate. rewrite bool_decide_true by done.
    erewrite !queueServiceForEndpointSlice_due by done. set_solver.
  - intros obj Hobj st'. assert (Hexp := tracker_refines log). rewrite <- Ht in Hexp.
    unfold st', onEndpointSliceDelete, queued, own_live. rewrite Hobj, Tracker_Has_tracked. fold mine.
    destruct mine; [|split; [set_solver|done]]. rewrite Hexp. cbn [andb].
    destruct (expected log (getServiceNN s) (UID (es_meta s))) as [g|] eqn:Eg; last first.
    { split; [set_solver|]. intros nn uid. cbn [expected bool_decide]. rewrite bool_decide_false by (by intros [??]).
      rewrite Hexp. case_bool_decide as Hb; [by destruct Hb as [<- <-]|done]. }
    rewrite bool_decide_true by done. pose proof (HandleDeletion_tracked (tracker st) s) as Hh. rewrite Hexp, Eg in Hh.
    pose proof (tracked_step (tracker st) (THandleDeletion s)) as Hts. cbn [tracker_step] in Hts.
    destruct (HandleDeletion (tracker st) s) as [t handled]. cbn [fst snd] in *. subst handled. split.
    + destruct (negb _); [by rewrite (queueServiceForEndpointSlice_due _ _ key)|set_solver].
    + intros nn uid. cbn [expected]. rewrite <- Hexp, <- Hts. unfold queueServiceForEndpointSlice. by repeat case_match.
Qed.
End queue_theorems.

(** ** The sync of one service, end to end *)
Section sync_theorems.
Context `{GoRuntime} `{EpLib} `{SliceLib} `{QuantityLib} `{SliceServer W} `{WorkQueue Q} `{ClientGo} `{AggLib}.
Context (c : ControllerConfig) (l : Listers).

Abbreviation state := (CState W Q).

(** The slices that the informer cache has of the service, less those being deleted. *)
Definition cached_slices (service : Service) (listed : list EndpointSlice) : Prop :=
  slices_List l (Namespace (svc_meta service))
    (<[LabelManagedBy := GetControllerName (cc_reconciler c)]> {[LabelServiceName := Name (svc_meta service)]}) = inl listed.

(** C2: the sync of a live service with a selector, when the listers answer.  With a
    stale informer cache the sync fails and changes nothing at all.  Otherwise, when it
    reports no error, the API server publishes, for every address type of the
    service, exactly the endpoints of the pods the selector matches, and the
    slices of other services are untouched (the cached slices agree with the API
    server and a slice may hold at least one endpoint). *)
Theorem syncService_correct (st st' : state) key ns name service selector pods listed err :
  SplitMetaNamespaceKey key = Some (ns, name) → services_Get l ns name = inl service →
  svc_Type service ≠ ServiceTypeExternalName → svc_Selector service = Some selector →
  pods_List l (Namespace (svc_meta service)) selector = inl pods → cached_slices service listed →
  let existing := dropEndpointSlicesPendingDeletion listed in
  syncService c l st key = Ret (st', err) →
  if StaleSlices (tracker st) service existing
  then st' = st ∧ ∃ msg, err = Some (StaleInformerCache msg)
  else
    err = None →
    (∀ w s w' e, api_create w (Namespace (svc_meta service)) s = (w', inr e) → err_reason e ≠ ReasonNamespaceTerminating) →
    DeletionTimestamp (svc_meta service) = None → 1 ≤ rc_maxEndpointsPerSlice (cc_reconciler c) →
    NoDup (es_Name <$> existing) → EmptyString ∉ es_Name <$> existing →
    in_sync (view (cs_rec st) (Namespace (svc_meta service))) existing →
    ∃ epss, Forall2 (λ at_ eps, type_published (nodes_Get l) service pods at_ eps ∧ serves_pods (nodes_Get l) service pods eps)
        (UnsortedList (getAddressTypesForService service)) epss ∧
      eps_of (view (cs_rec st') (Namespace (svc_meta service))) ≡ₚ
        concat epss ++ eps_of (alive (view (cs_rec st) (Namespace (svc_meta service))) (names existing)).
Proof.
  intros Hkey Hsvc Hty Hsel Hpods Hlist existing. unfold syncService, cached_slices in *.
  rewrite Hkey, Hsvc, bool_decide_false, Hsel, Hpods, Hlist by done. fold existing.
  destruct (StaleSlices _ _ _); [intros [= <- <-]; eauto|].
  destruct (ComputeEndpointLastChangeTriggerTime _ _ _ _) as [ttt t].
  intros ([r errs] & Hr & Hs)%bind_Ret -> Hterm Hdel Hroom Hnd Hne Hin.
  destruct errs as [|? ?]; [|discriminate Hs]. injection Hs as <-.
  cbn [cs_rec set_rec] in *. by eapply Reconcile_leaves.
Qed.
End sync_theorems.

(** ** Witnesses *)

(** A queue that serves keys in order and keeps the failures of every key. *)
Record demo_queue := mkDQ { dq_keys : list string; dq_failures : gmap string Z }.
#[export] Instance demo_workqueue : WorkQueue demo_queue := {|
  q_Add q k := mkDQ (dq_keys q ++ [k]) (dq_failures q);
  q_AddAfter q k _ := mkDQ (dq_keys q ++ [k]) (dq_failures q);
  q_AddRateLimited q k := mkDQ (dq_keys q ++ [k]) (<[k := default 0 (dq_failures q !! k) + 1]> (dq_failures q));
  q_Forget q k := mkDQ (dq_keys q) (delete k (dq_failures q));
  q_NumRequeues q k := default 0 (dq_failures q !! k);
  q_Get q := match dq_keys q with
             | [] => (q, None)
             | k :: rest => (mkDQ (filter (λ j, j ≠ k) rest) (dq_failures q), Some k)
             end;
  q_Done q _ := q |}.
#[export] Program Instance demo_queuelaws : QueueLaws demo_queue := {| q_due q := list_to_set (dq_keys q) |}.
Next Obligation. intros q k. simpl. set_solver. Qed.
Next Obligation. intros q k d. simpl. set_solver. Qed.
Next Obligation. intros q k. simpl. set_solver. Qed.
Next Obligation. done. Qed.
Next Obligation. done. Qed.
Next Obligation.
  intros q q' k. simpl. destruct (dq_keys q) as [|k' rest]; intros [= <- <-]. simpl. split; [set_solver|].
  apply set_eq. intros x. rewrite elem_of_difference, elem_of_union, !elem_of_list_to_set, list_elem_of_filter. set_solver.
Qed.
Next Obligation.
  intros q k j. simpl. case_bool_decide; subst; [by rewrite lookup_insert_eq|]. rewrite lookup_insert_ne by done. lia.
Qed.
Next Obligation. intros q k j. simpl. case_bool_decide; subst; [by rewrite lookup_delete_eq|by rewrite lookup_delete_ne]. Qed.
Next Obligation. done. Qed.
Next Obligation. intros q j. simpl. by destruct (dq_keys q). Qed.

Definition demo_agg : AggLib := {| Aggregate_Error := λ l, default EmptyString (head l) |}.
Local Existing Instances list_runtime demo_lib demo_slicelib demo_client demo_server demo_clientgo demo_agg.

Definition demo_config : ControllerConfig := mkCC (mkRC 100 "fleetboard") 0 0.
Definition demo_listers : Listers :=
  mkListers (λ _ n, if bool_decide (n = "a") then inl demo_v4_service else inr (mkErr ReasonOther "timeout"))
    (λ _, Ret []) (λ _ _, inl demo_pods) (λ _ _, inl [demo_old]) (inl []) demo_node.
Definition demo_cstate : CState demo_world demo_queue :=
  mkCS demo_before NewTriggerTimeTracker (mkDQ ["ns/b"; "ns/a"] ∅) ∅.

(** The service [b] cannot be read: the states of the worker while it fails. *)
Definition demo_next (st : CState demo_world demo_queue) : CState demo_world demo_queue :=
  match processNextWorkItem demo_config demo_listers st with Ret (st, _) => st | _ => st end.
Definition demo_failing_state (n : nat) : CState demo_world demo_queue :=
  Nat.iter n demo_next (mkCS demo_before NewTriggerTimeTracker (mkDQ ["ns/b"] ∅) ∅).
Definition demo_fails (n : nat) : bool :=
  let st := demo_failing_state n in
  bool_decide (snd (q_Get (cs_queue st)) = Some "ns/b")
  && match syncService demo_config demo_listers (set_queue (fst (q_Get (cs_queue st))) st) "ns/b" with
     | Ret (_, Some _) => true | _ => false end
  && match processNextWorkItem demo_config demo_listers st with Ret (_, true) => true | _ => false end.

Lemma demo_failing n :
  Forall (λ m, demo_fails m = true) (seq 0 n) → failing demo_config demo_listers "ns/b" n (demo_failing_state 0) (demo_failing_state n).
Proof.
  induction n as [|n IH]; [constructor|]. rewrite seq_S, Forall_app, Forall_singleton. intros [Hs Hn].
  unfold demo_fails in Hn. apply andb_true_iff in Hn as [[Hg%bool_decide_eq_true Hs']%andb_true_iff Hp].
  destruct (syncService _ _ _ _) as [[st2 [e|]]| | |] eqn:Es; try done.
  eapply (failing_once _ _ _ _ _ (demo_failing_state n)); [by apply IH|exact Hg|exact Es|].
  change (demo_failing_state (S n)) with (demo_next (demo_failing_state n)). unfold demo_next. revert Hp.
  by destruct (processNextWorkItem _ _ _) as [[st3 [|]]| | |].
Qed.

Lemma retry_budget_witness :
  q_NumRequeues (cs_queue (demo_failing_state 16)) "ns/b" = 0 ∧ "ns/b" ∉ q_due (cs_queue (demo_failing_state 16)).
Proof.
  destruct (retry_budget demo_config demo_listers "ns/b" 16 (demo_failing_state 0) (demo_failing_state 16)) as [_ H].
  - apply demo_failing. apply (bool_decide_unpack (Forall _ _)). vm_compute. exact I.
  - reflexivity.
  - apply (bool_decide_unpack (_ ∈ _)). vm_compute. exact I.
  - exact H.
Defined.

(** The controller wrote version 1 of a slice; version 2 comes from somebody else. *)
Definition demo_written (g : Z) : EndpointSlice :=
  mkSlice (mkMeta "a-1" EmptyString "ns" "uid" EmptyString g 0 None
    (Some (<[LabelManagedBy := "fleetboard"]> {[LabelServiceName := "a"]})) None [] []) AddressTypeIPv4 [] [].
Definition demo_log : list TEvent := [TUpdate (demo_written 1)].
Definition demo_logged : CState demo_world demo_queue :=
  set_tracker (tracker_run NewEndpointSliceTracker (rev demo_log)) (set_queue (mkDQ [] ∅) demo_cstate).

Lemma slice_events_queue_witness :
  q_due (cs_queue (onEndpointSliceAdd demo_config demo_logged (Some (demo_written 1)))) = ∅ ∧
  q_due (cs_queue (onEndpointSliceAdd demo_config demo_logged (Some (demo_written 2)))) = {["ns/a"]} ∧
  q_due (cs_queue (onEndpointSliceDelete demo_config demo_logged (SliceObj (Some (demo_written 1))))) = {["ns/a"]}.
Proof.
  destruct (slice_events_queue demo_config demo_log demo_logged (demo_written 1) "ns/a") as (H1 & _ & _ & H1').
  - reflexivity.
  - vm_compute. reflexivity.
  - destruct (slice_events_queue demo_config demo_log demo_logged (demo_written 2) "ns/a") as (H2 & _).
    + reflexivity.
    + vm_compute. reflexivity.
    + destruct (H1' (SliceObj (Some (demo_written 1)))) as [H3 _]; [reflexivity|].
      rewrite H1, H2, H3. repeat split; apply (bool_decide_unpack (_ = _)); vm_compute; exact I.
Defined.

Definition demo_synced : outcome (CState demo_world demo_queue * option SyncErr) :=
  syncService demo_config demo_listers demo_cstate "ns/a".

Lemma syncService_correct_witness :
  ∃ st' epss, demo_synced = Ret (st', None) ∧
    Forall2 (λ at_ eps, type_published demo_node demo_v4_service demo_pods at_ eps ∧ serves_pods demo_node demo_v4_service demo_pods eps)
      (UnsortedList (getAddressTypesForService demo_v4_service)) epss ∧
    eps_of (view (cs_rec st') "ns") ≡ₚ concat epss ++ eps_of (alive (view demo_before "ns") (names [demo_old])).
Proof.
  assert (E : match demo_synced with Ret (_, None) => true | _ => false end = true) by (vm_compute; reflexivity).
  destruct demo_synced as [[st' [|]]| | |] eqn:Ea; try discriminate E.
  pose proof (syncService_correct demo_config demo_listers demo_cstate st' "ns/a" "ns" "a" demo_v4_service {["app" := "x"]}
    demo_pods [demo_old] None) as H.
  replace (StaleSlices (tracker demo_cstate) demo_v4_service (dropEndpointSlicesPendingDeletion [demo_old])) with false in H
    by (vm_compute; reflexivity).
  replace (dropEndpointSlicesPendingDeletion [demo_old]) with [demo_old] in H by reflexivity.
  destruct H as (epss & H1 & H2).
  - vm_compute. reflexivity.
  - reflexivity.
  - discriminate.
  - reflexivity.
  - reflexivity.
  - reflexivity.
  - exact Ea.
  - reflexivity.
  - simpl. intros w s w' e. destruct (_ || _); intros [= _ <-]. discriminate.
  - reflexivity.
  - simpl. lia.
  - apply (bool_decide_unpack (NoDup _)). vm_compute. exact I.
  - apply (bool_decide_unpack (EmptyString ∉ _)). vm_compute. exact I.
  - intros s Hs%list_elem_of_singleton. subst s. vm_compute. reflexivity.
  - exists st', epss. split; [reflexivity|]. exact (conj H1 H2).
Defined.
