(* ===== verification/PodEvents.v ===== *)
(** * Which updates of pods the endpoint slice controller sees

    [updatePod] of [pkg/controller/endpointslice/endpointslice.go] queues the services of [GetServicesToUpdateOnPodChange]
    ([util/controller_utils.go]).  When it leaves a service out, the slices that published the pods of that service
    publish them still, provided that the annotation with the address of the pod did not change; an update of this annotation
    alone, which is what the daemon of [pkg/dedinic] writes, queues nothing although it moves the endpoint: the slices follow with the next
    resync of the services, which queues every one of them ([onServiceUpdate]). *)
From stdpp Require Import prelude gmap strings list.
From S2P Require Import Prelude NetAddr K8s EpUtil Tracker SliceUtils Topology PortMapping Reconciler ReconcileSpec ProxyEndpoints HostPort Utils SliceSync EpController.
Open Scope Z_scope.

#[export] Instance ContainerPort_eq_dec : EqDecision ContainerPort.
Proof. solve_decision. Defined.
#[export] Instance Container_eq_dec : EqDecision Container.
Proof. solve_decision. Defined.
#[export] Instance Condition_eq_dec : EqDecision Condition.
Proof. solve_decision. Defined.
#[export] Instance Pod_eq_dec : EqDecision Pod.
Proof. solve_decision. Defined.

(** The two functions of [k8s.io/endpointslice/util] are those of the repository's own copy. *)
Class UpstreamLaws `{SliceLib} := {
  upstream_ready : ∀ p, upstream_IsPodReady p = IsPodReady p;
  upstream_hostname : ∀ p s, upstream_ShouldSetHostname p s = ShouldSetHostname p s
}.

(** What the API server keeps of a pod once it is on a node, and the statuses of a node's kubelet: [PodIP] is the first of [PodIPs]. *)
Record same_pod (old new : Pod) : Prop := {
  sp_Namespace : Namespace (pod_meta old) = Namespace (pod_meta new);
  sp_PodName : Name (pod_meta old) = Name (pod_meta new);
  sp_UID : UID (pod_meta old) = UID (pod_meta new);
  sp_NodeName : pod_NodeName old = pod_NodeName new;
  sp_Hostname : pod_Hostname old = pod_Hostname new;
  sp_Subdomain : pod_Subdomain old = pod_Subdomain new;
  sp_Containers : pod_Containers old = pod_Containers new;
  sp_PodIP : ∀ p, p = old ∨ p = new → pod_PodIP p = default EmptyString (head (pod_PodIPs p))
}.

Definition selected (selector : gmap string string) `{EpLib} (p : Pod) : bool := selector_matches selector (Labels (pod_meta p)).

Section memberships.
Context `{EpLib}.

Lemma memberships_loop_elem podLabels services set r : memberships_loop podLabels services set = Ret r →
  ∀ k, k ∈ r ↔ k ∈ set ∨ ∃ s sel, s ∈ services ∧ svc_Selector s = Some sel ∧ selector_matches sel podLabels = true ∧ meta_key (svc_meta s) = Ret k.
Proof.
  revert set. induction services as [|s services IH]; intros set; cbn [memberships_loop].
  { intros [= <-] k. set_solver. }
  setoid_rewrite elem_of_cons. destruct (svc_Selector s) as [sel|] eqn:Es.
  - intros (key & Ek & E)%bind_Ret k. rewrite (IH _ E). split.
    + intros [Hk|(s' & sel' & Hs & Hr)]; [|right; exists s', sel'; tauto].
      destruct (selector_matches sel podLabels) eqn:Em; [|by left]. apply elem_of_union in Hk as [->%elem_of_singleton|?]; [|by left].
      right. by exists s, sel; auto.
    + intros [Hk|(s' & sel' & [->|Hs] & Hsel & Hm & Hkey)]; [left; case_match; set_solver| |right; by exists s', sel'].
      left. rewrite Es in Hsel. injection Hsel as <-. rewrite Hm. rewrite Ek in Hkey. injection Hkey as <-. set_solver.
  - intros E k. rewrite (IH _ E). split; intros [?|(s' & sel' & Hs & Hsel & Hr)]; [by left|right; exists s', sel'; tauto|by left|].
    destruct Hs as [->|Hs]; [by rewrite Es in Hsel|]. right. by exists s', sel'.
Qed.

(** Where keys tell services apart, the key of a service is in the set exactly when its selector matches. *)
Lemma membership_iff lister p services set s sel k :
  lister (Namespace (pod_meta p)) = Ret services → GetPodServiceMemberships lister p = Ret set →
  (∀ s', s' ∈ services → meta_key (svc_meta s') = Ret k → s' = s) → s ∈ services → svc_Selector s = Some sel → meta_key (svc_meta s) = Ret k →
  k ∈ set ↔ selected sel p = true.
Proof.
  intros Hl. unfold GetPodServiceMemberships. rewrite Hl. intros Hm Hk Hs Hsel Hkey. cbn in Hm.
  rewrite (memberships_loop_elem _ _ _ _ Hm). unfold selected. split; [|intros ?; right; by exists s, sel].
  intros [?|(s' & sel' & Hs' & Hsel' & Hm' & Hkey')]; [set_solver|]. rewrite (Hk s' Hs' Hkey') in Hsel'. by simplify_eq.
Qed.
End memberships.

Section updates.
Context `{GoRuntime} `{EpLib} `{!SliceLib} `{!UpstreamLaws}.

Lemma pod_changed_false old new : pod_changed old new = false →
  DeletionTimestamp (pod_meta new) = None ∧ DeletionTimestamp (pod_meta old) = None ∧ IsPodReady old = IsPodReady new ∧ pod_PodIPs old = pod_PodIPs new.
Proof.
  unfold pod_changed. rewrite !orb_false_iff, bool_decide_eq_false. intros [[Ht Hr] Hi]. apply dec_stable in Hi.
  unfold timestampPtrChanged in Ht. repeat case_match; try done. split_and!; try done. by destruct (IsPodReady old), (IsPodReady new).
Qed.

(** What a pod publishes depends on nothing else. *)
Lemma unchanged_endpoint nodes service old new : same_pod old new → pod_changed old new = false →
  getEndpointAddresses old = getEndpointAddresses new → isPodTerminal old = isPodTerminal new →
  (eligible nodes service old ↔ eligible nodes service new) ∧ pod_endpoint nodes service old = pod_endpoint nodes service new ∧
  getEndpointPorts service old = getEndpointPorts service new.
Proof.
  intros [Hns Hn Hu Hnode Hh Hsub Hc Hip] (Hd & Hd' & Hr & Hips)%pod_changed_false Ha Ht.
  assert (He : pod_endpoint nodes service old = pod_endpoint nodes service new).
  { unfold pod_endpoint, node_of, podToEndpoint. rewrite !upstream_ready, !upstream_hostname. unfold ShouldSetHostname.
    by rewrite Hns, Hn, Hu, Hnode, Hh, Hsub, Hr, Ha, Hd, Hd'. }
  split; [|split; [done|]].
  - unfold eligible. rewrite He. unfold ShouldPodBeInEndpoints.
    rewrite (Hip old), (Hip new), Hips, Ht by auto. done.
  - unfold getEndpointPorts. destruct (_ && _); [done|]. induction (svc_Ports service) as [|p ports IH]; [done|].
    cbn [endpoint_ports_loop]. assert (findPort old p = findPort new p) as -> by (unfold findPort; by rewrite Hc, Hu). by rewrite IH.
Qed.

Section queued.
Context `{QuantityLib} `{SliceClient W} `{QueueLaws Q} `{ClientGo} `{AggLib}.
Context (c : ControllerConfig) (l : Listers).

Lemma queue_all_due (st : CState W Q) keys k : k ∈ q_due (cs_queue (queue_all c st keys)) ↔ k ∈ keys ∨ k ∈ q_due (cs_queue st).
Proof.
  unfold queue_all. rewrite <- (elem_of_UnsortedList keys). generalize (UnsortedList keys) as ks. intros ks. revert st.
  induction ks as [|k' ks IH]; intros st; cbn [foldl]; [set_solver|].
  rewrite IH. cbn [set_queue cs_queue]. rewrite q_AddAfter_due. set_solver.
Qed.

Lemma queue_none (st : CState W Q) : queue_all c st ∅ = st.
Proof.
  unfold queue_all. pose proof (UnsortedList_elements (∅ : gset string)) as E. rewrite elements_empty in E. by apply Permutation_nil_r in E as ->.
Qed.

(** The pods of a service. *)
Definition pods_of (sel : gmap string string) (pods : list Pod) : list Pod := filter (λ p, selected sel p = true) pods.

Definition alike (service : Service) (p p' : Pod) : Prop :=
  (eligible (nodes_Get l) service p ↔ eligible (nodes_Get l) service p') ∧ pod_endpoint (nodes_Get l) service p = pod_endpoint (nodes_Get l) service p'.

Lemma serves_pods_alike service ps ps' eps :
  (∀ p, p ∈ ps → ∃ p', p' ∈ ps' ∧ alike service p p') → (∀ p', p' ∈ ps' → ∃ p, p ∈ ps ∧ alike service p p') →
  serves_pods (nodes_Get l) service ps eps → serves_pods (nodes_Get l) service ps' eps.
Proof.
  intros H1' H2' [S1 S2]. split.
  - intros e He. destruct (S1 e He) as (p & Hp & Hel & Hm). destruct (H1' p Hp) as (p' & Hp' & Hi & He'). exists p'. rewrite <- He'. by rewrite <- Hi.
  - intros p' Hp' Hel. destruct (H2' p' Hp') as (p & Hp & Hi & He'). rewrite <- He'. apply S2; [done|by apply Hi].
Qed.

(** The cache of services tells them apart by their keys. *)
Record cached_services (ns : string) (services : list Service) : Prop := {
  sc_listed : services_List l ns = Ret services;
  sc_keyed : ∀ s, s ∈ services → ∃ k, meta_key (svc_meta s) = Ret k;
  sc_unique : ∀ s s' k, s ∈ services → s' ∈ services → meta_key (svc_meta s) = Ret k → meta_key (svc_meta s') = Ret k → s = s'
}.

Lemma memberships_total p services : cached_services (Namespace (pod_meta p)) services →
  ∃ set, GetPodServiceMemberships (services_List l) p = Ret set ∧
    ∀ s sel k, s ∈ services → svc_Selector s = Some sel → meta_key (svc_meta s) = Ret k → k ∈ set ↔ selected sel p = true.
Proof.
  intros [Hl Hk Hu]. assert (∃ set, GetPodServiceMemberships (services_List l) p = Ret set) as [set Hs].
  { unfold GetPodServiceMemberships. rewrite Hl. cbn. clear Hu Hl. generalize (∅ : gset string) as acc.
    induction services as [|s services IH]; intros acc; cbn [memberships_loop]; [by eexists|].
    destruct (svc_Selector s); [|apply IH; intros; apply Hk; by right].
    destruct (Hk s ltac:(by left)) as [k ->]. cbn. apply IH. intros. apply Hk. by right. }
  exists set. split; [done|]. intros s sel k Hin Hsel Hkey. eapply membership_iff; [done..| |done|done|done]. intros s' Hs' Hk'. by eapply Hu.
Qed.

(** A new version of a pod in a list of pods. *)
Definition replaced_pod (old new : Pod) (pods pods' : list Pod) : Prop := old ∈ pods ∧ ∀ p, p ∈ pods' ↔ p = new ∨ p ∈ pods ∧ p ≠ old.

(** C23: updates of pods are seen.  [updatePod] takes a new version of a pod that has the address it had in its
    annotation and has not become terminal (or ceased to be): neither is looked at, see [annotation_update_unseen] and
    [terminal_update_unseen].  Whatever service it does not queue, the endpoints that served the pods of the service before serve them now. *)
Theorem updatePod_covers (st st' : CState W Q) old new pods pods' services service sel key eps :
  updatePod c l st old new = Ret st' → same_pod old new → ResourceVersion (pod_meta new) ≠ ResourceVersion (pod_meta old) →
  isPodTerminal old = isPodTerminal new → getEndpointAddresses old = getEndpointAddresses new → replaced_pod old new pods pods' →
  cached_services (Namespace (pod_meta new)) services → service ∈ services → svc_Selector service = Some sel → meta_key (svc_meta service) = Ret key →
  key ∉ q_due (cs_queue st') →
  serves_pods (nodes_Get l) service (pods_of sel pods) eps → serves_pods (nodes_Get l) service (pods_of sel pods') eps.
Proof.
  intros Hu Hsame Hrv Hterm Haddr [Hold Hpods] Hc Hin Hsel Hkey Hdue.
  destruct (memberships_total new services Hc) as (news & En & Hn). specialize (Hn _ _ _ Hin Hsel Hkey).
  destruct (memberships_total old services) as (olds & Eo & Ho); [by rewrite (sp_Namespace _ _ Hsame)|]. specialize (Ho _ _ _ Hin Hsel Hkey).
  unfold updatePod in Hu. rewrite (GetServicesToUpdateOnPodChange_spec _ _ _ _ _ (sp_Namespace _ _ Hsame) Hrv Eo En) in Hu. injection Hu as <-.
  rewrite queue_all_due in Hdue.
  assert (Hcase : (selected sel old = false ∧ selected sel new = false) ∨
    (selected sel old = selected sel new ∧ alike service old new)).
  { apply Decidable.not_or in Hdue as [Hk _]. destruct (pod_changed old new) eqn:Ec.
    - left. rewrite elem_of_union in Hk. rewrite <- !not_true_iff_false. tauto.
    - right. destruct (unchanged_endpoint (nodes_Get l) service old new Hsame Ec Haddr Hterm) as (He & Hp & _). split; [|done].
      rewrite elem_of_union, !elem_of_difference in Hk. apply eq_true_iff_eq. destruct (decide (key ∈ news)), (decide (key ∈ olds)); tauto. }
  apply serves_pods_alike; unfold pods_of; setoid_rewrite list_elem_of_filter; setoid_rewrite Hpods.
  - intros p [Hs Hp]. destruct (decide (p = old)) as [->|Hne]; [|exists p; by split_and!; auto].
    destruct Hcase as [[Hf _]|[Heq Ha]]; [congruence|]. exists new. rewrite <- Heq. auto.
  - intros p' [Hs [->|[Hp Hne]]]; [|by exists p'].
    destruct Hcase as [[_ Hf]|[Heq Ha]]; [congruence|]. exists old. rewrite Heq. auto.
Qed.

(** What a patch of the annotations makes of a pod. *)
Definition annotated (ann : gmap string string) (rv : string) (p : Pod) : Pod :=
  set_pod_meta (λ m, mkMeta (Name m) (GenerateName m) (Namespace m) (UID m) rv (Generation m) (CreationTimestamp m) (DeletionTimestamp m)
    (Labels m) (Some ann) (OwnerReferences m) (Finalizers m)) p.

(** An update of the annotations alone queues nothing, whatever it does to the address of the pod. *)
Theorem annotation_update_unseen (st : CState W Q) p ann rv : DeletionTimestamp (pod_meta p) = None →
  updatePod c l st p (annotated ann rv p) = Ret st.
Proof.
  intros Hd. unfold updatePod, GetServicesToUpdateOnPodChange. case_bool_decide; [cbn; by rewrite queue_none|].
  unfold podEndpointsChanged, hostNameAndDomainAreEqual, IsPodReady, isPodReadyConditionTrue, getPodReadyCondition.
  cbn [annotated set_pod_meta pod_meta Labels DeletionTimestamp pod_Hostname pod_Subdomain pod_Conditions pod_PodIPs].
  rewrite Hd, xorb_nilpotent, Nat.eqb_refl, podIPsDiffer_spec by done.
  cbn [negb]. repeat case_bool_decide; try done. cbn. by rewrite queue_none.
Qed.

(** The phase of a pod, under a new resource version. *)
Definition phased (phase rv : string) (p : Pod) : Pod :=
  let m := pod_meta p in
  mkPod (mkMeta (Name m) (GenerateName m) (Namespace m) (UID m) rv (Generation m) (CreationTimestamp m) (DeletionTimestamp m)
      (Labels m) (Annotations m) (OwnerReferences m) (Finalizers m))
    (pod_NodeName p) (pod_Hostname p) (pod_Subdomain p) (pod_RestartPolicy p) (pod_Containers p) phase (pod_Reason p) (pod_PodIP p) (pod_PodIPs p) (pod_Conditions p).

(** An update of the phase alone queues nothing: the endpoint of a pod that was not ready stays
    published when the pod becomes terminal, until the service is queued for another reason. *)
Theorem terminal_update_unseen (st : CState W Q) p phase rv : DeletionTimestamp (pod_meta p) = None →
  updatePod c l st p (phased phase rv p) = Ret st.
Proof.
  intros Hd. unfold updatePod, GetServicesToUpdateOnPodChange. case_bool_decide; [cbn; by rewrite queue_none|].
  unfold podEndpointsChanged, hostNameAndDomainAreEqual, IsPodReady, isPodReadyConditionTrue, getPodReadyCondition.
  cbn [phased pod_meta Labels DeletionTimestamp pod_Hostname pod_Subdomain pod_Conditions pod_PodIPs].
  rewrite Hd, xorb_nilpotent, Nat.eqb_refl, podIPsDiffer_spec by done.
  cbn [negb]. repeat case_bool_decide; try done. cbn. by rewrite queue_none.
Qed.
End queued.
End updates.

(** ** A service with one pod *)
Section demo_updates.
#[local] Existing Instances list_runtime demo_lib demo_slicelib demo_client demo_server demo_clientgo demo_agg.
#[local] Instance demo_upstream : UpstreamLaws := {| upstream_ready := λ _, eq_refl; upstream_hostname := λ _ _, eq_refl |}.

Definition seen_pod (rv : string) (labels : gmap string string) : Pod :=
  mkPod (mkMeta "p1" EmptyString "ns" "p1" rv 0 0 None (Some labels) (Some {[FleetboardParallelIP := "10.0.0.1"]}) [] [])
    "n1" EmptyString EmptyString "Always" [] "Running" EmptyString "172.17.0.2" ["172.17.0.2"] [].
Definition seen_old : Pod := seen_pod "1" {["app" := "x"]}.
Definition seen_new : Pod := seen_pod "2" {["app" := "x"; "tier" := "y"]}.
Definition seen_listers : Listers :=
  mkListers (λ _ _, inl demo_v4_service) (λ _, Ret [demo_v4_service]) (λ _ _, inl [seen_old]) (λ _ _, inl []) (inl []) demo_node.
Definition seen_state : CState demo_world demo_queue := mkCS demo_before NewTriggerTimeTracker (mkDQ [] ∅) ∅.
Definition seen_endpoint : Endpoint := pod_endpoint demo_node demo_v4_service seen_old.

Lemma seen_serves : serves_pods demo_node demo_v4_service [seen_old] [seen_endpoint].
Proof.
  split.
  - intros e ->%list_elem_of_singleton. exists seen_old. split; [by left|]. split; [|split; vm_compute; reflexivity].
    split; [reflexivity|]. vm_compute. discriminate.
  - intros p ->%list_elem_of_singleton _. exists seen_endpoint. split; [by left|reflexivity].
Qed.

(** A second label on the pod queues nothing and the endpoint still serves it. *)
Lemma updatePod_covers_witness :
  updatePod demo_config seen_listers seen_state seen_old seen_new = Ret seen_state ∧
  serves_pods demo_node demo_v4_service [seen_new] [seen_endpoint].
Proof.
  assert (E : updatePod demo_config seen_listers seen_state seen_old seen_new = Ret seen_state) by (vm_compute; reflexivity).
  split; [exact E|].
  assert (Hnew : pods_of {["app" := "x"]} [seen_new] = [seen_new]) by (vm_compute; reflexivity).
  assert (Hold : pods_of {["app" := "x"]} [seen_old] = [seen_old]) by (vm_compute; reflexivity).
  rewrite <- Hnew.
  apply (updatePod_covers demo_config seen_listers seen_state seen_state seen_old seen_new [seen_old] [seen_new] [demo_v4_service] demo_v4_service
    {["app" := "x"]} "ns/a" [seen_endpoint] E).
  - split; try reflexivity. intros p [->| ->]; reflexivity.
  - discriminate.
  - reflexivity.
  - reflexivity.
  - split; [left|]. intros p. rewrite !list_elem_of_singleton. split; [intros ->; by left|]. intros [->|[-> Hne]]; [done|by destruct Hne].
  - split; [reflexivity|intros s _; eexists; reflexivity|]. intros s s' k ->%list_elem_of_singleton ->%list_elem_of_singleton. reflexivity.
  - left.
  - reflexivity.
  - reflexivity.
  - apply not_elem_of_empty.
  - rewrite Hold. exact seen_serves.
Defined.

(** The daemon moves the pod to another address: nothing is queued, and what is published serves the pod no longer. *)
Theorem moved_endpoint_unseen :
  let new := annotated {[FleetboardParallelIP := "10.0.0.9"]} "2" seen_old in
  updatePod demo_config seen_listers seen_state seen_old new = Ret seen_state ∧
  serves_pods demo_node demo_v4_service [seen_old] [seen_endpoint] ∧ ¬ serves_pods demo_node demo_v4_service [new] [seen_endpoint].
Proof.
  cbv zeta. split; [by apply annotation_update_unseen|]. split; [exact seen_serves|].
  intros [_ Hs]. destruct (Hs (annotated {[FleetboardParallelIP := "10.0.0.9"]} "2" seen_old)) as (e & ->%list_elem_of_singleton & He); [by left| |].
  - split; [reflexivity|]. vm_compute. discriminate.
  - vm_compute in He. discriminate He.
Qed.
End demo_updates.
