(* ===== verification/ServiceCIDR.v ===== *)
(** * The address range of imported services

    The first half of [utils/endpointslice.go]: the /24 from which imported
    multi-cluster services get their virtual addresses, and the IPAM around
    [go-ipam].  Random numbers, the pods of the control plane, the stored service
    imports and [go-ipam] are parameters. *)
From stdpp Require Import prelude gmap strings list.
From S2P Require Import Prelude NetAddr NetUtil K8s ProxyEndpoints HostPort Utils.
Open Scope Z_scope.

(** [rand.Int]: the n-th draw below a bound, or an error. *)
Class RandLib := {
  rand_Int : nat → Z → outcome Z;
  rand_Int_range : ∀ n max z, rand_Int n max = Ret z → 0 ≤ z < max
}.

(** [go-ipam]: prefixes and the addresses taken from them. *)
Class Ipamer (W : Type) := {
  ipam_NewPrefix : W → string → W * (string + string);
  ipam_AcquireSpecificIP : W → string → string → W * (string + string);
  ipam_AcquireIP : W → string → W * (string + string);
  ipam_ReleaseIP : W → string → string → W * option string
}.

(** Only an address that is free is handed out; only one that is taken can be
    released; a call that fails changes nothing. *)
Class IpamLaws (W : Type) `{Ipamer W} := {
  ipam_taken : W → gset string;
  ipam_NewPrefix_ok : ∀ w c, ipam_taken w ⊆ ipam_taken (fst (ipam_NewPrefix w c));
  ipam_AcquireSpecificIP_ok : ∀ w c ip w' r, ipam_AcquireSpecificIP w c ip = (w', r) →
    match r with
    | inl _ => ip ∉ ipam_taken w ∧ ipam_taken w' = {[ip]} ∪ ipam_taken w
    | inr _ => ipam_taken w' = ipam_taken w
    end;
  ipam_AcquireIP_ok : ∀ w c w' r, ipam_AcquireIP w c = (w', r) →
    match r with
    | inl ip => ip ∉ ipam_taken w ∧ ip ≠ EmptyString ∧ ipam_taken w' = {[ip]} ∪ ipam_taken w
    | inr _ => ipam_taken w' = ipam_taken w
    end;
  ipam_ReleaseIP_ok : ∀ w c ip w' r, ipam_ReleaseIP w c ip = (w', r) →
    match r with
    | None => ip ∈ ipam_taken w ∧ ipam_taken w' = ipam_taken w ∖ {[ip]}
    | Some _ => ipam_taken w' = ipam_taken w
    end
}.

(** ** The range of an address *)
Definition GetServiceCIDRFromIP (ip : string) : outcome string :=
  match ParseIP ip with
  | [] => Err ("invalid IP address: " +:+ ip)
  | parsedIP => Ret (IPNet_String (mkIPNet (IP_Mask parsedIP (CIDRMask 24 32)) (CIDRMask 24 32)))
  end.

(** ** A random range *)
Definition privateRanges : list string := ["10.0.0.0/8"; "172.16.0.0/12"; "192.168.0.0/16"].

(** [for existing := range existingCIDRs { isOverlappingCIDR(randomCIDR, existing) }] *)
Fixpoint conflicts (randomCIDR : string) (existingCIDRs : list string) : outcome bool :=
  match existingCIDRs with
  | [] => Ret false
  | existing :: rest => b ← isOverlappingCIDR randomCIDR existing; if (b : bool) then Ret true else conflicts randomCIDR rest
  end.

Definition random_cidr (selectedRange : string) (thirdByte : Z) : outcome string :=
  '(_, cidrNet) ← ParseCIDR selectedRange;
  let randomIP := To4 (net_IP cidrNet) in
  _ ← index randomIP 2; _ ← index randomIP 3;
  Ret (IP_String (<[3%nat := 0]> (<[2%nat := thirdByte]> randomIP)) +:+ "/24").

Section range.
Context `{RandLib}.

Fixpoint random_loop (rounds : nat) (i : nat) (existingCIDRs : list string) : outcome string :=
  match rounds with
  | O => Err "failed to generate a non-conflicting /24 CIDR after 100 attempts"
  | S rounds' =>
      idx ← wrap_err "failed to generate random index" (rand_Int (2 * i) (Z.of_nat (length privateRanges)));
      selectedRange ← index privateRanges (Z.to_nat idx);
      thirdByte ← wrap_err "failed to generate random third byte" (rand_Int (2 * i + 1) 256);
      randomCIDR ← random_cidr selectedRange thirdByte;
      conflict ← conflicts randomCIDR existingCIDRs;
      if (conflict : bool) then random_loop rounds' (S i) existingCIDRs else Ret randomCIDR
  end.

Definition GenerateRandomServiceCIDR (existingCIDRs : list string) : outcome string := random_loop 100 0 existingCIDRs.

Definition NewRandomServiceCIDR `{PodFinder} : outcome string :=
  serviceCIDR ← wrap_err "failed to find service CIDR" FindClusterServiceIPRange;
  podCIDR ← wrap_err "failed to find pod CIDR" FindClusterPodIPRange;
  wrap_err "failed to generate random CIDR" (GenerateRandomServiceCIDR [serviceCIDR; podCIDR]).

(** ** The range in use *)
Definition FleetboardServiceCIDR : string := "fleetboard.io/service_cidr".

Fixpoint GetServiceCIDRFromCNFPod (pods : list Pod) : string :=
  match pods with
  | [] => EmptyString
  | pod :: rest => match GetSpecificAnnotation pod [FleetboardServiceCIDR] with
                   | c :: _ => if bool_decide (c = EmptyString) then GetServiceCIDRFromCNFPod rest else c
                   | [] => GetServiceCIDRFromCNFPod rest
                   end
  end.

(** The virtual address of an import, if it has one. *)
Definition virtual_ip (si : ServiceImport) : option string :=
  match sim_IPs si with
  | ip :: _ => if bool_decide (sim_Type si = ClusterSetIP) && negb (bool_decide (ip = EmptyString)) then Some ip else None
  | [] => None
  end.

Definition GetServiceCIDR (imports : outcome (list ServiceImport)) (cnfPods : outcome (list Pod)) : outcome (string * list string) :=
  localSIList ← wrap_err "failed to list service import" imports;
  match omap virtual_ip localSIList with
  | ip :: ips => newCIDR ← wrap_err "failed to get service CIDR from IP" (GetServiceCIDRFromIP ip); Ret (newCIDR, ip :: ips)
  | [] => pods ← wrap_err "failed to get service CIDR from cnf pod" (wrap_err "failed to list cnf pods" cnfPods);
          Ret (GetServiceCIDRFromCNFPod pods, [])
  end.
End range.

(** ** [IPAM] *)
Section ipam.
Context {W : Type} `{Ipamer W}.

(** The prefix is nil until [InitPrefix] succeeds. *)
Record IPAM := mkIPAM { ipam_prefix : option string }.

Definition InitPrefix (i : IPAM) (w : W) (cidr : string) : W * IPAM * option string :=
  match ipam_NewPrefix w cidr with
  | (w, inr e) => (w, i, Some e)
  | (w, inl prefix) => (w, mkIPAM (Some prefix), None)
  end.

Fixpoint acquire_each (w : W) (prefix : string) (ips : list string) : W * option string :=
  match ips with
  | [] => (w, None)
  | ip :: rest => match ipam_AcquireSpecificIP w prefix ip with
                  | (w, inr e) => (w, Some e)
                  | (w, inl _) => acquire_each w prefix rest
                  end
  end.
Definition InitializeExistingIPs (i : IPAM) (w : W) (ips : list string) : outcome (W * option string) :=
  match ips with
  | [] => Ret (w, None)
  | _ => prefix ← deref (ipam_prefix i); Ret (acquire_each w prefix ips)
  end.

Definition InitNewCIDR `{RandLib} `{PodFinder} (i : IPAM) (w : W) (imports : outcome (list ServiceImport))
    (cnfPods : outcome (list Pod)) : outcome (W * IPAM * string) :=
  '(cidr, virtualServiceIPs) ← wrap_err "failed to get service CIDR" (GetServiceCIDR imports cnfPods);
  newCIDR ← (if bool_decide (cidr = EmptyString) then wrap_err "failed to new service CIDR" NewRandomServiceCIDR else Ret cidr);
  match InitPrefix i w newCIDR with
  | (_, _, Some e) => Err e
  | (w, i, None) =>
      '(w, err) ← InitializeExistingIPs i w virtualServiceIPs;
      match err with Some e => Err e | None => Ret (w, i, newCIDR) end
  end.

Definition AllocateIP (i : IPAM) (w : W) : outcome (W * (string + string)) :=
  prefix ← deref (ipam_prefix i); Ret (ipam_AcquireIP w prefix).

(** [netip.ParseAddr] of the address, then the release; addresses with a zone,
    which no service has, are left out of [ParseAddr]. *)
Definition ReleaseIP (i : IPAM) (w : W) (ipAddr : string) : outcome (W * option string) :=
  match ParseAddr ipAddr with
  | None => Ret (w, Some "failed to parse IP")
  | Some _ => prefix ← deref (ipam_prefix i); Ret (ipam_ReleaseIP w prefix ipAddr)
  end.
End ipam.

(** ** Properties *)

(** The range derived from an existing virtual address is its /24: a network
    of that size that contains the address. *)
Theorem GetServiceCIDRFromIP_spec ip z :
  is_v4 z → ParseAddr ip = Some (Addr4 (v4 z)) →
  ∃ c, GetServiceCIDRFromIP ip = Ret c ∧ net4 c = Some (blk_base z 24, 24) ∧ addr_in c z.
Proof.
  intros Hz Hp. assert (H24 : mask_bits 24) by (unfold mask_bits; lia).
  exists (cidr4 (blk_base z 24) 24). pose proof (blk_base_v4 z 24 Hz H24) as Hb.
  assert (Hnet : net4 (cidr4 (blk_base z 24) 24) = Some (blk_base z 24, 24)).
  { rewrite net4_cidr4 by done. by rewrite blk_base_idem. }
  split; [|split; [done|]].
  - unfold GetServiceCIDRFromIP, ParseIP. rewrite Hp.
    assert (Hm : IP_Mask (As16 (Addr4 (v4 z))) (CIDRMask 24 32) = v4 (blk_base z 24)).
    { change (CIDRMask 24 32) with (mask_bytes 4 24). rewrite <- (IP_Mask_v4 z 24) by done. reflexivity. }
    destruct (As16 (Addr4 (v4 z))) eqn:E; [done|]. rewrite Hm.
    change (CIDRMask 24 32) with (mask_bytes 4 24). by rewrite IPNet_String_v4.
  - unfold addr_in. rewrite Hnet. by rewrite blk_blk_base.
Qed.

Lemma GetServiceCIDRFromIP_spec_witness :
  ∃ c, GetServiceCIDRFromIP "10.96.7.13" = Ret c ∧ net4 c = Some (blk_base 174065421 24, 24) ∧ addr_in c 174065421.
Proof. apply GetServiceCIDRFromIP_spec; [unfold is_v4; lia|vm_compute; reflexivity]. Defined.

(** The candidates: a /24 of one of the private ranges. *)
Lemma random_cidr_spec r t : r ∈ privateRanges → 0 ≤ t < 256 →
  ∃ z, is_v4 z ∧ random_cidr r t = Ret (cidr4 z 24) ∧
    ∀ a, is_v4 a → addr_in (cidr4 z 24) a → addr_in r a.
Proof.
  intros Hr Ht. assert (H24 : mask_bits 24) by (unfold mask_bits; lia).
  assert (Hcase : ∃ x y n, random_cidr r t = Ret (IP_String [x; y; t; 0] +:+ "/24") ∧ is_byte x ∧ is_byte y ∧
    net4 r = Some (blk_base (x * 16777216 + y * 65536) n, n) ∧ 0 ≤ n ≤ 16).
  { unfold privateRanges in Hr. rewrite !elem_of_cons, elem_of_nil in Hr.
    destruct Hr as [->|[->|[->|[]]]]; [exists 10, 0, 8|exists 172, 16, 12|exists 192, 168, 16];
      unfold is_byte; (split; [reflexivity|]); (split; [lia|]); (split; [lia|]); (split; [vm_compute; reflexivity|lia]). }
  destruct Hcase as (x & y & n & -> & Hx & Hy & Hn & Hn16).
  assert (is_byte t ∧ is_byte 0) as [Hbt Hb0] by (unfold is_byte; lia).
  set (z := x * 16777216 + y * 65536 + t * 256).
  assert (Hz : is_v4 z) by (unfold is_v4, is_byte, z in *; lia).
  assert (Hv : [x; y; t; 0] = v4 z).
  { unfold v4, z, is_byte in *. repeat apply (f_equal2 cons); try reflexivity; dlia. }
  exists z. split; [done|]. split; [by rewrite Hv, IP_String_v4|].
  intros a Ha. unfold addr_in. rewrite net4_cidr4, Hn by done. rewrite blk_blk_base by done. intros Hblk.
  rewrite blk_blk_base by (unfold mask_bits; lia). rewrite (blk_coarse_eq a z n 24 ltac:(lia) ltac:(lia) Hblk).
  rewrite (blk_coarse_eq z (x * 16777216 + y * 65536) n 16); [done|lia..|].
  unfold blk, z. change (2 ^ (32 - 16)) with 65536. unfold is_byte in *. dlia.
Qed.

Lemma conflicts_false c ex z n : net4 c = Some (z, n) → Forall (λ e, is_Some (net4 e)) ex →
  conflicts c ex = Ret false → ∀ e a, e ∈ ex → is_v4 a → addr_in e a → addr_in c a → False.
Proof.
  intros Hc Hex. induction ex as [|e ex IH]; [by intros _ e a ?%elem_of_nil|].
  apply Forall_cons in Hex as [[[w m] He] Hex]. cbn [conflicts]. rewrite (isOverlappingCIDR_net4 _ _ _ _ _ _ Hc He).
  cbn. destruct (overlap4 z n w m) eqn:Ho; [done|]. intros Hrest e' a [->|Hin]%elem_of_cons Ha Hea Hca; [|by eapply IH].
  destruct (net4_parse _ _ _ Hc) as (Hz & Hn & _), (net4_parse _ _ _ He) as (Hw & Hm & _).
  unfold addr_in in Hea, Hca. rewrite He in Hea. rewrite Hc in Hca.
  enough (overlap4 z n w m = true) by congruence. apply overlap4_spec; [done..|]. by exists a.
Qed.

Section random.
Context `{RandLib}.

Definition range_ok (ex : list string) (c : string) : Prop :=
  (∃ z, net4 c = Some (z, 24)) ∧
  (∃ r, r ∈ privateRanges ∧ ∀ a, is_v4 a → addr_in c a → addr_in r a) ∧
  ∀ e a, e ∈ ex → is_v4 a → addr_in e a → addr_in c a → False.

Lemma random_loop_ok ex c rounds i :
  Forall (λ e, is_Some (net4 e)) ex → random_loop rounds i ex = Ret c → range_ok ex c.
Proof.
  intros Hex. revert i. induction rounds as [|rounds IH]; intros i; cbn [random_loop]; [done|].
  destruct (rand_Int (2 * i) _) as [idx| | |]; try done. cbn [wrap_err mbind outcome_bind].
  unfold index. destruct (privateRanges !! Z.to_nat idx) as [r|] eqn:Hr; [|done]. cbn [deref mbind outcome_bind].
  destruct (rand_Int (2 * i + 1) 256) as [t| | |] eqn:Ht; try done. cbn [wrap_err mbind outcome_bind].
  apply rand_Int_range in Ht. apply list_elem_of_lookup_2 in Hr.
  destruct (random_cidr_spec r t Hr Ht) as (z & Hz & -> & Hin). cbn [mbind outcome_bind].
  assert (Hnet : net4 (cidr4 z 24) = Some (blk_base z 24, 24)) by (apply net4_cidr4; [done|unfold mask_bits; lia]).
  destruct (conflicts (cidr4 z 24) ex) as [[]| | |] eqn:Hc; try done; cbn [mbind outcome_bind]; [apply IH|].
  intros [= <-]. split; [eauto|]. split; [eauto|]. by eapply conflicts_false.
Qed.

(** C40: a range generated for virtual services is a /24 inside one of the private
    ranges and shares no address with the ranges it was given (the cluster's
    service and pod ranges), whatever the random numbers. *)
Theorem GenerateRandomServiceCIDR_ok ex c :
  Forall (λ e, is_Some (net4 e)) ex → GenerateRandomServiceCIDR ex = Ret c → range_ok ex c.
Proof. apply random_loop_ok. Qed.
End random.

(** A source of random numbers that always draws the same. *)
Program Definition demo_rand : RandLib := {| rand_Int := λ n max, if 0 <? max then Ret (Z.of_nat n mod max) else Err "bound" |}.
Next Obligation.
  simpl. intros n max z. destruct (Z.ltb_spec 0 max); [|done]. intros [= <-]. by apply Z.mod_pos_bound.
Qed.

Lemma GenerateRandomServiceCIDR_ok_witness :
  @GenerateRandomServiceCIDR demo_rand ["10.0.0.0/16"; "192.168.0.0/16"] = Ret "172.16.5.0/24" ∧
  range_ok ["10.0.0.0/16"; "192.168.0.0/16"] "172.16.5.0/24".
Proof.
  assert (Hex : Forall (λ e, is_Some (net4 e)) ["10.0.0.0/16"; "192.168.0.0/16"]) by (by apply (bool_decide_unpack _); vm_compute).
  assert (E : @GenerateRandomServiceCIDR demo_rand ["10.0.0.0/16"; "192.168.0.0/16"] = Ret "172.16.5.0/24").
  { vm_compute. reflexivity. }
  split; [exact E|]. exact (@GenerateRandomServiceCIDR_ok demo_rand ["10.0.0.0/16"; "192.168.0.0/16"] "172.16.5.0/24" Hex E).
Defined.
