(* ===== verification/Mcs.v ===== *)
(** * Multi-cluster services

    [pkg/controller/mcs]: the controller that uploads the endpoint slices of
    exported services to the hub and the one that downloads them for imported
    services and gives those a virtual address.  The listers are arguments of the
    handlers; the target cluster, the multi-cluster API and the IPAM are the world
    [W]. *)
From Stdlib Require Import Ascii.
From stdpp Require Import prelude gmap strings list pretty.
From S2P Require Import Prelude NetAddr NetUtil K8s ProxyEndpoints HostPort Utils SliceSync ServiceCIDR.
Open Scope Z_scope.

(** Names of [pkg/known]. *)
Definition AppFinalizer : string := "apps.fleetboard.io/finalizer".
Definition LabelClusterID : string := "services.fleetboard.io/multi-cluster-cluster-ID".
Definition IsHeadlessKey : string := "services.fleetboard.io/is-headless".
Definition ObjectCreatedByLabel : string := "fleetboard.io/created-by".
Definition LabelValueManagedBy : string := "mcs.fleetboard.io".

Record ServiceExport := mkSExport { sexp_meta : ObjectMeta }.

(** What a handler returns: whether to try again in a second, and the error. *)
Record handled := mkHandled { h_again : bool; h_err : option ApiError }.
Definition done_ok : handled := mkHandled false None.

(** A lister of one kind of objects (by namespace and name), and the one of
    endpoint slices (by namespace and labels). *)
Abbreviation Lister T := (string → string → T + ApiError).
Abbreviation SliceLister := (string → gmap string string → list EndpointSlice + ApiError).

Class McsClient (W : Type) := {
  si_update : W → string → ServiceImport → W * (ServiceImport + ApiError);
  se_update : W → string → ServiceExport → W * (ServiceExport + ApiError)
}.

Definition set_si_meta (f : ObjectMeta → ObjectMeta) (si : ServiceImport) : ServiceImport :=
  mkSImport (f (sim_meta si)) (sim_Ports si) (sim_IPs si) (sim_Type si).
Definition set_si_IPs (ips : list string) (si : ServiceImport) : ServiceImport :=
  mkSImport (sim_meta si) (sim_Ports si) ips (sim_Type si).

(** An [add]ed finalizer and a removed one. *)
Definition add_finalizer (m : ObjectMeta) : ObjectMeta := set_Finalizers (Finalizers m ++ [AppFinalizer]) m.
Definition remove_finalizer (m : ObjectMeta) : ObjectMeta := set_Finalizers (RemoveString (Finalizers m) AppFinalizer) m.

Section mcs.
Context {W : Type} `{SliceClient W} `{SliceReader W} `{PatchLib EndpointSlice} `{GoSched} `{ClientGo} `{HashLib}
  `{McsClient W} `{Ipamer W}.

(** ** Exports *)

(** The slice the hub gets. *)
Definition constructEndpointSlice (slice : EndpointSlice) (se : ServiceExport) (namespace clusterID : string) : EndpointSlice :=
  let seName := Name (sexp_meta se) in
  let seNamespace := Namespace (sexp_meta se) in
  let labels : gmap string string :=
    <[IsHeadlessKey := mstr (Labels (sexp_meta se)) IsHeadlessKey]>
    (<[LabelServiceName := DerivedName clusterID seNamespace seName]>
    (<[known_LabelServiceNameSpace := seNamespace]>
    (<[LabelClusterID := clusterID]>
    {[known_LabelServiceName := seName]}))) in
  mkSlice (set_Labels (Some labels) (mkMeta (clusterID +:+ "-" +:+ seNamespace +:+ "-" +:+ es_Name slice) EmptyString namespace
             EmptyString EmptyString 0 0 None None None [] []))
    (es_AddressType slice) (es_Endpoints slice) (es_Ports slice).

(** The selector of the local slices of one export, and of its slices in the hub. *)
Definition source_selector (se : ServiceExport) : gmap string string :=
  <[LabelManagedBy := LabelValueManagedBy]> {[LabelServiceName := Name (sexp_meta se)]}.
Definition export_selector (clusterID namespace seName : string) : gmap string string :=
  {[LabelServiceName := DerivedName clusterID namespace seName]}.

(** What the handler returns once the goroutines are done: on failure, the error
    variable holds what the last of them assigned. *)
Definition no_error (e : option ApiError) : bool := match e with None => true | Some _ => false end.
Definition sync_result (errs : list (option ApiError)) : handled :=
  if forallb no_error errs then done_ok else mkHandled true (default None (last errs)).

Definition set_label (k v : string) (m : ObjectMeta) : ObjectMeta := set_Labels (Some (<[k := v]> (mentries (Labels m)))) m.

(** The recycling of a terminating export. *)
Definition recycle_export (w : W) (clusterID operatorNamespace namespace seName : string) (se : ServiceExport) : W * handled :=
  match api_delete_collection w operatorNamespace (export_selector clusterID namespace seName) with
  | (w, Some e) => (w, mkHandled true (Some e))
  | (w, None) =>
      match se_update w namespace (mkSExport (remove_finalizer (sexp_meta se))) with
      | (w, inr e) => (w, mkHandled true (Some e))
      | (w, inl _) => (w, done_ok)
      end
  end.

Definition ServiceExport_Handle (w : W) (clusterID operatorNamespace key : string)
    (serviceExportLister : Lister ServiceExport) (serviceLister : Lister Service) (endpointSlicesLister : SliceLister) : W * handled :=
  match SplitMetaNamespaceKey key with
  | None => (w, done_ok)
  | Some (namespace, seName) =>
      match serviceExportLister namespace seName, serviceLister namespace seName with
      | inr e, _ => (w, if IsNotFound e then done_ok else mkHandled false (Some e))
      | inl _, inr e => (w, if IsNotFound e then done_ok else mkHandled false (Some e))
      | inl cached, inl service =>
          let isHeadless := if bool_decide (svc_ClusterIP service = "None") then "true" else "false" in
          let se := mkSExport (set_label IsHeadlessKey isHeadless (sexp_meta cached)) in
          match DeletionTimestamp (sexp_meta se) with
          | Some _ => recycle_export w clusterID operatorNamespace namespace seName se
          | None =>
              let '(w, updated) :=
                if ContainsString (Finalizers (sexp_meta se)) AppFinalizer then (w, inl se)
                else se_update w namespace (mkSExport (add_finalizer (sexp_meta se))) in
              match updated with
              | inr e => (w, mkHandled true (Some e))
              | inl se =>
                  let '(w, errs) := sync_slices w (endpointSlicesLister namespace (source_selector se)) clusterID operatorNamespace
                    (export_selector clusterID namespace seName) true
                    (λ s, constructEndpointSlice s se operatorNamespace clusterID) in
                  (w, sync_result errs)
              end
          end
      end
  end.

(** ** Imports *)
Definition AddInitialInfoToServiceImport (i : IPAM) (w : W) (si : ServiceImport)
    : outcome (W * ServiceImport * bool * option string) :=
  let hasFinalizer := ContainsString (Finalizers (sim_meta si)) AppFinalizer in
  let si := if hasFinalizer then si else set_si_meta add_finalizer si in
  let siChanged := negb hasFinalizer in
  if bool_decide (sim_Type si = Headless) then
    match sim_IPs si with
    | [] => Ret (w, si, siChanged, None)
    | _ :: ips => Ret (w, set_si_IPs (EmptyString :: ips) si, true, None)
    end
  else if bool_decide (default EmptyString (head (sim_IPs si)) = EmptyString) then
    '(w, r) ← AllocateIP i w;
    match r with
    | inr e => Ret (w, si, siChanged, Some e)
    | inl ip => Ret (w, set_si_IPs [ip] si, true, None)
    end
  else Ret (w, si, siChanged, None).

Definition import_selector (si : ServiceImport) : gmap string string :=
  <[known_LabelServiceNameSpace := Namespace (sim_meta si)]> {[known_LabelServiceName := Name (sim_meta si)]}.

(** The address is released before the finalizer is removed. *)
Definition recycleServiceImport (i : IPAM) (w : W) (si : ServiceImport) : outcome (W * option ApiError) :=
  let namespace := Namespace (sim_meta si) in
  match api_delete_collection w namespace (import_selector si) with
  | (w, Some e) => Ret (w, Some e)
  | (w, None) =>
      '(w, released) ←
        (if bool_decide (sim_Type si ≠ Headless) then
           ip ← index (sim_IPs si) 0;
           if bool_decide (ip ≠ EmptyString) then ReleaseIP i w ip else Ret (w, None)
         else Ret (w, None));
      match released with
      | Some e => Ret (w, Some (mkErr ReasonOther e))
      | None => match si_update w namespace (set_si_meta remove_finalizer si) with
                | (w, inr e) => Ret (w, Some e)
                | (w, inl _) => Ret (w, None)
                end
      end
  end.

Definition forkEndpointSlice (slice : EndpointSlice) (namespace : string) : EndpointSlice :=
  mkSlice (mkMeta (es_Name slice) EmptyString namespace EmptyString EmptyString 0 0 None
             (delete ObjectCreatedByLabel <$> Labels (es_meta slice)) None [] [])
    (es_AddressType slice) (es_Endpoints slice) (es_Ports slice).

(** The error of a failed allocation is logged and not returned. *)
Definition ServiceImport_Handle (i : IPAM) (w : W) (operatorNamespace key : string) (localSILister : Lister ServiceImport)
    (sourceEndpointSlicesLister : SliceLister) : outcome (W * handled) :=
  match SplitMetaNamespaceKey key with
  | None => Ret (w, done_ok)
  | Some (namespace, siName) =>
      match localSILister namespace siName with
      | inr e => Ret (w, if IsNotFound e then done_ok else mkHandled false (Some e))
      | inl si =>
          match DeletionTimestamp (sim_meta si) with
          | Some _ =>
              '(w, err) ← recycleServiceImport i w si;
              Ret (w, match err with Some e => mkHandled true (Some e) | None => done_ok end)
          | None =>
              '(w, si, changed, initErr) ← AddInitialInfoToServiceImport i w si;
              match initErr with
              | Some _ => Ret (w, mkHandled true None)
              | None =>
                  let '(w, updated) := if (changed : bool) then si_update w namespace si else (w, inl si) in
                  match updated with
                  | inr e => Ret (w, mkHandled true (Some e))
                  | inl si =>
                      let '(w, errs) := sync_slices w (sourceEndpointSlicesLister operatorNamespace (import_selector si)) EmptyString
                        namespace (import_selector si) false (λ s, forkEndpointSlice s namespace) in
                      Ret (w, sync_result errs)
                  end
              end
          end
      end
  end.

(** The lister of imports is asked in the namespace of the slice. *)
Definition getServiceImportFromEndpointSlice (lister : Lister ServiceImport) (slice : EndpointSlice)
    : outcome ServiceImport :=
  match mget (Labels (es_meta slice)) known_LabelServiceName, mget (Labels (es_meta slice)) known_LabelServiceNameSpace with
  | Some rawServiceName, Some _ =>
      match lister (Namespace (es_meta slice)) rawServiceName with
      | inl si => Ret si
      | inr _ => Err "can't resolve service import from this slice"
      end
  | _, _ => Err "can't resolve service import from this slice"
  end.

Definition getServiceExportFromEndpointSlice (lister : Lister ServiceExport) (slice : EndpointSlice)
    : outcome ServiceExport :=
  match mget (Labels (es_meta slice)) LabelServiceName with
  | Some serviceName =>
      match lister (Namespace (es_meta slice)) serviceName with
      | inl se => Ret se
      | inr _ => Err "can't get service export from this slice"
      end
  | None => Err "can't get service export from this slice"
  end.
End mcs.

(** ** What the listers and the multi-cluster API promise *)

(** A lister answers with objects of the namespace it is asked for. *)
Definition lists_ok (lister : SliceLister) : Prop := ∀ ns sel l, lister ns sel = inl l →
  NoDup (es_Name <$> l) ∧ Forall (λ s, es_Name s ≠ EmptyString ∧ Namespace (es_meta s) = ns) l.

Class ExportLaws (W : Type) `{SliceServer W} `{McsClient W} := {
  se_update_ok : ∀ w ns se w' c, se_update w ns se = (w', inl c) →
    Name (sexp_meta c) = Name (sexp_meta se) ∧ Namespace (sexp_meta c) = Namespace (sexp_meta se);
  se_update_frame : ∀ w ns se target, api_slices (fst (se_update w ns se)) target = api_slices w target
}.

Section export.
Context {W : Type} `{SliceReads W} `{PatchLaws} `{GoSched} `{ClientGo} `{HashLib} `{!McsClient W} `{!Ipamer W} `{!ExportLaws W}.

Lemma sync_result_ok errs : sync_result errs = done_ok → Forall (λ e, e = None) errs.
Proof.
  unfold sync_result. destruct (forallb no_error errs) eqn:E; [|done]. intros _. rewrite forallb_forall in E.
  apply Forall_forall. intros e He. apply list_elem_of_In in He. specialize (E e He). by destruct e.
Qed.

(** The name and the contents are those of the local slice, whatever labels the
    export carries. *)
Lemma constructEndpointSlice_same slice se se' opns cid :
  Name (sexp_meta se) = Name (sexp_meta se') → Namespace (sexp_meta se) = Namespace (sexp_meta se') →
  es_Name (constructEndpointSlice slice se opns cid) = es_Name (constructEndpointSlice slice se' opns cid) ∧
  payload (constructEndpointSlice slice se opns cid) = payload (constructEndpointSlice slice se' opns cid).
Proof. unfold constructEndpointSlice, es_Name, payload. simpl. by intros _ ->. Qed.

Lemma mirrors_ext w0 w src ns dst build build' w' :
  (∀ n, api_slices w0 ns !! n = api_slices w ns !! n) →
  (∀ s, es_Name (build s) = es_Name (build' s) ∧ payload (build s) = payload (build' s)) →
  mirrors w0 src ns dst build w' → mirrors w src ns dst build' w'.
Proof.
  intros Hw Hb (M1 & M2).
  assert (Hf : (es_Name ∘ build) <$> src = (es_Name ∘ build') <$> src).
  { apply list_fmap_ext. intros i s _. exact (proj1 (Hb s)). }
  split.
  - intros s Hs. destruct (Hb s) as [<- <-]. by apply M1.
  - intros n c Hnin. rewrite <- Hw. apply M2. by rewrite Hf.
Qed.

Lemma construct_names_NoDup l se opns cid :
  NoDup (es_Name <$> l) → NoDup ((es_Name ∘ (λ s, constructEndpointSlice s se opns cid)) <$> l).
Proof.
  intros Hnd. set (f n := cid +:+ "-" +:+ Namespace (sexp_meta se) +:+ "-" +:+ n).
  assert (Inj (=) (=) f) by (intros n n' Heq; by repeat apply (inj (String.app _)) in Heq).
  change (NoDup ((f ∘ es_Name) <$> l)). rewrite list_fmap_compose. by apply (NoDup_fmap_2 f).
Qed.

Lemma append_nonempty a b : b ≠ EmptyString → a +:+ b ≠ EmptyString.
Proof. by destruct a. Qed.

(** The part of the handler after the finalizer is in place. *)
Lemma export_sync_mirrors w cid opns ns n se slices w' :
  NoDup (es_Name <$> slices) →
  Forall (λ s, es_Name s ≠ EmptyString ∧ Namespace (es_meta s) = Namespace (sexp_meta se)) slices →
  (∀ w ns sel, ∃ items, api_list w ns sel = inl items) →
  (let '(w, errs) := sync_slices w (inl slices) cid opns (export_selector cid ns n) true
     (λ s, constructEndpointSlice s se opns cid) in (w, sync_result errs)) = (w', done_ok) →
  mirrors w slices opns (export_selector cid ns n) (λ s, constructEndpointSlice s se opns cid) w' ∧
  keeps_labels w slices opns (λ s, constructEndpointSlice s se opns cid) w'.
Proof.
  intros Hnd Hall Hl E. destruct (sync_slices _ _ _ _ _ _ _) as [w1 errs] eqn:Es. injection E as -> Hr.
  apply sync_result_ok in Hr. destruct (Hl w opns (export_selector cid ns n)) as [items Hi].
  eapply sync_slices_mirrors; [by apply construct_names_NoDup| |exact Hi|exact Es|exact Hr].
  eapply Forall_impl; [exact Hall|]. intros s [Hn Hns]. unfold target_name, constructEndpointSlice, es_Name. simpl.
  rewrite Hns. split_and!; [done| |done]. by repeat apply append_nonempty.
Qed.

(** A successful run of the handler is a synchronisation with the export it has stored, which has the name and the
    namespace of the cached one. *)
Lemma export_handle_syncs w cid opns key ns n seLister svcLister epsLister se svc slices w' :
  SplitMetaNamespaceKey key = Some (ns, n) →
  seLister ns n = inl se → Name (sexp_meta se) = n → Namespace (sexp_meta se) = ns →
  DeletionTimestamp (sexp_meta se) = None → svcLister ns n = inl svc →
  lists_ok epsLister → epsLister ns (source_selector se) = inl slices →
  (∀ w ns sel, ∃ items, api_list w ns sel = inl items) →
  ServiceExport_Handle w cid opns key seLister svcLister epsLister = (w', done_ok) →
  ∃ w1 se1, (∀ k, api_slices w1 opns !! k = api_slices w opns !! k) ∧
    Name (sexp_meta se1) = n ∧ Namespace (sexp_meta se1) = ns ∧
    mirrors w1 slices opns (export_selector cid ns n) (λ s, constructEndpointSlice s se1 opns cid) w' ∧
    keeps_labels w1 slices opns (λ s, constructEndpointSlice s se1 opns cid) w'.
Proof.
  intros Hk Hse Hname Hnsp Hd Hsvc Hlok Hsl Hl E. destruct (Hlok _ _ _ Hsl) as [Hnd Hall].
  unfold ServiceExport_Handle in E. rewrite Hk, Hse, Hsvc in E. cbv zeta in E.
  set (lab := set_label _ _ _) in E. assert (HN : Name lab = n ∧ Namespace lab = ns) by done.
  replace (DeletionTimestamp (sexp_meta (mkSExport lab))) with (None : option Z) in E by (symmetry; exact Hd).
  assert (Hgo : ∃ w1 se1, (∀ k, api_slices w1 opns !! k = api_slices w opns !! k) ∧
    Name (sexp_meta se1) = n ∧ Namespace (sexp_meta se1) = ns ∧
    (let '(w, errs) := sync_slices w1 (epsLister ns (source_selector se1)) cid opns (export_selector cid ns n) true
       (λ s, constructEndpointSlice s se1 opns cid) in (w, sync_result errs)) = (w', done_ok)).
  { destruct (ContainsString _ _); [by exists w, (mkSExport lab)|].
    pose proof (se_update_frame w ns (mkSExport (add_finalizer lab)) opns) as Hf.
    destruct (se_update w ns _) as [w1 [c|]] eqn:Eu; [|done]. apply se_update_ok in Eu as [Hc1 Hc2].
    exists w1, c. simpl in *. split_and!; [|by rewrite Hc1|by rewrite Hc2|done]. intros k. by rewrite Hf. }
  destruct Hgo as (w1 & se1 & Hw1 & Hn1 & Hns1 & Hgo). exists w1, se1. split_and!; [done..| |].
  all: assert (source_selector se1 = source_selector se) as Hsrc by (unfold source_selector; by rewrite Hn1, Hname);
    rewrite Hsrc, Hsl in Hgo; apply export_sync_mirrors in Hgo; [|done|by rewrite Hns1|done]; apply Hgo.
Qed.

(** A successful run of the export controller for a service export that is not
    terminating mirrors the local slices of the service in the hub: each of them
    is there under the cluster, namespace and slice name with its endpoints and
    ports, the hub has no other slice of that export, and slices of other
    exports are as before.  The list calls are assumed to succeed: the code drops
    their errors. *)
Theorem export_mirrors w cid opns key ns n seLister svcLister epsLister se svc slices w' :
  SplitMetaNamespaceKey key = Some (ns, n) →
  seLister ns n = inl se → Name (sexp_meta se) = n → Namespace (sexp_meta se) = ns →
  DeletionTimestamp (sexp_meta se) = None → svcLister ns n = inl svc →
  lists_ok epsLister → epsLister ns (source_selector se) = inl slices →
  (∀ w ns sel, ∃ items, api_list w ns sel = inl items) →
  ServiceExport_Handle w cid opns key seLister svcLister epsLister = (w', done_ok) →
  mirrors w slices opns (export_selector cid ns n) (λ s, constructEndpointSlice s se opns cid) w'.
Proof.
  intros Hk Hse Hname Hnsp Hd Hsvc Hlok Hsl Hl E.
  destruct (export_handle_syncs w cid opns key ns n seLister svcLister epsLister se svc slices w') as (w1 & se1 & Hw1 & Hn1 & Hns1 & Hm & _); [done..|].
  eapply mirrors_ext; [exact Hw1| |exact Hm].
  intros s. exact (constructEndpointSlice_same s se1 se opns cid (eq_trans Hn1 (eq_sym Hname)) (eq_trans Hns1 (eq_sym Hnsp))).
Qed.
End export.

(** ** The virtual addresses of the imports *)

(** The multi-cluster API as a store of imports: an update replaces the object,
    and removes it once it is terminating and has no finalizer left. *)
Class ImportStore (W : Type) `{McsClient W} := {
  si_imports : W → gmap (string * string) ServiceImport;
  si_update_ok : ∀ w ns si w' c, si_update w ns si = (w', inl c) →
    let gone := bool_decide (is_Some (DeletionTimestamp (sim_meta c)) ∧ Finalizers (sim_meta c) = []) in
    let key := (ns, Name (sim_meta si)) in
    sim_IPs c = sim_IPs si ∧ sim_Type c = sim_Type si ∧ Name (sim_meta c) = Name (sim_meta si) ∧
    Namespace (sim_meta c) = Namespace (sim_meta si) ∧ Finalizers (sim_meta c) = Finalizers (sim_meta si) ∧
    DeletionTimestamp (sim_meta c) = DeletionTimestamp (sim_meta si) ∧
    si_imports w' = if gone then delete key (si_imports w) else <[key := c]> (si_imports w)
}.

(** The three services are independent: slices, imports, addresses. *)
Class McsFrames (W : Type) `{SliceClient W} `{SliceReader W} `{ImportStore W} `{IpamLaws W} := {
  frame_create : ∀ w ns s, si_imports (fst (api_create w ns s)) = si_imports w ∧ ipam_taken (fst (api_create w ns s)) = ipam_taken w;
  frame_update : ∀ w ns s, si_imports (fst (api_update w ns s)) = si_imports w ∧ ipam_taken (fst (api_update w ns s)) = ipam_taken w;
  frame_delete : ∀ w ns n, si_imports (fst (api_delete w ns n)) = si_imports w ∧ ipam_taken (fst (api_delete w ns n)) = ipam_taken w;
  frame_delete_collection : ∀ w ns sel, si_imports (fst (api_delete_collection w ns sel)) = si_imports w ∧
    ipam_taken (fst (api_delete_collection w ns sel)) = ipam_taken w;
  frame_si_update : ∀ w ns si, ipam_taken (fst (si_update w ns si)) = ipam_taken w;
  frame_acquire : ∀ w c, si_imports (fst (ipam_AcquireIP w c)) = si_imports w;
  frame_release : ∀ w c ip, si_imports (fst (ipam_ReleaseIP w c ip)) = si_imports w
}.

(** The address an import holds. *)
Definition vip (si : ServiceImport) : option string :=
  match sim_IPs si with
  | ip :: _ => if bool_decide (sim_Type si ≠ Headless ∧ ip ≠ EmptyString) then Some ip else None
  | [] => None
  end.

Section vips.
Context {W : Type} `{McsFrames W} `{PatchLib EndpointSlice} `{GoSched} `{ClientGo}.

(** Nothing a slice call does touches imports or addresses. *)
Definition same_rest (w w' : W) : Prop := si_imports w' = si_imports w ∧ ipam_taken w' = ipam_taken w.

Lemma same_rest_trans w w1 w2 : same_rest w w1 → same_rest w1 w2 → same_rest w w2.
Proof. unfold same_rest. intros [-> ->] [-> ->]. done. Qed.

Lemma apply_slice_rest s w : same_rest w (fst (apply_slice s w)).
Proof.
  unfold apply_slice. pose proof (frame_create w (Namespace (es_meta s)) s) as Hc.
  destruct (api_create w _ s) as [w1 [c|e]]; [done|]. case_match; [done|]. case_match; [|done]. case_match; [|done].
  match goal with |- context [api_update w1 ?n ?x] => pose proof (frame_update w1 n x) as Hu; destruct (api_update w1 n x) as [w2 [|]] end;
    by apply (same_rest_trans w w1 w2).
Qed.

Lemma retry_rest s w : same_rest w (fst (ApplyEndPointSliceWithRetry w s)).
Proof.
  unfold ApplyEndPointSliceWithRetry. destruct (RetryOnConflict _ w) as [w' r] eqn:E. apply RetryOnConflict_run in E. simpl.
  induction E as [w w' r E|w w1 e w' r E _ _ IH]; pose proof (apply_slice_rest s w) as Ha; rewrite E in Ha; [done|].
  by apply (same_rest_trans w w1).
Qed.

Lemma apply_each_rest l w : same_rest w (fst (apply_each w l)).
Proof.
  revert w. induction l as [|s l IH]; intros w; cbn [apply_each]; [done|].
  pose proof (retry_rest s w) as Ha. destruct (ApplyEndPointSliceWithRetry w s) as [w1 e]. specialize (IH w1). destruct (apply_each w1 l) as [w2 errs].
  by apply (same_rest_trans w w1 w2).
Qed.

Lemma remove_loop_rest ns keep items w : same_rest w (fst (remove_loop w ns keep items)).
Proof.
  revert w. induction items as [|x items IH]; intros w; cbn [remove_loop]; [done|]. case_match; [done|].
  pose proof (frame_delete w ns (es_Name x)) as Hd. destruct (api_delete w ns (es_Name x)) as [w1 [e|]]; [done|].
  by apply (same_rest_trans w w1).
Qed.

Lemma sync_slices_rest w src cid ns dst changed build : same_rest w (fst (sync_slices w src cid ns dst changed build)).
Proof.
  unfold sync_slices, RemoveNonexistentEndpointslice. destruct (match src with inl l => inl l | inr e => _ end) as [l|e]; [|done].
  destruct (api_list w ns dst) as [items|]; [|apply apply_each_rest]. set (keep := list_to_set _).
  pose proof (remove_loop_rest ns keep items w) as Hr. destruct (remove_loop w ns keep items) as [w1 [e|]]; [done|].
  by apply (same_rest_trans w w1), apply_each_rest.
Qed.

(** Every held address is taken, no two imports hold the same one, and imports
    are filed under their names with no foreign finalizer. *)
Record vips_ok (w : W) : Prop := mkVipsOk {
  vo_taken : ∀ k si ip, si_imports w !! k = Some si → vip si = Some ip → ip ∈ ipam_taken w;
  vo_distinct : ∀ k k' si si' ip, si_imports w !! k = Some si → si_imports w !! k' = Some si' →
    vip si = Some ip → vip si' = Some ip → k = k';
  vo_filed : ∀ k si, si_imports w !! k = Some si → (Namespace (sim_meta si), Name (sim_meta si)) = k ∧
    Forall (eq AppFinalizer) (Finalizers (sim_meta si))
}.

Lemma vips_ok_rest w w' : same_rest w w' → vips_ok w → vips_ok w'.
Proof. intros [Hi Ht] [V1 V2 V3]. split; rewrite Hi; rewrite ?Ht; done. Qed.
End vips.

Section steps.
Context {W : Type} `{McsFrames W} `{PatchLib EndpointSlice} `{GoSched} `{ClientGo}.
Implicit Types (w : W) (si c : ServiceImport).

Lemma RemoveString_all l : Forall (eq AppFinalizer) l → RemoveString l AppFinalizer = [].
Proof. induction 1 as [|x l <- _ IH]; [done|]. unfold RemoveString in *. rewrite filter_cons_False; [done|]. by intros []. Qed.

Lemma vip_eq si c : sim_IPs c = sim_IPs si → sim_Type c = sim_Type si → vip c = vip si.
Proof. unfold vip. by intros -> ->. Qed.

Lemma vip_headless si : sim_Type si = Headless → vip si = None.
Proof. unfold vip. intros ->. destruct (sim_IPs si); [done|]. rewrite bool_decide_eq_false_2; naive_solver. Qed.

(** Storing an import whose address nobody else holds. *)
Lemma vips_ok_set w w' k c :
  vips_ok w → (Namespace (sim_meta c), Name (sim_meta c)) = k → Forall (eq AppFinalizer) (Finalizers (sim_meta c)) →
  si_imports w' = <[k := c]> (si_imports w) → ipam_taken w ⊆ ipam_taken w' →
  (∀ ip, vip c = Some ip → ip ∈ ipam_taken w' ∧
     ∀ k' si', k' ≠ k → si_imports w !! k' = Some si' → vip si' ≠ Some ip) →
  vips_ok w'.
Proof.
  intros [V1 V2 V3] Hk Hf Hi Ht Hc. split; rewrite Hi.
  - intros k' si ip [[<- <-]|[_ Hs]]%lookup_insert_Some Hv; [by apply Hc|]. eapply Ht, V1; done.
  - intros k1 k2 s1 s2 ip [[<- <-]|[N1 L1]]%lookup_insert_Some [[<- <-]|[N2 L2]]%lookup_insert_Some Hv1 Hv2; [done|..].
    + destruct (Hc _ Hv1) as [_ Hc']. by destruct (Hc' k2 s2).
    + destruct (Hc _ Hv2) as [_ Hc']. by destruct (Hc' k1 s1).
    + by eapply V2.
  - intros k' si [[<- <-]|[_ Hs]]%lookup_insert_Some; [done|]. by apply V3.
Qed.

(** Removing an import, with or without the release of its address. *)
Lemma vips_ok_drop w w' k si :
  vips_ok w → si_imports w !! k = Some si → si_imports w' = delete k (si_imports w) →
  (ipam_taken w' = ipam_taken w ∨ ∃ ip, vip si = Some ip ∧ ipam_taken w' = ipam_taken w ∖ {[ip]}) →
  vips_ok w'.
Proof.
  intros [V1 V2 V3] Hk Hi Ht. split; rewrite Hi.
  - intros k' si' ip' [Hne Hs]%lookup_delete_Some Hv. destruct Ht as [->|(ip & Hip & ->)]; [by eapply V1|].
    apply elem_of_difference. split; [by eapply V1|]. intros ->%elem_of_singleton. apply Hne. by eapply V2.
  - intros k1 k2 s1 s2 ip [_ L1]%lookup_delete_Some [_ L2]%lookup_delete_Some. by eapply V2.
  - intros k' si' [_ Hs]%lookup_delete_Some. by apply V3.
Qed.

(** What the first half of the handler may have done. *)
Definition initialised (w w1 : W) (si si1 : ServiceImport) (err : option string) : Prop :=
  si_imports w1 = si_imports w ∧ Name (sim_meta si1) = Name (sim_meta si) ∧ Namespace (sim_meta si1) = Namespace (sim_meta si) ∧
  DeletionTimestamp (sim_meta si1) = DeletionTimestamp (sim_meta si) ∧ Forall (eq AppFinalizer) (Finalizers (sim_meta si1)) ∧
  ((ipam_taken w1 = ipam_taken w ∧ vip si1 = vip si) ∨
   err = None ∧ ∃ ip, vip si1 = Some ip ∧ ip ∉ ipam_taken w ∧ ipam_taken w1 = {[ip]} ∪ ipam_taken w).

Lemma AddInitialInfo_spec i w si w1 si1 ch err : Forall (eq AppFinalizer) (Finalizers (sim_meta si)) →
  AddInitialInfoToServiceImport i w si = Ret (w1, si1, ch, err) →
  initialised w w1 si si1 err ∧ (ch = false → si1 = si).
Proof.
  intros Hf. unfold AddInitialInfoToServiceImport. cbv zeta. set (b := ContainsString _ _).
  set (s0 := if b then si else _).
  assert (Hs0 : sim_IPs s0 = sim_IPs si ∧ sim_Type s0 = sim_Type si ∧ Name (sim_meta s0) = Name (sim_meta si) ∧
    Namespace (sim_meta s0) = Namespace (sim_meta si) ∧ DeletionTimestamp (sim_meta s0) = DeletionTimestamp (sim_meta si) ∧
    Forall (eq AppFinalizer) (Finalizers (sim_meta s0)) ∧ (negb b = false → s0 = si)).
  { unfold s0. destruct b; [done|]. split_and!; try done. simpl. apply Forall_app. split; [done|]. by repeat constructor. }
  clearbody s0 b. destruct Hs0 as (Hips & Hty & Hn & Hns & Hdt & Hfin & Hsame). 
  assert (Hv : vip s0 = vip si) by by apply vip_eq.
  case_bool_decide as Hh.
  - destruct (sim_IPs s0) as [|x ips] eqn:Hi; intros [= <- <- <- <-]; (split; [|done]); unfold initialised; split_and!; try done;
      left; (split; [done|]); [done|]. rewrite <- Hv. by rewrite !vip_headless.
  - case_bool_decide as Hd; [|intros [= <- <- <- <-]; split; [|done]; unfold initialised; split_and!; try done; by left].
    unfold AllocateIP. destruct (ipam_prefix i) as [p|]; [|done]. cbn [deref mbind outcome_bind].
    pose proof (frame_acquire w p) as Hfr. destruct (ipam_AcquireIP w p) as [w2 [ip|e]] eqn:Ea; apply ipam_AcquireIP_ok in Ea;
      intros [= <- <- <- <-]; simpl in Hfr; (split; [|done]); unfold initialised; split_and!; try done; [right|by left].
    destruct Ea as (Hnt & Hne & Ht). split; [done|]. exists ip. split; [|done]. unfold vip. simpl.
    by rewrite bool_decide_eq_true_2.
Qed.

(** An informer cache that is up to date. *)
Definition import_lister (w : W) : Lister ServiceImport := λ ns n,
  match si_imports w !! (ns, n) with Some si => inl si | None => inr (mkErr ReasonNotFound "not found") end.

(** Storing the initialised import, or not, keeps the invariant. *)
Lemma live_update w w1 w2 si si1 ns n c :
  vips_ok w → si_imports w !! (ns, n) = Some si → DeletionTimestamp (sim_meta si) = None → initialised w w1 si si1 None →
  si_update w1 ns si1 = (w2, inl c) → vips_ok w2.
Proof.
  intros Hok Hsi Hdt (Hi & Hn & Hns & Hd & Hf & Hv) E. pose proof (frame_si_update w1 ns si1) as Ht. rewrite E in Ht. simpl in Ht.
  apply si_update_ok in E as (Hip & Hty & Hcn & Hcns & Hcf & Hcd & Hw). rewrite bool_decide_eq_false_2 in Hw.
  2:{ rewrite Hcd, Hd, Hdt. intros [[] _]. done. }
  destruct (vo_filed _ Hok _ _ Hsi) as [[= <- <-] _]. rewrite Hi, Hn in Hw.
  eapply vips_ok_set; [exact Hok| |by rewrite Hcf|exact Hw| |]; [by rewrite Hcns, Hcn, Hns, Hn|..].
  { rewrite Ht. destruct Hv as [[-> _]|(_ & ip & _ & _ & ->)]; set_solver. }
  rewrite Ht, (vip_eq si1 c) by done. destruct Hv as [[-> ->]|(_ & ip & -> & Hnt & ->)].
  - intros ip Hip'. split; [by eapply vo_taken|]. intros k' si' Hne Hs' Hv'. apply Hne. by eapply (vo_distinct w).
  - intros ip' [= <-]. split; [set_solver|]. intros k' si' Hne Hs' Hv'. apply Hnt. by eapply vo_taken.
Qed.

Lemma live_no_update w w1 si si1 err :
  vips_ok w → initialised w w1 si si1 err → vips_ok w1.
Proof.
  intros Hok (Hi & _ & _ & _ & _ & Hv). destruct Hv as [[Ht _]|(He & ip & Hip & Hnt & Ht)]; [by eapply vips_ok_rest|].
  destruct Hok as [V1 V2 V3]. split; rewrite Hi; rewrite ?Ht; try done. intros k' si' ip' Hs Hv'. set_solver.
Qed.

Hypothesis updates_succeed : ∀ w ns si, is_Some (si_imports w !! (ns, Name (sim_meta si))) →
  ∃ w' c, si_update w ns si = (w', inl c).

Lemma recycle_keeps i w si ns n w' r :
  vips_ok w → si_imports w !! (ns, n) = Some si → is_Some (DeletionTimestamp (sim_meta si)) →
  recycleServiceImport i w si = Ret (w', r) → vips_ok w'.
Proof.
  intros Hok Hsi Hdt. unfold recycleServiceImport. destruct (vo_filed _ Hok _ _ Hsi) as [[= <- <-] Hfin].
  set (ns := Namespace (sim_meta si)) in *. set (n := Name (sim_meta si)) in *.
  pose proof (frame_delete_collection w ns (import_selector si)) as Hdc.
  destruct (api_delete_collection w ns _) as [w1 [e|]]; cbn [fst] in Hdc.
  { intros [= <- <-]. by eapply vips_ok_rest. }
  apply (vips_ok_rest w w1 Hdc) in Hok. assert (Hsi1 : si_imports w1 !! (ns, n) = Some si) by (by rewrite (proj1 Hdc)).
  destruct (if bool_decide (sim_Type si ≠ Headless) then _ else _) as [[w2 rel]| | |] eqn:Erel; try done.
  cbn [mbind outcome_bind].
  assert (Hw2 : si_imports w2 = si_imports w1 ∧
    (ipam_taken w2 = ipam_taken w1 ∨ rel = None ∧ ∃ ip, vip si = Some ip ∧ ipam_taken w2 = ipam_taken w1 ∖ {[ip]})).
  { case_bool_decide as Hty; [|simplify_eq; by split; [|left]]. unfold index in Erel.
    destruct (sim_IPs si) as [|ip ips] eqn:Hips; [done|]. cbn [lookup list_lookup deref mbind outcome_bind] in Erel.
    case_bool_decide as Hne; [|simplify_eq; by split; [|left]]. unfold ReleaseIP in Erel.
    destruct (ParseAddr ip); [|simplify_eq; by split; [|left]]. destruct (ipam_prefix i) as [p|]; [|done].
    cbn [deref mbind outcome_bind] in Erel. pose proof (frame_release w1 p ip) as Hfr.
    destruct (ipam_ReleaseIP w1 p ip) as [w3 r3] eqn:Er. injection Erel as <- <-. split; [done|]. apply ipam_ReleaseIP_ok in Er.
    destruct r3; [by left|]. right. split; [done|]. exists ip. split; [|by destruct Er].
    unfold vip. rewrite Hips. by rewrite bool_decide_eq_true_2. }
  destruct Hw2 as [Hi2 Ht2]. destruct rel as [e|].
  { intros [= <- <-]. apply (vips_ok_rest w1); [|done]. split; [done|]. by destruct Ht2 as [?|[? _]]. }
  set (si' := set_si_meta remove_finalizer si).
  destruct (updates_succeed w2 ns si') as (w3 & c & Eu); [change (Name (sim_meta si')) with n; by rewrite Hi2, Hsi1|].
  pose proof (frame_si_update w2 ns si') as Ht3. rewrite Eu in *. simpl in Ht3. intros [= <- <-].
  apply si_update_ok in Eu as (_ & _ & _ & _ & Hcf & Hcd & Hw). rewrite bool_decide_eq_true_2 in Hw.
  2:{ rewrite Hcd, Hcf. split; [done|]. by apply RemoveString_all. }
  apply (vips_ok_drop w1 w3 (ns, n) si); [done|done|by rewrite Hw, Hi2|]. rewrite Ht3.
  destruct Ht2 as [?|[_ ?]]; [by left|by right].
Qed.

Lemma handle_keeps i w opns key slices w' r :
  vips_ok w → ServiceImport_Handle i w opns key (import_lister w) slices = Ret (w', r) → vips_ok w'.
Proof.
  intros Hok. unfold ServiceImport_Handle. destruct (SplitMetaNamespaceKey key) as [[ns n]|]; [|by intros [= <- _]].
  unfold import_lister. destruct (si_imports w !! (ns, n)) as [si|] eqn:Hsi; [|by intros [= <- _]].
  destruct (DeletionTimestamp (sim_meta si)) as [t|] eqn:Hd.
  { destruct (recycleServiceImport i w si) as [[w1 e]| | |] eqn:Er; try done. intros [= <- _].
    eapply recycle_keeps; [done|done| |done]. by rewrite Hd. }
  destruct (AddInitialInfoToServiceImport i w si) as [[[[w1 si1] ch] err]| | |] eqn:Ea; try done.
  apply AddInitialInfo_spec in Ea as [Hin Hch]; [|by destruct (vo_filed _ Hok _ _ Hsi)]. cbn [mbind outcome_bind].
  destruct err as [e|]; [intros [= <- _]; by apply (live_no_update w w1 si si1 (Some e))|].
  destruct ch.
  - destruct (si_update w1 ns si1) as [w2 [c|e]] eqn:Eu.
    + assert (Hok2 : vips_ok w2) by (by eapply live_update).
      match goal with |- context [sync_slices w2 ?a ?b ?c ?d ?e ?f] => pose proof (sync_slices_rest w2 a b c d e f) as Hr;
        destruct (sync_slices w2 a b c d e f) as [w3 errs] end. intros [= <- _]. by eapply vips_ok_rest.
    + destruct (vo_filed _ Hok _ _ Hsi) as [[= <- <-] _]. destruct Hin as (Hi & Hn & _).
      destruct (updates_succeed w1 (Namespace (sim_meta si)) si1) as (? & ? & Hu); [by rewrite Hi, Hn, Hsi|]. congruence.
  - rewrite (Hch eq_refl) in *. assert (Hok1 : vips_ok w1) by (by apply (live_no_update w w1 si si None)).
    match goal with |- context [sync_slices w1 ?a ?b ?c ?d ?e ?f] => pose proof (sync_slices_rest w1 a b c d e f) as Hr;
      destruct (sync_slices w1 a b c d e f) as [w3 errs] end. intros [= <- _]. by eapply vips_ok_rest.
Qed.

(** The steps of the system: a run of the import controller with an up-to-date
    cache, and whatever users do to imports short of handing out addresses
    themselves: create one without an address, mark one as terminating, remove
    one, change other fields. *)
Definition user_keeps (w w' : W) : Prop :=
  ipam_taken w' = ipam_taken w ∧
  ∀ k si', si_imports w' !! k = Some si' →
    (Namespace (sim_meta si'), Name (sim_meta si')) = k ∧ Forall (eq AppFinalizer) (Finalizers (sim_meta si')) ∧
    (vip si' = None ∨ ∃ si, si_imports w !! k = Some si ∧ vip si' = vip si).

Inductive mcs_step : W → W → Prop :=
  | step_handle i w opns key slices w' r :
      ServiceImport_Handle i w opns key (import_lister w) slices = Ret (w', r) → mcs_step w w'
  | step_user w w' : user_keeps w w' → mcs_step w w'.

Lemma user_step_keeps w w' : user_keeps w w' → vips_ok w → vips_ok w'.
Proof.
  intros [Ht Hu] [V1 V2 V3]. split.
  - intros k si ip Hs Hv. rewrite Ht. destruct (Hu _ _ Hs) as (_ & _ & [?|(si0 & Hs0 & Hv0)]); [congruence|].
    eapply V1; [done|congruence].
  - intros k k' si si' ip Hs Hs' Hv Hv'.
    destruct (Hu _ _ Hs) as (_ & _ & [?|(si0 & Hs0 & Hv0)]); [congruence|].
    destruct (Hu _ _ Hs') as (_ & _ & [?|(si0' & Hs0' & Hv0')]); [congruence|].
    by eapply (V2 _ _ _ _ ip Hs0 Hs0'); congruence.
  - intros k si Hs. by destruct (Hu _ _ Hs) as (? & ? & _).
Qed.

(** As long as the updates of service imports succeed, no two imports ever
    hold the same virtual address: from a state in which every held address is
    taken in the IPAM and held once, every sequence of controller runs and user
    actions leads to such a state. *)
Theorem virtual_ips_distinct w w' : vips_ok w → rtc mcs_step w w' → vips_ok w'.
Proof.
  intros Hok. induction 1 as [|w w1 w' Hst _ IH]; [done|]. apply IH. destruct Hst; [by eapply handle_keeps|by eapply user_step_keeps].
Qed.
End steps.

(** ** A release that is repeated

    Nothing fails but the update that removes the finalizer, and an update that fails
    leaves the imports as they are. *)
Section release_twice.
Context {W : Type} `{McsFrames W} `{PatchLib EndpointSlice} `{GoSched} `{ClientGo}.
Hypothesis deletes_succeed : ∀ w ns sel, snd (api_delete_collection w ns sel) = None.
Hypothesis releases_succeed : ∀ w c ip, ip ∈ ipam_taken w → snd (ipam_ReleaseIP w c ip) = None.
Hypothesis failed_update : ∀ w ns si w' e, si_update w ns si = (w', inr e) → si_imports w' = si_imports w.

(** The terminating import [sa], of name [ns/n], holds the valid address [ip]. *)
Definition terminating_with (sa : ServiceImport) (ns n ip : string) : Prop :=
  Namespace (sim_meta sa) = ns ∧ Name (sim_meta sa) = n ∧ is_Some (DeletionTimestamp (sim_meta sa)) ∧
  vip sa = Some ip ∧ is_Some (ParseAddr ip).

Lemma vip_Some si ip : vip si = Some ip → sim_Type si ≠ Headless ∧ ip ≠ EmptyString ∧ ∃ ips, sim_IPs si = ip :: ips.
Proof. unfold vip. destruct (sim_IPs si) as [|x ips]; [done|]. case_bool_decide; [|done]. intros [= ->]. naive_solver. Qed.

(** Every run of the handler for a terminating import releases the address that the
    import names, whoever holds it now. *)
Lemma terminating_Handle i w opns key slices ns n sa ip w' r :
  SplitMetaNamespaceKey key = Some (ns, n) → terminating_with sa ns n ip → si_imports w !! (ns, n) = Some sa →
  ip ∈ ipam_taken w → ServiceImport_Handle i w opns key (import_lister w) slices = Ret (w', r) →
  ip ∉ ipam_taken w' ∧ (is_Some (h_err r) → si_imports w' = si_imports w) ∧
  ∀ k, k ≠ (ns, n) → si_imports w' !! k = si_imports w !! k.
Proof.
  intros Hkey (Hns & Hn & [t Ht] & (Hty & Hne & ips & Hips)%vip_Some & [a Ha]) Hsa Htk. unfold ServiceImport_Handle, import_lister.
  rewrite Hkey, Hsa, Ht. unfold recycleServiceImport. rewrite Hns.
  pose proof (frame_delete_collection w ns (import_selector sa)) as [Hdi Hdt]. pose proof (deletes_succeed w ns (import_selector sa)) as Hds.
  destruct (api_delete_collection w ns _) as [w1 e1]. cbn [fst snd] in Hdi, Hdt, Hds. subst e1.
  rewrite bool_decide_eq_true_2 by done. unfold index. rewrite Hips. cbn [lookup list_lookup deref mbind outcome_bind].
  rewrite bool_decide_eq_true_2 by done. unfold ReleaseIP. rewrite Ha. destruct (ipam_prefix i) as [p|]; [|done].
  cbn [deref mbind outcome_bind]. pose proof (frame_release w1 p ip) as Hfr. pose proof (releases_succeed w1 p ip) as Hrs.
  rewrite Hdt in Hrs. specialize (Hrs Htk). destruct (ipam_ReleaseIP w1 p ip) as [w2 e2] eqn:Er. cbn [fst snd] in Hfr, Hrs. subst e2.
  apply ipam_ReleaseIP_ok in Er as [_ Ht2]. pose proof (frame_si_update w2 ns (set_si_meta remove_finalizer sa)) as Ht3.
  destruct (si_update w2 ns _) as [w3 [c|e]] eqn:Eu; cbn [fst] in Ht3; cbn [mbind outcome_bind];
    intros [= <- <-]; (split; [rewrite Ht3, Ht2; set_solver|]).
  - split; [by intros [? ?]|]. intros k Hk. apply si_update_ok in Eu as (_ & _ & _ & _ & _ & _ & ->).
    change (Name (sim_meta (set_si_meta remove_finalizer sa))) with (Name (sim_meta sa)). rewrite Hn, <- Hdi, <- Hfr.
    case_bool_decide; [by rewrite lookup_delete_ne|by rewrite lookup_insert_ne].
  - apply failed_update in Eu. rewrite Eu, Hfr, Hdi. done.
Qed.

(** C33: an address that is released twice ends up with two imports.  When the update that removes the
    finalizer of a terminating import fails, the address of the import is free while the
    import still names it.  If, by the time the handler is run for it again, another
    import has been given the address, the retry releases it a second time: the
    other import keeps an address that is free to be handed out once more, whatever
    happened in between. *)
Theorem double_release_duplicates_ip i w opns key slices ns n sa ip w1 e :
  SplitMetaNamespaceKey key = Some (ns, n) → terminating_with sa ns n ip → si_imports w !! (ns, n) = Some sa →
  ip ∈ ipam_taken w →
  ServiceImport_Handle i w opns key (import_lister w) slices = Ret (w1, mkHandled true (Some e)) →
  (si_imports w1 !! (ns, n) = Some sa ∧ ip ∉ ipam_taken w1) ∧
  ∀ w2 k sb w3 r,
    si_imports w2 !! (ns, n) = Some sa → k ≠ (ns, n) → si_imports w2 !! k = Some sb → vip sb = Some ip → ip ∈ ipam_taken w2 →
    ServiceImport_Handle i w2 opns key (import_lister w2) slices = Ret (w3, r) →
    si_imports w3 !! k = Some sb ∧ ip ∉ ipam_taken w3 ∧ ¬ vips_ok w3.
Proof.
  intros Hkey Hsa Hw Htk E. split.
  - destruct (terminating_Handle i w opns key slices ns n sa ip w1 _ Hkey Hsa Hw Htk E) as (Hn & Hi & _).
    split; [|done]. rewrite Hi; [done|by eexists].
  - intros w2 k sb w3 r Hw2 Hk Hsb Hv Ht2 E2.
    destruct (terminating_Handle i w2 opns key slices ns n sa ip w3 r Hkey Hsa Hw2 Ht2 E2) as (Hn & _ & Ho).
    assert (si_imports w3 !! k = Some sb) as Hb by by rewrite Ho. split_and!; [done|done|].
    intros Hok. by apply Hn, (vo_taken w3 Hok k sb).
Qed.
End release_twice.

(** ** A concrete system, for examples: slices, imports and taken addresses; when
    the API is [flaky], the next [dm_flaky] updates of an import fail. *)
Record demo_mcs := mkDM {
  dm_slices : demo_world; dm_imports : gmap (string * string) ServiceImport; dm_taken : gset string; dm_flaky : nat }.
Definition dm_with (w : demo_mcs) (s : demo_world) : demo_mcs := mkDM s (dm_imports w) (dm_taken w) (dm_flaky w).

Definition dm_client : SliceClient demo_mcs := {|
  api_create := λ w ns s, let r := @api_create _ demo_client (dm_slices w) ns s in (dm_with w (fst r), snd r);
  api_update := λ w ns s, let r := @api_update _ demo_client (dm_slices w) ns s in (dm_with w (fst r), snd r);
  api_delete := λ w ns n, let r := @api_delete _ demo_client (dm_slices w) ns n in (dm_with w (fst r), snd r) |}.
Definition dm_reader : SliceReader demo_mcs := {|
  api_get := λ w, @api_get _ demo_reader (dm_slices w);
  api_list := λ w, @api_list _ demo_reader (dm_slices w);
  api_delete_collection := λ w ns sel,
    let r := @api_delete_collection _ demo_reader (dm_slices w) ns sel in (dm_with w (fst r), snd r) |}.
Definition dm_mcs (flaky : bool) : McsClient demo_mcs := {|
  si_update := λ w ns si,
    let key := (ns, Name (sim_meta si)) in
    match (if flaky then dm_flaky w else O) with
    | S n => (mkDM (dm_slices w) (dm_imports w) (dm_taken w) n, inr (mkErr ReasonConflict "conflict"))
    | O => let gone := bool_decide (is_Some (DeletionTimestamp (sim_meta si)) ∧ Finalizers (sim_meta si) = []) in
           (mkDM (dm_slices w) (if gone then delete key (dm_imports w) else <[key := si]> (dm_imports w)) (dm_taken w) (dm_flaky w), inl si)
    end;
  se_update := λ w ns se, (w, inl se) |}.

(** The first free address of the range. *)
Definition dm_addresses : list string := (λ n : nat, "10.0.0." +:+ pretty n) <$> seq 1 6.
Definition dm_take (w : demo_mcs) (t : gset string) : demo_mcs := mkDM (dm_slices w) (dm_imports w) t (dm_flaky w).
Definition dm_acquire (w : demo_mcs) (pool : list string) : demo_mcs * (string + string) :=
  match list_find (λ ip, ip ∉ dm_taken w ∧ ip ≠ EmptyString) pool with
  | Some (_, ip) => (dm_take w ({[ip]} ∪ dm_taken w), inl ip)
  | None => (w, inr "no address left")
  end.
Definition dm_ipam : Ipamer demo_mcs := {|
  ipam_NewPrefix := λ w c, (w, inl c);
  ipam_AcquireSpecificIP := λ w c ip,
    if bool_decide (ip ∈ dm_taken w) then (w, inr "taken") else (dm_take w ({[ip]} ∪ dm_taken w), inl ip);
  ipam_AcquireIP := λ w c, dm_acquire w dm_addresses;
  ipam_ReleaseIP := λ w c ip,
    if bool_decide (ip ∈ dm_taken w) then (dm_take w (dm_taken w ∖ {[ip]}), None) else (w, Some "not taken") |}.

Program Definition dm_ipamlaws : @IpamLaws demo_mcs dm_ipam := {| ipam_taken := dm_taken |}.
Next Obligation. done. Qed.
Next Obligation. simpl. intros w c ip w' r. case_bool_decide; by intros [= <- <-]. Qed.
Next Obligation.
  intros w c w' r E. change (dm_acquire w dm_addresses = (w', r)) in E. revert E. generalize dm_addresses. intros pool.
  unfold dm_acquire. destruct (list_find (λ ip, ip ∉ dm_taken w ∧ ip ≠ EmptyString) pool) as [[j ip]|] eqn:E; intros [= <- <-]; [|done].
  by apply list_find_Some in E as (_ & [? ?] & _).
Qed.
Next Obligation. simpl. intros w c ip w' r. case_bool_decide; by intros [= <- <-]. Qed.

Program Definition dm_store flaky : @ImportStore demo_mcs (dm_mcs flaky) := {| si_imports := dm_imports |}.
Next Obligation. simpl. intros flaky w ns si w' c. case_match; [|done]. intros [= <- <-]. done. Qed.

Lemma dm_frames flaky : @McsFrames demo_mcs dm_client dm_reader (dm_mcs flaky) (dm_store flaky) dm_ipam dm_ipamlaws.
Proof.
  split; try done.
  - intros w ns si. simpl. by case_match.
  - intros w c. change (dm_imports (fst (dm_acquire w dm_addresses)) = dm_imports w). generalize dm_addresses. intros pool.
    unfold dm_acquire. by repeat case_match.
  - intros w c ip. simpl. by case_bool_decide.
Qed.

Definition dm_import (n : string) (ips : list string) (deleted : option Z) (finalizers : list string) : ServiceImport :=
  mkSImport (mkMeta n EmptyString "ns" EmptyString EmptyString 0 0 deleted None None [] finalizers) [] ips ClusterSetIP.
Definition dm_handle (flaky : bool) (w : demo_mcs) (key : string) : outcome (demo_mcs * handled) :=
  @ServiceImport_Handle _ dm_client dm_reader demo_patch demo_sched demo_clientgo (dm_mcs flaky) dm_ipam (mkIPAM (Some "10.0.0.0/24")) w "op" key
    (@import_lister _ _ (dm_store flaky) w) (λ _ _, inl []).
Definition dm_run (flaky : bool) (w : demo_mcs) (key : string) : demo_mcs :=
  match dm_handle flaky w key with Ret (w', _) => w' | _ => w end.
Definition dm_step (flaky : bool) : demo_mcs → demo_mcs → Prop :=
  @mcs_step _ dm_client dm_reader (dm_mcs flaky) (dm_store flaky) dm_ipam dm_ipamlaws demo_patch demo_sched demo_clientgo.
Definition dm_vips_ok (flaky : bool) : demo_mcs → Prop := @vips_ok _ (dm_mcs flaky) (dm_store flaky) dm_ipam dm_ipamlaws.

Lemma dm_run_step flaky w key : is_ret (dm_handle flaky w key) = true → dm_step flaky w (dm_run flaky w key).
Proof.
  unfold dm_run. destruct (dm_handle flaky w key) as [[w' r]| | |] eqn:E; try done. intros _. exact (step_handle _ _ _ _ _ _ _ E).
Qed.

(** Import [a], terminating with an address, and [b] and [c] that have none. *)
Definition dm_world0 (flaky : nat) : demo_mcs :=
  mkDM ∅ {[("ns", "a") := dm_import "a" ["10.0.0.1"] (Some 1) [AppFinalizer];
           ("ns", "b") := dm_import "b" [] None []; ("ns", "c") := dm_import "c" [] None []]} {["10.0.0.1"]} flaky.

Lemma dm_world0_lookup n k si : dm_imports (dm_world0 n) !! k = Some si →
  (k, si) ∈ [(("ns", "a"), dm_import "a" ["10.0.0.1"] (Some 1) [AppFinalizer]);
             (("ns", "b"), dm_import "b" [] None []); (("ns", "c"), dm_import "c" [] None [])].
Proof.
  cbn [dm_imports dm_world0]. rewrite !elem_of_cons. intros [[<- <-]|[_ Hs]]%lookup_insert_Some; [by left|].
  apply lookup_insert_Some in Hs as [[<- <-]|[_ [<- <-]%lookup_singleton_Some]]; [by right; left|by right; right; left].
Qed.

Lemma dm_world0_ok flaky n : dm_vips_ok flaky (dm_world0 n).
Proof.
  split; simpl.
  - intros k si ip Hs%(dm_world0_lookup n). rewrite !elem_of_cons, elem_of_nil in Hs.
    destruct Hs as [[= -> ->]|[[= -> ->]|[[= -> ->]|[]]]]; [intros [= <-]; set_solver|done..].
  - intros k k' si si' ip Hs%(dm_world0_lookup n) Hs'%(dm_world0_lookup n). rewrite !elem_of_cons, elem_of_nil in Hs, Hs'.
    destruct Hs as [[= -> ->]|[[= -> ->]|[[= -> ->]|[]]]]; [|done..]. by destruct Hs' as [[= -> ->]|[[= -> ->]|[[= -> ->]|[]]]].
  - intros k si Hs%(dm_world0_lookup n). rewrite !elem_of_cons, elem_of_nil in Hs.
    destruct Hs as [[= -> ->]|[[= -> ->]|[[= -> ->]|[]]]]; split; try done; by repeat constructor.
Qed.

Definition dm_runs (flaky : bool) (keys : list string) (w : demo_mcs) : demo_mcs := foldl (dm_run flaky) w keys.
Fixpoint dm_all_ret (flaky : bool) (w : demo_mcs) (keys : list string) : bool :=
  match keys with [] => true | k :: keys' => is_ret (dm_handle flaky w k) && dm_all_ret flaky (dm_run flaky w k) keys' end.

Lemma dm_runs_steps flaky keys w : dm_all_ret flaky w keys = true → rtc (dm_step flaky) w (dm_runs flaky keys w).
Proof.
  revert w. induction keys as [|k keys IH]; intros w; [intros _; apply rtc_refl|].
  cbn [dm_all_ret]. rewrite andb_true_iff. intros [Hk Hrest]. eapply rtc_l; [by apply dm_run_step|]. by apply IH.
Qed.

Definition dm_vip (w : demo_mcs) (n : string) : option string := dm_imports w !! ("ns", n) ≫= vip.

Lemma virtual_ips_distinct_witness :
  let w := dm_runs false ["ns/b"; "ns/a"; "ns/c"] (dm_world0 0) in
  dm_vip w "b" = Some "10.0.0.2" ∧ dm_vip w "c" = Some "10.0.0.1" ∧ dm_vips_ok false w.
Proof.
  split; [vm_compute; reflexivity|]. split; [vm_compute; reflexivity|].
  apply (@virtual_ips_distinct _ dm_client dm_reader (dm_mcs false) (dm_store false) dm_ipam dm_ipamlaws (dm_frames false)
    demo_patch demo_sched demo_clientgo) with (w := dm_world0 0).
  - intros w ns si _. simpl. eauto.
  - exact (dm_world0_ok false 0).
  - apply (dm_runs_steps false). vm_compute. reflexivity.
Defined.

(** A failing update breaks it: the controller releases the address of the
    terminating import [a], but cannot remove the finalizer; [b] gets the
    address; the retry for [a] releases it again, although it is now [b]'s; [c]
    gets it too, and both live imports hold 10.0.0.1. *)
Theorem duplicate_ips :
  let w := dm_runs true ["ns/a"; "ns/b"; "ns/a"; "ns/c"] (dm_world0 1) in
  dm_vips_ok true (dm_world0 1) ∧ rtc (dm_step true) (dm_world0 1) w ∧
  dm_vip w "b" = Some "10.0.0.1" ∧ dm_vip w "c" = Some "10.0.0.1".
Proof.
  split; [apply dm_world0_ok|]. split; [apply dm_runs_steps; vm_compute; reflexivity|]. split; vm_compute; reflexivity.
Qed.

Definition dm_a : ServiceImport := dm_import "a" ["10.0.0.1"] (Some 1) [AppFinalizer].
Definition dm_w1 : demo_mcs := dm_run true (dm_world0 1) "ns/a".
Definition dm_w2 : demo_mcs := dm_run true dm_w1 "ns/b".
Definition dm_w3 : demo_mcs := dm_run true dm_w2 "ns/a".

Lemma double_release_duplicates_ip_witness :
  "10.0.0.1" ∉ dm_taken dm_w1 ∧ dm_vip dm_w2 "b" = Some "10.0.0.1" ∧ ¬ dm_vips_ok true dm_w3.
Proof.
  assert (Hv : dm_vip dm_w2 "b" = Some "10.0.0.1") by (vm_compute; reflexivity).
  assert (Eb : ∃ sb, dm_imports dm_w2 !! ("ns", "b") = Some sb ∧ vip sb = Some "10.0.0.1").
  { unfold dm_vip in Hv. destruct (dm_imports dm_w2 !! ("ns", "b")) as [sb|]; [exists sb; split; [reflexivity|exact Hv]|discriminate Hv]. }
  destruct Eb as (sb & Hsb & Hvb).
  destruct (@double_release_duplicates_ip _ dm_client dm_reader (dm_mcs true) (dm_store true) dm_ipam dm_ipamlaws (dm_frames true)
    demo_patch demo_sched demo_clientgo) with (i := mkIPAM (Some "10.0.0.0/24")) (w := dm_world0 1) (opns := "op") (key := "ns/a")
    (slices := λ (_ : string) (_ : gmap string string), @inl (list EndpointSlice) ApiError []) (ns := "ns") (n := "a") (sa := dm_a)
    (ip := "10.0.0.1") (w1 := dm_w1) (e := mkErr ReasonConflict "conflict") as [[_ Hfree] Hretry].
  - reflexivity.
  - intros w c ip Hin. cbn in Hin |- *. rewrite bool_decide_eq_true_2 by exact Hin. reflexivity.
  - intros w ns si w' e. cbn. repeat case_match; intros Heq; first [discriminate Heq|injection Heq as <- _; reflexivity].
  - reflexivity.
  - split_and!; [reflexivity|reflexivity|exists 1; reflexivity|reflexivity|vm_compute; eexists; reflexivity].
  - vm_compute. reflexivity.
  - apply (bool_decide_unpack _). vm_compute. exact I.
  - vm_compute. reflexivity.
  - split; [exact Hfree|]. split; [exact Hv|].
    destruct (Hretry dm_w2 ("ns", "b") sb dm_w3 (mkHandled false None)) as (_ & _ & Hno).
    + vm_compute. reflexivity.
    + discriminate.
    + exact Hsb.
    + exact Hvb.
    + apply (bool_decide_unpack _). vm_compute. exact I.
    + vm_compute. reflexivity.
    + exact Hno.
Defined.

(** A hub that holds a stale slice of the export and one of another export. *)
Definition demo_mcsclient : McsClient demo_world := {| si_update := λ w _ si, (w, inl si); se_update := λ w _ se, (w, inl se) |}.
Lemma demo_exportlaws : @ExportLaws demo_world demo_client demo_server demo_mcsclient.
Proof. split; simpl; [|done]. by intros w ns se w' c [= <- <-]. Qed.
Definition demo_hash : HashLib := {| hash10 := λ s, s |}.
Definition demo_export : ServiceExport :=
  mkSExport (mkMeta "web" EmptyString "ns" EmptyString EmptyString 0 0 None None None [] []).
Definition demo_service : Service := mkService (sexp_meta demo_export) [] "10.96.0.9" "ClusterIP" None false ["IPv4"].
Definition demo_epslister : SliceLister := λ ns _, inl (if bool_decide (ns = "ns") then [demo_named "web-1" "10.0.0.5"] else []).
Definition demo_hub : demo_world :=
  {["hub" := {["c1-ns-web-0" := set_meta (λ m, set_Labels (Some (@export_selector demo_hash "c1" "ns" "web")) (set_Name "c1-ns-web-0" m))
                 (demo_named EmptyString "10.0.0.4");
               "c1-ns-db-0" := demo_named "c1-ns-db-0" "10.0.0.6"]}]}.

Lemma demo_epslister_ok : lists_ok demo_epslister.
Proof.
  intros ns sel l [= <-]. case_bool_decide as Hns; simpl; [|by repeat constructor].
  split; [apply NoDup_singleton|]. by repeat constructor.
Qed.

Lemma export_mirrors_witness :
  let r := @ServiceExport_Handle _ demo_client demo_reader demo_patch demo_sched demo_clientgo demo_hash demo_mcsclient demo_hub "c1" "hub" "ns/web"
    (λ _ _, inl demo_export) (λ _ _, inl demo_service) demo_epslister in
  snd r = done_ok ∧
  @mirrors _ demo_client demo_server demo_hub [demo_named "web-1" "10.0.0.5"] "hub" (@export_selector demo_hash "c1" "ns" "web")
    (λ s, @constructEndpointSlice demo_hash s demo_export "hub" "c1") (fst r).
Proof.
  cbv zeta. assert (E : snd (@ServiceExport_Handle _ demo_client demo_reader demo_patch demo_sched demo_clientgo demo_hash demo_mcsclient demo_hub
    "c1" "hub" "ns/web" (λ _ _, inl demo_export) (λ _ _, inl demo_service) demo_epslister) = done_ok) by (vm_compute; reflexivity).
  split; [exact E|].
  eapply (@export_mirrors _ demo_client demo_server demo_reader demo_reads demo_patch demo_patchlaws demo_sched demo_clientgo demo_hash
    demo_mcsclient demo_exportlaws demo_hub "c1" "hub" "ns/web" "ns" "web" (λ _ _, inl demo_export) (λ _ _, inl demo_service)
    demo_epslister demo_export demo_service).
  1: vm_compute; reflexivity. 1-5: reflexivity. 1: exact demo_epslister_ok. 1: reflexivity.
  - intros w ns sel. simpl. eauto.
  - rewrite <- E. apply surjective_pairing.
Defined.
