(* ===== verification/CrossCluster.v ===== *)
(** * A service across clusters

    The composition of the two controllers of [pkg/controller/mcs]: clusters export
    the slices of a service to the hub, another cluster imports them.  Every cluster
    and the hub are API servers of their own, values of [W].  The event
    handlers that the constructors register decide which key is queued when. *)
From stdpp Require Import prelude gmap strings list.
From S2P Require Import Prelude NetAddr NetUtil K8s ProxyEndpoints HostPort Utils SliceSync ServiceCIDR Mcs.
Open Scope Z_scope.

(** ** The import of a service *)

(** Addresses and imports are not slices; an update returns the import it was given. *)
Class ImportFrames (W : Type) `{SliceServer W} `{McsClient W} `{Ipamer W} := {
  acquire_slices : ∀ w c ns, api_slices (fst (ipam_AcquireIP w c)) ns = api_slices w ns;
  si_update_slices : ∀ w ns si ns', api_slices (fst (si_update w ns si)) ns' = api_slices w ns';
  si_update_named : ∀ w ns si w' c, si_update w ns si = (w', inl c) →
    Name (sim_meta c) = Name (sim_meta si) ∧ Namespace (sim_meta c) = Namespace (sim_meta si)
}.

Section import.
Context {W : Type} `{SliceReads W} `{PatchLaws} `{GoSched} `{ClientGo} `{!McsClient W} `{!Ipamer W} `{!ImportFrames W}.

Lemma AddInitialInfo_slices i w si w' si' ch err ns : AddInitialInfoToServiceImport i w si = Ret (w', si', ch, err) →
  api_slices w' ns = api_slices w ns ∧ Name (sim_meta si') = Name (sim_meta si) ∧ Namespace (sim_meta si') = Namespace (sim_meta si) ∧
  (ch = false → si' = si).
Proof.
  unfold AddInitialInfoToServiceImport, AllocateIP. intros E.
  destruct (ContainsString _ _); cbn [negb] in E; (case_bool_decide; [destruct (sim_IPs _); by simplify_eq|]).
  all: case_bool_decide; [|by simplify_eq]; destruct (ipam_prefix i) as [c|]; [|done]; cbn [deref mbind outcome_bind] in E.
  all: pose proof (acquire_slices w c ns) as Ha; destruct (ipam_AcquireIP w c) as [w1 [ip|e]]; cbn [mbind outcome_bind] in E; by simplify_eq.
Qed.

Lemma fork_syncs w opns ns sel slices w' :
  NoDup (es_Name <$> slices) → Forall (λ s, es_Name s ≠ EmptyString) slices →
  (∀ w ns sel, ∃ items, api_list w ns sel = inl items) →
  (let '(w, errs) := sync_slices w (inl slices) opns ns sel false (λ s, forkEndpointSlice s ns) in (w, sync_result errs)) = (w', done_ok) →
  mirrors w slices ns sel (λ s, forkEndpointSlice s ns) w' ∧ keeps_labels w slices ns (λ s, forkEndpointSlice s ns) w'.
Proof.
  intros Hnd Hne Hl E. destruct (sync_slices _ _ _ _ _ _ _) as [w1 errs] eqn:Es. injection E as -> Hr.
  apply sync_result_ok in Hr. destruct (Hl w ns sel) as [items Hi].
  eapply sync_slices_mirrors; [done| |exact Hi|exact Es|exact Hr]. by eapply Forall_impl.
Qed.

(** A successful run for an import that is not terminating mirrors the slices of the hub that
    carry its labels. *)
Lemma import_handle_syncs i w opns key ns n siLister hubLister si slices w' :
  SplitMetaNamespaceKey key = Some (ns, n) →
  siLister ns n = inl si → Name (sim_meta si) = n → Namespace (sim_meta si) = ns → DeletionTimestamp (sim_meta si) = None →
  lists_ok hubLister → hubLister opns (import_selector si) = inl slices →
  (∀ w ns sel, ∃ items, api_list w ns sel = inl items) →
  ServiceImport_Handle i w opns key siLister hubLister = Ret (w', done_ok) →
  ∃ w1, (∀ k, api_slices w1 ns !! k = api_slices w ns !! k) ∧
    mirrors w1 slices ns (import_selector si) (λ s, forkEndpointSlice s ns) w' ∧
    keeps_labels w1 slices ns (λ s, forkEndpointSlice s ns) w'.
Proof.
  intros Hk Hsi Hn Hns Hd Hlok Hsl Hl E. destruct (Hlok _ _ _ Hsl) as [Hnd Hall].
  unfold ServiceImport_Handle in E. rewrite Hk, Hsi, Hd in E.
  destruct (AddInitialInfoToServiceImport i w si) as [[[[w1 si1] ch] err]| | |] eqn:Ea; try done.
  apply (AddInitialInfo_slices _ _ _ _ _ _ _ ns) in Ea as (Hw1 & Hn1 & Hns1 & Hch). cbn [mbind outcome_bind] in E. destruct err as [e|]; [done|].
  assert (Hgo : ∃ w2 si2, (∀ k, api_slices w2 ns !! k = api_slices w ns !! k) ∧ import_selector si2 = import_selector si ∧
    (let '(w, errs) := sync_slices w2 (hubLister opns (import_selector si2)) EmptyString ns (import_selector si2) false
       (λ s, forkEndpointSlice s ns) in (w, sync_result errs)) = (w', done_ok)).
  { destruct ch.
    - pose proof (si_update_slices w1 ns si1 ns) as Hf. destruct (si_update w1 ns si1) as [w2 [c|e]] eqn:Eu; [|done].
      apply si_update_named in Eu as [Hc1 Hc2]. exists w2, c. cbn in Hf. split_and!.
      + intros k. by rewrite Hf, Hw1.
      + unfold import_selector. by rewrite Hc1, Hc2, Hn1, Hns1.
      + cbv beta iota in E. destruct (sync_slices _ _ _ _ _ _ _). by injection E as -> ->.
    - rewrite (Hch eq_refl) in *. exists w1, si. split_and!; [intros k; by rewrite Hw1|done|].
      cbv beta iota in E. destruct (sync_slices _ _ _ _ _ _ _). by injection E as -> ->. }
  destruct Hgo as (w2 & si2 & Hw2 & Hsel & Hgo). exists w2. split; [done|].
  rewrite Hsel, Hsl in Hgo. eapply fork_syncs; [done| |done|exact Hgo]. eapply Forall_impl; [exact Hall|]. by intros s [].
Qed.
End import.

(** ** Several exports, one import *)

(** The name of a slice in the hub, the labels of a service, and those of its slices from one cluster. *)
Definition hub_name (cid ns : string) (s : EndpointSlice) : string := cid +:+ "-" +:+ ns +:+ "-" +:+ es_Name s.
Definition service_labels (ns n : string) : gmap string string := <[known_LabelServiceNameSpace := ns]> {[known_LabelServiceName := n]}.

Section cross.
Context {W : Type} `{SliceReads W} `{PatchLaws} `{GoSched} `{ClientGo} `{HashLib} `{!McsClient W} `{!Ipamer W} `{!ExportLaws W} `{!ImportFrames W}.
Variables opns ns n : string.
Hypothesis list_total : ∀ (w : W) ns sel, ∃ items, api_list w ns sel = inl items.

Definition hub_labels (cid : string) : gmap string string := <[LabelServiceName := DerivedName cid ns n]> (service_labels ns n).

(** A successful run of the handler of cluster [cid], whose slices of the service are [slices]. *)
Definition export_run (cid : string) (slices : list EndpointSlice) (w w' : W) : Prop :=
  ∃ key seLister svcLister epsLister se svc,
    SplitMetaNamespaceKey key = Some (ns, n) ∧ seLister ns n = inl se ∧ Name (sexp_meta se) = n ∧ Namespace (sexp_meta se) = ns ∧
    DeletionTimestamp (sexp_meta se) = None ∧ svcLister ns n = inl svc ∧ lists_ok epsLister ∧ epsLister ns (source_selector se) = inl slices ∧
    ServiceExport_Handle w cid opns key seLister svcLister epsLister = (w', done_ok).

Lemma hub_labels_selected cid s se : Name (sexp_meta se) = n → Namespace (sexp_meta se) = ns →
  selects (hub_labels cid) (constructEndpointSlice s se opns cid).
Proof.
  intros Hn Hns. apply map_subseteq_spec. intros k v. unfold hub_labels, service_labels.
  rewrite !lookup_insert_Some, lookup_singleton_Some. unfold constructEndpointSlice, mentries. rewrite Hn, Hns.
  intros [[<- <-]|[? [[<- <-]|[? [<- <-]]]]]; by vm_compute.
Qed.

Lemma export_run_hub cid slices w w' : export_run cid slices w w' →
  (∀ s, s ∈ slices → (∀ c0, api_slices w opns !! hub_name cid ns s = Some c0 → selects (hub_labels cid) c0) →
    ∃ c, api_slices w' opns !! hub_name cid ns s = Some c ∧ payload c = payload s ∧ selects (hub_labels cid) c) ∧
  (∀ k c, k ∉ hub_name cid ns <$> slices →
    api_slices w' opns !! k = Some c ↔ api_slices w opns !! k = Some c ∧ ¬ selects (export_selector cid ns n) c).
Proof.
  intros (key & seL & svcL & epsL & se & svc & Hk & Hse & Hn & Hns & Hd & Hsvc & Hlok & Hsl & E).
  destruct (export_handle_syncs w cid opns key ns n seL svcL epsL se svc slices w') as (w1 & se1 & Hw1 & Hn1 & Hns1 & [M1 M2] & Hlab); [done..|].
  assert (Hname : ∀ s, es_Name (constructEndpointSlice s se1 opns cid) = hub_name cid ns s) by (intros s; cbn; by rewrite Hns1).
  split.
  - intros s Hs Hold. destruct (M1 s Hs) as (c & Hc & Hp). pose proof (Hlab s c Hs Hc) as Hl. rewrite Hname in Hc. exists c. split_and!; [done..|].
    eapply labels_from_selects; [exact Hl|by apply hub_labels_selected|]. rewrite Hname. intros c0. rewrite Hw1. apply Hold.
  - intros k c Hk'. rewrite <- Hw1. apply M2. contradict Hk'. apply list_elem_of_fmap in Hk' as (s & -> & Hs). cbn [compose]. rewrite Hname.
    by apply list_elem_of_fmap_2.
Qed.

(** The clusters one after the other. *)
Inductive exports_run : list (string * list EndpointSlice) → W → W → Prop :=
  | exports_nil w : exports_run [] w w
  | exports_cons cid slices rest w w1 w2 :
      export_run cid slices w w1 → exports_run rest w1 w2 → exports_run ((cid, slices) :: rest) w w2.

Definition hub_names (exports : list (string * list EndpointSlice)) : list string :=
  x ← exports; hub_name x.1 ns <$> x.2.

Lemma hub_names_elem exports k : k ∈ hub_names exports ↔ ∃ x s, x ∈ exports ∧ s ∈ x.2 ∧ k = hub_name x.1 ns s.
Proof.
  unfold hub_names. rewrite list_elem_of_bind. split.
  - intros (x & Hk & Hx). apply list_elem_of_fmap in Hk as (s & -> & Hs). by exists x, s.
  - intros (x & s & Hx & Hs & ->). exists x. split; [by apply list_elem_of_fmap_2|done].
Qed.

Lemma other_cluster cid cid' c : cid ≠ cid' → selects (hub_labels cid) c → ¬ selects (export_selector cid' ns n) c.
Proof.
  unfold selects. intros Hne Hsel Hsel'. apply Hne.
  assert (Hl : mentries (Labels (es_meta c)) !! LabelServiceName = Some (DerivedName cid ns n)).
  { eapply lookup_weaken; [|exact Hsel]. unfold hub_labels. apply lookup_insert_eq. }
  assert (Hl' : mentries (Labels (es_meta c)) !! LabelServiceName = Some (DerivedName cid' ns n)).
  { eapply lookup_weaken; [|exact Hsel']. apply lookup_singleton_eq. }
  rewrite Hl in Hl'. injection Hl' as Heq. unfold DerivedName in Heq. repeat apply (inj (String.app _)) in Heq. by apply string_app_inv_r in Heq.
Qed.

(** What the hub holds after all exports: the slices of every cluster, labelled; of the rest, what no export selects. *)
Lemma exports_run_hub exports w w' : exports_run exports w w' → NoDup exports.*1 → NoDup (hub_names exports) →
  (∀ x s c0, x ∈ exports → s ∈ x.2 → api_slices w opns !! hub_name x.1 ns s = Some c0 → selects (hub_labels x.1) c0) →
  (∀ x s, x ∈ exports → s ∈ x.2 → ∃ c, api_slices w' opns !! hub_name x.1 ns s = Some c ∧ payload c = payload s ∧ selects (hub_labels x.1) c) ∧
  (∀ k c, k ∉ hub_names exports → api_slices w' opns !! k = Some c ↔
    api_slices w opns !! k = Some c ∧ ∀ x, x ∈ exports → ¬ selects (export_selector x.1 ns n) c).
Proof.
  induction 1 as [w|cid slices rest w w1 w2 Hrun _ IH]; intros Hcl Hnd Hold.
  { split; [intros x s Hx; by apply elem_of_nil in Hx|]. intros k c _. split; [intros ?; split; [done|intros x Hx; by apply elem_of_nil in Hx]|by intros []]. }
  rewrite fmap_cons, NoDup_cons in Hcl. destruct Hcl as [Hcid Hcl]. cbn in Hnd. apply NoDup_app in Hnd as (_ & Hdisj & Hnd).
  apply export_run_hub in Hrun as [R1 R2].
  destruct IH as [I1 I2]; [done..| |].
  { intros x s c0 Hx Hs Hc0. apply (Hold x s); [by right|done|]. apply R2 in Hc0 as [? _]; [done|].
    intros Hin. apply (Hdisj _ Hin), hub_names_elem. by exists x, s. }
  split.
  - intros x s [->|Hx]%elem_of_cons Hs; [|by apply I1]. cbn in Hs |- *.
    destruct (R1 s Hs) as (c & Hc & Hp & Hsel). { intros c0 Hc0. apply (Hold (cid, slices) s c0); [by left|done|done]. }
    exists c. split_and!; [|done..]. apply I2; [apply Hdisj; by apply list_elem_of_fmap_2|]. split; [done|].
    intros y Hy. apply (other_cluster cid); [|done]. intros Heq. apply Hcid. cbn. rewrite Heq. by apply (list_elem_of_fmap_2 fst).
  - intros k c Hk. assert (Hk1 : k ∉ hub_name cid ns <$> slices ∧ k ∉ hub_names rest) by (cbn in Hk; rewrite elem_of_app in Hk; tauto).
    rewrite I2, R2 by apply Hk1. setoid_rewrite elem_of_cons. naive_solver.
Qed.

(** A successful run of the import handler in a cluster whose cache of the hub is up to date. *)
Definition import_run (hub w w' : W) : Prop :=
  ∃ i key siLister hubLister si slices,
    SplitMetaNamespaceKey key = Some (ns, n) ∧ siLister ns n = inl si ∧ Name (sim_meta si) = n ∧ Namespace (sim_meta si) = ns ∧
    DeletionTimestamp (sim_meta si) = None ∧ lists_ok hubLister ∧ hubLister opns (import_selector si) = inl slices ∧
    (∀ s, s ∈ slices ↔ api_slices hub opns !! es_Name s = Some s ∧ selects (service_labels ns n) s) ∧
    ServiceImport_Handle i w opns key siLister hubLister = Ret (w', done_ok).

Lemma fork_selected sel s : sel !! ObjectCreatedByLabel = None → selects sel s → selects sel (forkEndpointSlice s ns).
Proof.
  unfold selects, forkEndpointSlice. cbn [es_meta Labels]. intros Hno. destruct (Labels (es_meta s)) as [m|]; [|done].
  change (sel ⊆ m → sel ⊆ delete ObjectCreatedByLabel m).
  rewrite !map_subseteq_spec. intros Hm k v Hk. rewrite lookup_delete_ne; [by apply Hm|]. intros <-. congruence.
Qed.

Lemma hub_labels_service cid : service_labels ns n ⊆ hub_labels cid.
Proof. by apply insert_subseteq. Qed.
Lemma hub_labels_created cid : hub_labels cid !! ObjectCreatedByLabel = None.
Proof. unfold hub_labels, service_labels. rewrite lookup_insert_ne, lookup_insert_ne, lookup_singleton_ne by done. done. Qed.

(** The importer holds what the hub holds under the labels of the service, with all labels but one. *)
Lemma import_run_slices hub w w' : import_run hub w w' →
  (∀ sel k c, service_labels ns n ⊆ sel → sel !! ObjectCreatedByLabel = None → api_slices hub opns !! k = Some c → selects sel c →
    (∀ c0, api_slices w ns !! k = Some c0 → selects sel c0) →
    ∃ c', api_slices w' ns !! k = Some c' ∧ payload c' = payload c ∧ selects sel c') ∧
  (∀ k c', api_slices w' ns !! k = Some c' → selects (service_labels ns n) c' →
    ∃ c, api_slices hub opns !! k = Some c ∧ selects (service_labels ns n) c).
Proof.
  intros (i & key & siL & hubL & si & slices & Hk & Hsi & Hn & Hns & Hd & Hlok & Hsl & Hin & E).
  destruct (import_handle_syncs i w opns key ns n siL hubL si slices w') as (w1 & Hw1 & Hm & Hlab); [done..|].
  assert (Hsel : import_selector si = service_labels ns n) by (unfold import_selector; by rewrite Hn, Hns). rewrite Hsel in Hm.
  split.
  - intros sel k c Hsub Hno Hc Hcs Hold. pose proof (api_named _ _ _ _ Hc) as Hcn.
    assert (c ∈ slices) as Hcin by (apply Hin; rewrite Hcn; split; [done|unfold selects in *; by etrans]).
    destruct (proj1 Hm c Hcin) as (c' & Hc' & Hp). pose proof (Hlab c c' Hcin Hc') as Hl.
    change (es_Name (forkEndpointSlice c ns)) with (es_Name c) in Hc'. rewrite Hcn in Hc'. exists c'. split_and!; [done..|].
    eapply labels_from_selects; [exact Hl|by apply fork_selected|]. change (es_Name (forkEndpointSlice c ns)) with (es_Name c). rewrite Hcn.
    intros c0. rewrite Hw1. apply Hold.
  - intros k c' Hc' Hs. eapply mirrors_only in Hc' as (s & Hs' & ->); [|exact Hm|done]. apply Hin in Hs' as [? ?]. by exists s.
Qed.

(** Slices that are already there under the name of an exported one carry its labels. *)
Definition own_labels (exports : list (string * list EndpointSlice)) (w : W) (target : string) : Prop :=
  ∀ x s c0, x ∈ exports → s ∈ x.2 → api_slices w target !! hub_name x.1 ns s = Some c0 → selects (hub_labels x.1) c0.

(** The slices of the service in the hub are from the clusters of [exports]. *)
Definition from_clusters (exports : list (string * list EndpointSlice)) (hub : W) : Prop :=
  ∀ k c, api_slices hub opns !! k = Some c → selects (service_labels ns n) c → ∃ x, x ∈ exports ∧ selects (export_selector x.1 ns n) c.

Lemma importer_holds exports hub hub' w w' :
  exports_run exports hub hub' → NoDup exports.*1 → NoDup (hub_names exports) → own_labels exports hub opns → from_clusters exports hub →
  import_run hub' w w' → own_labels exports w ns →
  (∀ x s, x ∈ exports → s ∈ x.2 →
    ∃ c, api_slices w' ns !! hub_name x.1 ns s = Some c ∧ payload c = payload s ∧ selects (hub_labels x.1) c) ∧
  (∀ k c, api_slices w' ns !! k = Some c → selects (service_labels ns n) c →
    ∃ x s, x ∈ exports ∧ s ∈ x.2 ∧ k = hub_name x.1 ns s ∧ payload c = payload s).
Proof.
  intros Hex Hcl Hnd Hold Honly Himp Hlocal. destruct (exports_run_hub _ _ _ Hex Hcl Hnd Hold) as [X1 X2].
  apply import_run_slices in Himp as [I1 I2].
  assert (Hhas : ∀ x s, x ∈ exports → s ∈ x.2 →
    ∃ c, api_slices w' ns !! hub_name x.1 ns s = Some c ∧ payload c = payload s ∧ selects (hub_labels x.1) c).
  { intros x s Hx Hs. destruct (X1 x s Hx Hs) as (c & Hc & Hp & Hsel).
    destruct (I1 (hub_labels x.1) (hub_name x.1 ns s) c) as (c' & Hc' & Hp' & Hs'); [apply hub_labels_service|apply hub_labels_created|done..| |].
    - intros c0. by apply Hlocal.
    - exists c'. split_and!; [done|by rewrite Hp'|done]. }
  split; [done|]. intros k c' Hc' Hs. destruct (I2 k c' Hc' Hs) as (c & Hc & Hcs).
  destruct (decide (k ∈ hub_names exports)) as [Hk|Hk].
  - apply hub_names_elem in Hk as (x & s & Hx & Hxs & ->). destruct (Hhas x s Hx Hxs) as (c1 & Hc1 & Hp1 & _).
    rewrite Hc1 in Hc'. injection Hc' as <-. exists x, s. split_and!; [exact Hx|exact Hxs|reflexivity|exact Hp1].
  - apply X2 in Hc as [Hc Hno]; [|done]. destruct (Honly k c Hc Hcs) as (x & Hx & Hsx). by destruct (Hno x Hx).
Qed.

(** What the clusters export: the name in the hub and the payload of every slice. *)
Definition exported_list (exports : list (string * list EndpointSlice)) : list (string * (string * list Endpoint * list EndpointPort)) :=
  x ← exports; (λ s, (hub_name x.1 ns s, payload s)) <$> x.2.
Definition exported (exports : list (string * list EndpointSlice)) : gmap string (string * list Endpoint * list EndpointPort) :=
  list_to_map (exported_list exports).

Lemma exported_lookup exports k q : NoDup (hub_names exports) →
  exported exports !! k = Some q ↔ ∃ x s, x ∈ exports ∧ s ∈ x.2 ∧ k = hub_name x.1 ns s ∧ q = payload s.
Proof.
  assert (Hn : (exported_list exports).*1 = hub_names exports).
  { induction exports as [|x exports IH]; [done|]. unfold exported_list, hub_names in *. cbn [mbind list_bind] in *.
    rewrite fmap_app, IH. f_equal. by rewrite <- list_fmap_compose. }
  intros Hnd. unfold exported. rewrite <- elem_of_list_to_map by (by rewrite Hn). unfold exported_list. rewrite list_elem_of_bind. split.
  - intros (x & (s & [= -> ->] & Hs)%list_elem_of_fmap & Hx). by exists x, s.
  - intros (x & s & Hx & Hs & -> & ->). exists x. split; [|done]. apply list_elem_of_fmap. by exists s.
Qed.

(** C10: a service reaches the clusters that import it.  After the export handlers of some clusters have succeeded, in any
    order, and then the import handler of another one, the slices that this cluster holds for the service are exactly
    those of all exporting clusters: under the name each has in the hub there is a slice with its address type, endpoints and ports,
    and there is no other.  Names in the hub must not collide, slices that were already there under these names must carry the
    labels of their service, and the hub must hold slices of the service from these clusters only. *)
Theorem service_reaches_importer exports hub hub' w w' :
  exports_run exports hub hub' → NoDup exports.*1 → NoDup (hub_names exports) → own_labels exports hub opns → from_clusters exports hub →
  import_run hub' w w' → own_labels exports w ns →
  payload <$> filter (λ kc, selects (service_labels ns n) kc.2) (api_slices w' ns) = exported exports.
Proof.
  intros Hex Hcl Hnd Hold Honly Himp Hlocal. destruct (importer_holds exports hub hub' w w') as [I1 I2]; [done..|].
  apply map_eq. intros k. apply option_eq. intros q. rewrite exported_lookup, lookup_fmap, fmap_Some by done. setoid_rewrite map_lookup_filter_Some. split.
  - intros (c & [Hc Hs] & ->). destruct (I2 k c Hc Hs) as (x & s & Hx & Hxs & -> & Hp). by exists x, s.
  - intros (x & s & Hx & Hs & -> & ->). destruct (I1 x s Hx Hs) as (c & Hc & Hp & Hsel). exists c. split; [|done]. split; [done|].
    unfold selects in *. etrans; [apply hub_labels_service|done].
Qed.
End cross.

(** ** A hub with two exporting clusters and one importer *)
Program Definition dm_server : @SliceServer demo_mcs dm_client := {| api_slices := λ w, demo_slices (dm_slices w) |}.
Next Obligation.
  intros w ns s w' c E. pose proof (@api_create_ok _ demo_client demo_server (dm_slices w) ns s) as Hc.
  cbn [api_create dm_client] in E. destruct (@api_create _ demo_client (dm_slices w) ns s) as [v r]. injection E as <- ->. by apply (Hc v c).
Qed.
Next Obligation.
  intros w ns s w' c E. pose proof (@api_update_ok _ demo_client demo_server (dm_slices w) ns s) as Hc.
  cbn [api_update dm_client] in E. destruct (@api_update _ demo_client (dm_slices w) ns s) as [v r]. injection E as <- ->. by apply (Hc v c).
Qed.
Next Obligation.
  intros w ns n w' E. pose proof (@api_delete_ok _ demo_client demo_server (dm_slices w) ns n) as Hc.
  cbn [api_delete dm_client] in E. destruct (@api_delete _ demo_client (dm_slices w) ns n) as [v r]. injection E as <- ->. by apply (Hc v).
Qed.

Lemma dm_reads : @SliceReads demo_mcs dm_client dm_server dm_reader.
Proof.
  split.
  - intros w ns n s. exact (@api_named _ _ _ _ demo_reads (dm_slices w) ns n s).
  - intros w ns n s. exact (@api_get_ok _ _ _ _ demo_reads (dm_slices w) ns n s).
  - intros w ns sel l. exact (@api_list_ok _ _ _ _ demo_reads (dm_slices w) ns sel l).
  - intros w ns sel w' E. pose proof (@api_delete_collection_ok _ _ _ _ demo_reads (dm_slices w) ns sel) as Hc.
    cbn [api_delete_collection dm_reader] in E. destruct (@api_delete_collection _ demo_reader (dm_slices w) ns sel) as [v r].
    injection E as <- ->. by apply (Hc v).
  - intros w ns s w' e E. pose proof (@api_create_rejected _ _ _ _ demo_reads (dm_slices w) ns s) as Hc.
    cbn [api_create dm_client] in E. destruct (@api_create _ demo_client (dm_slices w) ns s) as [v r]. injection E as <- ->. by apply (Hc v e).
  - intros w ns s w' e E. pose proof (@api_update_conflict _ _ _ _ demo_reads (dm_slices w) ns s) as Hc.
    cbn [api_update dm_client] in E. destruct (@api_update _ demo_client (dm_slices w) ns s) as [v r]. injection E as <- ->. by apply (Hc v e).
Qed.

Lemma dm_exportlaws : @ExportLaws demo_mcs dm_client dm_server (dm_mcs false).
Proof. split; [|done]. by intros w ns se w' c [= <- <-]. Qed.

Lemma dm_importframes : @ImportFrames demo_mcs dm_client dm_server (dm_mcs false) dm_ipam.
Proof.
  split.
  - intros w c ns. change (demo_slices (dm_slices (fst (dm_acquire w dm_addresses))) ns = demo_slices (dm_slices w) ns).
    generalize dm_addresses. intros pool. unfold dm_acquire. by repeat case_match.
  - done.
  - by intros w ns si w' c [= <- <-].
Qed.

Definition cc_slice (addr : string) : EndpointSlice :=
  let s := demo_named "web-1" addr in mkSlice (es_meta s) (es_AddressType s) (es_Endpoints s) [mkPort (Some "http") (Some "TCP") (Some 80) None].
Definition cc_lister (addr : string) : SliceLister := λ ns _, inl (if bool_decide (ns = "ns") then [cc_slice addr] else []).
Definition cc_handle (hub : demo_mcs) (cid addr : string) : demo_mcs * handled :=
  @ServiceExport_Handle _ dm_client dm_reader demo_patch demo_sched demo_clientgo demo_hash (dm_mcs false) hub cid "hub" "ns/web"
    (λ _ _, inl demo_export) (λ _ _, inl demo_service) (cc_lister addr).
Definition cc_hub0 : demo_mcs := mkDM ∅ ∅ ∅ 0.
Definition cc_hub1 : demo_mcs := Eval vm_compute in fst (cc_handle cc_hub0 "c1" "10.0.0.5").
Definition cc_hub2 : demo_mcs := Eval vm_compute in fst (cc_handle cc_hub1 "c2" "10.1.0.5").

(** The importer still holds a slice that cluster [c1] no longer exports. *)
Definition cc_importer0 : demo_mcs :=
  mkDM {["ns" := {["c1-ns-web-0" := set_meta (λ m, set_Labels (Some (service_labels "ns" "web")) (set_Name "c1-ns-web-0" m)) (cc_slice "10.0.0.4")]}]}
    ∅ ∅ 0.
(** The cache of a hub with the slices [l] in the shared namespace, and a run of the import handler with it. *)
Definition cc_cache (l : list EndpointSlice) : SliceLister := λ ns sel, inl (if bool_decide (ns = "hub") then filter (selects sel) l else []).
Definition cc_import (l : list EndpointSlice) (w : demo_mcs) : outcome (demo_mcs * handled) :=
  @ServiceImport_Handle _ dm_client dm_reader demo_patch demo_sched demo_clientgo (dm_mcs false) dm_ipam (mkIPAM (Some "10.9.0.0/24"))
    w "hub" "ns/web" (λ _ _, inl (dm_import "web" [] None [])) (cc_cache l).
Definition cc_slices (hub : demo_mcs) : list EndpointSlice := (map_to_list (demo_slices (dm_slices hub) "hub")).*2.
Definition cc_hubslices : list EndpointSlice := Eval vm_compute in cc_slices cc_hub2.
Definition cc_importer1 : demo_mcs := Eval vm_compute in match cc_import cc_hubslices cc_importer0 with Ret (w, _) => w | _ => cc_importer0 end.

Lemma cc_lister_ok addr : lists_ok (cc_lister addr).
Proof.
  intros ns sel l [= <-]. case_bool_decide as Hns; cbn; [|by repeat constructor].
  split; [apply NoDup_singleton|]. by repeat constructor.
Qed.

Lemma cc_cache_ok l : NoDup (es_Name <$> l) → Forall (λ s, es_Name s ≠ EmptyString ∧ Namespace (es_meta s) = "hub") l → lists_ok (cc_cache l).
Proof.
  intros Hnd Hall ns sel l' [= <-]. case_bool_decide as Hns; [subst ns|cbn; by repeat constructor]. split.
  - eapply sublist_NoDup; [exact Hnd|]. apply fmap_sublist, sublist_filter.
  - rewrite Forall_forall in Hall |- *. intros s [_ Hs]%list_elem_of_filter. by apply Hall.
Qed.

Abbreviation cc_export_run := (@export_run _ dm_client dm_reader demo_patch demo_sched demo_clientgo demo_hash (dm_mcs false) "hub" "ns" "web").
Abbreviation cc_exports_run := (@exports_run _ dm_client dm_reader demo_patch demo_sched demo_clientgo demo_hash (dm_mcs false) "hub" "ns" "web").
Abbreviation cc_import_run := (@import_run _ dm_client dm_server dm_reader demo_patch demo_sched demo_clientgo (dm_mcs false) dm_ipam "hub" "ns" "web").

Lemma cc_export_runs hub cid addr hub' : cc_handle hub cid addr = (hub', done_ok) → cc_export_run cid [cc_slice addr] hub hub'.
Proof.
  intros E. exists "ns/web", (λ _ _, inl demo_export), (λ _ _, inl demo_service), (cc_lister addr), demo_export, demo_service.
  split_and!; try reflexivity; [apply cc_lister_ok|exact E].
Qed.

Definition cc_exports : list (string * list EndpointSlice) := [("c1", [cc_slice "10.0.0.5"]); ("c2", [cc_slice "10.1.0.5"])].
Lemma cc_exports_run_ok : cc_exports_run cc_exports cc_hub0 cc_hub2.
Proof.
  apply exports_cons with (w1 := cc_hub1); [apply cc_export_runs; vm_compute; reflexivity|].
  apply exports_cons with (w1 := cc_hub2); [apply cc_export_runs; vm_compute; reflexivity|]. apply exports_nil.
Qed.

Lemma cc_import_runs hub l w w' : lists_ok (cc_cache l) → cc_slices hub = l → cc_import l w = Ret (w', done_ok) → cc_import_run hub w w'.
Proof.
  intros Hl Hs E. exists (mkIPAM (Some "10.9.0.0/24")), "ns/web", (λ _ _, inl (dm_import "web" [] None [])), (cc_cache l), (dm_import "web" [] None []).
  exists (filter (selects (service_labels "ns" "web")) l). split_and!; try reflexivity; [exact Hl| |exact E].
  intros s. apply (@api_list_ok _ _ _ _ dm_reads hub "hub" (service_labels "ns" "web")). rewrite <- Hs. reflexivity.
Qed.

Lemma cc_import_run_ok : cc_import_run cc_hub2 cc_importer0 cc_importer1.
Proof.
  apply (cc_import_runs _ cc_hubslices); [|vm_compute; reflexivity|vm_compute; reflexivity].
  apply cc_cache_ok; apply (bool_decide_unpack _); vm_compute; exact I.
Qed.

Lemma cc_importer0_lookup k c : @api_slices _ _ dm_server cc_importer0 "ns" !! k = Some c → k = "c1-ns-web-0".
Proof.
  intros E. change (named_slices {["c1-ns-web-0" := set_meta (λ m, set_Labels (Some (service_labels "ns" "web")) (set_Name "c1-ns-web-0" m)) (cc_slice "10.0.0.4")]} !! k = Some c) in E.
  apply map_lookup_filter_Some in E as [E _]. by apply lookup_singleton_Some in E as [<- _].
Qed.

Lemma service_reaches_importer_witness :
  payload <$> filter (λ kc, selects (service_labels "ns" "web") kc.2) (@api_slices _ _ dm_server cc_importer1 "ns") = exported "ns" cc_exports ∧
  dom (exported "ns" cc_exports) = {["c1-ns-web-1"; "c2-ns-web-1"]}.
Proof.
  split; [|vm_compute; reflexivity].
  apply (@service_reaches_importer _ dm_client dm_server dm_reader dm_reads demo_patch demo_patchlaws demo_sched demo_clientgo demo_hash
    (dm_mcs false) dm_ipam dm_exportlaws dm_importframes "hub" "ns" "web" ltac:(intros w ns sel; eexists; reflexivity)
    cc_exports cc_hub0 cc_hub2 cc_importer0 cc_importer1).
  - exact cc_exports_run_ok.
  - by apply (bool_decide_unpack _).
  - by apply (bool_decide_unpack _).
  - intros x s c0 _ _ E. discriminate E.
  - intros k c E. discriminate E.
  - exact cc_import_run_ok.
  - intros x s c0 Hx Hs E. apply cc_importer0_lookup in E. exfalso. revert E. unfold cc_exports in Hx. rewrite !elem_of_cons, elem_of_nil in Hx.
    destruct Hx as [->|[->|[]]]; apply list_elem_of_singleton in Hs as ->; discriminate.
Defined.
