(* ===== verification/ServiceReach.v ===== *)
(** * From the pods of one cluster to the proxy of another

    The composition of [CrossCluster] with [ProxyConfig] and [EndpointsSpec]: an export handler uploads the slices of a service, an import
    handler of another cluster downloads them, and the proxier there is told of them; when it is quiet, its endpoint map holds the
    endpoints of the exporting cluster. *)
From stdpp Require Import prelude gmap strings list.
From S2P Require Import Prelude NetAddr NetUtil K8s ProxyEndpoints EndpointsSpec ProxyServices HostPort Kernel Graceful IpSet Proxier ProxySync ProxyConfig Utils SliceSync ServiceCIDR Mcs CrossCluster.
Open Scope Z_scope.

(** The endpoint [ep] of the service port [spn] is one of the slice [s] of service [nn]. *)
Definition slice_serves `{GoRuntime} `{ProxyLib} (ipFamily : string) (nn : NamespacedName) (s : EndpointSlice) (spn : ServicePortName) (ep : string) : Prop :=
  ∃ i port portNum e, go_sort byPort_Less (es_Ports s) !! i = Some port ∧ port_of nn i port = Some (spn, portNum) ∧
    e ∈ es_Endpoints s ∧ endpoint_string ipFamily portNum (to_endpointInfo e) = Some ep.

Section reach.
Context `{GoRuntime} `{ProxyLib}.

Lemma slice_info_serves ipFamily s spn ep :
  serves ipFamily (slice_info s false) spn ep ↔ slice_serves ipFamily (slice_nn s) s spn ep.
Proof.
  unfold serves, slice_serves, slice_info. cbn [esi_Ports esi_nn esi_Endpoints]. split.
  - intros (i & port & n & e & Hp & Hpo & He & Hs). rewrite go_sort_perm in He. apply list_elem_of_fmap in He as (e' & -> & He).
    by exists i, port, n, e'.
  - intros (i & port & n & e & Hp & Hpo & He & Hs). exists i, port, n, (to_endpointInfo e). split_and!; [done|done| |done].
    rewrite go_sort_perm. by apply list_elem_of_fmap_2.
Qed.

(** What a slice serves is in its payload. *)
Lemma slice_serves_payload ipFamily nn s s' spn ep : payload s = payload s' → slice_serves ipFamily nn s spn ep → slice_serves ipFamily nn s' spn ep.
Proof. unfold payload, slice_serves. intros [= _ He Hp]. by rewrite He, Hp. Qed.
End reach.

Section proxied.
Context `{GoRuntime} {K : Type} `{ServiceLib} `{ProxyLib} `{NetutilsLib} `{IpvsLib} `{KernelOps K}.
Context {W : Type} `{SliceReads W} `{PatchLaws} `{GoSched} `{ClientGo} `{HashLib} `{!McsClient W} `{!Ipamer W} `{!ExportLaws W} `{!ImportFrames W}.
Variables opns ns n : string.
Hypothesis list_total : ∀ (w : W) ns sel, ∃ items, api_list w ns sel = inl items.
(** The service of the slices tracked under a label, as the proxier knows it. *)
Context (owner : NamespacedName → NamespacedName) (Hinj : Inj (=) (=) owner).

(** The informer of the proxier has been told of the slices of the namespace that carry the label of a service. *)
Definition told (w : W) (m : gmap NamespacedName EndpointSlice) : Prop := ∀ name s,
  m !! mkNN ns name = Some s ↔ api_slices w ns !! name = Some s ∧ is_Some (mget (Labels (es_meta s)) known_LabelServiceName).

Lemma selects_label sel k v s : selects sel s → sel !! k = Some v → mget (Labels (es_meta s)) k = Some v.
Proof.
  unfold selects. intros Hs Hk. pose proof (lookup_weaken _ _ _ _ Hk Hs) as Hl. unfold mentries, mget in *.
  destruct (Labels (es_meta s)); [done|]. cbn in Hl. by rewrite lookup_empty in Hl.
Qed.

Lemma labels_selected s : mget (Labels (es_meta s)) known_LabelServiceName = Some n → mget (Labels (es_meta s)) known_LabelServiceNameSpace = Some ns →
  selects (service_labels ns n) s.
Proof.
  intros Hn Hns. apply map_subseteq_spec. intros k v. unfold service_labels. rewrite lookup_insert_Some, lookup_singleton_Some.
  unfold mget, mentries in *. destruct (Labels (es_meta s)) as [m|]; [|done]. naive_solver.
Qed.

(** The slices that the proxier tracks for the service are those of the exporting cluster. *)
Lemma tracked_slices family cid (slices : list EndpointSlice) w m : told w m → slices_ok owner m → owner (mkNN ns (DerivedName cid ns n)) = mkNN ns n →
  (∀ s, s ∈ slices → ∃ c, api_slices w ns !! hub_name cid ns s = Some c ∧ payload c = payload s ∧ selects (hub_labels ns n cid) c) →
  (∀ k c, api_slices w ns !! k = Some c → selects (service_labels ns n) c → ∃ s, s ∈ slices ∧ payload c = payload s) →
  ∀ spn ep, (∃ name si, slices_of m (mkNN ns (DerivedName cid ns n)) !! name = Some si ∧ serves family si spn ep) ↔
    ∃ s, s ∈ slices ∧ slice_serves family (mkNN ns n) s spn ep.
Proof.
  intros Ht Hok Ho I1 I2 spn ep. setoid_rewrite slices_of_lookup; [|done]. cbn [nn_Namespace]. split.
  - intros (name & si & Hsi & Hs). apply bind_Some in Hsi as (c & Hc & Hsi). case_decide as Hk; [|done]. injection Hsi as <-.
    destruct (Hok _ _ Hc) as [_ [Hg Hnn]]. rewrite Hk, Ho in Hnn. apply slice_info_serves in Hs. rewrite Hnn in Hs.
    apply Ht in Hc as [Hc [nm Hnm]]. destruct (I2 name c Hc) as (s & Hin & Hp); [|exists s; split; [done|by eapply slice_serves_payload]].
    unfold slice_good in Hg. rewrite !andb_true_iff, !bool_decide_eq_true in Hg. destruct Hg as [[[[[[[_ [nsl Hnsl]] _] _] _] _] _] _].
    unfold slice_nn, mstr in Hnn. rewrite Hnm, Hnsl in Hnn. cbn in Hnn. injection Hnn as -> ->. by apply labels_selected.
  - intros (s & Hin & Hs). destruct (I1 s Hin) as (c & Hc & Hp & Hsel). unfold hub_labels, service_labels in Hsel.
    assert (Hmc : m !! mkNN ns (hub_name cid ns s) = Some c).
    { apply Ht. split; [done|]. exists n. eapply selects_label; [exact Hsel|]. by rewrite lookup_insert_ne, lookup_insert_ne, lookup_singleton_eq. }
    destruct (Hok _ _ Hmc) as [[= Hns _] [_ Hnn]]. exists (hub_name cid ns s), (slice_info c false). rewrite Hmc.
    assert (Hk : slice_key c = mkNN ns (DerivedName cid ns n)).
    { unfold slice_key, mstr. rewrite Hns. f_equal. erewrite selects_label; [reflexivity|exact Hsel|]. by rewrite lookup_insert_eq. }
    cbn [mbind option_bind]. rewrite decide_True by done. split; [done|]. apply slice_info_serves. rewrite Hnn, Hk, Ho.
    eapply slice_serves_payload; [symmetry; exact Hp|done].
Qed.

(** C9: the endpoints of one cluster reach the proxier of another.  After the export handler of a cluster and the import handler of
    another have succeeded, and once the proxier of the latter has been told of the slices and has nothing left to do, its endpoint
    map holds for every port of the service exactly the endpoints of the exported slices, and the kernel was last synced with this map. *)
Theorem exported_endpoints_reach_proxy cid slices hub hub' w w' family host scheduler cidrs now k y :
  export_run opns ns n cid slices hub hub' → NoDup (hub_names ns [(cid, slices)]) →
  own_labels ns n [(cid, slices)] hub opns → from_clusters opns ns n [(cid, slices)] hub →
  import_run opns ns n hub' w w' → own_labels ns n [(cid, slices)] w ns →
  rtc (step owner) (system_start family host scheduler cidrs now k) y → quiet y →
  px_endpointSlicesSynced (y_p y) = true → px_servicesImportSynced (y_p y) = true →
  told w' (y_slices y) → owner (mkNN ns (DerivedName cid ns n)) = mkNN ns n →
  (∀ spn ep, spn_nn spn = mkNN ns n →
    (∃ l, px_endpointsMap (y_p y) !! spn = Some l ∧ ep ∈ bei_Endpoint <$> l) ↔ ∃ s, s ∈ slices ∧ slice_serves family (mkNN ns n) s spn ep) ∧
  last_sync (y_p y) (y_w y).
Proof.
  intros Hex Hnd Hold Hfrom Himp Hlocal Hrun Hq F1 F2 Ht Ho.
  assert (Hexs : exports_run opns ns n [(cid, slices)] hub hub') by (eapply exports_cons; [exact Hex|apply exports_nil]).
  destruct (importer_holds opns ns n list_total _ _ _ _ _ Hexs (NoDup_singleton _) Hnd Hold Hfrom Himp Hlocal) as [I1 I2].
  destruct (quiet_maps owner _ _ _ _ _ _ _ Hrun Hq F1 F2) as (Hok & _ & _ & Hmaps & Hls). split; [|done].
  intros spn ep Hspn. destruct (Hmaps (mkNN ns (DerivedName cid ns n))) as (m & Hm & Heq); [intros k'; apply Hinj|]. rewrite Heq by (by rewrite Ho).
  rewrite <- (tracked_slices family cid slices w' (y_slices y)); [|done..| |].
  - pose proof (getEndpointsMap_serves _ _ _ spn Hm) as Hs. destruct (m !! spn) as [l|].
    + destruct Hs as [_ Hs]. rewrite <- Hs. naive_solver.
    + split; [by intros (? & ? & _)|]. intros (name & si & Hn & Hse). by destruct (Hs ep name si Hn).
  - intros s Hs. apply (I1 (cid, slices) s); [by left|done].
  - intros key c Hc Hsel. destruct (I2 key c Hc Hsel) as (x & s & Hx%list_elem_of_singleton & Hs & _ & Hp). subst x. by exists s.
Qed.
End proxied.

(** ** One cluster exports, another proxies *)
Section demo.
#[local] Existing Instances list_runtime demo_ipvslib demo_kernel demo_ipvsnames demo_laws demo_reliable demo_proxylib demo_servicelib demo_netutils.

Definition sr_owner (k : NamespacedName) : NamespacedName :=
  if decide (k = mkNN "ns" "derived-c1-ns-web") then mkNN "ns" "web"
  else if decide (k = mkNN "ns" "web") then mkNN "ns" "derived-c1-ns-web" else k.
Lemma sr_owner_inj : Inj (=) (=) sr_owner.
Proof. intros k k'. unfold sr_owner. repeat case_decide; congruence. Qed.

(** The importer has no slices before. *)
Definition sr_hubslices : list EndpointSlice := Eval vm_compute in cc_slices cc_hub1.
Definition sr_importer : demo_mcs := Eval vm_compute in match cc_import sr_hubslices cc_hub0 with Ret (w, _) => w | _ => cc_hub0 end.
Definition sr_slice : EndpointSlice := Eval vm_compute in default (cc_slice EmptyString) (demo_slices (dm_slices sr_importer) "ns" !! "c1-ns-web-1").
Definition sr_exported : list EndpointSlice := [cc_slice "10.0.0.5"].

Lemma sr_import_run : cc_import_run cc_hub1 cc_hub0 sr_importer.
Proof.
  apply (cc_import_runs _ sr_hubslices); [|vm_compute; reflexivity|vm_compute; reflexivity].
  apply cc_cache_ok; apply (bool_decide_unpack _); vm_compute; exact I.
Qed.

Lemma sr_told : @told _ dm_client dm_server "ns" sr_importer (y_slices (demo_y8 sr_slice)).
Proof.
  assert (E1 : y_slices (demo_y8 sr_slice) = {[mkNN "ns" "c1-ns-web-1" := sr_slice]}) by (apply demo_y8_slices).
  assert (E2 : demo_slices (dm_slices sr_importer) "ns" = {["c1-ns-web-1" := sr_slice]}) by (vm_compute; reflexivity).
  intros name s. rewrite E1. change (api_slices sr_importer "ns") with (demo_slices (dm_slices sr_importer) "ns"). rewrite E2, !lookup_singleton_Some.
  assert (Hlab : is_Some (mget (Labels (es_meta sr_slice)) known_LabelServiceName)) by (exists "web"; vm_compute; reflexivity).
  clear E1 E2. generalize dependent sr_slice. intros c Hlab. naive_solver.
Qed.

Lemma sr_run : rtc (step sr_owner) demo_y0 (demo_y8 sr_slice).
Proof.
  apply demo_run.
  - split; vm_compute; reflexivity.
  - vm_compute. reflexivity.
  - vm_compute. reflexivity.
Qed.

Lemma exported_endpoints_reach_proxy_witness :
  (∃ l, px_endpointsMap (y_p (demo_y8 sr_slice)) !! demo_spn = Some l ∧ "10.0.0.5:80" ∈ bei_Endpoint <$> l) ∧
  (∃ s, s ∈ sr_exported ∧ slice_serves "IPv4" (mkNN "ns" "web") s demo_spn "10.0.0.5:80") ∧
  last_sync (y_p (demo_y8 sr_slice)) (y_w (demo_y8 sr_slice)).
Proof.
  destruct (@exported_endpoints_reach_proxy list_runtime _ demo_servicelib demo_proxylib demo_netutils demo_ipvslib demo_kernel
    _ dm_client dm_server dm_reader dm_reads demo_patch demo_patchlaws demo_sched demo_clientgo demo_hash (dm_mcs false) dm_ipam dm_exportlaws dm_importframes
    "hub" "ns" "web" ltac:(intros w ns sel; eexists; reflexivity) sr_owner sr_owner_inj
    "c1" sr_exported cc_hub0 cc_hub1 cc_hub0 sr_importer "IPv4" "node" EmptyString [] 0 demo_kworld0 (demo_y8 sr_slice)) as [He Hl].
  - apply cc_export_runs. vm_compute. reflexivity.
  - by apply (bool_decide_unpack _).
  - intros x s c0 _ _ E. discriminate E.
  - intros k c E. discriminate E.
  - exact sr_import_run.
  - intros x s c0 _ _ E. discriminate E.
  - exact sr_run.
  - split; [vm_compute; reflexivity|]. intros []; vm_compute; reflexivity.
  - vm_compute. reflexivity.
  - vm_compute. reflexivity.
  - exact sr_told.
  - vm_compute. reflexivity.
  - assert (Hep : ∃ l, px_endpointsMap (y_p (demo_y8 sr_slice)) !! demo_spn = Some l ∧ "10.0.0.5:80" ∈ bei_Endpoint <$> l).
    { eexists. split; [vm_compute; reflexivity|]. cbn. by left. }
    split; [exact Hep|]. split; [|exact Hl]. by apply (He demo_spn "10.0.0.5:80" eq_refl).
Defined.
End demo.
