(* ===== verification/ApiOps.v ===== *)
(** * Writes of pods and peers

    The rest of [utils/utils.go] (annotations and labels of pods, written with a merge
    patch or an update) and [utils/peerManager.go] (the [Peer] object of a cluster
    in the hub).  The API server is given by [PodClient] and [PeerClient], its laws
    by [PodServer] and [PeerServer]; [encoding/json] and [jsonpatch] by [JsonLib]. *)
From stdpp Require Import prelude gmap strings list.
From S2P Require Import Prelude NetAddr K8s HostPort Utils.
Open Scope Z_scope.

Definition FleetboardSystemNamespace : string := "fleetboard-system".
Definition FleetboardTunnelCIDR : string := "fleetboard.io/tunnel_cidr".
Definition FleetboardClusterCIDR : string := "fleetboard.io/cluster_cidr".
Definition FleetboardNodeCIDR : string := "fleetboard.io/node_cidr".
Definition PublicKeyAnnotation : string := "fleetboard.io/public_key".
Definition FleetboardParallelIP : string := "router.fleetboard.io/parallel_ip".
Definition LeaderCNFLabelKey : string := "router.fleetboard.io/leader".
Definition EnvPodName : string := "FLEETBOARD_PODNAME".
Definition EnvPodNamespace : string := "FLEETBOARD_PODNAMESPACE".

(** ** The clients *)
Class JsonLib := {
  Json : Type;
  json_Marshal : Pod → Json + string;
  jsonpatch_CreateMergePatch : Json → Json → Json + string
}.

Class PodClient (W : Type) `{JsonLib} := {
  pods_get : W → string → string → Pod + ApiError;
  pods_list : W → string → string → list Pod + ApiError;
  pods_update : W → Pod → W * option ApiError;
  pods_patch : W → string → string → Json → W * option ApiError;
  nodes_get : W → string → Node + ApiError
}.

Definition annotations (p : Pod) : gmap string string := mentries (Annotations (pod_meta p)).
Definition with_annotations (ann : gmap string string) (p : Pod) : Pod := set_pod_meta (set_Annotations (Some ann)) p.
Definition with_labels (l : gmap string string) (p : Pod) : Pod := set_pod_meta (set_Labels (Some l)) p.

Section pods.
Context {W : Type} `{PodClient W} `{ClientGo}.

(** ** [utils/utils.go] *)
Definition GetDedicatedCNIIP (pod : Pod) : outcome IP :=
  match mget (Annotations (pod_meta pod)) FleetboardParallelIP with
  | Some val => if bool_decide (val = EmptyString) then Err "there is no dedicated ip" else Ret (ParseIP val)
  | None => Err "there is no dedicated ip"
  end.

Definition createMergePatch (originalJSON modifiedJSON : Json) : Json + string :=
  jsonpatch_CreateMergePatch originalJSON modifiedJSON.

Definition GenerateMergePatchPayload (original modified : Pod) : Json + string :=
  match json_Marshal original with
  | inr err => inr err
  | inl originalJSON =>
      match json_Marshal modified with
      | inr err => inr err
      | inl modifiedJSON => createMergePatch originalJSON modifiedJSON
      end
  end.

(** One attempt of [SetSpecificAnnotations].  The pod is the caller's object: it
    keeps the new annotations also when the patch fails, and the error is
    wrapped with [%v], so that it no longer is a conflict. *)
Definition set_annotations_once (kvs : list (string * string)) (override : bool) (s : W * Pod) : (W * Pod) * option ApiError :=
  let '(w, pod) := s in
  let cachedPod := pod in
  let pod := with_annotations (set_annotations override (annotations pod) kvs) pod in
  let ns := Namespace (pod_meta pod) in let name := Name (pod_meta pod) in
  match GenerateMergePatchPayload cachedPod pod with
  | inr err => ((w, pod), Some (mkErr ReasonOther ("get pod " +:+ ns +:+ "/" +:+ name +:+ " patch payload failed: " +:+ err)))
  | inl patch =>
      match pods_patch w ns name patch with
      | (w, Some err) => ((w, pod), Some (mkErr ReasonOther ("patch pod " +:+ ns +:+ "/" +:+ name +:+ " failed: " +:+ err_msg err)))
      | (w, None) => ((w, pod), None)
      end
  end.

(** [annotationValues[i]] panics when there are fewer values than keys. *)
Definition SetSpecificAnnotations (keys vals : list string) (override : bool) : proc (W * Pod) () := λ s,
  if (length vals <? length keys)%nat then (s, Panic)
  else match RetryOnConflict (set_annotations_once (zip keys vals) override) s with
       | (s, None) => (s, Ret ())
       | (s, Some e) => (s, Err (err_msg e))
       end.

(** [os.Getenv] gives the name and the namespace of the pod itself. *)
Definition AddAnnotationToSelf (podName namespace : string) (annotationKey annotationValue : string) (override : bool) : proc W () := λ w,
  match pods_get w namespace podName with
  | inr err => if IsNotFound err then (w, Ret ())
               else (w, Err ("get pod " +:+ namespace +:+ "/" +:+ podName +:+ " failed: " +:+ err_msg err))
  | inl pod => let '((w, _), r) := SetSpecificAnnotations [annotationKey] [annotationValue] override (w, pod) in (w, r)
  end.

Definition update_labels_once (podName : string) (isLeader : bool) (w : W) : W * option ApiError :=
  match pods_get w FleetboardSystemNamespace podName with
  | inr err => (w, Some err)
  | inl pod =>
      let labels := mentries (Labels (pod_meta pod)) in
      if isLeader then pods_update w (with_labels (<[LeaderCNFLabelKey := "true"]> labels) pod)
      else if bool_decide (labels !! LeaderCNFLabelKey = None) then (w, None)
      else pods_update w (with_labels (delete LeaderCNFLabelKey labels) pod)
  end.
Definition UpdatePodLabels (podName : string) (isLeader : bool) (w : W) : W :=
  fst (RetryOnConflict (update_labels_once podName isLeader) w).

(** The variable [pod] of the closure is read again after a failed patch. *)
Definition patch_annotations_once (kvs : list (string * string)) (s : W * Pod) : (W * Pod) * option ApiError :=
  let '(w, pod) := s in
  let cachedPod := pod in
  let pod := with_annotations (set_annotations true (annotations pod) kvs) pod in
  let ns := Namespace (pod_meta pod) in let name := Name (pod_meta pod) in
  match GenerateMergePatchPayload cachedPod pod with
  | inr err => ((w, pod), Some (mkErr ReasonOther err))
  | inl patch =>
      match pods_patch w ns name patch with
      | (w, None) => ((w, pod), None)
      | (w, Some patchErr) =>
          match pods_get w ns name with
          | inr err => if IsNotFound err then ((w, pod), None) else ((w, pod), Some err)
          | inl pod => ((w, pod), Some patchErr)
          end
      end
  end.
Definition DeprecatedPatchPodAnnotationsWithRetry (keys vals : list string) : proc (W * Pod) () := λ s,
  if (length vals <? length keys)%nat then (s, Panic)
  else match RetryOnConflict (patch_annotations_once (zip keys vals)) s with
       | (s, None) => (s, Ret ())
       | (s, Some e) => (s, Err (err_msg e))
       end.

Definition CheckIfMasterOrControlNode (w : W) (nodeName : string) : bool :=
  match nodes_get w nodeName with
  | inr _ => false
  | inl node => bool_decide (is_Some (mget (Labels (node_meta node)) "node-role.kubernetes.io/master"))
                || bool_decide (is_Some (mget (Labels (node_meta node)) "node-role.kubernetes.io/control-plane"))
  end.
End pods.

(** ** What the server does with the writes

    A merge patch between two versions of the annotations (RFC 7386) writes the
    keys in which they differ. *)
Class PodServer (W : Type) `{PodClient W} := {
  pods_view : W → string → gmap string Pod;
  pods_get_ok : ∀ w ns n p, pods_get w ns n = inl p →
    pods_view w ns !! n = Some p ∧ Namespace (pod_meta p) = ns ∧ Name (pod_meta p) = n;
  pods_patch_ok : ∀ w ns n p ann patch w',
    GenerateMergePatchPayload p (with_annotations ann p) = inl patch → pods_patch w ns n patch = (w', None) →
    ∃ old new, pods_view w ns !! n = Some old ∧ pods_view w' ns = <[n := new]> (pods_view w ns) ∧
      ∀ k, annotations new !! k = if decide (annotations p !! k = ann !! k) then annotations old !! k else ann !! k
}.

(** A function that never reports a conflict is run once. *)
Lemma retried_once {S} (f : S → S * option ApiError) s s' r :
  (∀ s s1 e, f s = (s1, Some e) → IsConflict e = false) → retried f s s' r → f s = (s', r).
Proof. intros Hf. destruct 1 as [|s s1 e s' r Hs Hc]; [done|]. by rewrite (Hf _ _ _ Hs) in Hc. Qed.

Lemma set_annotations_override (ann : gmap string string) kvs k :
  NoDup (kvs.*1) →
  set_annotations true ann kvs !! k = match list_to_map (M := gmap string string) kvs !! k with Some v => Some v | None => ann !! k end.
Proof.
  revert ann. induction kvs as [|[key v] kvs IH]; intros ann; [done|].
  rewrite fmap_cons, NoDup_cons. intros [Hk Hnd]. cbn [set_annotations list_to_map foldr fst snd].
  assert ((match ann !! key with Some _ => <[key:=v]> ann | None => <[key:=v]> ann end) = <[key := v]> ann) as -> by (by destruct (ann !! key)).
  rewrite IH by done. destruct (decide (key = k)) as [<-|Hne].
  - rewrite !lookup_insert_eq. by rewrite not_elem_of_list_to_map_1.
  - by rewrite !lookup_insert_ne by done.
Qed.

Section pod_theorems.
Context {W : Type} `{PodServer W} `{ClientGo}.

(** The stored annotations after a successful [SetSpecificAnnotations]: a key is
    written when its new value differs from the one in the caller's copy. *)
Lemma SetSpecificAnnotations_effect keys vals override w pod w' pod' :
  SetSpecificAnnotations keys vals override (w, pod) = ((w', pod'), Ret ()) →
  let new := set_annotations override (annotations pod) (zip keys vals) in
  let ns := Namespace (pod_meta pod) in let n := Name (pod_meta pod) in
  pod' = with_annotations new pod ∧
  ∃ old stored, pods_view w ns !! n = Some old ∧ pods_view w' ns = <[n := stored]> (pods_view w ns) ∧
    ∀ k, annotations stored !! k = if decide (annotations pod !! k = new !! k) then annotations old !! k else new !! k.
Proof.
  unfold SetSpecificAnnotations. destruct (_ <? _)%nat; [done|].
  destruct (RetryOnConflict _ _) as [s [e|]] eqn:Er; [done|]. intros [= ->]. apply RetryOnConflict_run in Er.
  apply retried_once in Er; last first.
  { intros [w0 p0] s1 e. unfold set_annotations_once. repeat case_match; intros [= <- <-]; done. }
  unfold set_annotations_once in Er. set (new := set_annotations override (annotations pod) (zip keys vals)) in *.
  destruct (GenerateMergePatchPayload pod (with_annotations new pod)) as [patch|] eqn:Ep; [|done].
  destruct (pods_patch _ _ _ _) as [w1 [e|]] eqn:Epp; [done|]. injection Er as <- <-.
  split; [done|]. by apply (pods_patch_ok _ _ _ _ _ _ _ Ep Epp).
Qed.

(** [AddAnnotationToSelf].  When it reports success, either the pod does not exist
    and nothing was written, or the stored pod carries the value under the key,
    its other annotations are as they were, and no other pod has changed. *)
Theorem AddAnnotationToSelf_writes podName namespace key value w w' :
  AddAnnotationToSelf podName namespace key value true w = (w', Ret ()) →
  (∃ e, pods_get w namespace podName = inr e ∧ IsNotFound e = true ∧ w' = w) ∨
  ∃ old stored, pods_view w namespace !! podName = Some old ∧
    pods_view w' namespace = <[podName := stored]> (pods_view w namespace) ∧
    annotations stored = <[key := value]> (annotations old).
Proof.
  unfold AddAnnotationToSelf. destruct (pods_get w namespace podName) as [pod|e] eqn:Eg.
  2:{ destruct (IsNotFound e) eqn:En; intros [= ->]. left. eauto. }
  destruct (SetSpecificAnnotations _ _ _ _) as [[w1 pod'] r] eqn:Es. intros [= <- ->]. right.
  destruct (pods_get_ok _ _ _ _ Eg) as (Hv & <- & <-).
  apply SetSpecificAnnotations_effect in Es as (_ & old & stored & Hold & Hst & Hann).
  rewrite Hv in Hold. injection Hold as <-. exists pod, stored. split_and!; [done..|].
  apply map_eq. intros k. rewrite Hann. rewrite set_annotations_override by (cbn; apply NoDup_singleton).
  cbn [zip zip_with list_to_map foldr fst snd]. destruct (decide (key = k)) as [<-|Hne].
  - rewrite !lookup_insert_eq. by case_decide.
  - rewrite !lookup_insert_ne, lookup_empty by done. by case_decide.
Qed.
End pod_theorems.

(** ** [Peer] and [utils/peerManager.go] *)
Record Peer := mkPeer {
  peer_meta : ObjectMeta; peer_ClusterID : string; peer_PodCIDR : list string; peer_Endpoint : string; peer_Port : Z;
  peer_PublicKey : string; peer_IsHub : bool; peer_IsPublic : bool }.
#[export] Instance Peer_eq_dec : EqDecision Peer.
Proof. solve_decision. Defined.

Definition peer_Name (p : Peer) : string := Name (peer_meta p).
Definition set_PodCIDR (cidrs : list string) (p : Peer) : Peer :=
  mkPeer (peer_meta p) (peer_ClusterID p) cidrs (peer_Endpoint p) (peer_Port p) (peer_PublicKey p) (peer_IsHub p) (peer_IsPublic p).

Class PeerClient (W : Type) := {
  peers_create : W → string → Peer → W * option ApiError;
  peers_get : W → string → string → Peer + ApiError;
  peers_list : W → string → list Peer + ApiError;
  peers_update : W → string → Peer → W * option ApiError;
  peers_delete : W → string → string → W * option ApiError
}.

(** [wait.ExponentialBackoffWithContext] runs a condition until it is true or fails,
    or until the steps of the backoff are used up. *)
Inductive backed {S : Type} (f : S → S * (bool + ApiError)) : S → S → option ApiError → Prop :=
  | backed_done s s' : f s = (s', inl true) → backed f s s' None
  | backed_error s s' e : f s = (s', inr e) → backed f s s' (Some e)
  | backed_again s s1 s' r : f s = (s1, inl false) → backed f s1 s' r → backed f s s' r
  | backed_timeout s s' e : f s = (s', inl false) → backed f s s' (Some e).
Class Backoff := {
  ExponentialBackoff : ∀ {S : Type}, (S → S * (bool + ApiError)) → S → S * option ApiError;
  ExponentialBackoff_run : ∀ {S : Type} (f : S → S * (bool + ApiError)) s s' r,
    ExponentialBackoff f s = (s', r) → backed f s s' r
}.

Section peers.
Context {W : Type} `{PeerClient W} `{Backoff} `{PatchLib Peer}.

(** The fields of the spec that an update writes; [IsHub] is not among them. *)
Definition update_spec (curObj peer : Peer) : Peer :=
  mkPeer (peer_meta curObj) (peer_ClusterID peer) (peer_PodCIDR peer) (peer_Endpoint peer) (peer_Port peer)
    (peer_PublicKey peer) (peer_IsHub curObj) (peer_IsPublic peer).

Definition apply_peer_once (peer : Peer) (w : W) : W * (bool + ApiError) :=
  let ns := Namespace (peer_meta peer) in
  match peers_create w ns peer with
  | (w, None) => (w, inl true)
  | (w, Some lastError) =>
      if negb (IsAlreadyExists lastError) then (w, inr lastError)
      else match peers_get w ns (peer_Name peer) with
           | inr err => (w, inr err)
           | inl curObj =>
               match DeletionTimestamp (peer_meta curObj) with
               | Some _ => (w, inl false)
               | None =>
                   if ResourceNeedResync curObj peer false then
                     match peers_update w ns (update_spec curObj peer) with
                     | (w, None) => (w, inl true)
                     | (w, Some lastError) => (w, inr lastError)
                     end
                   else (w, inl true)
               end
           end
  end.
Definition ApplyPeerWithRetry (w : W) (peer : Peer) : W * option ApiError := ExponentialBackoff (apply_peer_once peer) w.

(** Every error of the delete is returned before it is tested for [NotFound]. *)
Definition delete_peer_once (name namespace : string) (w : W) : W * (bool + ApiError) :=
  match peers_delete w namespace name with
  | (w, Some err) => (w, inr err)
  | (w, None) => (w, inl true)
  end.
Definition DeletePeerWithRetry (w : W) (name namespace : string) : W * option ApiError :=
  ExponentialBackoff (delete_peer_once name namespace) w.
End peers.

(** What the spec says besides [IsHub]. *)
Definition peer_payload (p : Peer) : string * list string * string * Z * string * bool :=
  (peer_ClusterID p, peer_PodCIDR p, peer_Endpoint p, peer_Port p, peer_PublicKey p, peer_IsPublic p).

Class PeerServer (W : Type) `{PeerClient W} := {
  peers_view : W → string → gmap string Peer;
  peers_create_ok : ∀ w ns p w', peers_create w ns p = (w', None) →
    peers_view w ns !! peer_Name p = None ∧
    ∃ c, peer_Name c = peer_Name p ∧ peer_payload c = peer_payload p ∧ peer_IsHub c = peer_IsHub p ∧
      peers_view w' ns = <[peer_Name p := c]> (peers_view w ns);
  peers_create_exists : ∀ w ns p w' e, peers_create w ns p = (w', Some e) → IsAlreadyExists e = true → peers_view w' ns = peers_view w ns;
  peers_get_ok : ∀ w ns n p, peers_get w ns n = inl p → peers_view w ns !! n = Some p ∧ peer_Name p = n;
  peers_update_ok : ∀ w ns p w', peers_update w ns p = (w', None) →
    ∃ c, peer_Name c = peer_Name p ∧ peer_payload c = peer_payload p ∧ peer_IsHub c = peer_IsHub p ∧
      peers_view w' ns = <[peer_Name p := c]> (peers_view w ns);
  peers_delete_ok : ∀ w ns n w', peers_delete w ns n = (w', None) → peers_view w' ns = delete n (peers_view w ns)
}.

(** A JSON patch between two peers whose specs differ has an operation in the
    spec. *)
Class PeerPatchLaws `{PatchLib Peer} := {
  peer_patch_total : ∀ a b, is_Some (CreatePatch a b);
  peer_patch_spec : ∀ (a b : Peer) ops, CreatePatch a b = Some ops → peer_payload a ≠ peer_payload b →
    ∃ op, op ∈ ops ∧ po_Operation op ∈ ["add"; "remove"; "replace"] ∧ String.prefix "/spec" (po_Path op) = true
}.

Section peer_theorems.
Context {W : Type} `{PeerServer W} `{Backoff} `{PeerPatchLaws}.

Lemma prefix_prefix a b s :
  String.prefix a s = true → String.prefix b s = true → String.prefix a b = true ∨ String.prefix b a = true.
Proof.
  revert a b. induction s as [|c s IH]; intros [|x a] [|y b]; simpl; try by auto.
  destruct (Ascii.ascii_dec x c) as [->|]; [|done]. destruct (Ascii.ascii_dec y c) as [->|]; [|done]. intros Ha Hb.
  destruct (Ascii.ascii_dec c c); [|done]. by apply IH.
Qed.

Lemma spec_path_counts op :
  po_Operation op ∈ ["add"; "remove"; "replace"] → String.prefix "/spec" (po_Path op) = true → patch_counts false op = true.
Proof.
  intros Hop Hp. unfold patch_counts. apply andb_true_iff. split.
  - apply negb_true_iff. destruct (shouldPatchBeIgnored op) eqn:E; [|done]. exfalso.
    unfold shouldPatchBeIgnored, ContainsString, ContainsPrefix in E. apply orb_true_iff in E as [E|E].
    + apply existsb_exists in E as (f & Hf & Ef%bool_decide_eq_true). subst f.
      repeat (destruct Hf as [Hf|Hf]; [rewrite <- Hf in Hp; discriminate Hp|]). destruct Hf.
    + cbn [existsb sectionToBeIgnored] in E. rewrite orb_false_r in E.
      by destruct (prefix_prefix _ _ _ E Hp).
  - rewrite !elem_of_cons, elem_of_nil in Hop. destruct Hop as [E|[E|[E|[]]]]; rewrite E; done.
Qed.

Lemma no_resync_payload (a b : Peer) : ResourceNeedResync a b false = false → peer_payload a = peer_payload b.
Proof.
  unfold ResourceNeedResync. destruct (peer_patch_total a b) as [ops E]. rewrite E. intros Hf.
  destruct (decide (peer_payload a = peer_payload b)) as [|Hne]; [done|]. exfalso.
  destruct (peer_patch_spec _ _ _ E Hne) as (op & Hin & Ho & Hp).
  assert (existsb (patch_counts false) ops = true) as Ht; [|congruence].
  apply existsb_exists. exists op. split; [by apply list_elem_of_In|]. by apply spec_path_counts.
Qed.

(** A successful [ApplyPeerWithRetry] leaves in the hub a peer of that name with
    the wanted cluster, CIDRs, endpoint, port, key and visibility, and touches
    no other peer. *)
Theorem ApplyPeerWithRetry_ok w peer w' :
  ApplyPeerWithRetry w peer = (w', None) →
  let ns := Namespace (peer_meta peer) in
  ∃ c, peers_view w' ns = <[peer_Name peer := c]> (peers_view w ns) ∧ peer_payload c = peer_payload peer.
Proof.
  intros Hr%ExponentialBackoff_run. cbv zeta. remember (None : option ApiError) as r eqn:Er.
  induction Hr as [s s' Hf|s s' e Hf|s s1 s' r Hf Hr IH|s s' e Hf]; [| done | | done].
  - unfold apply_peer_once in Hf. destruct (peers_create s _ peer) as [s1 [e|]] eqn:Ec.
    2:{ injection Hf as <-. apply peers_create_ok in Ec as (_ & c & _ & Hp & _ & Hv). eauto. }
    destruct (IsAlreadyExists e) eqn:Ee; [|done]. cbn [negb] in Hf. apply peers_create_exists in Ec; [|done].
    destruct (peers_get s1 _ _) as [cur|] eqn:Eg; [|done]. apply peers_get_ok in Eg as [Hcur Hn].
    destruct (DeletionTimestamp _); [done|]. destruct (ResourceNeedResync cur peer false) eqn:En.
    + destruct (peers_update _ _ _) as [s2 [|]] eqn:Eu; [done|]. injection Hf as <-.
      apply peers_update_ok in Eu as (c & _ & Hp & _ & Hv). exists c. rewrite Hv, Ec.
      change (peer_Name (update_spec cur peer)) with (peer_Name cur). rewrite Hn. split; [done|]. by rewrite Hp.
    + injection Hf as <-. exists cur. rewrite <- Ec. rewrite insert_id by done. split; [done|]. by apply no_resync_payload.
  - destruct (IH Er) as (c & Hv & Hp). exists c. split; [|done]. rewrite Hv. f_equal. unfold apply_peer_once in Hf.
    destruct (peers_create s _ peer) as [s2 [e|]] eqn:Ec; [|done]. destruct (IsAlreadyExists e) eqn:Ee; [|done].
    apply peers_create_exists in Ec; [|done]. repeat case_match; simplify_eq/=; done.
Qed.
End peer_theorems.

(** ** A concrete server, for examples

    The pods and peers of every namespace, and a script of the writes that fail. *)
Record demo_api := mkDemoApi {
  da_pods : gmap string (gmap string Pod); da_peers : gmap string (gmap string Peer); da_faults : list bool }.
Definition demo_api_get {A} (m : gmap string (gmap string A)) (ns n : string) : A + ApiError :=
  match m !! ns ≫= (.!! n) with Some a => inl a | None => inr (mkErr ReasonNotFound "not found") end.
(** A write: the next fault of the script decides whether it fails. *)
Definition demo_api_write (w : demo_api) (ok : bool) (e : ApiError) (f : demo_api → demo_api) : demo_api * option ApiError :=
  match da_faults w with
  | true :: rest => (mkDemoApi (da_pods w) (da_peers w) rest, Some (mkErr ReasonOther "server unavailable"))
  | faults => let w := mkDemoApi (da_pods w) (da_peers w) (tail faults) in if ok then (f w, None) else (w, Some e)
  end.
Definition demo_put_pod (ns n : string) (p : Pod) (w : demo_api) : demo_api :=
  mkDemoApi (<[ns := <[n := p]> (default ∅ (da_pods w !! ns))]> (da_pods w)) (da_peers w) (da_faults w).
Definition demo_put_peers (ns : string) (m : gmap string Peer) (w : demo_api) : demo_api :=
  mkDemoApi (da_pods w) (<[ns := m]> (da_peers w)) (da_faults w).

(** A merge patch of annotations: the new value of a key, or null. *)
#[export] Instance demo_json : JsonLib := {|
  Json := gmap string (option string);
  json_Marshal := λ p, inl (Some <$> annotations p);
  jsonpatch_CreateMergePatch := λ a b,
    inl (merge (λ x y, if decide (x = y) then None else Some (default None y)) a b) |}.
Definition demo_apply_patch (j : gmap string (option string)) (ann : gmap string string) : gmap string string :=
  merge (λ x y, match x with Some v => v | None => y end) j ann.

#[export] Instance demo_podclient : PodClient demo_api := {|
  pods_get := λ w ns n, match demo_api_get (da_pods w) ns n with
    | inl p => if bool_decide (Namespace (pod_meta p) = ns ∧ Name (pod_meta p) = n) then inl p else inr (mkErr ReasonNotFound "not found")
    | r => r end;
  pods_list := λ w ns _, inl ((map_to_list (default ∅ (da_pods w !! ns))).*2);
  pods_update := λ w p, let ns := Namespace (pod_meta p) in let n := Name (pod_meta p) in
    demo_api_write w (bool_decide (is_Some (da_pods w !! ns ≫= (.!! n)))) (mkErr ReasonNotFound "not found") (demo_put_pod ns n p);
  pods_patch := λ w ns n j,
    match da_pods w !! ns ≫= (.!! n) with
    | None => (w, Some (mkErr ReasonNotFound "not found"))
    | Some p => demo_api_write w true (mkErr ReasonOther EmptyString)
                  (demo_put_pod ns n (with_annotations (demo_apply_patch j (annotations p)) p))
    end;
  nodes_get := λ _ _, inr (mkErr ReasonNotFound "not found") |}.

Lemma demo_api_write_ok w ok e f w' : demo_api_write w ok e f = (w', None) →
  ok = true ∧ w' = f (mkDemoApi (da_pods w) (da_peers w) (tail (da_faults w))).
Proof. unfold demo_api_write. repeat case_match; intros; simplify_eq/=; done. Qed.

#[export] Program Instance demo_podserver : PodServer demo_api := {| pods_view := λ w ns, default ∅ (da_pods w !! ns) |}.
Next Obligation.
  simpl. intros w ns n p. unfold demo_api_get. destruct (da_pods w !! ns) as [m|]; simpl; [|done].
  destruct (m !! n); [|done]. case_bool_decide; [|done]. intros [= <-]. naive_solver.
Qed.
Next Obligation.
  intros w ns n p ann patch w' [= <-]. simpl. destruct (da_pods w !! ns) as [m|] eqn:Em; simpl; [|done].
  destruct (m !! n) as [old|] eqn:En; [|done]. intros [_ ->]%demo_api_write_ok. simpl. rewrite Em, lookup_insert_eq. simpl.
  eexists old, _. split_and!; [done|done|]. intros k. unfold demo_apply_patch, annotations. simpl.
  rewrite !lookup_merge, !lookup_fmap. unfold annotations, diag_None. simpl.
  destruct (mentries (Annotations (pod_meta p)) !! k) as [x|], (ann !! k) as [y|], (mentries (Annotations (pod_meta old)) !! k) as [z|];
    simpl; repeat case_decide; simplify_eq/=; done.
Qed.

#[export] Instance demo_peerclient : PeerClient demo_api := {|
  peers_create := λ w ns p, let m := default ∅ (da_peers w !! ns) in
    demo_api_write w (bool_decide (m !! peer_Name p = None)) (mkErr ReasonAlreadyExists "already exists")
      (demo_put_peers ns (<[peer_Name p := p]> m));
  peers_get := λ w ns n, match demo_api_get (da_peers w) ns n with
    | inl p => if bool_decide (peer_Name p = n) then inl p else inr (mkErr ReasonNotFound "not found")
    | r => r end;
  peers_list := λ w ns, inl ((map_to_list (default ∅ (da_peers w !! ns))).*2);
  peers_update := λ w ns p, let m := default ∅ (da_peers w !! ns) in
    demo_api_write w (bool_decide (is_Some (m !! peer_Name p))) (mkErr ReasonNotFound "not found") (demo_put_peers ns (<[peer_Name p := p]> m));
  peers_delete := λ w ns n, let m := default ∅ (da_peers w !! ns) in
    demo_api_write w (bool_decide (is_Some (m !! n))) (mkErr ReasonNotFound "not found") (demo_put_peers ns (delete n m)) |}.

#[export] Program Instance demo_peerserver : PeerServer demo_api := {| peers_view := λ w ns, default ∅ (da_peers w !! ns) |}.
Next Obligation.
  simpl. intros w ns p w' [Hok ->]%demo_api_write_ok. apply bool_decide_eq_true in Hok. split; [done|]. exists p.
  simpl. by rewrite lookup_insert_eq.
Qed.
Next Obligation.
  simpl. intros w ns p w' e. unfold demo_api_write. repeat case_match; intros; simplify_eq/=; done.
Qed.
Next Obligation.
  simpl. intros w ns n p. unfold demo_api_get. destruct (da_peers w !! ns) as [m|]; simpl; [|done].
  destruct (m !! n); [|done]. case_bool_decide; [|done]. by intros [= <-].
Qed.
Next Obligation.
  simpl. intros w ns p w' [_ ->]%demo_api_write_ok. exists p. simpl. by rewrite lookup_insert_eq.
Qed.
Next Obligation.
  simpl. intros w ns n w' [_ ->]%demo_api_write_ok. simpl. by rewrite lookup_insert_eq.
Qed.

(** Four steps, as in [retry.DefaultBackoff]. *)
Fixpoint demo_back {S} (steps : nat) (f : S → S * (bool + ApiError)) (s : S) : S * option ApiError :=
  match f s with
  | (s, inl true) => (s, None)
  | (s, inr e) => (s, Some e)
  | (s, inl false) => match steps with O => (s, Some (mkErr ReasonOther "timed out")) | S steps' => demo_back steps' f s end
  end.
Lemma demo_back_run {S} n (f : S → S * (bool + ApiError)) s s' r : demo_back n f s = (s', r) → backed f s s' r.
Proof.
  revert s. induction n as [|n IH]; intros s; simpl; destruct (f s) as [s1 [[|]|e]] eqn:Ef; intros E; simplify_eq/=;
    eauto using backed.
Qed.
#[export] Instance demo_backoff : Backoff := {|
  ExponentialBackoff := λ S f s, demo_back 3 f s; ExponentialBackoff_run := λ S f s s' r, demo_back_run 3 f s s' r |}.
#[export] Instance demo_peerpatch : PatchLib Peer := {|
  CreatePatch := λ a b, Some (if bool_decide (peer_payload a = peer_payload b) then [] else [mkPatch "replace" "/spec/endpoint"]) |}.
#[export] Instance demo_peerpatchlaws : PeerPatchLaws.
Proof.
  split; simpl; [eauto|]. intros a b ops [= <-] Hne. rewrite bool_decide_eq_false_2 by done.
  eexists. split; [by left|]. split; [set_solver|done].
Qed.

Definition demo_self : Pod :=
  mkPod (mkMeta "cnf" EmptyString "fleetboard-system" EmptyString EmptyString 0 0 None None (Some {["a" := "1"]}) [] [])
    "n1" EmptyString EmptyString "Always" [] "Running" EmptyString "172.17.0.2" ["172.17.0.2"] [].
Definition demo_api0 : demo_api := mkDemoApi {["fleetboard-system" := {["cnf" := demo_self]}]} ∅ [].
Local Existing Instance demo_clientgo.

Lemma AddAnnotationToSelf_writes_witness :
  let r := AddAnnotationToSelf "cnf" "fleetboard-system" "k" "v" true demo_api0 in
  ∃ stored, pods_view (fst r) "fleetboard-system" = {["cnf" := stored]} ∧ annotations stored = <["k" := "v"]> {["a" := "1"]}.
Proof.
  assert (E : AddAnnotationToSelf "cnf" "fleetboard-system" "k" "v" true demo_api0 =
    (fst (AddAnnotationToSelf "cnf" "fleetboard-system" "k" "v" true demo_api0), Ret ())) by (vm_compute; reflexivity).
  destruct (AddAnnotationToSelf_writes _ _ _ _ _ _ E) as [(e & He & _)|(old & stored & Hold & Hst & Ha)].
  - discriminate He.
  - injection Hold as <-. exists stored. split; [rewrite Hst|rewrite Ha]; vm_compute; reflexivity.
Defined.

Definition demo_peer (name endpoint : string) (cidrs : list string) (key : string) : Peer :=
  mkPeer (mkMeta name EmptyString "fleet" EmptyString EmptyString 0 0 None None None [] []) name cidrs endpoint 31820 key false false.

Lemma ApplyPeerWithRetry_ok_witness :
  let w := mkDemoApi ∅ {["fleet" := {["c1" := demo_peer "c1" "1.1.1.1" ["20.112.0.0/16"] "old"]}]} [] in
  let peer := demo_peer "c1" "2.2.2.2" ["20.112.0.0/16"] "new" in
  ∃ c, peers_view (fst (ApplyPeerWithRetry w peer)) "fleet" = {["c1" := c]} ∧ peer_payload c = peer_payload peer.
Proof.
  set (w := mkDemoApi _ _ _). set (peer := demo_peer _ "2.2.2.2" _ _). cbv zeta.
  assert (E : ApplyPeerWithRetry w peer = (fst (ApplyPeerWithRetry w peer), None)) by (vm_compute; reflexivity).
  destruct (ApplyPeerWithRetry_ok w peer _ E) as (c & Hv & Hp). exists c. split; [|exact Hp].
  change (Namespace (peer_meta peer)) with "fleet" in Hv. rewrite Hv.
  replace (peers_view w "fleet") with ({["c1" := demo_peer "c1" "1.1.1.1" ["20.112.0.0/16"] "old"]} : gmap string Peer)
    by (vm_compute; reflexivity).
  change (peer_Name peer) with "c1". apply insert_singleton_eq.
Defined.
