(* ===== verification/Wireguard.v ===== *)
(** * The WireGuard tunnel of a node

    [pkg/tunnel]: the device, the connections to other clusters
    ([interConnections]) and to other nodes of the cluster ([innerConnections]), and
    the operations that add and remove them.  The kernel (links, routes, the
    WireGuard device) is the class [WgKernel]; [WgLaws] says what a successful
    configuration does to the peers of the device and what a route change does to
    the routes.  [Specification] is [pkg/tunnel/options.go]. *)
From stdpp Require Import prelude gmap strings list pretty.
From S2P Require Import Prelude NetAddr K8s HostPort Utils ServiceCIDR ApiOps.
Open Scope Z_scope.
Open Scope go_scope.

#[export] Instance IPNet_countable : Countable IPNet.
Proof. refine (inj_countable' (λ n, (net_IP n, net_Mask n)) (λ p, mkIPNet p.1 p.2) _). by intros []. Defined.

(** ** Keys and peers of a device *)
Abbreviation Key := (list Z).
Class WgTypes := {
  ParseKey : string → Key + string;
  Key_String : Key → string;
  Key_PublicKey : Key → Key;
  Key_String_inj : Inj (=) (=) Key_String
}.

Record PeerConfig := mkPC {
  pc_PublicKey : Key; pc_Remove : bool; pc_UpdateOnly : bool; pc_Endpoint : option (IP * Z);
  pc_Keepalive : option Z; pc_ReplaceAllowedIPs : bool; pc_AllowedIPs : list IPNet }.
Record WgConfig := mkWgConfig {
  cfg_PrivateKey : option Key; cfg_ListenPort : option Z; cfg_ReplacePeers : bool; cfg_Peers : list PeerConfig }.
Record Route := mkRoute { route_Dst : IPNet; route_LinkIndex : Z; route_Protocol : Z; route_Scope : Z }.
#[export] Instance Route_eq_dec : EqDecision Route.
Proof. solve_decision. Defined.
#[export] Instance Route_countable : Countable Route.
Proof.
  refine (inj_countable' (λ r, (route_Dst r, route_LinkIndex r, route_Protocol r, route_Scope r))
    (λ p, mkRoute p.1.1.1 p.1.1.2 p.1.2 p.2) _). by intros [].
Defined.

(** An error of the system, with the tests of package [os]. *)
Record SysError := mkSysError { sys_IsExist : bool; sys_IsNotExist : bool; sys_msg : string }.

Class WgKernel (W : Type) := {
  LinkByName : W → string → option SysError;
  LinkDel : W → string → W * option SysError;
  LinkAdd : W → string → string → W * option SysError;
  LinkSetUp : W → string → W * option SysError;
  InterfaceByName : W → string → Z + SysError;
  wgctrl_New : W → W * option SysError;
  wgctrl_Close : W → W * option SysError;
  wgctrl_Device : W → string → option SysError;
  ConfigureDevice : W → string → WgConfig → W * option SysError;
  GenerateKey : W → W * (Key + SysError);
  RouteAdd : W → Route → W * option SysError;
  RouteDel : W → Route → W * option SysError
}.

(** A peer of the device, and what a configuration does to the peers: an allowed
    network belongs to one peer, so that a peer takes it over from the others. *)
Record WgPeer := mkWgPeer { wp_Endpoint : option (IP * Z); wp_Keepalive : option Z; wp_AllowedIPs : list IPNet }.
Definition hand_over (nets : list IPNet) (p : WgPeer) : WgPeer :=
  mkWgPeer (wp_Endpoint p) (wp_Keepalive p) (filter (λ n, n ∉ nets) (wp_AllowedIPs p)).
Definition or_else {A} (new old : option A) : option A := match new with Some a => Some a | None => old end.
Definition wg_apply (peers : gmap Key WgPeer) (pc : PeerConfig) : gmap Key WgPeer :=
  let key := pc_PublicKey pc in
  if pc_Remove pc then delete key peers
  else if pc_UpdateOnly pc && bool_decide (peers !! key = None) then peers
  else let old := default (mkWgPeer None None []) (peers !! key) in
       <[key := mkWgPeer (or_else (pc_Endpoint pc) (wp_Endpoint old)) (or_else (pc_Keepalive pc) (wp_Keepalive old))
                  ((if pc_ReplaceAllowedIPs pc then [] else wp_AllowedIPs old) ++ pc_AllowedIPs pc)]>
         (hand_over (pc_AllowedIPs pc) <$> delete key peers).
Definition wg_config (peers : gmap Key WgPeer) (cfg : WgConfig) : gmap Key WgPeer :=
  foldl wg_apply (if cfg_ReplacePeers cfg then ∅ else peers) (cfg_Peers cfg).

Definition DefaultDeviceName : string := "wg0".
Definition UDPPort : Z := 31820.

Class WgLaws (W : Type) `{WgKernel W} := {
  wg_peers : W → gmap Key WgPeer;
  wg_routes : W → gset Route;
  ConfigureDevice_ok : ∀ w cfg w', ConfigureDevice w DefaultDeviceName cfg = (w', None) →
    wg_peers w' = wg_config (wg_peers w) cfg ∧ wg_routes w' = wg_routes w;
  RouteAdd_ok : ∀ w r w', RouteAdd w r = (w', None) → wg_routes w' = {[r]} ∪ wg_routes w ∧ wg_peers w' = wg_peers w;
  RouteAdd_exists : ∀ w r w' e, RouteAdd w r = (w', Some e) → sys_IsExist e = true →
    r ∈ wg_routes w ∧ wg_routes w' = wg_routes w ∧ wg_peers w' = wg_peers w;
  RouteDel_ok : ∀ w r w', RouteDel w r = (w', None) → wg_routes w' = wg_routes w ∖ {[r]} ∧ wg_peers w' = wg_peers w
}.

(** ** [pkg/tunnel/options.go] *)
Record Specification := mkSpec {
  HubSecretNamespace : string; HubSecretName : string; ShareNamespace : string; AsHub : bool; AsCluster : bool; spec_CIDR : string;
  HubURL : string; spec_PodName : string; spec_NodeName : string; spec_Endpoint : string; spec_ClusterID : string }.

Definition Validate (o : Specification) : list string :=
  (if AsHub o && bool_decide (spec_CIDR o = EmptyString) then ["--cidr must be specified when run as hub"] else [])
  ++ (if negb (AsHub o) && bool_decide (HubURL o = EmptyString) then ["--hub-url must be specified when run as cluster"] else [])
  ++ (if bool_decide (ShareNamespace o = EmptyString) then ["--shared-namespace must be specified"] else [])
  ++ (if AsCluster o && bool_decide (HubSecretNamespace o = EmptyString)
      then ["--hub-secret-namespace must be specified when run as cluser"] else [])
  ++ (if AsCluster o && bool_decide (HubSecretName o = EmptyString) then ["--hub-secret-name must be specified when run as cluser"] else []).

Definition Complete (o : Specification) : Specification :=
  if AsHub o && bool_decide (spec_CIDR o = EmptyString)
  then mkSpec (HubSecretNamespace o) (HubSecretName o) (ShareNamespace o) (AsHub o) (AsCluster o) "20.112.0.0/12"
         (HubURL o) (spec_PodName o) (spec_NodeName o) (spec_Endpoint o) (spec_ClusterID o)
  else o.

(** ** [pkg/tunnel/tunnel.go] *)
Record DaemonCNFTunnelConfig := mkDaemon {
  NodeID : string; PodID : string; endpointIP : string; SecondaryCIDR : list string; ServiceCIDR : list string;
  daemon_port : Z; daemon_PublicKey : list string }.
Record managedKeys := mkKeys { psk : Key; privateKey : Key; PublicKey : Key }.
Record Wireguard := mkWG {
  interConnections : gmap string Peer; innerConnections : gmap string DaemonCNFTunnelConfig;
  wg_Spec : Specification; wg_Keys : managedKeys }.

Definition set_inter (m : gmap string Peer) (g : Wireguard) : Wireguard := mkWG m (innerConnections g) (wg_Spec g) (wg_Keys g).
Definition set_inner (m : gmap string DaemonCNFTunnelConfig) (g : Wireguard) : Wireguard :=
  mkWG (interConnections g) m (wg_Spec g) (wg_Keys g).

Definition GetAllExistingInnerConnection (g : Wireguard) : gmap string DaemonCNFTunnelConfig := innerConnections g.
Definition GetAllExistingInterConnection (g : Wireguard) : gmap string Peer := interConnections g.
Definition GetExistingInnerConnection (g : Wireguard) (nodeID : string) : option DaemonCNFTunnelConfig := innerConnections g !! nodeID.
Definition DeleteExistingInnerConnection (g : Wireguard) (nodeID : string) : Wireguard := set_inner (delete nodeID (innerConnections g)) g.

Definition DaemonConfigFromPod (pod : Pod) (isLeader : bool) : DaemonCNFTunnelConfig :=
  mkDaemon (pod_NodeName pod) (Name (pod_meta pod)) (GetEth0IP pod)
    (GetSpecificAnnotation pod [if isLeader then FleetboardNodeCIDR else FleetboardTunnelCIDR])
    (GetSpecificAnnotation pod [FleetboardServiceCIDR]) UDPPort (GetSpecificAnnotation pod [PublicKeyAnnotation]).

(** ** [parseSubnets]: subnets that do not parse are skipped *)
Definition parseSubnets (subnets : list string) : list IPNet :=
  omap (λ sn, match ParseCIDR sn with Ret (_, cidr) => Some cidr | _ => None end) subnets.

Section tunnel.
Context `{WgTypes} {W : Type} `{WgKernel W}.

Abbreviation tstate := (Wireguard * W)%type.

(** A system call; [errors.Wrap] puts a message before the error. *)
Definition sys_with (msg : SysError → string) (f : W → W * option SysError) : proc tstate () := λ '(g, w),
  match f w with
  | (w, None) => ((g, w), Ret ())
  | (w, Some e) => ((g, w), Err (msg e))
  end.
Definition Wrap (msg : string) (e : SysError) : string := msg +:+ ": " +:+ sys_msg e.
Definition sys (msg : string) (f : W → W * option SysError) : proc tstate () := sys_with (Wrap msg) f.
Definition on_world {A} (p : proc W A) : proc tstate A := on snd (λ w s, (fst s, w)) p.

(** ** [pkg/tunnel/wireguard_tools.go] *)
Definition setWGLink : proc tstate () :=
  existing ← gets (λ '(g, w), LinkByName w DefaultDeviceName);
  _ ← match existing with
      | None => sys "failed to delete existing WireGuard device" (λ w, LinkDel w DefaultDeviceName)
      | Some _ => mret ()
      end;
  sys "failed to add WireGuard device" (λ w, LinkAdd w DefaultDeviceName "wireguard").

(** [wgtypes.GenerateKey] and [GeneratePrivateKey] read the random source. *)
Definition gen_key (msg : string) : proc tstate Key := λ '(g, w),
  match GenerateKey w with
  | (w, inl k) => ((g, w), Ret k)
  | (w, inr e) => ((g, w), Err (msg +:+ ": " +:+ sys_msg e))
  end.
Definition set_keys (k : managedKeys) : proc tstate () :=
  modify (λ '(g, w), (mkWG (interConnections g) (innerConnections g) (wg_Spec g) k, w)).
Definition setKeyPair : proc tstate () :=
  psk_ ← gen_key "error generating pre-shared key";
  priKey ← gen_key "error generating private key";
  set_keys (mkKeys psk_ priKey (Key_PublicKey priKey)).

Definition remove_config (key : Key) : WgConfig := mkWgConfig None None false [mkPC key true false None None false []].

Definition RemoveInterClusterTunnel (key : Key) : proc tstate () :=
  sys ("failed to remove WireGuard peer with key " +:+ Key_String key) (λ w, ConfigureDevice w DefaultDeviceName (remove_config key)).
Definition RemoveInnerClusterTunnel (key : Key) : proc tstate () :=
  sys ("Failed to remove wireGuard connection inner cluster with key " +:+ Key_String key)
    (λ w, ConfigureDevice w DefaultDeviceName (remove_config key)).

Definition keepalive : Z := 10 * 1000000000.
Definition add_config (key : Key) (endpoint : option (IP * Z)) (allowedIPs : list IPNet) : WgConfig :=
  mkWgConfig None None false [mkPC key false false endpoint (Some keepalive) true allowedIPs].

(** [net.ParseIP] of the endpoint; nil when it does not parse. *)
Definition udp_addr (ip : string) (port : Z) : option (IP * Z) :=
  if bool_decide (ParseIP ip = []) then None else Some (ParseIP ip, port).

(** The connection is recorded, then the device is configured. *)
Definition connect_inter (peer : Peer) (remoteKey : Key) : proc tstate () :=
  _ ← modify (λ '(g, w), (set_inter (<[peer_ClusterID peer := peer]> (interConnections g)) g, w));
  sys "failed to configure peer" (λ w, ConfigureDevice w DefaultDeviceName
    (add_config remoteKey (udp_addr (peer_Endpoint peer) (peer_Port peer)) (parseSubnets (peer_PodCIDR peer)))).
Definition reconnect_inter (peer : Peer) (remoteKey : Key) : proc tstate () :=
  _ ← modify (λ '(g, w), (set_inter (delete (peer_ClusterID peer) (interConnections g)) g, w));
  connect_inter peer remoteKey.

Definition AddInterClusterTunnel (peer : Peer) : proc tstate () :=
  g ← gets fst;
  if bool_decide (spec_ClusterID (wg_Spec g) = peer_ClusterID peer) then mret ()
  else match ParseKey (peer_PublicKey peer) with
  | inr e => lift (Err ("failed to parse peer public key: " +:+ e))
  | inl remoteKey =>
      match interConnections g !! peer_ClusterID peer with
      | None => connect_inter peer remoteKey
      | Some oldCon =>
          match ParseKey (peer_PublicKey oldCon) with
          | inr _ => reconnect_inter peer remoteKey
          | inl oldKey =>
              if bool_decide (Key_String oldKey = Key_String remoteKey) then mret ()
              else _ ← ignore_err (RemoveInterClusterTunnel oldKey); reconnect_inter peer remoteKey
          end
      end
  end.

Definition connect_inner (d : DaemonCNFTunnelConfig) (remoteKey : Key) : proc tstate () :=
  _ ← modify (λ '(g, w), (set_inner (<[NodeID d := d]> (innerConnections g)) g, w));
  sys "failed to configure daemonPeerConfig" (λ w, ConfigureDevice w DefaultDeviceName
    (add_config remoteKey (udp_addr (endpointIP d) (daemon_port d)) (parseSubnets (SecondaryCIDR d)))).
Definition reconnect_inner (d : DaemonCNFTunnelConfig) (remoteKey : Key) : proc tstate () :=
  _ ← modify (λ '(g, w), (set_inner (delete (NodeID d) (innerConnections g)) g, w));
  connect_inner d remoteKey.

Definition AddInnerClusterTunnel (d : DaemonCNFTunnelConfig) : proc tstate () :=
  if bool_decide (ParseIP (endpointIP d) = [])
  then lift (Err ("invalid eth0 IP '" +:+ endpointIP d +:+ "' of pod " +:+ PodID d +:+ " on node " +:+ NodeID d))
  else match daemon_PublicKey d with
  | [] => lift (Err ("invalid empty public key of pod " +:+ PodID d +:+ " on node " +:+ NodeID d))
  | key :: _ =>
      match ParseKey key with
      | inr e => lift (Err ("failed to parse daemonPeerConfig public key: " +:+ e))
      | inl remoteKey =>
          g ← gets fst;
          match innerConnections g !! NodeID d with
          | None => connect_inner d remoteKey
          | Some oldCon =>
              oldKey ← lift (index (daemon_PublicKey oldCon) 0);
              match ParseKey oldKey with
              | inr _ => reconnect_inner d remoteKey
              | inl oldKey =>
                  if bool_decide (Key_String oldKey = Key_String remoteKey) then mret ()
                  else _ ← ignore_err (RemoveInnerClusterTunnel oldKey); reconnect_inner d remoteKey
              end
          end
      end
  end.

(** ** [NewTunnel] and [Init] *)
Definition start_config (key : Key) : WgConfig := mkWgConfig (Some key) (Some UDPPort) true [].

(** The deferred function closes the client when a later step failed. *)
Definition NewTunnel (spec : Specification) (w : W) : W * outcome Wireguard :=
  let body : proc tstate () :=
    _ ← handle setWGLink (λ r, lift (match r with inl _ => Ret () | inr e => Err ("failed to add WireGuard link: " +:+ e) end));
    _ ← sys_with (λ e, if sys_IsNotExist e then "wgctrl is not available on this system" else Wrap "failed to open wgctl client" e)
          wgctrl_New;
    handle (_ ← setKeyPair; g ← gets fst;
            sys "failed to configure WireGuard device" (λ w, ConfigureDevice w DefaultDeviceName (start_config (privateKey (wg_Keys g)))))
      (λ r, match r with
            | inl _ => mret ()
            | inr e => _ ← ignore_err (sys "failed to close wgctrl client" wgctrl_Close); lift (Err e)
            end) in
  match body (mkWG ∅ ∅ spec (mkKeys [] [] []), w) with
  | ((g, w), Ret _) => (w, Ret g)
  | ((_, w), Err e) => (w, Err e)
  | ((_, w), Panic) => (w, Panic)
  | ((_, w), Spin) => (w, Spin)
  end.

Context `{PodClient W} `{ClientGo}.

Definition Init (podName namespace : string) : proc tstate () :=
  _ ← sys ("cannot get wireguard link by name " +:+ DefaultDeviceName)
        (λ w, (w, match InterfaceByName w DefaultDeviceName with inl _ => None | inr e => Some e end));
  _ ← sys "wgctrl cannot find WireGuard device" (λ w, (w, wgctrl_Device w DefaultDeviceName));
  _ ← sys "failed to bring up WireGuard device" (λ w, LinkSetUp w DefaultDeviceName);
  g ← gets fst;
  on_world (AddAnnotationToSelf podName namespace PublicKeyAnnotation (Key_String (PublicKey (wg_Keys g))) true).
End tunnel.

(** ** The device matches the recorded connections *)
Section matching.
Context `{WgTypes}.

(** The peer of the device that a recorded connection stands for: its key and its
    configuration.  Connections to clusters are [inl], to nodes [inr]. *)
Definition inter_peer (p : Peer) : option (Key * WgPeer) :=
  match ParseKey (peer_PublicKey p) with
  | inl k => Some (k, mkWgPeer (udp_addr (peer_Endpoint p) (peer_Port p)) (Some keepalive) (parseSubnets (peer_PodCIDR p)))
  | inr _ => None
  end.
Definition inner_peer (d : DaemonCNFTunnelConfig) : option (Key * WgPeer) :=
  match daemon_PublicKey d with
  | [] => None
  | k :: _ => match ParseKey k with
              | inl k => Some (k, mkWgPeer (udp_addr (endpointIP d) (daemon_port d)) (Some keepalive) (parseSubnets (SecondaryCIDR d)))
              | inr _ => None
              end
  end.
Definition wanted (g : Wireguard) (id : string + string) : option (Key * WgPeer) :=
  match id with
  | inl cluster => interConnections g !! cluster ≫= inter_peer
  | inr node => innerConnections g !! node ≫= inner_peer
  end.

(** Every recorded connection has a key of its own, and the device has exactly the
    peers of those that are not [gone]: whose peer was not removed since. *)
Definition matches (gone : string + string → Prop) (want : string + string → option (Key * WgPeer)) (peers : gmap Key WgPeer) : Prop :=
  (∀ i j k p q, want i = Some (k, p) → want j = Some (k, q) → i = j) ∧
  (∀ k p, peers !! k = Some p ↔ ∃ i, ¬ gone i ∧ want i = Some (k, p)).

(** A connection that was recorded anew is no longer gone. *)
Definition still_gone (gone : string + string → Prop) (want want' : string + string → option (Key * WgPeer)) (i : string + string) : Prop :=
  gone i ∧ want' i = want i.

(** A connection that is new: no other connection has its key or one of its networks. *)
Definition fresh_for (want : string + string → option (Key * WgPeer)) (i : string + string) (k : Key) (nets : list IPNet) : Prop :=
  ∀ j k' p, j ≠ i → want j = Some (k', p) → k' ≠ k ∧ ∀ n, n ∈ nets → n ∉ wp_AllowedIPs p.

Lemma hand_over_none nets p : (∀ n, n ∈ nets → n ∉ wp_AllowedIPs p) → hand_over nets p = p.
Proof.
  intros Hn. destruct p as [e ka ips]. unfold hand_over. f_equal. apply filter_all. intros n Hin. cbn in *. intros Hm. by apply (Hn n).
Qed.

Lemma matches_ext gone gone' want want' peers :
  (∀ i, gone i ↔ gone' i) → (∀ i, want i = want' i) → matches gone want peers → matches gone' want' peers.
Proof.
  intros Hg Hw [Hinj Hpeers]. split.
  - intros i j k p q. rewrite <- !Hw. apply Hinj.
  - intros k p. rewrite Hpeers. by setoid_rewrite Hg; setoid_rewrite Hw.
Qed.

(** Removing a peer by its key takes down the connection that has it. *)
Lemma matches_drop gone want peers k :
  matches gone want peers → matches (λ i, gone i ∨ ∃ p, want i = Some (k, p)) want (delete k peers).
Proof.
  intros [Hinj Hpeers]. split; [done|]. intros k0 p0. rewrite lookup_delete_Some, Hpeers. split.
  - intros [Hne (a & Hg & Ha)]. exists a. split; [|done]. intros [?|[p Hp]]; [done|]. congruence.
  - intros (a & Hg & Ha). split; [|exists a; split; [tauto|done]]. intros ->. apply Hg. right. by exists p0.
Qed.

(** Removing the peer of a connection and the connection. *)
Lemma matches_remove gone want want' peers i k p :
  matches gone want peers → want i = Some (k, p) → want' i = None → (∀ j, j ≠ i → want' j = want j) →
  matches (still_gone gone want want') want' (delete k peers).
Proof.
  intros [Hinj Hpeers] Hi Hi' Hj. split.
  - intros a b k0 p0 q0 Ha Hb. destruct (decide (a = i)) as [-> |Hai], (decide (b = i)) as [-> |Hbi]; try congruence.
    rewrite Hj in Ha, Hb by done. eauto.
  - intros k0 p0. rewrite lookup_delete_Some, Hpeers. split.
    + intros [Hne (a & Hg & Ha)]. exists a. destruct (decide (a = i)) as [-> |Hai]; [congruence|].
      rewrite Hj by done. unfold still_gone. tauto.
    + intros (a & Hg & Ha). destruct (decide (a = i)) as [-> |Hai]; [congruence|]. unfold still_gone in Hg. rewrite Hj in Ha, Hg by done.
      split; [|exists a; tauto]. intros ->. by pose proof (Hinj _ _ _ _ _ Hi Ha).
Qed.

(** Adding the peer of a new connection. *)
Lemma matches_add gone want want' peers i k e nets :
  matches gone want peers → want i = None → fresh_for want i k nets →
  want' i = Some (k, mkWgPeer e (Some keepalive) nets) → (∀ j, j ≠ i → want' j = want j) →
  matches (still_gone gone want want') want' (wg_config peers (add_config k e nets)).
Proof.
  intros [Hinj Hpeers] Hi Hfresh Hi' Hj.
  assert (peers !! k = None) as Hk.
  { apply eq_None_not_Some. intros [p Hp]. apply Hpeers in Hp as (a & _ & Ha).
    destruct (decide (a = i)) as [-> |Hai]; [congruence|]. by destruct (Hfresh _ _ _ Hai Ha). }
  assert (Hcfg : wg_config peers (add_config k e nets) = <[k := mkWgPeer e (Some keepalive) nets]> peers).
  { unfold wg_config, add_config, wg_apply. cbn. rewrite Hk. cbn. rewrite (delete_id _ _ Hk).
    replace (or_else e None) with e by by destruct e. f_equal. apply map_eq. intros k'. rewrite lookup_fmap.
    destruct (peers !! k') as [p|] eqn:Hp; [|done]. cbn. f_equal. apply hand_over_none.
    apply Hpeers in Hp as (a & _ & Ha). apply (Hfresh a k' p); [|done]. intros ->. congruence. }
  rewrite Hcfg. split.
  - intros a b k0 p0 q0 Ha Hb. destruct (decide (a = i)) as [-> |Hai], (decide (b = i)) as [-> |Hbi]; [done| | |].
    + rewrite Hj in Hb by done. rewrite Hi' in Ha. injection Ha as <- <-. by destruct (Hfresh _ _ _ Hbi Hb).
    + rewrite Hj in Ha by done. rewrite Hi' in Hb. injection Hb as <- <-. by destruct (Hfresh _ _ _ Hai Ha).
    + rewrite Hj in Ha, Hb by done. eauto.
  - intros k0 p0. rewrite lookup_insert_Some, Hpeers. unfold still_gone. split.
    + intros [[<- <-]|[Hne (a & Hg & Ha)]].
      * exists i. split; [|done]. intros [_ E]. congruence.
      * exists a. destruct (decide (a = i)) as [-> |Hai]; [congruence|]. rewrite Hj by done. tauto.
    + intros (a & Hg & Ha). destruct (decide (a = i)) as [-> |Hai].
      * rewrite Hi' in Ha. injection Ha as <- <-. by left.
      * rewrite Hj in Ha, Hg by done. right. split; [|exists a; tauto]. intros <-. by destruct (Hfresh _ _ _ Hai Ha).
Qed.
End matching.

(** ** Adding connections on a device that accepts every configuration *)
Class ReliableDevice (W : Type) `{WgKernel W} := {
  ConfigureDevice_reliable : ∀ w cfg, snd (ConfigureDevice w DefaultDeviceName cfg) = None
}.

Section reliable.
Context `{WgTypes} {W : Type} `{WgLaws W} `{!ReliableDevice W}.

Abbreviation tstate := (Wireguard * W)%type.

Lemma configure w cfg : ∃ w', ConfigureDevice w DefaultDeviceName cfg = (w', None) ∧ wg_peers w' = wg_config (wg_peers w) cfg.
Proof.
  pose proof (ConfigureDevice_reliable w cfg) as Hr. destruct (ConfigureDevice _ _ _) as [w' e] eqn:E. simpl in Hr. subst e.
  exists w'. split; [done|]. apply (ConfigureDevice_ok _ _ _ E).
Qed.

Lemma sys_configure g w cfg msg : ∃ w',
  sys msg (λ w, ConfigureDevice w DefaultDeviceName cfg) (g, w) = ((g, w'), Ret ()) ∧ wg_peers w' = wg_config (wg_peers w) cfg.
Proof.
  destruct (configure w cfg) as (w' & E & Hp). exists w'. unfold sys, sys_with. by rewrite E.
Qed.

Definition in_step (gone : string + string → Prop) (s : tstate) : Prop := matches gone (wanted (fst s)) (wg_peers (snd s)).
Definition step_gone (gone : string + string → Prop) (s s' : tstate) : string + string → Prop :=
  still_gone gone (wanted (fst s)) (wanted (fst s')).

(** The state [s'] that a step from [s] leaves is in step. *)
Definition follows (gone : string + string → Prop) (s s' : tstate) : Prop := in_step (step_gone gone s s') s'.

Lemma in_step_same gone s : in_step gone s → follows gone s s.
Proof. unfold follows. apply matches_ext; [|done]. intros i. unfold step_gone, still_gone. tauto. Qed.

Lemma wanted_inter_ne g m j id : (∀ c, c ≠ id → m !! c = interConnections g !! c) → j ≠ inl id → wanted (set_inter m g) j = wanted g j.
Proof. intros Hm Hj. destruct j as [c|n]; cbn; [|done]. rewrite Hm; [done|]. congruence. Qed.
Lemma wanted_inner_ne g m j id : (∀ c, c ≠ id → m !! c = innerConnections g !! c) → j ≠ inr id → wanted (set_inner m g) j = wanted g j.
Proof. intros Hm Hj. destruct j as [c|n]; cbn; [done|]. rewrite Hm; [done|]. congruence. Qed.

(** What [AddInterClusterTunnel] and [AddInnerClusterTunnel] share: the connection [i]
    is recorded as [(k, p)] in place of an older one, whose peer is removed first. *)
Lemma replace_connection gone want want' peers i k e nets :
  matches gone want peers → fresh_for want i k nets → (∀ old p, want i = Some (old, p) → old ≠ k) →
  want' i = Some (k, mkWgPeer e (Some keepalive) nets) → (∀ j, j ≠ i → want' j = want j) →
  matches (still_gone gone want want') want'
    (wg_config (match want i with Some (old, _) => wg_config peers (remove_config old) | None => peers end) (add_config k e nets)).
Proof.
  intros Hm Hf Hold Hi Hj. destruct (want i) as [[old p]|] eqn:Ho; [|by apply (matches_add gone want want' peers i)].
  set (want0 := λ j, if decide (j = i) then None else want j).
  assert (∀ j, j ≠ i → want0 j = want j) as Hw0 by (intros; unfold want0; by rewrite decide_False).
  assert (want0 i = None) as Hi0 by (unfold want0; by rewrite decide_True).
  change (wg_config peers (remove_config old)) with (delete old peers).
  eapply (matches_ext (still_gone (still_gone gone want want0) want0 want') _ want'); [|done|].
  - intros j. unfold still_gone. destruct (decide (j = i)) as [-> |Hji].
    + rewrite Hi0, Hi, Ho. split; [by intros [_ ?]|]. intros [_ [= -> _]]. by destruct (Hold _ _ eq_refl).
    + rewrite Hj, Hw0 by done. tauto.
  - apply (matches_add _ want0 want' _ i); [by eapply matches_remove|done| |done|].
    + intros j k' q Hji Hw. rewrite Hw0 in Hw by done. by apply (Hf j).
    + intros j Hji. by rewrite Hj, Hw0.
Qed.

(** A connection that is recorded after the older one was removed from the device. *)
Lemma connect_inter_matches gone peer k g0 w0 g w :
  ParseKey (peer_PublicKey peer) = inl k →
  (∀ want', want' (inl (peer_ClusterID peer)) = Some (k, mkWgPeer (udp_addr (peer_Endpoint peer) (peer_Port peer)) (Some keepalive)
                                                           (parseSubnets (peer_PodCIDR peer))) →
     (∀ j, j ≠ inl (peer_ClusterID peer) → want' j = wanted g0 j) →
     matches (still_gone gone (wanted g0) want') want' (wg_config (wg_peers w) (add_config k (udp_addr (peer_Endpoint peer) (peer_Port peer)) (parseSubnets (peer_PodCIDR peer))))) →
  g = g0 ∨ g = set_inter (delete (peer_ClusterID peer) (interConnections g0)) g0 →
  follows gone (g0, w0) (fst (connect_inter peer k (g, w))).
Proof.
  intros Hk Hrep Hg. unfold connect_inter, mbind, proc_bind, modify. cbv iota beta.
  edestruct sys_configure as (w' & E & Hp). rewrite E. unfold follows, in_step, step_gone. cbn [fst snd]. rewrite Hp. apply Hrep.
  - cbn. rewrite lookup_insert_eq. cbn. unfold inter_peer. by rewrite Hk.
  - intros j Hj. etransitivity; [apply (wanted_inter_ne g _ _ (peer_ClusterID peer)); [|done]|].
    + intros c Hc. by rewrite lookup_insert_ne.
    + destruct Hg as [-> | ->]; [done|]. apply (wanted_inter_ne g0 _ _ (peer_ClusterID peer)); [|done]. intros c Hc. by rewrite lookup_delete_ne.
Qed.

Lemma AddInterClusterTunnel_matches gone peer s :
  in_step gone s →
  (∀ k, ParseKey (peer_PublicKey peer) = inl k → fresh_for (wanted (fst s)) (inl (peer_ClusterID peer)) k (parseSubnets (peer_PodCIDR peer))) →
  follows gone s (fst (AddInterClusterTunnel peer s)).
Proof.
  destruct s as [g w]. intros Hin Hf. pose proof (in_step_same gone _ Hin) as Hsame. unfold AddInterClusterTunnel, gets, mbind at 1, proc_bind at 1. cbn [fst].
  case_bool_decide; [exact Hsame|]. destruct (ParseKey (peer_PublicKey peer)) as [k|e] eqn:Ek; [|exact Hsame].
  specialize (Hf k eq_refl). cbn [fst] in Hf.
  pose proof (λ want', replace_connection gone (wanted g) want' (wg_peers w) _ k (udp_addr (peer_Endpoint peer) (peer_Port peer)) _ Hin Hf) as Hrep.
  cbn [wanted] in Hrep. destruct (interConnections g !! peer_ClusterID peer) as [oldCon|] eqn:Eo; cbn [mbind option_bind] in Hrep.
  - unfold inter_peer in Hrep at 1 2. destruct (ParseKey (peer_PublicKey oldCon)) as [oldKey|e] eqn:Eok; cbv iota beta in Hrep.
    + case_bool_decide as Hk; [exact Hsame|]. assert (oldKey ≠ k) as Hne by congruence.
      specialize (λ want', Hrep want' ltac:(intros ?? [= <- _]; exact Hne)). unfold ignore_err, handle, RemoveInterClusterTunnel, reconnect_inter, mbind, proc_bind.
      edestruct sys_configure as (w1 & E & Hp). rewrite E. unfold modify. rewrite <- Hp in Hrep. cbv iota beta.
      apply (connect_inter_matches gone peer k g); [done|exact Hrep|by right].
    + specialize (λ want', Hrep want' ltac:(discriminate)). unfold reconnect_inter, mbind, proc_bind, modify. apply (connect_inter_matches gone peer k g); [done|exact Hrep|by right].
  - specialize (λ want', Hrep want' ltac:(discriminate)). apply (connect_inter_matches gone peer k g); [done|exact Hrep|by left].
Qed.

Lemma connect_inner_matches gone d k rest g0 w0 g w :
  daemon_PublicKey d = rest → (∃ s l, rest = s :: l ∧ ParseKey s = inl k) →
  (∀ want', want' (inr (NodeID d)) = Some (k, mkWgPeer (udp_addr (endpointIP d) (daemon_port d)) (Some keepalive) (parseSubnets (SecondaryCIDR d))) →
     (∀ j, j ≠ inr (NodeID d) → want' j = wanted g0 j) →
     matches (still_gone gone (wanted g0) want') want' (wg_config (wg_peers w) (add_config k (udp_addr (endpointIP d) (daemon_port d)) (parseSubnets (SecondaryCIDR d))))) →
  g = g0 ∨ g = set_inner (delete (NodeID d) (innerConnections g0)) g0 →
  follows gone (g0, w0) (fst (connect_inner d k (g, w))).
Proof.
  intros Hd (s & l & -> & Hk) Hrep Hg. unfold connect_inner, mbind, proc_bind, modify. cbv iota beta.
  edestruct sys_configure as (w' & E & Hp). rewrite E. unfold follows, in_step, step_gone. cbn [fst snd]. rewrite Hp. apply Hrep.
  - cbn. rewrite lookup_insert_eq. cbn. unfold inner_peer. by rewrite Hd, Hk.
  - intros j Hj. etransitivity; [apply (wanted_inner_ne g _ _ (NodeID d)); [|done]|].
    + intros c Hc. by rewrite lookup_insert_ne.
    + destruct Hg as [-> | ->]; [done|]. apply (wanted_inner_ne g0 _ _ (NodeID d)); [|done]. intros c Hc. by rewrite lookup_delete_ne.
Qed.

Lemma AddInnerClusterTunnel_matches gone d s :
  in_step gone s →
  (∀ key rest k, daemon_PublicKey d = key :: rest → ParseKey key = inl k →
    fresh_for (wanted (fst s)) (inr (NodeID d)) k (parseSubnets (SecondaryCIDR d))) →
  follows gone s (fst (AddInnerClusterTunnel d s)).
Proof.
  destruct s as [g w]. intros Hin Hf. pose proof (in_step_same gone _ Hin) as Hsame. unfold AddInnerClusterTunnel. case_bool_decide; [exact Hsame|].
  destruct (daemon_PublicKey d) as [|key rest] eqn:Ed; [exact Hsame|]. destruct (ParseKey key) as [k|e] eqn:Ek; [|exact Hsame].
  specialize (Hf _ _ k eq_refl Ek). unfold gets, mbind at 1, proc_bind at 1. cbn [fst] in *.
  assert (Hkey : ∃ s l, key :: rest = s :: l ∧ ParseKey s = inl k) by eauto.
  pose proof (λ want', replace_connection gone (wanted g) want' (wg_peers w) _ k (udp_addr (endpointIP d) (daemon_port d)) _ Hin Hf) as Hrep.
  cbn [wanted] in Hrep. destruct (innerConnections g !! NodeID d) as [oldCon|] eqn:Eo; cbn [mbind option_bind] in Hrep.
  - unfold inner_peer in Hrep at 1 2. unfold index, deref, lift, mbind at 1, proc_bind at 1.
    destruct (daemon_PublicKey oldCon) as [|old l] eqn:Eold; [exact Hsame|]. cbn [lookup list_lookup] in *.
    destruct (ParseKey old) as [oldKey|e] eqn:Eok; cbv iota beta in Hrep.
    + case_bool_decide as Hk; [exact Hsame|]. assert (oldKey ≠ k) as Hne by congruence.
      specialize (λ want', Hrep want' ltac:(intros ?? [= <- _]; exact Hne)).
      unfold ignore_err, handle, RemoveInnerClusterTunnel, reconnect_inner, mbind, proc_bind.
      edestruct sys_configure as (w1 & E & Hp). rewrite E. unfold modify. rewrite <- Hp in Hrep. cbv iota beta.
      eapply (connect_inner_matches gone d k _ g); [exact Ed|exact Hkey|exact Hrep|by right].
    + specialize (λ want', Hrep want' ltac:(discriminate)).
      unfold reconnect_inner, mbind, proc_bind, modify. eapply (connect_inner_matches gone d k _ g); [exact Ed|exact Hkey|exact Hrep|by right].
  - specialize (λ want', Hrep want' ltac:(discriminate)). eapply (connect_inner_matches gone d k _ g); [exact Ed|exact Hkey|exact Hrep|by left].
Qed.

(** The peer of a node is removed and its connection forgotten. *)
Lemma forget_inner_matches gone node g w k p :
  in_step gone (g, w) → wanted g (inr node) = Some (k, p) →
  follows gone (g, w) (fst (RemoveInnerClusterTunnel k (DeleteExistingInnerConnection g node, w))).
Proof.
  intros Hin Hw. unfold RemoveInnerClusterTunnel. edestruct sys_configure as (w' & E & Hp). rewrite E.
  unfold follows, in_step, step_gone. cbn [fst snd]. rewrite Hp. change (wg_config (wg_peers w) (remove_config k)) with (delete k (wg_peers w)).
  eapply (matches_remove _ (wanted g) _ _ (inr node)); [exact Hin|exact Hw|cbn; by rewrite lookup_delete_eq|].
  intros j Hj. apply (wanted_inner_ne g _ _ node); [|done]. intros c Hc. by rewrite lookup_delete_ne.
Qed.

(** The peer of a cluster is removed, and its connection stays on record. *)
Lemma RemoveInterClusterTunnel_matches gone k s :
  in_step gone s →
  in_step (λ i, gone i ∨ ∃ p, wanted (fst s) i = Some (k, p)) (fst (RemoveInterClusterTunnel k s)).
Proof.
  destruct s as [g w]. intros Hin. unfold RemoveInterClusterTunnel. edestruct sys_configure as (w' & E & Hp). rewrite E.
  unfold in_step. cbn [fst snd]. rewrite Hp. by apply matches_drop.
Qed.
End reliable.

(** ** Runs of the tunnel *)
Section runs.
Context `{WgTypes} {W : Type} `{WgLaws W}.

Abbreviation tstate := (Wireguard * W)%type.

Lemma sys_Ret msg f (s s' : tstate) : sys_with msg f s = (s', Ret ()) → fst s' = fst s ∧ f (snd s) = (snd s', None).
Proof. destruct s as [g w]. unfold sys_with. cbn. destruct (f w) as [w' [e|]]; [done|]. intros [= <-]. done. Qed.

Lemma setKeyPair_keeps (s s' : tstate) :
  setKeyPair s = (s', Ret ()) → interConnections (fst s') = interConnections (fst s) ∧ innerConnections (fst s') = innerConnections (fst s).
Proof.
  unfold setKeyPair. intros (s1 & k1 & H1' & (s2 & k2 & H2' & H3')%proc_bind_Ret)%proc_bind_Ret.
  destruct s as [g w]. unfold gen_key in *. destruct (GenerateKey w) as [w1 [?|?]]; [|done]. injection H1' as <- <-.
  destruct (GenerateKey w1) as [w2 [?|?]]; [|done]. injection H2' as <- <-. unfold set_keys, modify in H3'. by injection H3' as <-.
Qed.

(** A new tunnel has no connection, and its device no peer. *)
Lemma NewTunnel_empty spec w w' g :
  NewTunnel spec w = (w', Ret g) → interConnections g = ∅ ∧ innerConnections g = ∅ ∧ wg_peers w' = ∅.
Proof.
  unfold NewTunnel. match goal with |- match ?b with _ => _ end = _ → _ => destruct b as [[g0 w0] [[]|e| |]] eqn:Eb end; try done.
  intros [= -> ->]. apply proc_bind_Ret in Eb as (s1 & [] & Hl & (s2 & [] & Hn & Hk)%proc_bind_Ret).
  apply handle_Ret in Hl as [(s0 & [] & Hl & Hs0)|(? & ? & _ & ?)]; [|done]. injection Hs0 as <-.
  apply handle_Ret in Hk as [(s3 & [] & Hk & Hr)|(s3 & e & _ & Hr)]; last first.
  { apply proc_bind_Ret in Hr as (? & ? & _ & ?). done. }
  injection Hr as ->. apply proc_bind_Ret in Hk as (s4 & [] & Hkp & (s5 & g5 & Hg5 & Hc)%proc_bind_Ret).
  injection Hg5 as <- <-. apply sys_Ret in Hc as [Hg Hc]. apply sys_Ret in Hn as [Hn _].
  apply setKeyPair_keeps in Hkp as [Hk1 Hk2]. cbn [fst snd] in *.
  assert (fst s0 = mkWG ∅ ∅ spec (mkKeys [] [] [])) as Hs1.
  { unfold setWGLink in Hl. apply proc_bind_Ret in Hl as (sa & x & Hx & (sb & [] & Hd & Ha)%proc_bind_Ret).
    injection Hx as <- <-. apply sys_Ret in Ha as [-> _]. destruct (LinkByName _ _).
    - by injection Hd as <-.
    - unfold sys in Hd. by apply sys_Ret in Hd as [-> _]. }
  rewrite Hg, Hk1, Hk2, Hn, Hs1. split_and!; [done|done|].
  apply ConfigureDevice_ok in Hc as [Hp _]. by rewrite Hp.
Qed.

(** Connections are made, and clusters and nodes are recycled.  The keys of the
    recorded connections are different and so are their networks.  The second
    component is not part of the program: it follows the connections that are
    recorded but [gone], because [RemoveInterClusterTunnel] took their peer down
    and they were not recorded anew since. *)
Inductive tunnel_step : tstate * (string + string → Prop) → tstate * (string + string → Prop) → Prop :=
  | step_inter s gone peer :
      (∀ k, ParseKey (peer_PublicKey peer) = inl k →
        fresh_for (wanted (fst s)) (inl (peer_ClusterID peer)) k (parseSubnets (peer_PodCIDR peer))) →
      let s' := fst (AddInterClusterTunnel peer s) in
      tunnel_step (s, gone) (s', step_gone gone s s')
  | step_inner s gone d :
      (∀ key rest k, daemon_PublicKey d = key :: rest → ParseKey key = inl k →
        fresh_for (wanted (fst s)) (inr (NodeID d)) k (parseSubnets (SecondaryCIDR d))) →
      let s' := fst (AddInnerClusterTunnel d s) in
      tunnel_step (s, gone) (s', step_gone gone s s')
  | step_recycle s gone k :
      tunnel_step (s, gone) (fst (RemoveInterClusterTunnel k s), λ i, gone i ∨ ∃ p, wanted (fst s) i = Some (k, p))
  | step_forget g w gone node k p :
      wanted g (inr node) = Some (k, p) →
      let s' := fst (RemoveInnerClusterTunnel k (DeleteExistingInnerConnection g node, w)) in
      tunnel_step ((g, w), gone) (s', step_gone gone (g, w) s').

Lemma tunnel_step_in_step `{!ReliableDevice W} a b : tunnel_step a b → in_step (snd a) (fst a) → in_step (snd b) (fst b).
Proof.
  intros [s gone peer Hf|s gone d Hf|s gone k|g w gone node k p Hw] Hin; cbn [fst snd] in *.
  - by apply AddInterClusterTunnel_matches.
  - by apply AddInnerClusterTunnel_matches.
  - by apply RemoveInterClusterTunnel_matches.
  - by eapply forget_inner_matches.
Qed.

(** C12: the device follows the connections.  On a device that accepts every
    configuration, after any number of connections to clusters and to nodes, to new
    ones and in place of older ones, and of recycled clusters and nodes, where no
    two recorded connections share a key or a network, the peers of the
    device are exactly those of the recorded connections, with their endpoints
    and networks, except the connections to clusters whose peer was removed and that
    were not recorded anew since. *)
Theorem tunnels_match `{!ReliableDevice W} spec w w0 g0 g' w' gone :
  NewTunnel spec w = (w0, Ret g0) → rtc tunnel_step ((g0, w0), λ _, False) ((g', w'), gone) →
  ∀ k p, wg_peers w' !! k = Some p ↔ ∃ i, ¬ gone i ∧ wanted g' i = Some (k, p).
Proof.
  intros (Hi & Hn & Hp)%NewTunnel_empty Hrun. enough (in_step gone (g', w')) as Hstep by apply Hstep.
  change (in_step (snd ((g', w'), gone)) (fst ((g', w'), gone))).
  assert (in_step (λ _, False) (g0, w0)) as Hstart.
  { unfold in_step. cbn [fst snd]. rewrite Hp. split.
    - intros [c|c] j k p q; cbn; rewrite ?Hi, ?Hn, lookup_empty; done.
    - intros k p. rewrite lookup_empty. split; [done|]. intros ([c|c] & _ & Hw); cbn in Hw; by rewrite ?Hi, ?Hn, lookup_empty in Hw. }
  revert Hstart. change (in_step (λ _, False) (g0, w0)) with (in_step (snd ((g0, w0), λ _ : string + string, False)) (fst ((g0, w0), λ _ : string + string, False))).
  induction Hrun as [|a b c Hs _ IH]; [done|]. intros Ha. by apply IH, (tunnel_step_in_step a).
Qed.
End runs.

(** ** A failed configuration is not repeated *)
Section retries.
Context `{WgTypes} {W : Type} `{WgKernel W}.

Abbreviation tstate := (Wireguard * W)%type.

Lemma sys_Err msg f (s s' : tstate) e : sys_with msg f s = (s', Err e) → fst s' = fst s.
Proof. destruct s as [g w]. unfold sys_with. cbn. destruct (f w) as [w' [?|]]; by intros [= <- <-]. Qed.

Lemma connect_inter_records peer k (s s' : tstate) e :
  connect_inter peer k s = (s', Err e) → interConnections (fst s') !! peer_ClusterID peer = Some peer ∧ wg_Spec (fst s') = wg_Spec (fst s).
Proof.
  destruct s as [g w]. unfold connect_inter, mbind, proc_bind, modify, sys. intros Hs%sys_Err. rewrite Hs. cbn. by rewrite lookup_insert_eq.
Qed.

(** A peer that is recorded with its key is skipped. *)
Lemma recorded_skipped peer k (s : tstate) :
  ParseKey (peer_PublicKey peer) = inl k → interConnections (fst s) !! peer_ClusterID peer = Some peer →
  AddInterClusterTunnel peer s = (s, Ret ()).
Proof.
  destruct s as [g w]. intros Hk Hg. unfold AddInterClusterTunnel, gets, mbind at 1, proc_bind at 1. cbn [fst] in *.
  case_bool_decide; [done|]. rewrite Hk, Hg, Hk. by rewrite bool_decide_true.
Qed.

(** A connection is recorded before the device is configured, so that a
    configuration that fails is reported once and never repeated: the next attempt
    finds the connection, reports success and changes nothing. *)
Theorem failed_add_not_retried peer k e (s s' : tstate) :
  ParseKey (peer_PublicKey peer) = inl k → AddInterClusterTunnel peer s = (s', Err e) →
  AddInterClusterTunnel peer s' = (s', Ret ()).
Proof.
  intros Hk Hs. apply (recorded_skipped peer k); [done|]. destruct s as [g w]. revert Hs.
  unfold AddInterClusterTunnel, gets, mbind at 1, proc_bind at 1. cbn [fst]. rewrite Hk.
  case_bool_decide; [done|]. destruct (interConnections g !! peer_ClusterID peer) as [old|]; [|intros Hs; by apply connect_inter_records in Hs as [? _]].
  unfold reconnect_inter, mbind, proc_bind, ignore_err, handle, modify.
  destruct (ParseKey (peer_PublicKey old)) as [oldKey|].
  - case_bool_decide; [done|]. destruct (RemoveInterClusterTunnel oldKey (g, w)) as [[g1 w1] [| | |]]; try done; intros Hs;
      by apply connect_inter_records in Hs as [? _].
  - intros Hs. by apply connect_inter_records in Hs as [? _].
Qed.
End retries.

(** ** A concrete host, for examples

    The API server, the peers of the device, the routes, and a script of the
    configurations that fail, which the reliable kernel does not look at. *)
Record demo_host := mkHost {
  dh_api : demo_api; dh_peers : gmap Key WgPeer; dh_routes : gset Route; dh_faults : list bool; dh_next : Z }.
Definition with_api (a : demo_api) (h : demo_host) : demo_host := mkHost a (dh_peers h) (dh_routes h) (dh_faults h) (dh_next h).
Definition with_peers (m : gmap Key WgPeer) (h : demo_host) : demo_host := mkHost (dh_api h) m (dh_routes h) (dh_faults h) (dh_next h).
Definition with_routes (r : gset Route) (h : demo_host) : demo_host := mkHost (dh_api h) (dh_peers h) r (dh_faults h) (dh_next h).
Definition no_fault (h : demo_host) : demo_host := mkHost (dh_api h) (dh_peers h) (dh_routes h) (tail (dh_faults h)) (dh_next h).

(** A key is written as its characters. *)
Fixpoint codes (s : string) : Key := match s with EmptyString => [] | String c s' => char_val c :: codes s' end.
#[export] Instance demo_wgtypes : WgTypes := {|
  ParseKey := λ s, if bool_decide (s = EmptyString) then inr "incorrect key size" else inl (codes s);
  Key_String := λ k, Itoa (Z.pos (encode k));
  Key_PublicKey := λ k, k;
  Key_String_inj := λ a b E, inj encode _ _ (inj Z.pos _ _ (inj pretty (Z.pos (encode a)) _ E)) |}.

Definition demo_wgkernel (flaky : bool) : WgKernel demo_host := {|
  LinkByName := λ _ _, Some (mkSysError false true "no such device");
  LinkDel := λ w _, (w, None);
  LinkAdd := λ w _ _, (w, None);
  LinkSetUp := λ w _, (w, None);
  InterfaceByName := λ _ _, inl 7;
  wgctrl_New := λ w, (w, None);
  wgctrl_Close := λ w, (w, None);
  wgctrl_Device := λ _ _, None;
  ConfigureDevice := λ w _ cfg,
    match dh_faults w with
    | true :: _ => if flaky then (no_fault w, Some (mkSysError false false "device busy"))
                   else (with_peers (wg_config (dh_peers w) cfg) (no_fault w), None)
    | _ => (with_peers (wg_config (dh_peers w) cfg) (no_fault w), None)
    end;
  GenerateKey := λ w, (mkHost (dh_api w) (dh_peers w) (dh_routes w) (dh_faults w) (dh_next w + 1), inl [dh_next w]);
  RouteAdd := λ w r, if bool_decide (r ∈ dh_routes w) then (w, Some (mkSysError true false "file exists"))
                     else (with_routes ({[r]} ∪ dh_routes w) w, None);
  RouteDel := λ w r, if bool_decide (r ∈ dh_routes w) then (with_routes (dh_routes w ∖ {[r]}) w, None)
                     else (w, Some (mkSysError false false "no such process")) |}.

#[export] Program Instance demo_wglaws flaky : @WgLaws demo_host (demo_wgkernel flaky) := {| wg_peers := dh_peers; wg_routes := dh_routes |}.
Next Obligation. simpl. intros flaky w cfg w'. repeat case_match; by intros [= <-]. Qed.
Next Obligation. simpl. intros flaky w r w'. case_bool_decide; [done|]. by intros [= <-]. Qed.
Next Obligation. simpl. intros flaky w r w' e. case_bool_decide; [|done]. by intros [= <- <-]. Qed.
Next Obligation. simpl. intros flaky w r w'. case_bool_decide; [|done]. by intros [= <-]. Qed.
#[export] Instance demo_reliable_device : @ReliableDevice demo_host (demo_wgkernel false).
Proof. split. intros w cfg. simpl. by repeat case_match. Qed.

Definition demo_spec : Specification :=
  mkSpec EmptyString EmptyString "fleet" true false "20.112.0.0/12" EmptyString "cnf" "n1" EmptyString "hub".
Definition demo_host0 : demo_host := mkHost demo_api0 ∅ ∅ [] 1.
Definition demo_tunnel : outcome Wireguard := snd (@NewTunnel _ _ (demo_wgkernel false) demo_spec demo_host0).
Definition demo_wg : Wireguard := mkWG ∅ ∅ demo_spec (mkKeys [1] [2] [2]).
Definition demo_connected : Wireguard * demo_host :=
  fst (@AddInterClusterTunnel _ _ (demo_wgkernel false) (demo_peer "c1" "1.1.1.1" ["20.112.0.0/16"] "K")
    (demo_wg, fst (@NewTunnel _ _ (demo_wgkernel false) demo_spec demo_host0))).

(** The same tunnel after the peer of the cluster was recycled. *)
Definition demo_recycled : Wireguard * demo_host :=
  fst (@RemoveInterClusterTunnel _ _ (demo_wgkernel false) (codes "K") demo_connected).

Lemma tunnels_match_witness :
  (∃ p, dh_peers (snd demo_connected) !! codes "K" = Some p ∧ wanted (fst demo_connected) (inl "c1") = Some (codes "K", p)) ∧
  (is_Some (wanted (fst demo_recycled) (inl "c1")) ∧ dh_peers (snd demo_recycled) !! codes "K" = None).
Proof.
  assert (∃ p, wanted (fst demo_connected) (inl "c1") = Some (codes "K", p)) as [p1 Hp1] by (eexists; vm_compute; reflexivity).
  assert (is_Some (wanted (fst demo_recycled) (inl "c1"))) as Hr by (eexists; vm_compute; reflexivity).
  assert (Hsame : fst demo_connected = fst demo_recycled) by (vm_compute; reflexivity).
  pose (g0 := fst (@NewTunnel _ _ (demo_wgkernel false) demo_spec demo_host0)).
  assert (E : @NewTunnel _ _ (demo_wgkernel false) demo_spec demo_host0 = (g0, Ret demo_wg)) by (vm_compute; reflexivity).
  pose (gone1 := @step_gone demo_wgtypes demo_host (λ _, False) (demo_wg, g0) demo_connected).
  assert (R1 : rtc (@tunnel_step _ _ (demo_wgkernel false)) ((demo_wg, g0), λ _, False) (demo_connected, gone1)).
  { apply rtc_once. apply (@step_inter _ _ (demo_wgkernel false) (demo_wg, g0)). intros k _ [j|j] k' p _ Hw; cbn in Hw; rewrite lookup_empty in Hw; discriminate Hw. }
  split.
  - exists p1. split; [|exact Hp1].
    apply (@tunnels_match demo_wgtypes demo_host (demo_wgkernel false) (demo_wglaws false) demo_reliable_device demo_spec demo_host0 _ demo_wg
      (fst demo_connected) (snd demo_connected) gone1 E).
    + rewrite <- surjective_pairing. exact R1.
    + exists (inl "c1"). split; [intros [Hf _]; exact Hf|]. exact Hp1.
  - split; [exact Hr|]. apply eq_None_not_Some. intros [p Hp].
    apply (@tunnels_match demo_wgtypes demo_host (demo_wgkernel false) (demo_wglaws false) demo_reliable_device demo_spec demo_host0 _ demo_wg
      (fst demo_recycled) (snd demo_recycled) (λ i, gone1 i ∨ ∃ p, wanted (fst demo_connected) i = Some (codes "K", p)) E) in Hp as (i & Hg & Hw).
    + apply Hg. right. exists p. rewrite Hsame. exact Hw.
    + rewrite <- surjective_pairing. eapply rtc_r; [exact R1|apply step_recycle].
Defined.

Definition demo_busy : Wireguard * demo_host := (demo_wg, mkHost demo_api0 ∅ ∅ [true] 1).
Definition demo_failed : (Wireguard * demo_host) * outcome () :=
  @AddInterClusterTunnel _ _ (demo_wgkernel true) (demo_peer "c1" "1.1.1.1" ["20.112.0.0/16"] "K") demo_busy.

Lemma failed_add_not_retried_witness :
  snd demo_failed = Err "failed to configure peer: device busy" ∧ dh_peers (snd (fst demo_failed)) = ∅ ∧
  @AddInterClusterTunnel _ _ (demo_wgkernel true) (demo_peer "c1" "1.1.1.1" ["20.112.0.0/16"] "K") (fst demo_failed) = (fst demo_failed, Ret ()).
Proof.
  split; [vm_compute; reflexivity|]. split; [vm_compute; reflexivity|].
  apply (@failed_add_not_retried demo_wgtypes demo_host (demo_wgkernel true) _ (codes "K") "failed to configure peer: device busy" demo_busy).
  - vm_compute. reflexivity.
  - vm_compute. reflexivity.
Defined.
