(* ===== verification/Tunnels.v ===== *)
(** * The tunnel controllers

    [pkg/controller/tunnels]: the inner controller connects the nodes of a cluster to
    their leader and hands every node a part of the cluster's range
    ([innertunnel_controller.go]); the inter controller connects clusters through
    their [Peer] objects and, on the hub, hands every cluster a part of the global
    range ([intertunnel_controller.go]).  Both work on the objects of their
    informer caches, which they also modify: the caches are part of the state. *)
From stdpp Require Import prelude gmap strings list.
From S2P Require Import Prelude NetAddr NetUtil K8s HostPort Utils ServiceCIDR ApiOps Wireguard.
Open Scope Z_scope.
Open Scope go_scope.

Definition LabelCNFPod : string := "app=cnf-fleetboard".
Definition RouterCNFCreatedByLabel : string := "router.fleetboard.io/cnf=true".
Definition HubClusterName : string := "hub".

(** The time after which a handler wants its key again, and its error. *)
Abbreviation verdict := (option Z * option string)%type.
Definition requestAfter : Z := 2 * 1000000000.

Section routes.
Context {W : Type} `{WgKernel W}.

(** ** Routes *)
Inductive RouteOperation := AddRoute | DeleteRoute.
Definition RT_SCOPE_LINK : Z := 253.
Definition route_to (dst : IPNet) (ifaceIndex : Z) : Route := mkRoute dst ifaceIndex 4 RT_SCOPE_LINK.

Fixpoint route_loop (op : RouteOperation) (ifaceIndex : Z) (cidrs : list string) : proc W () :=
  match cidrs with
  | [] => mret ()
  | cidr :: rest =>
      '(_, dst) ← lift (ParseCIDR cidr);
      _ ← call sys_msg (λ w, match op with
            | AddRoute => match RouteAdd w (route_to dst ifaceIndex) with
                          | (w, Some e) => (w, if sys_IsExist e then inl () else inr e)
                          | (w, None) => (w, inl ())
                          end
            | DeleteRoute => match RouteDel w (route_to dst ifaceIndex) with
                             | (w, Some e) => (w, inr e)
                             | (w, None) => (w, inl ())
                             end
            end);
      route_loop op ifaceIndex rest
  end.

Definition configHostRoutingRules (cidrs : list string) (operation : RouteOperation) : proc W () :=
  ifaceIndex ← call sys_msg (λ w, (w, InterfaceByName w DefaultDeviceName));
  route_loop operation ifaceIndex cidrs.
End routes.

(** ** The inner controller *)
Record InnerTunnels (W : Type) := mkInner {
  in_wg : Wireguard; in_world : W; in_pods : gmap NamespacedName Pod;
  in_existingCIDR : list string; in_clusterCIDR : string; in_globalCIDR : string; in_currentLeader : string }.
Arguments mkInner {W} _ _ _ _ _ _ _.
Arguments in_wg {W} _.
Arguments in_world {W} _.
Arguments in_pods {W} _.
Arguments in_existingCIDR {W} _.
Arguments in_clusterCIDR {W} _.
Arguments in_globalCIDR {W} _.
Arguments in_currentLeader {W} _.

Section inner.
Context `{GoRuntime} `{WgTypes} {W : Type} `{WgKernel W} `{PodClient W} `{PeerClient W} `{ClientGo}.

Abbreviation state := (InnerTunnels W).

Definition set_tunnel (t : Wireguard * W) (s : state) : state :=
  mkInner (fst t) (snd t) (in_pods s) (in_existingCIDR s) (in_clusterCIDR s) (in_globalCIDR s) (in_currentLeader s).
Definition on_tunnel {A} (p : proc (Wireguard * W) A) : proc state A := on (λ s, (in_wg s, in_world s)) set_tunnel p.
Definition on_host {A} (p : proc W A) : proc state A := on in_world (λ w s, set_tunnel (in_wg s, w) s) p.
Definition set_existingCIDR (l : list string) (s : state) : state :=
  mkInner (in_wg s) (in_world s) (in_pods s) l (in_clusterCIDR s) (in_globalCIDR s) (in_currentLeader s).

Definition my_pod (s : state) : string := spec_PodName (wg_Spec (in_wg s)).

(** [SetSpecificAnnotations] on a pod of the informer cache: the cached object is
    changed, whether the patch succeeds or not. *)
Definition annotate_cached (nn : NamespacedName) (keys vals : list string) : proc state () := λ s,
  match in_pods s !! nn with
  | None => (s, Panic)
  | Some pod =>
      let '((w, pod), r) := SetSpecificAnnotations keys vals true (in_world s, pod) in
      (mkInner (in_wg s) w (<[nn := pod]> (in_pods s)) (in_existingCIDR s) (in_clusterCIDR s) (in_globalCIDR s) (in_currentLeader s), r)
  end.

Definition SpawnNewCIDRForNRIPod (nn : NamespacedName) : proc state string :=
  existingCIDR ← gets in_existingCIDR; clusterCIDR ← gets in_clusterCIDR; globalCIDR ← gets in_globalCIDR;
  secondaryCIDR ← lift (FindClusterAvailableCIDR clusterCIDR existingCIDR);
  _ ← annotate_cached nn [FleetboardTunnelCIDR; FleetboardNodeCIDR] [globalCIDR; secondaryCIDR];
  _ ← modify (λ s, set_existingCIDR (in_existingCIDR s ++ [secondaryCIDR]) s);
  mret secondaryCIDR.

(** [utils.RemoveString] returns the shorter list, which is not used. *)
Definition recycleResources (podConfig : DaemonCNFTunnelConfig) : proc state () :=
  g ← gets in_wg;
  match GetExistingInnerConnection g (NodeID podConfig) with
  | None => mret ()
  | Some _ =>
      publicKey ← lift (index (daemon_PublicKey podConfig) 0);
      match ParseKey publicKey with
      | inr err => lift (Err err)
      | inl oldKey =>
          _ ← on_tunnel (modify (λ '(g, w), (DeleteExistingInnerConnection g (NodeID podConfig), w)));
          _ ← lift (index (SecondaryCIDR podConfig) 0);
          _ ← on_tunnel (RemoveInnerClusterTunnel oldKey);
          on_host (configHostRoutingRules (SecondaryCIDR podConfig) DeleteRoute)
      end
  end.

Definition RecycleAllResources : proc state () := λ s,
  foldl (λ '(s, r) '(_, c), match r with Ret _ => ignore_err (recycleResources c) s | r => (s, r) end)
    (s, Ret ()) (go_range (GetAllExistingInnerConnection (in_wg s))).

Definition set_leader (leader : string) (s : state) : state :=
  mkInner (in_wg s) (in_world s) (in_pods s) (in_existingCIDR s) (in_clusterCIDR s) (in_globalCIDR s) leader.

(** The last test of [ShouldHandlerPod]. *)
Definition leader_pair (myPodName currentLeader podName : string) : bool :=
  if bool_decide (myPodName = currentLeader) then true
  else if bool_decide (podName = myPodName) || bool_decide (currentLeader = EmptyString) then false
  else bool_decide (podName = currentLeader).

Definition ShouldHandlerPod (pod : Pod) : proc state bool :=
  s ← gets id;
  let name := Name (pod_meta pod) in
  let leads := bool_decide (mstr (Labels (pod_meta pod)) LeaderCNFLabelKey = "true") in
  if bool_decide (in_currentLeader s = EmptyString) then
    if leads then _ ← modify (set_leader name); mret (leader_pair (my_pod s) name name)
    else mret false
  else if leads && bool_decide (in_currentLeader s ≠ name) then
    _ ← RecycleAllResources; mret (leader_pair (my_pod s) name name)
  else mret (leader_pair (my_pod s) (in_currentLeader s) name).

(** The filter of the queue; a deletion has no new object. *)
Definition inner_filter (oldObj newObj : option Pod) : proc state bool :=
  match newObj with
  | None => pod ← lift (deref oldObj); ShouldHandlerPod pod
  | Some newPod =>
      shouldHandle ← ShouldHandlerPod newPod;
      mret (shouldHandle && IsRunningAndHasIP newPod && negb (bool_decide (GetSpecificAnnotation newPod [PublicKeyAnnotation] = [])))
  end.

Definition with_secondary (cidrs : list string) (d : DaemonCNFTunnelConfig) : DaemonCNFTunnelConfig :=
  mkDaemon (NodeID d) (PodID d) (endpointIP d) cidrs (ServiceCIDR d) (daemon_port d) (daemon_PublicKey d).

(** The steps of [Handle] that answer the caller early return [inr]. *)
Definition retry_err (e : string) : verdict := (Some requestAfter, Some e).

(** The node's part of the cluster's range. *)
Definition ensure_cidr (nn : NamespacedName) (isLeader : bool) (d : DaemonCNFTunnelConfig) : proc state (DaemonCNFTunnelConfig + verdict) :=
  match SecondaryCIDR d with
  | _ :: _ => mret (inl d)
  | [] =>
      if isLeader then
        try SpawnNewCIDRForNRIPod nn as r in
        match r with
        | inr err => mret (inr (retry_err err))
        | inl cidr =>
            me ← gets my_pod;
            if bool_decide (PodID d = me) then mret (inr (None, None)) else mret (inl (with_secondary [cidr] d))
        end
      else mret (inr (Some requestAfter, None))
  end.

(** The range of the virtual services. *)
Definition service_cidr : proc state string :=
  w ← gets in_world;
  match pods_list w FleetboardSystemNamespace LabelCNFPod with
  | inr e => lift (Err ("failed to list cnf pods: " +:+ err_msg e))
  | inl pods => mret (GetServiceCIDRFromCNFPod pods)
  end.
Definition ensure_service_cidr (nn : NamespacedName) (isLeader : bool) (d : DaemonCNFTunnelConfig) : proc state (option verdict) :=
  match ServiceCIDR d with
  | _ :: _ => mret None
  | [] =>
      if isLeader then
        try service_cidr as r in
        match r with
        | inr err => mret (Some (retry_err err))
        | inl cidr =>
            if bool_decide (cidr = EmptyString) then mret (Some (Some requestAfter, None))
            else try annotate_cached nn [FleetboardServiceCIDR] [cidr] as r in
                 match r with inr err => mret (Some (retry_err err)) | inl _ => mret None end
        end
      else mret (Some (Some requestAfter, None))
  end.

(** The tunnel to the node and the routes into it. *)
Definition connect_node (d : DaemonCNFTunnelConfig) : proc state verdict :=
  try on_tunnel (AddInnerClusterTunnel d) as r in
  match r with
  | inr err => mret (retry_err err)
  | inl _ =>
      try on_host (configHostRoutingRules (SecondaryCIDR d) AddRoute) as r in
      match r with inr err => mret (retry_err err) | inl _ => mret (None, None) end
  end.

Definition Inner_Handle (key : string) : proc state verdict :=
  s ← gets id;
  let isLeader := bool_decide (my_pod s = in_currentLeader s) in
  match SplitMetaNamespaceKey key with
  | None => mret (None, Some ("unexpected key format: " +:+ key))
  | Some (namespace, podName) =>
      let nn := mkNN namespace podName in
      match in_pods s !! nn with
      | None => mret (None, None)
      | Some pod =>
          let daemonConfig := DaemonConfigFromPod pod isLeader in
          if negb (IsPodAlive pod) then
            try recycleResources daemonConfig as r in
            match r with inr err => mret (retry_err err) | inl _ => mret (None, None) end
          else
            r ← ensure_cidr nn isLeader daemonConfig;
            match r with
            | inr v => mret v
            | inl daemonConfig =>
                r ← ensure_service_cidr nn isLeader daemonConfig;
                match r with
                | Some v => mret v
                | None => if bool_decide (my_pod s = podName) then mret (None, None) else connect_node daemonConfig
                end
            end
      end
  end.

(** ** The ranges of the cluster *)

(** [getGlobalAndClusterCIDRByHubClient]: the loop over the peers of the hub. *)
Fixpoint cidrs_of_peers (localClusterID : string) (peers : list Peer) (globalCIDR clusterCIDR : string) : outcome (string * string) :=
  match peers with
  | [] => Ret (globalCIDR, clusterCIDR)
  | peer :: rest =>
      if bool_decide (peer_Name peer = HubClusterName) then
        cidr ← index (peer_PodCIDR peer) 0; cidrs_of_peers localClusterID rest cidr clusterCIDR
      else if bool_decide (peer_Name peer = localClusterID) then
        cidrs_of_peers localClusterID rest globalCIDR (match peer_PodCIDR peer with c :: _ => c | [] => clusterCIDR end)
      else cidrs_of_peers localClusterID rest globalCIDR clusterCIDR
  end.
Definition getGlobalAndClusterCIDRByHubClient (answer : list Peer + ApiError) (localClusterID : string) : outcome (string * string) :=
  match answer with
  | inr listErr => Err (err_msg listErr)
  | inl peerList => cidrs_of_peers localClusterID peerList EmptyString EmptyString
  end.

(** The hub is asked every ten seconds; [answers] is what it says, and the wait goes
    on until both ranges are known. *)
Fixpoint WaitGetCIDRFromHubclient (answers : list (list Peer + ApiError)) (clusterID : string) : outcome (string * string) :=
  match answers with
  | [] => Spin
  | answer :: rest =>
      match getGlobalAndClusterCIDRByHubClient answer clusterID with
      | Ret (globalCIDR, clusterCIDR) =>
          if bool_decide (globalCIDR = EmptyString) || bool_decide (clusterCIDR = EmptyString)
          then WaitGetCIDRFromHubclient rest clusterID else Ret (globalCIDR, clusterCIDR)
      | Err _ => WaitGetCIDRFromHubclient rest clusterID
      | Panic => Panic
      | Spin => Spin
      end
  end.

(** [selfName] and [selfNamespace] come from the environment. *)
Definition getInnerClusterExistingCIDR (answers : list (list Peer + ApiError)) (spec : Specification) (selfName selfNamespace : string)
    : proc W (list string * string * string) :=
  '(globalCIDR, clusterCIDR) ← lift (WaitGetCIDRFromHubclient answers (spec_ClusterID spec));
  _ ← AddAnnotationToSelf selfName selfNamespace FleetboardTunnelCIDR globalCIDR true;
  _ ← AddAnnotationToSelf selfName selfNamespace FleetboardClusterCIDR clusterCIDR true;
  w ← gets id;
  match pods_list w FleetboardSystemNamespace RouterCNFCreatedByLabel with
  | inr e => lift (Err (err_msg e))
  | inl pods => mret (omap (λ pod, head (GetSpecificAnnotation pod [FleetboardNodeCIDR])) pods, clusterCIDR, globalCIDR)
  end.

Definition ConfigWithExistingCIDR (answers : list (list Peer + ApiError)) (selfName selfNamespace : string) : proc state () :=
  spec ← gets (λ s, wg_Spec (in_wg s));
  '(existingCIDR, clusterCIDR, globalCIDR) ← on_host (getInnerClusterExistingCIDR answers spec selfName selfNamespace);
  modify (λ s, mkInner (in_wg s) (in_world s) (in_pods s) existingCIDR clusterCIDR globalCIDR (in_currentLeader s)).
End inner.

(** ** The inter controller *)
Record InterTunnels (W : Type) := mkInter { it_wg : Wireguard; it_world : W; it_peers : gmap NamespacedName Peer }.
Arguments mkInter {W} _ _ _.
Arguments it_wg {W} _.
Arguments it_world {W} _.
Arguments it_peers {W} _.

Section inter.
Context `{GoRuntime} `{WgTypes} {W : Type} `{WgKernel W} `{PodClient W} `{PeerClient W} `{ClientGo} `{Backoff} `{PatchLib Peer}.
Context (spec : Specification) (selfName selfNamespace : string).

Abbreviation state := (InterTunnels W).

Definition on_link {A} (p : proc (Wireguard * W) A) : proc state A :=
  on (λ s, (it_wg s, it_world s)) (λ t s, mkInter (fst t) (snd t) (it_peers s)) p.
Definition on_node {A} (p : proc W A) : proc state A := on it_world (λ w s, mkInter (it_wg s) w (it_peers s)) p.

(** The filter of the queue: a hub connects with the others, the others with the
    hub and with clusters that have a public address. *)
Definition inter_filter (oldObj newObj : option Peer) : bool :=
  match or_else newObj oldObj with
  | None => false
  | Some newPeer =>
      if peer_IsHub newPeer || negb (bool_decide (peer_Endpoint newPeer = EmptyString)) && peer_IsPublic newPeer
      then negb (AsHub spec)
      else AsHub spec || negb (bool_decide (spec_Endpoint spec = EmptyString))
  end.

(** A nil peer panics.  When the tunnel cannot be removed the error returned is the
    one of [ParseKey], which is nil. *)
Definition RecyclePeer (cachedPeer : option Peer) : proc state verdict :=
  cachedPeer ← lift (deref cachedPeer);
  match ParseKey (peer_PublicKey cachedPeer) with
  | inr err => mret (retry_err err)
  | inl oldKey =>
      try on_link (RemoveInterClusterTunnel oldKey) as r in
      match r with
      | inr _ => mret (Some requestAfter, None)
      | inl _ =>
          try on_node (configHostRoutingRules (peer_PodCIDR cachedPeer) DeleteRoute) as r in
          match r with inr err => mret (retry_err err) | inl _ => mret (None, None) end
      end
  end.

Definition InterRecycleAllResources : proc state () := λ s,
  foldl (λ '(s, r) '(_, p), match r with Ret _ => ignore_err (RecyclePeer (Some p)) s | r => (s, r) end)
    (s, Ret ()) (go_range (GetAllExistingInterConnection (it_wg s))).

Definition no_cidr (peer : Peer) : bool :=
  match peer_PodCIDR peer with [] => true | c :: _ => bool_decide (c = EmptyString) end.

(** The ranges of the other clusters, from the informer cache. *)
Definition peer_cidrs (namespace : string) (peers : gmap NamespacedName Peer) : list string :=
  omap (λ '(nn, item), if bool_decide (nn_Namespace nn = namespace) && negb (bool_decide (peer_Name item = "hub"))
                       then head (peer_PodCIDR item) else None) (go_range peers).

(** The peer of the cache gets the new range, or the empty string on an error. *)
Definition allocate_peer (nn : NamespacedName) (cachedPeer : Peer) : proc state Peer := λ s,
  let existingCIDR := peer_cidrs (nn_Namespace nn) (it_peers s) in
  let r := FindTunnelAvailableCIDR (spec_CIDR spec) existingCIDR in
  let cachedPeer := set_PodCIDR [match r with Ret cidr => cidr | _ => EmptyString end] cachedPeer in
  (mkInter (it_wg s) (it_world s) (<[nn := cachedPeer]> (it_peers s)), _ ← r; Ret cachedPeer).

(** From the tunnel on: the tunnel, the routes, and the peer written back. *)
Definition connect_peer (namespace : string) (cachedPeer : Peer) (noCIDR : bool) : proc state verdict :=
  try on_link (AddInterClusterTunnel cachedPeer) as r in
  match r with
  | inr err => mret (retry_err err)
  | inl _ =>
      try on_node (configHostRoutingRules (peer_PodCIDR cachedPeer) AddRoute) as r in
      match r with
      | inr err => mret (retry_err err)
      | inl _ =>
          if noCIDR then
            try on_node (call err_msg (λ w, match peers_update w namespace cachedPeer with
                                            | (w, None) => (w, inl ()) | (w, Some e) => (w, inr e) end)) as r in
            match r with inr err => mret (retry_err err) | inl _ => mret (None, None) end
          else mret (None, None)
      end
  end.

Definition Inter_Handle (key : string) : proc state verdict :=
  match SplitMetaNamespaceKey key with
  | None => mret (None, None)
  | Some (namespace, peerName) =>
      let nn := mkNN namespace peerName in
      s ← gets id;
      match it_peers s !! nn with
      | None => RecyclePeer None
      | Some cachedPeer =>
          match DeletionTimestamp (peer_meta cachedPeer) with
          | Some _ => RecyclePeer (Some cachedPeer)
          | None =>
              if AsCluster spec then
                if no_cidr cachedPeer then mret (retry_err "cidr is not allocated.")
                else if bool_decide (peer_Name cachedPeer = HubClusterName) then connect_peer namespace cachedPeer false
                else cidr ← lift (index (peer_PodCIDR cachedPeer) 0);
                     try on_node (AddAnnotationToSelf selfName selfNamespace FleetboardNodeCIDR cidr true) as r in
                     match r with
                     | inr _ => mret (retry_err "cidr is not allocated.")
                     | inl _ => connect_peer namespace cachedPeer false
                     end
              else if no_cidr cachedPeer then
                try allocate_peer nn cachedPeer as r in
                match r with
                | inr err => mret (retry_err err)
                | inl cachedPeer => connect_peer namespace cachedPeer true
                end
              else connect_peer namespace cachedPeer false
          end
      end
  end.

Definition ApplyPeerConfig (g : Wireguard) (w : W) : W * option ApiError :=
  let sp := wg_Spec g in
  ApplyPeerWithRetry w
    (mkPeer (mkMeta (spec_ClusterID sp) EmptyString (ShareNamespace sp) EmptyString EmptyString 0 0 None None None [] [])
       (spec_ClusterID sp) [spec_CIDR sp] (spec_Endpoint sp) UDPPort (Key_String (PublicKey (wg_Keys g))) (AsHub sp)
       (negb (bool_decide (spec_Endpoint sp = EmptyString)))).

(** [Start]: the cluster's own peer first; without it nothing is started. *)
Definition Inter_Start (s : state) : state * bool :=
  match ApplyPeerConfig (it_wg s) (it_world s) with
  | (w, Some _) => (mkInter (it_wg s) w (it_peers s), false)
  | (w, None) => (mkInter (it_wg s) (UpdatePodLabels (spec_PodName (wg_Spec (it_wg s))) true w) (it_peers s), true)
  end.
End inter.

(** ** What the routing rules do *)
Section route_theorems.
Context {W : Type} `{WgLaws W}.

Definition cidr_routes (ifaceIndex : Z) (cidrs : list string) : gset Route :=
  list_to_set ((λ dst, route_to dst ifaceIndex) <$> parseSubnets cidrs).
Definition all_parse (cidrs : list string) : Prop := Forall (λ c, is_ret (ParseCIDR c) = true) cidrs.
Definition routes_after (op : RouteOperation) (new old : gset Route) : gset Route :=
  match op with AddRoute => new ∪ old | DeleteRoute => old ∖ new end.

Lemma route_loop_effect op idx cidrs w w' :
  route_loop op idx cidrs w = (w', Ret ()) →
  all_parse cidrs ∧ wg_routes w' = routes_after op (cidr_routes idx cidrs) (wg_routes w) ∧ wg_peers w' = wg_peers w.
Proof.
  revert w. induction cidrs as [|cidr cidrs IH]; intros w; cbn [route_loop].
  { intros [= <-]. split_and!; [constructor|destruct op; cbn; set_solver|done]. }
  unfold mbind at 1, proc_bind at 1, lift. destruct (ParseCIDR cidr) as [[ip dst]| | |] eqn:Ep; try done.
  intros (w1 & [] & Hc & (Hall & Hr & Hp)%IH)%proc_bind_Ret.
  assert (all_parse (cidr :: cidrs)) as Hall' by (constructor; [by rewrite Ep|done]).
  assert (cidr_routes idx (cidr :: cidrs) = {[route_to dst idx]} ∪ cidr_routes idx cidrs) as Hcr.
  { unfold cidr_routes, parseSubnets. cbn [omap list_omap]. rewrite Ep. done. }
  rewrite Hr, Hp, Hcr. unfold call in Hc. destruct op.
  - destruct (RouteAdd w (route_to dst idx)) as [w2 [e|]] eqn:Er.
    + destruct (sys_IsExist e) eqn:Ee; [|done]. injection Hc as <-. destruct (RouteAdd_exists _ _ _ _ Er Ee) as (Hin & Hr2 & Hp2).
      rewrite Hr2, Hp2. split_and!; [done|cbn; set_solver|done].
    + injection Hc as <-. destruct (RouteAdd_ok _ _ _ Er) as [Hr2 Hp2]. rewrite Hr2, Hp2. split_and!; [done|cbn; set_solver|done].
  - destruct (RouteDel w (route_to dst idx)) as [w2 [e|]] eqn:Er; [done|]. injection Hc as <-.
    destruct (RouteDel_ok _ _ _ Er) as [Hr2 Hp2]. rewrite Hr2, Hp2. split_and!; [done|cbn; set_solver|done].
Qed.

Lemma configHostRoutingRules_effect cidrs op w w' :
  configHostRoutingRules cidrs op w = (w', Ret ()) →
  ∃ idx, InterfaceByName w DefaultDeviceName = inl idx ∧ all_parse cidrs ∧
    wg_routes w' = routes_after op (cidr_routes idx cidrs) (wg_routes w) ∧ wg_peers w' = wg_peers w.
Proof.
  unfold configHostRoutingRules. intros (w1 & idx & Hi & Hl)%proc_bind_Ret. unfold call in Hi.
  destruct (InterfaceByName w DefaultDeviceName) as [i|e] eqn:Ei; [|done]. injection Hi as <- <-. exists i.
  by apply route_loop_effect in Hl.
Qed.
End route_theorems.

(** ** The hub hands out ranges *)
Section inter_theorems.
Context `{GoRuntime} `{WgTypes} {W : Type} `{WgLaws W} `{PodClient W} `{PeerServer W} `{ClientGo} `{Backoff} `{PatchLib Peer}.
Context (spec : Specification) (selfName selfNamespace : string).

(** Writes of peers leave the device and the routes alone. *)
Hypothesis update_frame : ∀ w ns p w' e, peers_update w ns p = (w', e) → wg_routes w' = wg_routes w ∧ wg_peers w' = wg_peers w.

Abbreviation state := (InterTunnels W).

(** A successful end of [Handle]: the routes lead into the tunnel and, when the range
    is new, the hub's peer has it. *)
Lemma connect_peer_ok ns peer noCIDR (s s' : state) :
  connect_peer ns peer noCIDR s = (s', Ret (None, None)) →
  ∃ idx w1 g1, AddInterClusterTunnel peer (it_wg s, it_world s) = ((g1, w1), Ret ()) ∧
    all_parse (peer_PodCIDR peer) ∧
    wg_routes (it_world s') = cidr_routes idx (peer_PodCIDR peer) ∪ wg_routes w1 ∧ wg_peers (it_world s') = wg_peers w1 ∧
    it_wg s' = g1 ∧ it_peers s' = it_peers s ∧
    (noCIDR = true → ∃ c, peers_view (it_world s') ns !! peer_Name peer = Some c ∧ peer_payload c = peer_payload peer).
Proof.
  unfold connect_peer. intros [(s1 & [] & Ha & Hh)|(? & ? & _ & Hh)]%handle_Ret; [|done].
  apply on_Ret in Ha as ([g1 w1] & Ha & ->). cbn [fst snd] in Hh.
  apply handle_Ret in Hh as [(s2 & [] & Hr & Hu)|(? & ? & _ & Hu)]; [|done].
  apply on_Ret in Hr as (w2 & Hr & ->). cbn [it_world it_wg it_peers] in *.
  apply configHostRoutingRules_effect in Hr as (idx & _ & Hall & Hro & Hpe). exists idx, w1, g1.
  destruct noCIDR; last first.
  { injection Hu as <-. cbn. split_and!; try done. }
  apply handle_Ret in Hu as [(s3 & [] & Hc & Hv)|(? & ? & _ & Hv)]; [|done]. injection Hv as <-.
  apply on_Ret in Hc as (w3 & Hc & ->). cbn [it_world it_wg it_peers] in *. unfold call in Hc.
  destruct (peers_update w2 ns peer) as [w4 [e|]] eqn:Eu; [done|]. injection Hc as ->.
  destruct (update_frame _ _ _ _ _ Eu) as [Hfr Hfp]. rewrite Hfr, Hfp, Hro, Hpe. split_and!; try done.
  intros _. apply peers_update_ok in Eu as (c & _ & Hpl & _ & Hv). exists c. by rewrite Hv, lookup_insert_eq.
Qed.

(** C13: the hub allocates.  When [Handle] succeeds on the peer of a cluster without a
    range, the peer stored in the hub has a range that shares no address with the
    range of any other cluster, and the routes to it lead into the tunnel. *)
Theorem hub_allocates key ns name peer N p (s s' : state) :
  AsCluster spec = false → SplitMetaNamespaceKey key = Some (ns, name) → it_peers s !! mkNN ns name = Some peer →
  DeletionTimestamp (peer_meta peer) = None → no_cidr peer = true →
  net4 (spec_CIDR spec) = Some (N, p) → 16777216 ≤ N → Forall usable (peer_cidrs ns (it_peers s)) →
  Inter_Handle spec selfName selfNamespace key s = (s', Ret (None, None)) →
  ∃ cidr idx, free_of cidr (peer_cidrs ns (it_peers s)) ∧
    (∃ c, peers_view (it_world s') ns !! peer_Name peer = Some c ∧ peer_PodCIDR c = [cidr]) ∧
    cidr_routes idx [cidr] ⊆ wg_routes (it_world s').
Proof.
  intros Hrole Hkey Hpeer Hdel Hno Hnet HN Hex. unfold Inter_Handle, gets. rewrite Hkey.
  unfold mbind at 1, proc_bind at 1. cbn [id]. rewrite Hpeer, Hdel, Hrole, Hno.
  intros [(s1 & peer1 & Ha & Hc)|(? & ? & _ & Hc)]%handle_Ret; [|done]. unfold allocate_peer in Ha.
  destruct (FindTunnelAvailableCIDR _ _) as [cidr| | |] eqn:Ef; cbn in Ha; try done. injection Ha as <- <-.
  apply connect_peer_ok in Hc as (idx & w1 & g1 & _ & _ & Hro & _ & _ & _ & Hst).
  exists cidr, idx. split; [by eapply FindTunnelAvailableCIDR_free|]. split.
  - destruct (Hst eq_refl) as (c & Hv & Hpl). exists c. split; [done|]. by injection Hpl.
  - rewrite Hro. set_solver.
Qed.

(** A peer that was recycled is not connected again.  [RecyclePeer] removes the peer
    from the device but keeps the connection on record, so that when the same
    peer comes back, with the same key, adding it reports success and
    configures nothing. *)
Theorem recycled_peer_not_readded peer k (s s' : state) :
  ParseKey (peer_PublicKey peer) = inl k → interConnections (it_wg s) !! peer_ClusterID peer = Some peer →
  RecyclePeer (Some peer) s = (s', Ret (None, None)) →
  wg_peers (it_world s') !! k = None ∧
  on_link (AddInterClusterTunnel peer) s' = (s', Ret ()).
Proof.
  intros Hk Hg Hr. unfold RecyclePeer, lift, deref, mbind, proc_bind in Hr. rewrite Hk in Hr.
  apply handle_Ret in Hr as [(s1 & [] & Ha & Hh)|(? & ? & _ & ?)]; [|done].
  apply on_Ret in Ha as ([g1 w1] & Ha & ->). unfold RemoveInterClusterTunnel, sys in Ha. apply sys_Ret in Ha as [Hg1 Hc].
  cbn [fst snd it_wg it_world] in *. subst g1. apply ConfigureDevice_ok in Hc as [Hp _].
  apply handle_Ret in Hh as [(s2 & [] & Hro & Hv)|(? & ? & _ & ?)]; [|done]. injection Hv as <-.
  apply on_Ret in Hro as (w2 & Hro & ->). cbn [it_wg it_world it_peers] in *.
  apply configHostRoutingRules_effect in Hro as (_ & _ & _ & _ & Hp2). split.
  - rewrite Hp2, Hp. change (wg_config (wg_peers (it_world s)) (remove_config k)) with (delete k (wg_peers (it_world s))).
    apply lookup_delete_eq.
  - unfold on_link, on. cbn [it_wg it_world]. by rewrite (recorded_skipped peer k).
Qed.
End inter_theorems.

(** ** The leader hands out ranges *)
Section inner_theorems.
Context `{GoRuntime} `{WgTypes} {W : Type} `{WgKernel W} `{PodServer W} `{PeerClient W} `{ClientGo}.

Abbreviation state := (InnerTunnels W).

(** C14: when the leader gives a pod a range, the range shares no address with any range
    in use, it is in use from then on, and it is stored in the annotations of the
    pod at the API server. *)
Theorem leader_allocates nn pod N p cidr (s s' : state) :
  in_pods s !! nn = Some pod → Namespace (pod_meta pod) = nn_Namespace nn → Name (pod_meta pod) = nn_Name nn →
  annotations pod !! FleetboardNodeCIDR = None →
  net4 (in_clusterCIDR s) = Some (N, p) → 16777216 ≤ N → Forall usable (in_existingCIDR s) →
  SpawnNewCIDRForNRIPod nn s = (s', Ret cidr) →
  free_of cidr (in_existingCIDR s) ∧ in_existingCIDR s' = in_existingCIDR s ++ [cidr] ∧
  ∃ stored, pods_view (in_world s') (nn_Namespace nn) !! nn_Name nn = Some stored ∧ annotations stored !! FleetboardNodeCIDR = Some cidr.
Proof.
  intros Hpod Hns Hn Hno Hnet HN Hex. unfold SpawnNewCIDRForNRIPod, gets.
  intros (s1 & x1 & E1 & (s2 & x2 & E2 & (s3 & x3 & E3 & (s4 & x4 & E4 & Hs)%proc_bind_Ret)%proc_bind_Ret)%proc_bind_Ret)%proc_bind_Ret.
  injection E1 as <- <-. injection E2 as <- <-. injection E3 as <- <-. unfold lift in E4. injection E4 as <- E4.
  apply proc_bind_Ret in Hs as (s5 & [] & Ha & (s6 & [] & E6 & E7)%proc_bind_Ret). unfold modify in E6. injection E6 as <-.
  injection E7 as <- <-. unfold annotate_cached in Ha. rewrite Hpod in Ha.
  destruct (SetSpecificAnnotations _ _ _ _) as [[w pod'] r] eqn:Es. injection Ha as <- ->.
  apply SetSpecificAnnotations_effect in Es as (_ & old & stored & _ & Hv & Hann). cbn [in_existingCIDR in_world set_existingCIDR].
  split; [by eapply FindClusterAvailableCIDR_free|]. split; [done|]. exists stored. rewrite <- Hns, <- Hn, Hv, lookup_insert_eq.
  split; [done|]. rewrite Hann, Hno. rewrite set_annotations_override; [done|]. apply (bool_decide_unpack (NoDup _)). vm_compute. exact I.
Qed.
End inner_theorems.

(** ** Runs on a concrete host *)
Section demo.
#[local] Instance demo_host_pods : PodClient demo_host := {|
  pods_get := λ w, pods_get (dh_api w);
  pods_list := λ w, pods_list (dh_api w);
  pods_update := λ w p, let '(a, e) := pods_update (dh_api w) p in (with_api a w, e);
  pods_patch := λ w ns n j, let '(a, e) := pods_patch (dh_api w) ns n j in (with_api a w, e);
  nodes_get := λ w, nodes_get (dh_api w) |}.
#[local] Instance demo_host_peers : PeerClient demo_host := {|
  peers_create := λ w ns p, let '(a, e) := peers_create (dh_api w) ns p in (with_api a w, e);
  peers_get := λ w, peers_get (dh_api w);
  peers_list := λ w, peers_list (dh_api w);
  peers_update := λ w ns p, let '(a, e) := peers_update (dh_api w) ns p in (with_api a w, e);
  peers_delete := λ w ns n, let '(a, e) := peers_delete (dh_api w) ns n in (with_api a w, e) |}.
#[local] Program Instance demo_host_server : PeerServer demo_host := {| peers_view := λ w, peers_view (dh_api w) |}.
Next Obligation.
  simpl. intros w ns p w'. pose proof (peers_create_ok (dh_api w) ns p) as Ho. cbn [peers_create demo_peerclient] in Ho.
  destruct (demo_api_write _ _ _ _) as [a e]. intros [= <- ->]. by apply Ho.
Qed.
Next Obligation.
  simpl. intros w ns p w' e. pose proof (peers_create_exists (dh_api w) ns p) as Ho. cbn [peers_create demo_peerclient] in Ho.
  destruct (demo_api_write _ _ _ _) as [a e']. intros [= <- ->] He. by eapply Ho.
Qed.
Next Obligation. intros w ns n p. exact (peers_get_ok (dh_api w) ns n p). Qed.
Next Obligation.
  simpl. intros w ns p w'. pose proof (peers_update_ok (dh_api w) ns p) as Ho. cbn [peers_update demo_peerclient] in Ho.
  destruct (demo_api_write _ _ _ _) as [a e]. intros [= <- ->]. by apply Ho.
Qed.
Next Obligation.
  simpl. intros w ns n w'. pose proof (peers_delete_ok (dh_api w) ns n) as Ho. cbn [peers_delete demo_peerclient] in Ho.
  destruct (demo_api_write _ _ _ _) as [a e]. intros [= <- ->]. by apply Ho.
Qed.
#[local] Instance demo_tunnel_kernel : WgKernel demo_host := demo_wgkernel true.
#[local] Instance demo_tunnel_laws : WgLaws demo_host := demo_wglaws true.
Local Existing Instances list_runtime demo_clientgo.

(** The hub: cluster c1 has a range, c2 has none yet. *)
Definition demo_c1 : Peer := demo_peer "c1" "1.1.1.1" ["20.112.0.0/16"] "K1".
Definition demo_c2 : Peer := demo_peer "c2" "2.2.2.2" [] "K2".
Definition demo_hub_api : demo_api := mkDemoApi ∅ {["fleet" := {["c1" := demo_c1; "c2" := demo_c2]}]} [].
Definition demo_hub (faults : list bool) : InterTunnels demo_host :=
  mkInter demo_wg (mkHost demo_hub_api ∅ ∅ faults 1) {[mkNN "fleet" "c1" := demo_c1; mkNN "fleet" "c2" := demo_c2]}.
Definition demo_handled (faults : list bool) := Inter_Handle demo_spec "cnf" "fleetboard-system" "fleet/c2" (demo_hub faults).
Definition stored_cidr (s : InterTunnels demo_host) (n : string) : option (list string) :=
  peer_PodCIDR <$> (peers_view (it_world s) "fleet" !! n).

Lemma hub_allocates_witness :
  stored_cidr (fst (demo_handled [])) "c2" = Some ["20.113.0.0/16"] ∧
  ∃ cidr idx, free_of cidr ["20.112.0.0/16"] ∧
    (∃ c, peers_view (it_world (fst (demo_handled []))) "fleet" !! "c2" = Some c ∧ peer_PodCIDR c = [cidr]) ∧
    cidr_routes idx [cidr] ⊆ wg_routes (it_world (fst (demo_handled []))).
Proof.
  split; [vm_compute; reflexivity|].
  replace ["20.112.0.0/16"] with (peer_cidrs "fleet" (it_peers (demo_hub []))) by (vm_compute; reflexivity).
  apply (hub_allocates demo_spec "cnf" "fleetboard-system") with (key := "fleet/c2") (name := "c2") (N := 342884352) (p := 12) (peer := demo_c2).
  - intros w ns p w' e. simpl. destruct (demo_api_write _ _ _ _) as [a e']. intros [= <- _]. done.
  - reflexivity.
  - vm_compute. reflexivity.
  - vm_compute. reflexivity.
  - reflexivity.
  - reflexivity.
  - vm_compute. reflexivity.
  - lia.
  - apply (bool_decide_unpack (Forall usable _)). vm_compute. exact I.
  - rewrite (surjective_pairing (Inter_Handle _ _ _ _ _)). f_equal.
Defined.

Definition demo_gone : InterTunnels demo_host :=
  mkInter (set_inter {["c1" := demo_c1]} demo_wg)
    (mkHost demo_hub_api {[codes "K1" := mkWgPeer None None []]} {[route_to (mkIPNet [20; 112; 0; 0] [255; 255; 0; 0]) 7]} [] 1)
    {[mkNN "fleet" "c1" := demo_c1]}.

Lemma recycled_peer_not_readded_witness :
  let s' := fst (RecyclePeer (Some demo_c1) demo_gone) in
  wg_peers (it_world s') !! codes "K1" = None ∧ on_link (AddInterClusterTunnel demo_c1) s' = (s', Ret ()).
Proof.
  cbv zeta. apply (recycled_peer_not_readded demo_c1 (codes "K1") demo_gone).
  - reflexivity.
  - vm_compute. reflexivity.
  - rewrite (surjective_pairing (RecyclePeer _ _)) at 1. f_equal.
Defined.

(** The range of a cluster can be lost.  When the device is busy during the first
    attempt, the range stays in the informer cache; the retry finds a peer with
    a range, reports success and does not write it back: in the hub the cluster
    has no range, and on the device no peer. *)
Theorem hub_range_not_written :
  let first := demo_handled [true] in
  let second := Inter_Handle demo_spec "cnf" "fleetboard-system" "fleet/c2" (fst first) in
  snd first = Ret (Some requestAfter, Some "failed to configure peer: device busy") ∧
  snd second = Ret (None, None) ∧
  stored_cidr (fst second) "c2" = Some [] ∧ dh_peers (it_world (fst second)) !! codes "K2" = None ∧
  (peer_PodCIDR <$> it_peers (fst second) !! mkNN "fleet" "c2") = Some ["20.113.0.0/16"].
Proof. vm_compute. split_and!; reflexivity. Qed.

(** A cluster whose leader is the pod cnf, with two nodes that have no range. *)
Definition demo_node_pod (n node ip key : string) : Pod :=
  mkPod (mkMeta n EmptyString "fleetboard-system" EmptyString EmptyString 0 0 None None
           (Some {[PublicKeyAnnotation := key; FleetboardServiceCIDR := "10.96.0.0/24"]}) [] [])
    node EmptyString EmptyString "Always" [] "Running" EmptyString ip [ip] [].
Definition demo_p1 : Pod := demo_node_pod "p1" "n1" "172.17.0.3" "K1".
Definition demo_p2 : Pod := demo_node_pod "p2" "n2" "172.17.0.4" "K2".
Definition demo_cluster (faults : list bool) : InnerTunnels demo_host :=
  mkInner demo_wg (mkHost (mkDemoApi {["fleetboard-system" := {["p1" := demo_p1; "p2" := demo_p2]}]} ∅ faults) ∅ ∅ [] 1)
    {[mkNN "fleetboard-system" "p1" := demo_p1; mkNN "fleetboard-system" "p2" := demo_p2]} [] "20.112.0.0/16" "20.112.0.0/12" "cnf".
Definition node_cidr (s : InnerTunnels demo_host) (n : string) : option (list string) :=
  (λ p, GetSpecificAnnotation p [FleetboardNodeCIDR]) <$> (in_pods s !! mkNN "fleetboard-system" n).

(** Two nodes can get the same range.  When the patch of the first pod fails, the
    range is not entered into the list of ranges in use but stays in the cached pod;
    the retry takes it from there, and the next node gets the same range: both
    tunnels are configured with it. *)
Theorem failed_patch_duplicates_range :
  let s1 := Inner_Handle "fleetboard-system/p1" (demo_cluster [true]) in
  let s2 := Inner_Handle "fleetboard-system/p1" (fst s1) in
  let s3 := Inner_Handle "fleetboard-system/p2" (fst s2) in
  snd s1 = Ret (Some requestAfter, Some "patch pod fleetboard-system/p1 failed: server unavailable") ∧
  snd s2 = Ret (None, None) ∧ snd s3 = Ret (None, None) ∧
  node_cidr (fst s3) "p1" = Some ["20.112.0.0/24"] ∧ node_cidr (fst s3) "p2" = Some ["20.112.0.0/24"] ∧
  (SecondaryCIDR <$> (map_to_list (innerConnections (in_wg (fst s3)))).*2) = [["20.112.0.0/24"]; ["20.112.0.0/24"]].
Proof. vm_compute. split_and!; reflexivity. Qed.

#[local] Program Instance demo_host_podserver : PodServer demo_host := {| pods_view := λ w, pods_view (dh_api w) |}.
Next Obligation. intros w ns n p. exact (pods_get_ok (dh_api w) ns n p). Qed.
Next Obligation.
  intros w ns n p ann patch w' Hg Hp.
  change ((let '(a, e) := pods_patch (dh_api w) ns n patch in (with_api a w, e)) = (w', None)) in Hp.
  destruct (pods_patch (dh_api w) ns n patch) as [a e] eqn:E. injection Hp as <- ->.
  exact (pods_patch_ok (dh_api w) ns n p ann patch a Hg E).
Qed.

Lemma leader_allocates_witness :
  let s' := fst (SpawnNewCIDRForNRIPod (mkNN "fleetboard-system" "p1") (demo_cluster [])) in
  free_of "20.112.0.0/24" [] ∧ in_existingCIDR s' = ["20.112.0.0/24"] ∧
  ∃ stored, pods_view (in_world s') "fleetboard-system" !! "p1" = Some stored ∧ annotations stored !! FleetboardNodeCIDR = Some "20.112.0.0/24".
Proof.
  cbv zeta. apply (leader_allocates (mkNN "fleetboard-system" "p1") demo_p1 342884352 16 "20.112.0.0/24" (demo_cluster [])).
  - vm_compute. reflexivity.
  - reflexivity.
  - reflexivity.
  - vm_compute. reflexivity.
  - vm_compute. reflexivity.
  - lia.
  - constructor.
  - rewrite (surjective_pairing (SpawnNewCIDRForNRIPod _ _)) at 1. f_equal.
Defined.
End demo.
