(* ===== verification/HubConfig.v ===== *)
(** * The credentials of the hub

    [pkg/config/config.go] ([GetHubConfig], [storeHubClusterCredentials],
    [WaitGetGlobalNetworkInfo]) and [utils/kubeconfig.go]: a cluster gets its access to the hub with a bootstrap
    token and keeps it in a secret of its own.  The API server is the class
    [SecretClient]; the loop that stores the secret runs on fuel and is [Spin] when it has
    not ended. *)
From stdpp Require Import prelude gmap strings list.
From S2P Require Import Prelude K8s ApiOps Wireguard Tunnels.
Open Scope Z_scope.

Definition HubSecretName : string := "fleetboard".
Definition ServiceAccountTokenKey : string := "token".
Definition ServiceAccountRootCAKey : string := "ca.crt".
Definition SecretTypeServiceAccountToken : string := "kubernetes.io/service-account-token".
Definition ServiceAccountNameKey : string := "kubernetes.io/service-account.name".

Record Secret := mkSecret { sec_Namespace : string; sec_Name : string; sec_Labels : GoMap; sec_Annotations : GoMap; sec_Type : string; sec_Data : gmap string string }.

(** ** [utils/kubeconfig.go] *)
Record Cluster := mkCluster { Server : string; InsecureSkipTLSVerify : bool; CertificateAuthorityData : option string }.
Record KubeConfig := mkKubeConfig {
  Clusters : gmap string Cluster; Contexts : gmap string (string * string); AuthInfos : gmap string string; CurrentContext : string }.

(** A context names its cluster and its user; [caCert] is nil or the certificate. *)
Definition createBasicKubeConfig (serverURL clusterName userName : string) (caCert : option string) : KubeConfig :=
  let contextName := userName +:+ "@" +:+ clusterName in
  mkKubeConfig {[clusterName := mkCluster serverURL (bool_decide (caCert = None)) caCert]} {[contextName := (clusterName, userName)]} ∅ contextName.
Definition CreateKubeConfigWithToken (serverURL token : string) (caCert : option string) : KubeConfig :=
  let config := createBasicKubeConfig serverURL "fleetboard-cluster" "fleetboard" caCert in
  mkKubeConfig (Clusters config) (Contexts config) (<["fleetboard" := token]> (AuthInfos config)) (CurrentContext config).

(** [clientcmd] turns a kubeconfig into the configuration of a client, with which the hub
    lists its secrets. *)
Class HubLib := {
  ClientConfigOf : Type;
  ClientConfig : KubeConfig → ClientConfigOf + string;
  hub_secrets : ClientConfigOf → string → list Secret + ApiError
}.

Class SecretClient (W : Type) := {
  secrets_get : W → string → string → Secret + ApiError;
  secrets_create : W → string → Secret → W * option ApiError;
  secrets_update : W → string → Secret → W * option ApiError
}.

Section hub.
Context {W : Type} `{HubLib} `{SecretClient W}.

Definition GenerateKubeConfigFromToken (serverURL token : string) (caCert : option string) : outcome ClientConfigOf :=
  match ClientConfig (CreateKubeConfigWithToken serverURL token caCert) with
  | inl config => Ret config
  | inr err => Err ("error while creating kubeconfig: " +:+ err)
  end.

(** ** [pkg/config/config.go] *)
Definition hub_secret_of (secret : Secret) : Secret :=
  mkSecret EmptyString HubSecretName (Some {["created-by" := "fleetboard-created"]}) None EmptyString
    {[ServiceAccountRootCAKey := default EmptyString (sec_Data secret !! ServiceAccountRootCAKey);
      ServiceAccountTokenKey := default EmptyString (sec_Data secret !! ServiceAccountTokenKey)]}.

(** One turn; [true] when it cancels the loop.  What is updated is the secret of the hub, not the
    one that exists. *)
Definition store_once (secret : Secret) (w : W) : W * bool :=
  match secrets_create w (sec_Namespace secret) (hub_secret_of secret) with
  | (w, None) => (w, true)
  | (w, Some err) =>
      if IsAlreadyExists err then
        match secrets_update w (sec_Namespace secret) secret with
        | (w, None) => (w, true)
        | (w, Some _) => (w, false)
        end
      else (w, false)
  end.
Fixpoint storeHubClusterCredentials (fuel : nat) (secret : Secret) : proc W () := λ w,
  match fuel with
  | O => (w, Spin)
  | S fuel =>
      match store_once secret w with
      | (w, true) => (w, Ret ())
      | (w, false) => storeHubClusterCredentials fuel secret w
      end
  end.

Definition is_hub_token (secret : Secret) : bool :=
  bool_decide (sec_Type secret = SecretTypeServiceAccountToken) &&
  bool_decide (mstr (sec_Annotations secret) ServiceAccountNameKey = HubSecretName).

(** The secret with which the hub is accessed: the local one, or the first of the hub, which is stored. *)
Definition hub_credentials (fuel : nat) (hubURL bootStrapToken : string) : proc W Secret := λ w,
  match secrets_get w FleetboardSystemNamespace HubSecretName with
  | inl hubSecret => (w, Ret hubSecret)
  | inr err =>
      if IsNotFound err then
        (clientConfig ← lift (wrap_err "error while creating kubeconfig from bootstrap token" (GenerateKubeConfigFromToken hubURL bootStrapToken None));
         match hub_secrets clientConfig FleetboardSystemNamespace with
         | inr e => lift (Err ("can't list hubSecret list from hub cluster: " +:+ err_msg e))
         | inl l =>
             match filter (λ s, is_hub_token s = true) l with
             | [] => lift (Err "can't list a secret used for cross-cluster connection")
             | secret :: _ => _ ← storeHubClusterCredentials fuel secret; mret secret
             end
         end) w
      else (w, Err "can't get a hub auth secre")
  end.
Definition GetHubConfig (fuel : nat) (hubURL bootStrapToken : string) : proc W ClientConfigOf :=
  hubSecret ← hub_credentials fuel hubURL bootStrapToken;
  lift (GenerateKubeConfigFromToken hubURL (default EmptyString (sec_Data hubSecret !! ServiceAccountTokenKey))
          (sec_Data hubSecret !! ServiceAccountRootCAKey)).

(** A turn of [WaitGetGlobalNetworkInfo]: the local secret, and what the hub answers to a
    client of the configuration, the outer error when there is no such client. *)
Record network_turn := mkTurn { turn_secret : Secret + ApiError; turn_peers : ClientConfigOf → (list Peer + ApiError) + string }.

(** The call of the hub in a turn, when the turn gets that far. *)
Definition turn_answer (hubURL : string) (t : network_turn) : option (list Peer + ApiError) :=
  match turn_secret t with
  | inr _ => None
  | inl secret =>
      match GenerateKubeConfigFromToken hubURL (default EmptyString (sec_Data secret !! ServiceAccountTokenKey))
              (sec_Data secret !! ServiceAccountRootCAKey) with
      | Ret parentKubeConfig => match turn_peers t parentKubeConfig with inl answer => Some answer | inr _ => None end
      | _ => None
      end
  end.
Fixpoint WaitGetGlobalNetworkInfo (turns : list network_turn) (spec : Specification) : outcome (string * string) :=
  match turns with
  | [] => Spin
  | t :: rest =>
      match turn_answer (HubURL spec) t with
      | None => WaitGetGlobalNetworkInfo rest spec
      | Some answer =>
          match getGlobalAndClusterCIDRByHubClient answer (spec_ClusterID spec) with
          | Ret (globalCIDR, clusterCIDR) =>
              if negb (bool_decide (globalCIDR = EmptyString)) && negb (bool_decide (clusterCIDR = EmptyString))
              then Ret (globalCIDR, clusterCIDR) else WaitGetGlobalNetworkInfo rest spec
          | Err _ => WaitGetGlobalNetworkInfo rest spec
          | Panic => Panic
          | Spin => Spin
          end
      end
  end.

(** The wait with the local secret is the wait with a client of the hub, on the turns that reach it. *)
Theorem WaitGetGlobalNetworkInfo_reached turns spec :
  WaitGetGlobalNetworkInfo turns spec = WaitGetCIDRFromHubclient (omap (turn_answer (HubURL spec)) turns) (spec_ClusterID spec).
Proof.
  induction turns as [|t rest IH]; [done|]. cbn [WaitGetGlobalNetworkInfo omap list_omap].
  destruct (turn_answer _ t) as [answer|]; [|done]. cbn [WaitGetCIDRFromHubclient].
  destruct (getGlobalAndClusterCIDRByHubClient _ _) as [[g c]|e| |]; try done. by do 2 case_bool_decide.
Qed.
End hub.

(** ** What the API server does *)
Class SecretServer (W : Type) `{SecretClient W} := {
  secrets_view : W → string → gmap string Secret;
  secrets_get_ok : ∀ w ns n, match secrets_get w ns n with
    | inl s => secrets_view w ns !! n = Some s
    | inr e => IsNotFound e = true → secrets_view w ns !! n = None end;
  secrets_get_found : ∀ w ns n s, secrets_view w ns !! n = Some s → secrets_get w ns n = inl s ∨ ∃ e, secrets_get w ns n = inr e ∧ IsNotFound e = false;
  secrets_create_ok : ∀ w ns s, match secrets_create w ns s with
    | (w', None) => ∃ stored, secrets_view w' ns = <[sec_Name s := stored]> (secrets_view w ns) ∧ sec_Data stored = sec_Data s
    | (w', Some e) => secrets_view w' ns = secrets_view w ns ∧ (IsAlreadyExists e = true → is_Some (secrets_view w ns !! sec_Name s)) end;
  secrets_create_exists : ∀ w ns s, is_Some (secrets_view w ns !! sec_Name s) → is_Some (secrets_create w ns s).2;
  secrets_update_absent : ∀ w ns s, secrets_view w ns !! sec_Name s = None →
    is_Some (secrets_update w ns s).2 ∧ secrets_view (secrets_update w ns s).1 ns = secrets_view w ns
}.

Section theorems.
Context {W : Type} `{HubLib} `{SecretServer W}.

(** Where no secret of that name exists, the loop ends only with the credentials stored. *)
Lemma store_creates fuel secret w w' : storeHubClusterCredentials fuel secret w = (w', Ret ()) →
  secrets_view w (sec_Namespace secret) !! HubSecretName = None →
  ∃ stored, secrets_view w' (sec_Namespace secret) !! HubSecretName = Some stored ∧ sec_Data stored = sec_Data (hub_secret_of secret).
Proof.
  revert w. induction fuel as [|fuel IH]; intros w E Hn; [done|]. cbn [storeHubClusterCredentials] in E. unfold store_once in E.
  pose proof (secrets_create_ok w (sec_Namespace secret) (hub_secret_of secret)) as Hc.
  destruct (secrets_create w _ _) as [w1 [e|]].
  - destruct Hc as [Hv He]. destruct (IsAlreadyExists e); [|apply (IH w1); [done|by rewrite Hv]].
    destruct (He eq_refl) as [s Hs]. cbn in Hs. congruence.
  - injection E as <-. destruct Hc as (stored & Hv & Hd). exists stored. rewrite Hv. split; [apply lookup_insert_eq|done].
Qed.

(** Credentials are kept: the configuration that a first call builds from the hub's secret, which has a token and a certificate
    in the system namespace, is the one that every later call gets from the local
    secret, without the bootstrap token, while the server answers. *)
Theorem GetHubConfig_kept fuel fuel' url token token' w w' cfg :
  (∀ c l s, hub_secrets c FleetboardSystemNamespace = inl l → s ∈ l → is_hub_token s = true →
     sec_Namespace s = FleetboardSystemNamespace ∧ is_Some (sec_Data s !! ServiceAccountTokenKey) ∧ is_Some (sec_Data s !! ServiceAccountRootCAKey)) →
  GetHubConfig fuel url token w = (w', Ret cfg) →
  GetHubConfig fuel' url token' w' = (w', Ret cfg) ∨ ∃ e, secrets_get w' FleetboardSystemNamespace HubSecretName = inr e ∧ IsNotFound e = false.
Proof.
  intros Hhub E. unfold GetHubConfig in E. apply proc_bind_Ret in E as (w1 & s & E1 & E). apply lift_Ret in E as [Ecfg ->].
  assert (Hst : ∃ stored, secrets_view w1 FleetboardSystemNamespace !! HubSecretName = Some stored ∧
    sec_Data stored !! ServiceAccountTokenKey = sec_Data s !! ServiceAccountTokenKey ∧
    sec_Data stored !! ServiceAccountRootCAKey = sec_Data s !! ServiceAccountRootCAKey).
  { unfold hub_credentials in E1. pose proof (secrets_get_ok w FleetboardSystemNamespace HubSecretName) as Hg.
    destruct (secrets_get w _ _) as [s0|e]; [injection E1 as <- <-; by exists s0|].
    destruct (IsNotFound e); [|done]. apply proc_bind_Ret in E1 as (w2 & c & E2 & E1). apply lift_Ret in E2 as [_ ->].
    destruct (hub_secrets c FleetboardSystemNamespace) as [l|] eqn:El; [|done].
    destruct (filter _ l) as [|s1 r] eqn:Ef; [done|]. apply proc_bind_Ret in E1 as (w3 & [] & E3 & E1). injection E1 as <- <-.
    assert (Hin : s1 ∈ filter (λ s, is_hub_token s = true) l) by (rewrite Ef; by left). apply list_elem_of_filter in Hin as [Ht Hin].
    destruct (Hhub _ _ _ El Hin Ht) as (Hns & [t Htok] & [ca Hca]). apply store_creates in E3 as (stored & Hv & Hd); [|rewrite Hns; by apply Hg].
    exists stored. rewrite Hns in Hv. split; [done|]. rewrite Hd, Htok, Hca. unfold hub_secret_of. cbn [sec_Data]. rewrite Htok, Hca. by simplify_map_eq. }
  destruct Hst as (stored & Hv & Ht & Hca). destruct (secrets_get_found _ _ _ _ Hv) as [Hg|He]; [left|by right].
  unfold GetHubConfig, hub_credentials, mbind, proc_bind. rewrite Hg. unfold lift. by rewrite Ht, Hca, Ecfg.
Qed.

(** A lost race never ends.  When another pod of the cluster has stored the secret in the
    meantime, the loop tries to update the hub's secret under its own name, which the cluster
    does not have: however long it runs, it does not end. *)
Theorem raced_store_never_ends fuel secret w :
  is_Some (secrets_view w (sec_Namespace secret) !! HubSecretName) → secrets_view w (sec_Namespace secret) !! sec_Name secret = None →
  snd (storeHubClusterCredentials fuel secret w) = Spin.
Proof.
  revert w. induction fuel as [|fuel IH]; intros w Hs Hn; [done|]. cbn [storeHubClusterCredentials]. unfold store_once.
  pose proof (secrets_create_ok w (sec_Namespace secret) (hub_secret_of secret)) as Hc.
  destruct (secrets_create_exists w (sec_Namespace secret) (hub_secret_of secret) Hs) as [e He].
  destruct (secrets_create w _ _) as [w1 r]. cbn in He. subst r. destruct Hc as [Hv _].
  destruct (IsAlreadyExists e); [|apply IH; by rewrite Hv].
  destruct (secrets_update_absent w1 (sec_Namespace secret) secret) as [[e' He'] Hv']; [by rewrite Hv|].
  destruct (secrets_update w1 _ _) as [w2 r2]. cbn in He', Hv'. subst r2. apply IH; by rewrite Hv', Hv.
Qed.
End theorems.
