(* ===== verification/CnfManager.v ===== *)
(** * The manager of a node: leader election

    [pkg/cnf/CNFManager.go]: the callbacks of the leader election, which drive the two
    tunnel controllers, and [updateServiceCIDRToCNFPod] of the syncer
    ([pkg/controller/syncer/agent.go]).  Both controllers share the WireGuard device; the
    election itself ([client-go]) is the order in which the callbacks are called.  The context that
    [OnStartedLeading] gets is cancelled when the pod stops leading; a controller started with
    it then stops, one started with the context of the process does not.
    [klog.Fatalf] ends the process: [Panic]. *)
From stdpp Require Import prelude gmap strings list.
From S2P Require Import Prelude NetAddr NetUtil K8s HostPort Utils ServiceCIDR ApiOps Wireguard Tunnels.
Open Scope Z_scope.
Open Scope go_scope.

(** ** The manager *)

(** The context a controller was started with. *)
Inductive Ctx := MainCtx | LeadingCtx.

Record Manager (W : Type) := mkManager {
  m_inner : InnerTunnels W;
  m_peers : gmap NamespacedName Peer;
  m_currentLeader : string;
  m_queue : list NamespacedName;
  m_innerStarted : option Ctx;
  m_interStarted : bool;
  m_syncerStarted : bool;
  m_cancelled : bool }.
Arguments mkManager {W} _ _ _ _ _ _ _ _.
Arguments m_inner {W} _.
Arguments m_peers {W} _.
Arguments m_currentLeader {W} _.
Arguments m_queue {W} _.
Arguments m_innerStarted {W} _.
Arguments m_interStarted {W} _.
Arguments m_syncerStarted {W} _.
Arguments m_cancelled {W} _.

Section manager.
Context `{GoRuntime} `{WgTypes} {W : Type} `{WgKernel W} `{PodClient W} `{PeerClient W} `{ClientGo} `{Backoff} `{PatchLib Peer}.
Abbreviation state := (Manager W).

Definition put_inner (i : InnerTunnels W) (m : state) : state :=
  mkManager i (m_peers m) (m_currentLeader m) (m_queue m) (m_innerStarted m) (m_interStarted m) (m_syncerStarted m) (m_cancelled m).
Definition set_managerLeader (l : string) (m : state) : state :=
  mkManager (m_inner m) (m_peers m) l (m_queue m) (m_innerStarted m) (m_interStarted m) (m_syncerStarted m) (m_cancelled m).
Definition enqueue (l : list NamespacedName) (m : state) : state :=
  mkManager (m_inner m) (m_peers m) (m_currentLeader m) (m_queue m ++ l) (m_innerStarted m) (m_interStarted m) (m_syncerStarted m) (m_cancelled m).

Definition on_inner {A} (p : proc (InnerTunnels W) A) : proc state A := on m_inner put_inner p.
(** The inter controller works on the same device. *)
Definition inter_of (m : state) : InterTunnels W := mkInter (in_wg (m_inner m)) (in_world (m_inner m)) (m_peers m).
Definition put_inter (i : InterTunnels W) (m : state) : state :=
  mkManager (set_tunnel (it_wg i, it_world i) (m_inner m)) (it_peers i) (m_currentLeader m) (m_queue m) (m_innerStarted m) (m_interStarted m)
    (m_syncerStarted m) (m_cancelled m).
Definition on_inter {A} (p : proc (InterTunnels W) A) : proc state A := on inter_of put_inter p.

Definition pod_nn (p : Pod) : NamespacedName := mkNN (Namespace (pod_meta p)) (Name (pod_meta p)).

Definition EnqueueAdditionalInnerConnectionHandleObj (podName : string) : proc state () := λ m,
  match pods_get (in_world (m_inner m)) FleetboardSystemNamespace podName with
  | inl pod => (enqueue [pod_nn pod] m, Ret ())
  | inr _ => (m, Ret ())
  end.
Definition EnqueueExistingAdditionalInnerConnectionHandle : proc state () := λ m,
  match pods_list (in_world (m_inner m)) FleetboardSystemNamespace LabelCNFPod with
  | inl pods => (enqueue (pod_nn <$> pods) m, Ret ())
  | inr _ => (m, Ret ())
  end.

(** [innerTunnelControllerOnce] *)
Definition start_inner_once (c : Ctx) : proc state () := modify (λ m,
  mkManager (m_inner m) (m_peers m) (m_currentLeader m) (m_queue m) (match m_innerStarted m with None => Some c | some => some end)
    (m_interStarted m) (m_syncerStarted m) (m_cancelled m)).
Definition start_syncer : proc state () := modify (λ m,
  mkManager (m_inner m) (m_peers m) (m_currentLeader m) (m_queue m) (m_innerStarted m) (m_interStarted m) true (m_cancelled m)).
Definition start_inter : proc state () := λ m,
  let '(i, started) := Inter_Start (inter_of m) in
  let m := put_inter i m in
  (mkManager (m_inner m) (m_peers m) (m_currentLeader m) (m_queue m) (m_innerStarted m) (m_interStarted m || started) (m_syncerStarted m)
     (m_cancelled m), Ret ()).

Definition agent (m : state) : Specification := wg_Spec (in_wg (m_inner m)).

(** ** The callbacks.  [answers] is what the hub says while the ranges are waited for. *)
Definition OnStartedLeading (answers : list (list Peer + ApiError)) (selfName selfNamespace : string) : proc state () :=
  spec ← gets agent;
  _ ← on_inner RecycleAllResources;
  _ ← modify (set_managerLeader (spec_PodName spec));
  _ ← on_inner (modify (set_leader (spec_PodName spec)));
  _ ← start_inter;
  if AsCluster spec then
    _ ← start_syncer;
    try on_inner (ConfigWithExistingCIDR answers selfName selfNamespace) as r in
    match r with
    | inr _ => lift Panic
    | inl _ => _ ← EnqueueExistingAdditionalInnerConnectionHandle; start_inner_once LeadingCtx
    end
  else mret ().

(** [RunOrDie] then returns, and the pod takes no further part in the election. *)
Definition OnStoppedLeading : proc state () := modify (set_managerLeader EmptyString).

Definition OnNewLeader (identity : string) : proc state () :=
  spec ← gets agent;
  if bool_decide (identity = spec_PodName spec) then mret ()
  else
    _ ← on_inter InterRecycleAllResources;
    _ ← on_inner RecycleAllResources;
    _ ← modify (set_managerLeader identity);
    _ ← on_inner (modify (set_leader identity));
    _ ← on_inner (on_host (modify (UpdatePodLabels (spec_PodName spec) false)));
    if AsCluster spec then _ ← EnqueueAdditionalInnerConnectionHandleObj identity; start_inner_once MainCtx
    else mret ().

(** What [Run] does with the election: only a pod of the control plane is a candidate; in a
    cluster the others only start the inner controller. *)
Inductive election := Candidate | Follower.
Definition Run (m : state) : state * election :=
  let spec := agent m in
  let isCandidate := CheckIfMasterOrControlNode (in_world (m_inner m)) (spec_NodeName spec) in
  if AsCluster spec then
    if isCandidate then (m, Candidate) else (fst (start_inner_once MainCtx m), Follower)
  else (m, Candidate).

(** ** [updateServiceCIDRToCNFPod]: every pod is tried, the errors are collected *)
Fixpoint annotate_all (cidr : string) (pods : list Pod) : proc W (list string) :=
  match pods with
  | [] => mret []
  | pod :: rest => λ w,
      let '((w, _), r) := SetSpecificAnnotations [FleetboardServiceCIDR] [cidr] true (w, pod) in
      match r with
      | Ret _ => annotate_all cidr rest w
      | Err e => (errs ← annotate_all cidr rest; mret (e :: errs)) w
      | Panic => (w, Panic)
      | Spin => (w, Spin)
      end
  end.
Definition updateServiceCIDRToCNFPod (cidr : string) : proc W () :=
  w ← gets id;
  match pods_list w FleetboardSystemNamespace LabelCNFPod with
  | inr e => lift (Err (err_msg e))
  | inl pods =>
      errs ← annotate_all cidr pods;
      match errs with
      | [] => mret ()
      | _ => lift (Err (foldl (λ acc e, acc +:+ "; " +:+ e) "<nil>" errs))
      end
  end.

(** ** Who leads *)
Definition role (i : InnerTunnels W) : string * Specification := (in_currentLeader i, wg_Spec (in_wg i)).
Definition spec_of (t : Wireguard * W) : Specification := wg_Spec t.1.

Lemma keeps_tunnel {A} (p : proc (Wireguard * W) A) : keeps spec_of p → keeps role (on_tunnel p).
Proof. intros Hp. apply (keeps_on_part _ _ _ spec_of); [done|]. intros [g w] i Hg. unfold role, spec_of in *. cbn in *. by rewrite Hg. Qed.
Lemma keeps_host {A} (p : proc W A) : keeps role (on_host p).
Proof. by apply keeps_on. Qed.
Lemma keeps_sys msg (f : W → W * option SysError) : keeps spec_of (sys msg f).
Proof. intros [g w]. unfold sys. cbn. by destruct (f w) as [? [?|]]. Qed.
#[local] Hint Resolve keeps_tunnel keeps_host keeps_sys : keeps.
Lemma keeps_connect_inner d k : keeps spec_of (connect_inner d k).
Proof. unfold connect_inner. keep. all: try (apply keeps_modify; by intros []). Qed.
#[local] Hint Resolve keeps_connect_inner : keeps.
Lemma keeps_reconnect_inner d k : keeps spec_of (reconnect_inner d k).
Proof. unfold reconnect_inner. keep. apply keeps_modify. by intros []. Qed.
Lemma keeps_RemoveInner k : keeps spec_of (RemoveInnerClusterTunnel k).
Proof. apply keeps_sys. Qed.
Lemma keeps_RemoveInter k : keeps spec_of (RemoveInterClusterTunnel k).
Proof. apply keeps_sys. Qed.
Lemma keeps_delete_inner n : keeps spec_of (modify (λ '(g, w), (DeleteExistingInnerConnection g n, w))).
Proof. apply keeps_modify. by intros []. Qed.
#[local] Hint Resolve keeps_reconnect_inner keeps_RemoveInner keeps_RemoveInter keeps_delete_inner : keeps.
Lemma keeps_AddInner d : keeps spec_of (AddInnerClusterTunnel d).
Proof. unfold AddInnerClusterTunnel, ignore_err. keep. Qed.
#[local] Hint Resolve keeps_AddInner : keeps.
Lemma keeps_recycle d : keeps role (recycleResources d).
Proof. unfold recycleResources. keep. Qed.
#[local] Hint Resolve keeps_recycle : keeps.

(** A loop over connections, each of whose errors is logged. *)
Lemma keeps_each {S K A B} (f : S → B) (p : A → proc S ()) (l : list (K * A)) s r : (∀ a, keeps f (p a)) →
  f (fst (foldl (λ '(s, r) '(_, c), match r with Ret _ => p c s | r => (s, r) end) (s, r) l)) = f s.
Proof.
  intros Hp. revert s r. induction l as [|[k a] l IH]; intros s r; [done|]. cbn [foldl].
  destruct r as [u| | |]; [|by rewrite IH..]. specialize (Hp a s). destruct (p a s) as [s' r']. by rewrite IH.
Qed.
Lemma keeps_RecycleAll : keeps role RecycleAllResources.
Proof. intros s. apply keeps_each. intros c. unfold ignore_err. keep. Qed.
#[local] Hint Resolve keeps_RecycleAll : keeps.

Lemma keeps_annotate nn ks vs : keeps role (annotate_cached nn ks vs).
Proof. intros s. unfold annotate_cached. destruct (in_pods s !! nn); [|done]. by destruct (SetSpecificAnnotations _ _ _ _) as [[? ?] ?]. Qed.
#[local] Hint Resolve keeps_annotate : keeps.
Lemma keeps_set_existing (g : InnerTunnels W → list string) : keeps role (modify (λ s, set_existingCIDR (g s) s)).
Proof. by apply keeps_modify. Qed.
#[local] Hint Resolve keeps_set_existing : keeps.
Lemma keeps_Handle key : keeps role (Inner_Handle key).
Proof. unfold Inner_Handle, ensure_cidr, ensure_service_cidr, service_cidr, connect_node, SpawnNewCIDRForNRIPod. keep. Qed.

(** The filter of the queue takes the leader from a label only while none is known. *)
Lemma ShouldHandlerPod_role pod s : in_currentLeader s ≠ EmptyString → role (fst (ShouldHandlerPod pod s)) = role s.
Proof.
  intros Hs. unfold ShouldHandlerPod. unfold mbind at 1, proc_bind at 1, gets. cbv beta iota zeta. cbn [id].
  rewrite (bool_decide_false (in_currentLeader s = EmptyString)) by done. destruct (_ && _); [|done].
  apply (keeps_bind role RecycleAllResources); keep.
Qed.
Lemma inner_filter_role old new s : in_currentLeader s ≠ EmptyString → role (fst (inner_filter old new s)) = role s.
Proof.
  intros Hs. unfold inner_filter. destruct new as [pod|]; [|destruct old as [pod|]; [|done]].
  - pose proof (ShouldHandlerPod_role pod s Hs) as Hr. unfold mbind, proc_bind. by destruct (ShouldHandlerPod pod s) as [s' [b| | |]].
  - exact (ShouldHandlerPod_role pod s Hs).
Qed.
Lemma inner_filter_spec old new s : wg_Spec (in_wg (fst (inner_filter old new s))) = wg_Spec (in_wg s).
Proof.
  assert (Hs : ∀ pod, keeps (λ i : InnerTunnels W, wg_Spec (in_wg i)) (ShouldHandlerPod pod)).
  { intros pod. unfold ShouldHandlerPod. keep; [by apply keeps_modify|].
    intros i. pose proof (keeps_RecycleAll i) as Hr. unfold role in Hr. by injection Hr as _ Hr. }
  unfold inner_filter. assert (Hk : keeps (λ i : InnerTunnels W, wg_Spec (in_wg i)) (inner_filter old new)); [|apply Hk].
  unfold inner_filter. keep.
Qed.

Definition mrole (m : state) : string * Specification := role (m_inner m).
Lemma keeps_inner {A} (p : proc (InnerTunnels W) A) : keeps role p → keeps mrole (on_inner p).
Proof. intros Hp. by apply (keeps_on_part _ _ _ role). Qed.
#[local] Hint Resolve keeps_inner keeps_Handle : keeps.
Lemma keeps_inter_recycle : keeps (λ i : InterTunnels W, wg_Spec (it_wg i)) InterRecycleAllResources.
Proof.
  intros s. apply (keeps_each (λ i : InterTunnels W, wg_Spec (it_wg i)) (λ c, ignore_err (RecyclePeer (Some c)))).
  intros c. unfold ignore_err, RecyclePeer. keep.
  - apply (keeps_on_part _ _ _ spec_of); [auto with keeps|]. by intros [g w] i.
  - by apply keeps_on.
Qed.
Lemma keeps_inter : keeps mrole (on_inter InterRecycleAllResources).
Proof.
  apply (keeps_on_part _ _ _ (λ i : InterTunnels W, wg_Spec (it_wg i))); [apply keeps_inter_recycle|].
  intros i m Hi. unfold mrole, role. cbn in *. by rewrite Hi.
Qed.
Lemma keeps_start_inter : keeps mrole start_inter.
Proof.
  intros m. unfold start_inter, Inter_Start. by destruct (ApplyPeerConfig _ _) as [w [e|]].
Qed.
Lemma keeps_start_once c : keeps mrole (start_inner_once c).
Proof. done. Qed.
Lemma keeps_start_syncer : keeps mrole start_syncer.
Proof. done. Qed.
Lemma keeps_manager l : keeps mrole (modify (set_managerLeader l)).
Proof. done. Qed.
Lemma keeps_enqueue_obj n : keeps mrole (EnqueueAdditionalInnerConnectionHandleObj n).
Proof. intros m. unfold EnqueueAdditionalInnerConnectionHandleObj. by destruct (pods_get _ _ _). Qed.
Lemma keeps_enqueue_all : keeps mrole EnqueueExistingAdditionalInnerConnectionHandle.
Proof. intros m. unfold EnqueueExistingAdditionalInnerConnectionHandle. by destruct (pods_list _ _ _). Qed.
Lemma keeps_config answers n ns : keeps role (ConfigWithExistingCIDR answers n ns).
Proof. unfold ConfigWithExistingCIDR. keep. by apply keeps_modify. Qed.
#[local] Hint Resolve keeps_inter keeps_start_inter keeps_start_once keeps_start_syncer keeps_manager keeps_enqueue_obj keeps_enqueue_all keeps_config : keeps.

(** *** A run of the manager: callbacks of the election, handled pods and notified pods *)
Inductive mevent :=
  | Elected (answers : list (list Peer + ApiError)) (selfName selfNamespace : string)
  | Stopped
  | NewLeader (identity : string)
  | Handled (key : string)
  | Notified (oldObj newObj : option Pod).
Definition cancel : proc state () := modify (λ m,
  mkManager (m_inner m) (m_peers m) (m_currentLeader m) (m_queue m) (m_innerStarted m) (m_interStarted m) (m_syncerStarted m) true).
(** The workers of the inner controller run. *)
Definition inner_running (m : state) : bool :=
  match m_innerStarted m with None => false | Some MainCtx => true | Some LeadingCtx => negb (m_cancelled m) end.
Definition mstep (e : mevent) : proc state () :=
  match e with
  | Elected answers n ns => OnStartedLeading answers n ns
  | Stopped => _ ← cancel; OnStoppedLeading
  | NewLeader id => OnNewLeader id
  | Handled key =>
      running ← gets inner_running;
      if (running : bool) then _ ← on_inner (Inner_Handle key); mret () else mret ()
  | Notified old new => _ ← on_inner (inner_filter old new); mret ()
  end.
Fixpoint mrun (es : list mevent) : proc state () :=
  match es with [] => mret () | e :: rest => _ ← mstep e; mrun rest end.

(** The leader that the election last reported to the pod [me]. *)
Definition report (me : string) (known : option string) (e : mevent) : option string :=
  match e with
  | Elected _ _ _ => Some me
  | NewLeader id => if bool_decide (id = me) then known else Some id
  | _ => known
  end.
Definition reported (me : string) (es : list mevent) : option string := foldl (report me) None es.

Definition pod_of (m : state) : string := spec_PodName (agent m).

(** [set_leader] in the middle of a callback. *)
Lemma set_leader_then {A} l (k : proc state A) m m' a : (_ ← on_inner (modify (set_leader l)); k) m = (m', Ret a) → keeps mrole k →
  mrole m' = (l, agent m).
Proof. intros (m1 & [] & E1 & E2)%proc_bind_Ret Hk. injection E1 as <-. specialize (Hk (put_inner (set_leader l (m_inner m)) m)). by rewrite E2 in Hk. Qed.

Lemma mstep_leader e m m' known : mstep e m = (m', Ret ()) → pod_of m ≠ EmptyString → (∀ id, e = NewLeader id → id ≠ EmptyString) →
  (∀ l, known = Some l → l ≠ EmptyString ∧ in_currentLeader (m_inner m) = l) →
  agent m' = agent m ∧ ∀ l, report (pod_of m) known e = Some l → l ≠ EmptyString ∧ in_currentLeader (m_inner m') = l.
Proof.
  intros E Hme Hid Hk. destruct e as [answers n ns| |id|key|old new]; cbn [mstep report] in *.
  - unfold OnStartedLeading in E. apply proc_bind_Ret in E as (m1 & spec & E1 & E). injection E1 as <- <-.
    apply proc_bind_Ret in E as (m1 & [] & E1 & E). assert (Hr : mrole m1 = mrole m) by (pose proof (keeps_inner _ keeps_RecycleAll m) as Hr; by rewrite E1 in Hr).
    apply proc_bind_Ret in E as (m2 & [] & E2 & E). injection E2 as <-. apply set_leader_then in E; [|keep].
    unfold mrole, role, agent in *. injection Hr as _ Hr. injection E as El Es. cbn in Es. split; [congruence|]. intros l [= <-]. by rewrite El.
  - injection E as <-. split; [done|]. intros l Hl. by apply Hk.
  - unfold OnNewLeader in E. apply proc_bind_Ret in E as (m1 & spec & E1 & E). injection E1 as <- <-. fold (pod_of m) in E.
    case_bool_decide as Hb; [injection E as <-; split; [done|]; intros l Hl; by apply Hk|].
    apply proc_bind_Ret in E as (m1 & [] & E1 & E). assert (Hr : mrole m1 = mrole m) by (pose proof (keeps_inter m) as Hr; by rewrite E1 in Hr).
    apply proc_bind_Ret in E as (m2 & [] & E2 & E). assert (Hr2 : mrole m2 = mrole m1) by (pose proof (keeps_inner _ keeps_RecycleAll m1) as Hr2; by rewrite E2 in Hr2).
    apply proc_bind_Ret in E as (m3 & [] & E3 & E). injection E3 as <-. apply set_leader_then in E; [|keep].
    unfold mrole, role, agent in *. injection Hr as _ Hr. injection Hr2 as _ Hr2. injection E as El Es. cbn in Es. split; [congruence|].
    intros l [= <-]. split; [by apply Hid|]. by rewrite El.
  - apply proc_bind_Ret in E as (m0 & b & E0 & E). injection E0 as <- <-. destruct (inner_running m); [|injection E as <-; split; [done|]; intros l Hl; by apply Hk].
    apply proc_bind_Ret in E as (m1 & v & E1 & E). injection E as <-. pose proof (keeps_inner _ (keeps_Handle key) m) as Hr. rewrite E1 in Hr.
    cbn in Hr. unfold mrole, role in Hr. injection Hr as Hr1 Hr2. split; [done|]. intros l Hl. rewrite Hr1. by apply Hk.
  - apply proc_bind_Ret in E as (m1 & v & E1 & E). injection E as <-. unfold on_inner in E1. apply on_Ret in E1 as (i & E1 & ->).
    destruct (decide (in_currentLeader (m_inner m) = EmptyString)) as [Hn|Hn].
    + split; [|intros l Hl; destruct (Hk l Hl); congruence]. pose proof (inner_filter_spec old new (m_inner m)) as Hs. by rewrite E1 in Hs.
    + pose proof (inner_filter_role old new (m_inner m) Hn) as Hr. rewrite E1 in Hr. cbn in Hr. unfold role in Hr. injection Hr as Hr1 Hr2.
      split; [done|]. intros l Hl. cbn. rewrite Hr1. by apply Hk.
Qed.

Lemma mrun_leader es m m' known : mrun es m = (m', Ret ()) → pod_of m ≠ EmptyString → (∀ id, NewLeader id ∈ es → id ≠ EmptyString) →
  (∀ l, known = Some l → l ≠ EmptyString ∧ in_currentLeader (m_inner m) = l) →
  agent m' = agent m ∧ ∀ l, foldl (report (pod_of m)) known es = Some l → in_currentLeader (m_inner m') = l.
Proof.
  revert m known. induction es as [|e es IH]; intros m known E Hme Hid Hk; cbn [mrun foldl] in *.
  - injection E as <-. split; [done|]. intros l Hl. by apply Hk.
  - apply proc_bind_Ret in E as (m1 & [] & E1 & E).
    destruct (mstep_leader e m m1 known E1 Hme) as [Ha Hl]; [intros id ->; apply Hid; by left|done|].
    assert (Hp : pod_of m1 = pod_of m) by (unfold pod_of; by rewrite Ha). rewrite <- Hp.
    destruct (IH m1 (report (pod_of m) known e) E) as [Ha' Hl']; [by rewrite Hp|intros id Hin; apply Hid; by right|done|].
    split; [congruence|]. intros l Hr. apply Hl'. by rewrite Hp in Hr |- *.
Qed.

(** *** Only a leader hands out ranges *)
Definition handed_out (i : InnerTunnels W) : gmap NamespacedName Pod * list string := (in_pods i, in_existingCIDR i).
Lemma hands_tunnel {A} (p : proc (Wireguard * W) A) : keeps handed_out (on_tunnel p).
Proof. by apply keeps_on. Qed.
Lemma hands_host {A} (p : proc W A) : keeps handed_out (on_host p).
Proof. by apply keeps_on. Qed.
#[local] Hint Resolve hands_tunnel hands_host : keeps.
Lemma hands_recycle d : keeps handed_out (recycleResources d).
Proof. unfold recycleResources. keep. Qed.
#[local] Hint Resolve hands_recycle : keeps.
Lemma follower_Handle key s : in_currentLeader s ≠ my_pod s → handed_out (fst (Inner_Handle key s)) = handed_out s.
Proof.
  intros Hs. unfold Inner_Handle. unfold mbind at 1, proc_bind at 1, gets. cbv beta iota zeta. cbn [id].
  rewrite (bool_decide_false (my_pod s = in_currentLeader s)) by congruence. destruct (SplitMetaNamespaceKey key) as [[ns n]|]; [|done].
  destruct (in_pods s !! mkNN ns n) as [pod|]; [|done]. generalize (DaemonConfigFromPod pod false). intros d.
  match goal with |- handed_out (fst (?p s)) = _ => assert (Hk : keeps handed_out p); [|apply Hk] end.
  unfold ensure_cidr, ensure_service_cidr, connect_node. keep.
Qed.

(** C35: a pod that follows does not hand out ranges.  Whatever callbacks the election makes and whatever
    pods are notified and handled in between, once the election has last reported
    another pod as leader the controller of this pod gives no range to a node: handling
    a pod changes neither the cached pods nor the ranges in use. *)
Theorem follower_never_allocates es (m m' : state) l key :
  mrun es m = (m', Ret ()) → pod_of m ≠ EmptyString → (∀ id, NewLeader id ∈ es → id ≠ EmptyString) →
  reported (pod_of m) es = Some l → l ≠ pod_of m →
  in_currentLeader (m_inner m') = l ∧
  in_pods (fst (Inner_Handle key (m_inner m'))) = in_pods (m_inner m') ∧
  in_existingCIDR (fst (Inner_Handle key (m_inner m'))) = in_existingCIDR (m_inner m').
Proof.
  intros E Hme Hid Hr Hl. destruct (mrun_leader es m m' None E Hme Hid) as [Ha Hlead]; [done|]. specialize (Hlead _ Hr).
  pose proof (follower_Handle key (m_inner m')) as Hf. rewrite Hlead in Hf. unfold handed_out in Hf.
  change (my_pod (m_inner m')) with (pod_of m') in Hf. unfold pod_of in Hf at 1. rewrite Ha in Hf. specialize (Hf Hl).
  injection Hf as -> ->. done.
Qed.
(** *** A leader goes on *)
Definition existing_of (i : InnerTunnels W) : list string := in_existingCIDR i.
Lemma existing_tunnel {A} (p : proc (Wireguard * W) A) : keeps existing_of (on_tunnel p).
Proof. by apply keeps_on. Qed.
Lemma existing_host {A} (p : proc W A) : keeps existing_of (on_host p).
Proof. by apply keeps_on. Qed.
Lemma existing_annotate nn ks vs : keeps existing_of (annotate_cached nn ks vs).
Proof. intros s. unfold annotate_cached. destruct (in_pods s !! nn); [|done]. by destruct (SetSpecificAnnotations _ _ _ _) as [[? ?] ?]. Qed.
#[local] Hint Resolve existing_tunnel existing_host existing_annotate : keeps.

(** The manager's inner controller works, and takes its own pod for the leader. *)
Definition leads (m : state) : Prop := inner_running m = true ∧ in_currentLeader (m_inner m) = pod_of m.

(** Pod [key] is alive and has no range, [cidr] is the next free range that the
    controller knows of, and the pod can be annotated. *)
Definition wants_range (m : state) (key cidr : string) : Prop :=
  ∃ ns n pod, SplitMetaNamespaceKey key = Some (ns, n) ∧ in_pods (m_inner m) !! mkNN ns n = Some pod ∧ IsPodAlive pod = true ∧
    SecondaryCIDR (DaemonConfigFromPod pod true) = [] ∧
    FindClusterAvailableCIDR (in_clusterCIDR (m_inner m)) (in_existingCIDR (m_inner m)) = Ret cidr ∧
    snd (annotate_cached (mkNN ns n) [FleetboardTunnelCIDR; FleetboardNodeCIDR] [in_globalCIDR (m_inner m); cidr] (m_inner m)) = Ret ().

Lemma spawn_hands_out nn cidr (s : InnerTunnels W) :
  FindClusterAvailableCIDR (in_clusterCIDR s) (in_existingCIDR s) = Ret cidr →
  snd (annotate_cached nn [FleetboardTunnelCIDR; FleetboardNodeCIDR] [in_globalCIDR s; cidr] s) = Ret () →
  ∃ s1, SpawnNewCIDRForNRIPod nn s = (s1, Ret cidr) ∧ in_existingCIDR s1 = in_existingCIDR s ++ [cidr].
Proof.
  intros Hf Ha. unfold SpawnNewCIDRForNRIPod, mbind, proc_bind, gets, lift. rewrite Hf.
  pose proof (existing_annotate nn [FleetboardTunnelCIDR; FleetboardNodeCIDR] [in_globalCIDR s; cidr] s) as Hk.
  destruct (annotate_cached _ _ _ s) as [s0 r]. cbn [fst snd] in *. subst r. unfold modify. eexists. split; [done|].
  cbn. unfold existing_of in Hk. by rewrite Hk.
Qed.

Lemma leader_Handle key cidr (m : state) : in_currentLeader (m_inner m) = pod_of m → wants_range m key cidr →
  in_existingCIDR (fst (Inner_Handle key (m_inner m))) = in_existingCIDR (m_inner m) ++ [cidr].
Proof.
  intros Hl (ns & n & pod & Hsp & Hpod & Halive & Hno & Hf & Ha). unfold Inner_Handle.
  destruct (spawn_hands_out (mkNN ns n) cidr (m_inner m) Hf Ha) as (s1 & Hs & He).
  unfold mbind at 1, proc_bind at 1, gets. cbv beta iota zeta. cbn [id].
  rewrite (bool_decide_true (my_pod (m_inner m) = in_currentLeader (m_inner m))) by by rewrite Hl.
  rewrite Hsp, Hpod, Halive. cbn [negb]. rewrite <- He. clear Hl Hf Ha Hpod.
  assert (∃ r, ensure_cidr (mkNN ns n) true (DaemonConfigFromPod pod true) (m_inner m) = (s1, Ret r)) as [r Hr].
  { unfold ensure_cidr. rewrite Hno. unfold handle. rewrite Hs. unfold mbind, proc_bind, gets. case_bool_decide; by eexists. }
  unfold mbind at 1, proc_bind at 1. rewrite Hr. cbn [id].
  match goal with |- in_existingCIDR (fst (?p s1)) = _ => assert (Hk : keeps existing_of p); [|apply Hk] end.
  unfold ensure_service_cidr, service_cidr, connect_node. keep.
Qed.

Lemma leads_hands_out key cidr (m : state) : leads m → wants_range m key cidr →
  in_existingCIDR (m_inner (fst (mstep (Handled key) m))) = in_existingCIDR (m_inner m) ++ [cidr].
Proof.
  intros [Hr Hl] Hw. rewrite <- (leader_Handle key cidr m Hl Hw). cbn [mstep]. unfold mbind, proc_bind, gets. rewrite Hr.
  unfold on_inner, on. by destruct (Inner_Handle key (m_inner m)) as [i [?| | |]].
Qed.

(** *** With which context the inner controller was started *)
Definition starts {A} (c : Ctx) (p : proc state A) : Prop := ∀ m,
  m_innerStarted (fst (p m)) = m_innerStarted m ∨ (m_innerStarted m = None ∧ m_innerStarted (fst (p m)) = Some c).
Lemma starts_keeps {A} c (p : proc state A) : keeps m_innerStarted p → starts c p.
Proof. intros Hk m. left. apply Hk. Qed.
Lemma starts_bind {A B} c (p : proc state A) (k : A → proc state B) : starts c p → (∀ a, starts c (k a)) → starts c (p ≫= k).
Proof.
  intros Hp Hk m. unfold mbind, proc_bind. specialize (Hp m). destruct (p m) as [m1 [a| | |]]; cbn [fst] in *; [|done..].
  specialize (Hk a m1). destruct Hp as [Hp|[Hn Hp]], Hk as [Hk|[Hk1 Hk]]; rewrite ?Hk, ?Hp in *; auto.
Qed.
Lemma starts_once c : starts c (start_inner_once c).
Proof. intros m. unfold start_inner_once, modify. cbn. destruct (m_innerStarted m); [by left|by right]. Qed.
Lemma started_inner {A} (p : proc (InnerTunnels W) A) : keeps m_innerStarted (on_inner p).
Proof. by apply keeps_on. Qed.
Lemma started_inter {A} (p : proc (InterTunnels W) A) : keeps m_innerStarted (on_inter p).
Proof. by apply keeps_on. Qed.
Lemma started_leader l : keeps m_innerStarted (modify (set_managerLeader l)).
Proof. done. Qed.
Lemma started_enqueue n : keeps m_innerStarted (EnqueueAdditionalInnerConnectionHandleObj n).
Proof. intros m. unfold EnqueueAdditionalInnerConnectionHandleObj. by destruct (pods_get _ _ _). Qed.
Lemma started_enqueue_all : keeps m_innerStarted EnqueueExistingAdditionalInnerConnectionHandle.
Proof. intros m. unfold EnqueueExistingAdditionalInnerConnectionHandle. by destruct (pods_list _ _ _). Qed.
Lemma started_start_inter : keeps m_innerStarted start_inter.
Proof. intros m. unfold start_inter, Inter_Start. by destruct (ApplyPeerConfig _ _) as [w [e|]]. Qed.
#[local] Hint Resolve started_inner started_inter started_leader started_enqueue started_enqueue_all started_start_inter : keeps.

Definition ctx_of (e : mevent) : Ctx := match e with Elected _ _ _ => LeadingCtx | _ => MainCtx end.
Lemma mstep_starts e : starts (ctx_of e) (mstep e).
Proof.
  destruct e as [answers n ns| |id|key|old new]; cbn [mstep ctx_of].
  - unfold OnStartedLeading. repeat (apply starts_bind; [apply starts_keeps; keep; done|intros ?]).
    destruct (AsCluster _); [|by apply starts_keeps]. apply starts_bind; [by apply starts_keeps|]. intros _.
    intros m. unfold handle. pose proof (started_inner (ConfigWithExistingCIDR answers n ns) m) as Hk.
    destruct (on_inner _ m) as [m1 [v|e| |]]; cbn [fst] in Hk; rewrite <- Hk; [|by left..].
    apply (starts_bind LeadingCtx EnqueueExistingAdditionalInnerConnectionHandle);
      [apply starts_keeps, started_enqueue_all|intros ?; apply starts_once].
  - by apply starts_keeps.
  - unfold OnNewLeader. apply starts_bind; [by apply starts_keeps|]. intros spec. case_bool_decide; [by apply starts_keeps|].
    repeat (apply starts_bind; [apply starts_keeps; keep|intros ?]).
    destruct (AsCluster _); [|by apply starts_keeps]. apply starts_bind; [apply starts_keeps, started_enqueue|intros ?; apply starts_once].
  - apply starts_keeps. keep.
  - apply starts_keeps. keep.
Qed.

(** The first election result that starts the controller decides. *)
Lemma mrun_started c es (m m' : state) : mrun es m = (m', Ret ()) → m_innerStarted m = Some c → m_innerStarted m' = Some c.
Proof.
  revert m. induction es as [|e es IH]; intros m; cbn [mrun]; [by intros [= ->]|].
  intros (m1 & [] & E1 & E)%proc_bind_Ret Hm. apply (IH m1); [done|]. pose proof (mstep_starts e m) as Hs. rewrite E1 in Hs. cbn in Hs.
  destruct Hs as [->|[? _]]; congruence.
Qed.
Lemma mrun_not_elected es (m m' : state) : mrun es m = (m', Ret ()) → Forall (λ e, ctx_of e = MainCtx) es →
  m_innerStarted m = None ∨ m_innerStarted m = Some MainCtx → m_innerStarted m' = None ∨ m_innerStarted m' = Some MainCtx.
Proof.
  revert m. induction es as [|e es IH]; intros m; cbn [mrun]; [by intros [= ->]|].
  intros (m1 & [] & E1 & E)%proc_bind_Ret [He Hes]%Forall_cons Hm. apply (IH m1 E Hes).
  pose proof (mstep_starts e m) as Hs. rewrite E1, He in Hs. cbn in Hs. destruct Hs as [->|[_ ?]]; auto.
Qed.
Lemma mrun_app es1 es2 (m m' : state) : mrun (es1 ++ es2) m = (m', Ret ()) →
  ∃ m1, mrun es1 m = (m1, Ret ()) ∧ mrun es2 m1 = (m', Ret ()).
Proof.
  revert m. induction es1 as [|e es1 IH]; intros m; cbn [app mrun]; [by exists m|].
  intros (m1 & [] & E1 & (m2 & E2 & E3)%IH)%proc_bind_Ret. exists m2. split; [|done]. unfold mbind, proc_bind. by rewrite E1.
Qed.

Lemma NewLeader_started l (m m' : state) : mstep (NewLeader l) m = (m', Ret ()) → l ≠ pod_of m → AsCluster (agent m) = true →
  m_innerStarted m = None ∨ m_innerStarted m = Some MainCtx → m_innerStarted m' = Some MainCtx.
Proof.
  intros E Hl Hc Hm. pose proof (mstep_starts (NewLeader l) m) as Hs. rewrite E in Hs. cbn [fst ctx_of] in Hs.
  destruct Hs as [Hs|[_ ?]]; [|done]. destruct Hm as [Hm|Hm]; [|congruence]. exfalso. rewrite Hm in Hs.
  revert E. cbn [mstep]. unfold OnNewLeader. intros (m1 & spec & E1 & E)%proc_bind_Ret. injection E1 as <- <-.
  rewrite bool_decide_false, Hc in E by done.
  do 5 (apply proc_bind_Ret in E as (? & [] & _ & E)). apply proc_bind_Ret in E as (m7 & [] & _ & E).
  unfold start_inner_once, modify in E. injection E as <-. cbn in Hs. by destruct (m_innerStarted m7).
Qed.

(** Events after which nothing changes who leads: pods are notified and handled, and the
    election repeats that [me] leads. *)
Definition quiet (me : string) (e : mevent) : Prop :=
  match e with Handled _ | Notified _ _ => True | NewLeader id => id = me | _ => False end.
Lemma quiet_report me es : Forall (quiet me) es → foldl (report me) (Some me) es = Some me.
Proof.
  induction 1 as [|e es He _ IH]; [done|]. cbn [foldl]. destruct e; cbn in *; try done. by rewrite bool_decide_true.
Qed.
Lemma quiet_manager me es (m m' : state) : mrun es m = (m', Ret ()) → Forall (quiet me) es → pod_of m = me → me ≠ EmptyString →
  m_currentLeader m' = m_currentLeader m.
Proof.
  revert m. induction es as [|e es IH]; intros m; cbn [mrun]; [by intros [= ->]|].
  intros (m1 & [] & E1 & E)%proc_bind_Ret [He Hes]%Forall_cons Hme Hne.
  assert (Hin : ∀ A (p : proc (InnerTunnels W) A), keeps m_currentLeader (on_inner p)) by (intros; by apply keeps_on).
  assert (keeps m_currentLeader (mstep e) ∨ e = NewLeader me) as [Hk| ->].
  { destruct e as [| |id|key|old new]; cbn in He |- *; [done|done|subst; by right|left; keep..]. }
  - specialize (Hk m). rewrite E1 in Hk. cbn in Hk. rewrite <- Hk. apply IH; [done|done| |done].
    destruct (mstep_leader e m m1 None E1) as [Ha _]; [by rewrite Hme|intros id ->; cbn in He; by subst|done|]. unfold pod_of. by rewrite Ha.
  - assert (m1 = m) as -> by (cbn [mstep] in E1; unfold OnNewLeader, mbind, proc_bind, gets in E1; fold (pod_of m) in E1;
      rewrite bool_decide_true in E1 by done; by injection E1). by apply IH.
Qed.

(** C38: a leader that has stopped leading goes on handing out ranges.  Take any run of the manager of a
    pod in a cluster in which the pod followed another leader before it was first
    elected, was elected later, and stopped leading, whatever else happened before.
    [OnStoppedLeading] clears the name of the leader in the manager only: the inner controller,
    started with the context of the process, still works and takes its own pod for
    the leader, so that any other leader of the cluster which knows of the same
    ranges hands out the very range that the stopped one hands out to the next
    node. *)
Theorem stopped_leader_allocates fs l es1 answers n ns es2 es3 (m m' : state) :
  let me := pod_of m in
  let es := fs ++ NewLeader l :: es1 ++ Elected answers n ns :: es2 ++ Stopped :: es3 in
  mrun es m = (m', Ret ()) → me ≠ EmptyString → AsCluster (agent m) = true → m_innerStarted m = None →
  Forall (λ e, ctx_of e = MainCtx) fs → l ≠ me → (∀ id, NewLeader id ∈ es → id ≠ EmptyString) →
  Forall (quiet me) es2 → Forall (quiet me) es3 →
  m_currentLeader m' = EmptyString ∧ leads m' ∧
  ∀ (b : state) key key' cidr cidr', leads b →
    in_clusterCIDR (m_inner b) = in_clusterCIDR (m_inner m') → in_existingCIDR (m_inner b) = in_existingCIDR (m_inner m') →
    wants_range m' key cidr → wants_range b key' cidr' →
    cidr' = cidr ∧
    in_existingCIDR (m_inner (fst (mstep (Handled key) m'))) = in_existingCIDR (m_inner m') ++ [cidr] ∧
    in_existingCIDR (m_inner (fst (mstep (Handled key') b))) = in_existingCIDR (m_inner m') ++ [cidr].
Proof.
  intros me es E Hme Hc Hno Hfs Hl Hids Hq2 Hq3.
  destruct (mrun_leader es m m' None E Hme Hids) as [Hagent Hlead]; [done|].
  assert (Hrep : foldl (report me) None es = Some me).
  { unfold es. rewrite foldl_app. cbn [foldl]. rewrite foldl_app. cbn [foldl report]. rewrite foldl_app, quiet_report by done. cbn [foldl report].
    by apply quiet_report. }
  specialize (Hlead me Hrep). pose proof E as Ees.
  assert (Hes : es = ((fs ++ NewLeader l :: es1 ++ Elected answers n ns :: es2) ++ [Stopped]) ++ es3).
  { unfold es. by rewrite <- !app_assoc, <- !app_comm_cons, <- !app_assoc, <- !app_comm_cons. }
  unfold es in E. apply mrun_app in E as (m1 & E1 & E). cbn [mrun] in E.
  apply proc_bind_Ret in E as (m2 & [] & E2 & E). assert (Hstart : m_innerStarted m2 = Some MainCtx).
  { destruct (mrun_leader fs m m1 None E1 Hme) as [Ha _]; [intros id Hin; apply Hids; unfold es; set_solver|done|].
    apply (NewLeader_started l m1 m2); [done|unfold pod_of; by rewrite Ha|by rewrite Ha|]. apply (mrun_not_elected fs m m1); auto. }
  pose proof (mrun_started MainCtx _ m2 m' E Hstart) as Hstart'.
  assert (Hl' : leads m').
  { split; [unfold inner_running; by rewrite Hstart'|]. rewrite Hlead. unfold me, pod_of. by rewrite Hagent. }
  split; [|split; [done|]].
  - rewrite Hes in Ees. apply mrun_app in Ees as (m3 & E3 & E4).
    destruct (mrun_leader _ m m3 None E3 Hme) as [Ha _]; [intros id Hin; apply Hids; unfold es; set_solver|done|].
    rewrite (quiet_manager me es3 m3 m' E4 Hq3); [|unfold me, pod_of; by rewrite Ha|done].
    apply mrun_app in E3 as (m4 & _ & E3). cbn [mrun mstep] in E3.
    unfold cancel, OnStoppedLeading, mbind, proc_bind, modify in E3. cbn in E3. by injection E3 as <-.
  - intros b key key' cidr cidr' Hb Hcb Heb Hw Hw'. assert (cidr' = cidr) as ->.
    { destruct Hw as (? & ? & ? & _ & _ & _ & _ & Hf & _), Hw' as (? & ? & ? & _ & _ & _ & _ & Hf' & _). rewrite Hcb, Heb in Hf'. congruence. }
    split; [done|]. split; [by apply leads_hands_out|]. rewrite <- Heb. by apply leads_hands_out.
Qed.
End manager.

(** ** Two managers of one cluster *)
Section demo.
#[local] Existing Instances list_runtime demo_clientgo demo_host_pods demo_host_peers demo_tunnel_kernel.

Definition demo_agent (pod : string) : Specification :=
  mkSpec EmptyString EmptyString "fleet" false true EmptyString EmptyString pod "n0" EmptyString "c1".
(** What the hub answers: the global range and the cluster's. *)
Definition demo_answers : list (list Peer + ApiError) :=
  [inl [demo_peer "hub" "9.9.9.9" ["20.112.0.0/12"] "KH"; demo_peer "c1" "1.1.1.1" ["20.112.0.0/16"] "K1"]].
Definition demo_manager (pod : string) (api : demo_api) : Manager demo_host :=
  mkManager (mkInner (mkWG ∅ ∅ (demo_agent pod) (mkKeys [1] [2] [2])) (mkHost api ∅ ∅ [] 1)
      {[mkNN "fleetboard-system" "p1" := demo_p1; mkNN "fleetboard-system" "p2" := demo_p2]} [] EmptyString EmptyString EmptyString)
    ∅ EmptyString [] None false false false.
Definition demo_shared : demo_api :=
  mkDemoApi {["fleetboard-system" := {["p1" := demo_p1; "p2" := demo_p2]}]} ∅ [].
Definition api_of (m : Manager demo_host) : demo_api := dh_api (in_world (m_inner m)).
(** The other manager has written meanwhile. *)
Definition see (api : demo_api) (m : Manager demo_host) : Manager demo_host :=
  put_inner (set_tunnel (in_wg (m_inner m), with_api api (in_world (m_inner m))) (m_inner m)) m.
Definition stored_range (api : demo_api) (pod : string) : option (list string) :=
  (λ p, GetSpecificAnnotation p [FleetboardNodeCIDR]) <$> (da_pods api !! "fleetboard-system" ≫= (.!! pod)).

(** With a shared API server: a pod that followed, led and stopped, and its successor, hand
    out the same range to two nodes. *)
Theorem stopped_leader_duplicates_range :
  let a := fst (mrun [NewLeader "cnf-0"; Elected demo_answers "cnf" "fleetboard-system"; Stopped] (demo_manager "cnf" demo_shared)) in
  let b := fst (mrun [Elected demo_answers "cnf-b" "fleetboard-system"] (demo_manager "cnf-b" (api_of a))) in
  let a := fst (mrun [Handled "fleetboard-system/p1"] (see (api_of b) a)) in
  let b := fst (mrun [Handled "fleetboard-system/p2"] (see (api_of a) b)) in
  m_currentLeader a = EmptyString ∧
  stored_range (api_of b) "p1" = Some ["20.112.0.0/24"] ∧ stored_range (api_of b) "p2" = Some ["20.112.0.0/24"].
Proof. vm_compute. split_and!; reflexivity. Qed.

Definition demo_stopped : Manager demo_host :=
  fst (mrun [NewLeader "cnf-0"; Elected demo_answers "cnf" "fleetboard-system"; Stopped] (demo_manager "cnf" demo_shared)).
Definition demo_successor : Manager demo_host :=
  fst (mrun [Elected demo_answers "cnf-b" "fleetboard-system"] (demo_manager "cnf-b" (api_of demo_stopped))).

Lemma stopped_leader_allocates_witness :
  m_currentLeader demo_stopped = EmptyString ∧
  in_existingCIDR (m_inner (fst (mstep (Handled "fleetboard-system/p1") demo_stopped))) = ["20.112.0.0/24"] ∧
  in_existingCIDR (m_inner (fst (mstep (Handled "fleetboard-system/p2") demo_successor))) = ["20.112.0.0/24"].
Proof.
  assert (E : mrun [NewLeader "cnf-0"; Elected demo_answers "cnf" "fleetboard-system"; Stopped] (demo_manager "cnf" demo_shared) =
    (demo_stopped, Ret ())).
  { assert (Er : snd (mrun [NewLeader "cnf-0"; Elected demo_answers "cnf" "fleetboard-system"; Stopped] (demo_manager "cnf" demo_shared)) = Ret ())
      by (vm_compute; reflexivity). rewrite (surjective_pairing (mrun _ _)), Er. reflexivity. }
  assert (Hx : in_existingCIDR (m_inner demo_stopped) = []) by (vm_compute; reflexivity).
  destruct (stopped_leader_allocates [] "cnf-0" [] demo_answers "cnf" "fleetboard-system" [] [] (demo_manager "cnf" demo_shared) demo_stopped E)
    as (Hm & _ & Hb).
  - discriminate.
  - reflexivity.
  - reflexivity.
  - constructor.
  - discriminate.
  - intros id Hi%list_elem_of_In ->. destruct Hi as [Hi|[Hi|[Hi|[]]]]; discriminate Hi.
  - constructor.
  - constructor.
  - split; [exact Hm|].
    destruct (Hb demo_successor "fleetboard-system/p1" "fleetboard-system/p2" "20.112.0.0/24" "20.112.0.0/24") as (_ & H1 & H2).
    + split; vm_compute; reflexivity.
    + vm_compute. reflexivity.
    + vm_compute. reflexivity.
    + exists "fleetboard-system", "p1", demo_p1. split_and!; vm_compute; reflexivity.
    + exists "fleetboard-system", "p2", demo_p2. split_and!; vm_compute; reflexivity.
    + rewrite Hx in H1, H2. split; [exact H1|exact H2].
Defined.

(** A pod that was elected first and then lost has started its controller with the context that is
    cancelled; the controller is started once, so that the pod never handles a pod again, also
    not to connect itself to the new leader. *)
Theorem first_leader_never_follows :
  let m := fst (mrun [Elected demo_answers "cnf" "fleetboard-system"; Stopped; NewLeader "cnf-b"] (demo_manager "cnf" demo_shared)) in
  in_currentLeader (m_inner m) = "cnf-b" ∧ inner_running m = false ∧ ∀ key, mrun [Handled key] m = (m, Ret ()).
Proof.
  cbv zeta. set (m := fst _). assert (Hr : inner_running m = false) by (vm_compute; reflexivity).
  split; [vm_compute; reflexivity|]. split; [exact Hr|]. intros key. cbn [mrun mstep].
  unfold mbind, proc_bind, gets. by rewrite Hr.
Qed.

Lemma follower_never_allocates_witness :
  let m' := fst (mrun [NewLeader "cnf-b"; Handled "fleetboard-system/p1"] (demo_manager "cnf" demo_shared)) in
  in_currentLeader (m_inner m') = "cnf-b" ∧ in_existingCIDR (fst (Inner_Handle "fleetboard-system/p1" (m_inner m'))) = [].
Proof.
  cbv zeta. set (m' := fst _).
  destruct (follower_never_allocates [NewLeader "cnf-b"; Handled "fleetboard-system/p1"] (demo_manager "cnf" demo_shared) m' "cnf-b" "fleetboard-system/p1")
    as (E1 & _ & E3).
  - rewrite (surjective_pairing (mrun _ _)). f_equal.
  - done.
  - intros id [Hi|[Hi|Hi]%elem_of_cons]%elem_of_cons; [by injection Hi as ->|done|by apply elem_of_nil in Hi].
  - reflexivity.
  - done.
  - split; [exact E1|]. rewrite E3. vm_compute. reflexivity.
Defined.
End demo.
