(* ===== verification/Syncer.v ===== *)
(** * The syncer of a cluster

    [pkg/controller/syncer/agent.go]: the start of the controllers of exports and imports, and the event handlers
    that their constructors register ([NewServiceExportController], [NewServiceImportController]).  The queue of a controller
    ([yacht]) is the class [Yacht]; the library that checks names and the hash are arguments.  A start that
    succeeds gives the import controller an IPAM in which the addresses of the existing imports are taken, which is what
    the distinctness of virtual addresses begins with. *)
From stdpp Require Import prelude gmap strings list.
From S2P Require Import Prelude NetAddr NetUtil K8s ProxyEndpoints HostPort Utils SliceSync ServiceCIDR Mcs ApiOps Wireguard Tunnels CnfManager.
Open Scope Z_scope.

(** ** Event handlers *)

(** What an informer passes to a handler: an object, or the tombstone of one whose deletion it missed. *)
Inductive slice_obj := Obj (s : EndpointSlice) | DeletedFinalStateUnknown (key : string).

(** [obj.( *discoveryv1.EndpointSlice)] *)
Definition as_slice (o : slice_obj) : outcome EndpointSlice := match o with Obj s => Ret s | _ => Panic end.

(** [Enqueue] adds the key of an object to the queue. *)
Class Yacht (Q : Type) := { Enqueue : string → string → Q → Q }.

Section events.
Context {Q : Type} `{Yacht Q}.

Definition export_FilterFunc (serviceExportLister : Lister ServiceExport) (o : slice_obj) : outcome bool :=
  endpointSlice ← as_slice o;
  match mget (Labels (es_meta endpointSlice)) LabelServiceName with
  | Some serviceName =>
      match serviceExportLister (Namespace (es_meta endpointSlice)) serviceName with
      | inl _ => Ret true
      | inr _ => Ret false
      end
  | None => Ret false
  end.

(** The bodies of [AddFunc], [UpdateFunc] (with the new object) and [DeleteFunc]. *)
Definition export_enqueue (serviceExportLister : Lister ServiceExport) (o : slice_obj) : proc Q () :=
  slice ← lift (as_slice o);
  match getServiceExportFromEndpointSlice serviceExportLister slice with
  | Ret se => modify (Enqueue (Namespace (sexp_meta se)) (Name (sexp_meta se)))
  | _ => mret ()
  end.

(** The filter of the import controller queues the import itself, and lets no event pass. *)
Definition import_FilterFunc (localSILister : Lister ServiceImport) (o : slice_obj) : proc Q bool :=
  slice ← lift (as_slice o);
  _ ← (match getServiceImportFromEndpointSlice localSILister slice with
       | Ret si => modify (Enqueue (Namespace (sim_meta si)) (Name (sim_meta si)))
       | _ => mret ()
       end : proc Q ());
  mret false.

(** An event of a slice is passed to the handlers of the export controller exactly when these find an export to queue. *)
Lemma export_filter_agrees lister s q :
  match export_FilterFunc lister (Obj s) with
  | Ret true => ∃ name se, mget (Labels (es_meta s)) LabelServiceName = Some name ∧ lister (Namespace (es_meta s)) name = inl se ∧
      export_enqueue lister (Obj s) q = (Enqueue (Namespace (sexp_meta se)) (Name (sexp_meta se)) q, Ret ())
  | _ => export_enqueue lister (Obj s) q = (q, Ret ())
  end.
Proof.
  unfold export_FilterFunc, export_enqueue, getServiceExportFromEndpointSlice, mbind, proc_bind, outcome_bind, lift. cbn [as_slice].
  destruct (mget _ _) as [name|] eqn:Em; [|done]. destruct (lister _ name) as [se|e] eqn:El; [|done]. by exists name, se.
Qed.

(** A tombstone panics in both filters. *)
Lemma tombstone_panics seLister siLister key q :
  export_FilterFunc seLister (DeletedFinalStateUnknown key) = Panic ∧
  snd (import_FilterFunc siLister (DeletedFinalStateUnknown key) q) = Panic.
Proof. done. Qed.

(** Slices of the hub queue no import.  The informer of the hub delivers slices of the shared namespace only, and the filter looks for
    the import in the namespace of the slice instead of the one its label names: unless an import of that name lives in
    the shared namespace, nothing is queued, whatever the slice. *)
Theorem hub_slice_queues_nothing siLister s q :
  (∀ name si, siLister (Namespace (es_meta s)) name ≠ inl si) →
  import_FilterFunc siLister (Obj s) q = (q, Ret false).
Proof.
  intros Hno. unfold import_FilterFunc, getServiceImportFromEndpointSlice. cbn [as_slice].
  unfold mbind, proc_bind, lift. destruct (mget _ known_LabelServiceName) as [name|]; [|done].
  destruct (mget _ known_LabelServiceNameSpace); [|done].
  destruct (siLister (Namespace (es_meta s)) name) as [si|e] eqn:E; [|done]. by destruct (Hno name si).
Qed.
End events.

(** ** [agent.go] *)
Definition MaxNamespaceLength : nat := 10.
Definition MaxNameLength : nat := 10.

Record SyncerConfig := mkSyncerConf { LocalClusterID : string; RemoteNamespace : string }.

(** The controllers run once [operatorNamespace] is set. *)
Record Syncer := mkSyncer { sy_conf : SyncerConfig; sy_IPAM : IPAM; sy_export_ns : option string; sy_import_ns : option string }.

Definition New (IsDNS1123Label : string → list string) (spec : Specification) : outcome Syncer :=
  match IsDNS1123Label (spec_ClusterID spec) with
  | [] => Ret (mkSyncer (mkSyncerConf (spec_ClusterID spec) (ShareNamespace spec)) (mkIPAM None) None None)
  | errs => Err (spec_ClusterID spec +:+ " is not a valid ClusterID [" +:+ String.concat " " errs +:+ "]")
  end.

Section start.
Context {W : Type} `{PodClient W} `{ClientGo} `{Ipamer W} `{RandLib} `{PodFinder}.

(** The controllers are started once the range is known to every pod; [imports] is the answer of the multi-cluster API. *)
Definition Start (imports : outcome (list ServiceImport)) (s : Syncer) : proc W Syncer := λ w,
  let cnfPods := match pods_list w FleetboardSystemNamespace LabelCNFPod with inl pods => Ret pods | inr e => Err (err_msg e) end in
  match InitNewCIDR (sy_IPAM s) w imports cnfPods with
  | Ret (w, i, cidr) =>
      (_ ← updateServiceCIDRToCNFPod cidr;
       let ns := RemoteNamespace (sy_conf s) in mret (mkSyncer (sy_conf s) i (Some ns) (Some ns))) w
  | Err e => (w, Err e)
  | Panic => (w, Panic)
  | Spin => (w, Spin)
  end.
End start.

Definition string_take (n : nat) (s : string) : string := String.substring 0 n s.

(** [sha256] is the hash in hexadecimal digits. *)
Definition generateSliceName (sha256 : string → string) (clusterName namespace name : string) : string :=
  let clusterName := clusterName +:+ namespace +:+ name in
  let namespacePart := if (MaxNamespaceLength <? String.length namespace)%nat then string_take MaxNamespaceLength namespace else namespace in
  let namePart := if (MaxNameLength <? String.length name)%nat then string_take MaxNameLength name else name in
  namespacePart +:+ "-" +:+ namePart +:+ "-" +:+ String.substring 8 16 (sha256 clusterName).

Lemma substring_length n m s : (String.length (String.substring n m s) ≤ m)%nat.
Proof.
  revert n m. induction s as [|c s IH]; intros [|n] [|m]; cbn; try lia; [specialize (IH 0%nat m)|specialize (IH n 0%nat)|specialize (IH n (S m))]; lia.
Qed.

(** The name fits the 63 characters of a label, however long its parts are. *)
Theorem generateSliceName_fits sha256 clusterName namespace name :
  (String.length (generateSliceName sha256 clusterName namespace name) ≤ 38)%nat.
Proof.
  assert (Hpart : ∀ s, (String.length (if (10 <? String.length s)%nat then string_take 10 s else s) ≤ 10)%nat).
  { intros s. destruct (Nat.ltb_spec 10 (String.length s)); [apply substring_length|done]. }
  unfold generateSliceName, MaxNamespaceLength, MaxNameLength. rewrite !string_length_app.
  pose proof (Hpart namespace). pose proof (Hpart name).
  pose proof (substring_length 8 16 (sha256 (clusterName +:+ namespace +:+ name))). cbn [String.length]. lia.
Qed.

(** ** From the start on, virtual addresses are distinct *)
Class SyncerFrames (W : Type) `{PodClient W} `{ImportStore W} `{IpamLaws W} := {
  prefix_imports : ∀ w c, si_imports (fst (ipam_NewPrefix w c)) = si_imports w;
  specific_imports : ∀ w c ip, si_imports (fst (ipam_AcquireSpecificIP w c ip)) = si_imports w;
  patch_imports : ∀ w ns n j, si_imports (fst (pods_patch w ns n j)) = si_imports w ∧ ipam_taken (fst (pods_patch w ns n j)) = ipam_taken w
}.

Section started.
Context {W : Type} `{SyncerFrames W} `{ClientGo}.

Definition rest_of (w : W) := (si_imports w, ipam_taken w).

Lemma set_annotations_rest keys vals o w pod : rest_of (fst (fst (SetSpecificAnnotations keys vals o (w, pod)))) = rest_of w.
Proof.
  unfold SetSpecificAnnotations. case_match; [done|]. destruct (RetryOnConflict _ _) as [s r] eqn:E. apply RetryOnConflict_run in E.
  assert (Hs : rest_of (fst s) = rest_of w); [|by destruct r].
  apply retried_once in E.
  - unfold set_annotations_once in E. case_match; [|by simplify_eq].
    match type of E with context [pods_patch w ?a ?b ?c] => pose proof (patch_imports w a b c) as [Hi Ht]; destruct (pods_patch w a b c) as [w1 [e|]] end;
      simplify_eq; unfold rest_of; cbn in *; by rewrite Hi, Ht.
  - intros [w0 p0] s1 e. unfold set_annotations_once. repeat case_match; intros [= <- <-]; done.
Qed.

Lemma keeps_annotate_all cidr pods : keeps rest_of (annotate_all cidr pods : proc W _).
Proof.
  induction pods as [|pod pods IH]; [done|]. intros w. cbn [annotate_all].
  pose proof (set_annotations_rest [FleetboardServiceCIDR] [cidr] true w pod) as Hs.
  destruct (SetSpecificAnnotations _ _ _ _) as [[w1 p1] r]. cbn in Hs. rewrite <- Hs.
  destruct r as [[]|msg| |]; [apply IH| |done..]. exact (keeps_bind rest_of _ (λ errs, mret (msg :: errs)) IH (λ _, keeps_ret rest_of _) w1).
Qed.

Lemma keeps_updateServiceCIDR cidr : keeps rest_of (updateServiceCIDRToCNFPod cidr : proc W ()).
Proof. unfold updateServiceCIDRToCNFPod. keep. apply keeps_annotate_all. Qed.

Lemma wrap_err_Ret {A} msg (o : outcome A) a : wrap_err msg o = Ret a ↔ o = Ret a.
Proof. by destruct o. Qed.

Lemma acquire_each_ok ips p (w w' : W) : acquire_each w p ips = (w', None) →
  NoDup ips ∧ (∀ ip, ip ∈ ips → ip ∉ ipam_taken w) ∧ (∀ ip, ip ∈ ips → ip ∈ ipam_taken w') ∧
  ipam_taken w ⊆ ipam_taken w' ∧ si_imports w' = si_imports w.
Proof.
  revert w. induction ips as [|ip ips IH]; intros w E; cbn [acquire_each] in E.
  { injection E as <-. split_and!; [constructor|intros ? []%elem_of_nil..|done|done]. }
  pose proof (specific_imports w p ip) as Hi. destruct (ipam_AcquireSpecificIP w p ip) as [w1 [r|e]] eqn:Ea; [|done].
  apply ipam_AcquireSpecificIP_ok in Ea as [Hfree Ht]. apply IH in E as (Hnd & Hout & Hin & Hsub & Hs). cbn in Hi. rewrite Ht in *.
  split_and!; [| | | |by rewrite Hs].
  - constructor; [|done]. intros Hip. apply (Hout ip Hip). set_solver.
  - intros x [->|Hx]%elem_of_cons; [done|]. specialize (Hout x Hx). set_solver.
  - intros x [->|Hx]%elem_of_cons; [set_solver|by apply Hin].
  - set_solver.
Qed.
(** The imports as the API lists them: filed under their names, of one of the two types, with no foreign finalizer. *)
Definition imports_listed (w : W) (l : list ServiceImport) : Prop :=
  l ≡ₚ (map_to_list (si_imports w)).*2 ∧
  ∀ k si, si_imports w !! k = Some si → (Namespace (sim_meta si), Name (sim_meta si)) = k ∧
    Forall (eq AppFinalizer) (Finalizers (sim_meta si)) ∧ (sim_Type si = ClusterSetIP ∨ sim_Type si = Headless).

Lemma virtual_ip_vip si : sim_Type si = ClusterSetIP ∨ sim_Type si = Headless → virtual_ip si = vip si.
Proof.
  unfold virtual_ip, vip. destruct (sim_IPs si) as [|ip ips]; [done|].
  intros [->| ->]; destruct (decide (ip = EmptyString)) as [->|Hne]; try reflexivity.
  - rewrite (bool_decide_false _ Hne), (bool_decide_true (_ ∧ _)); [reflexivity|done].
Qed.

Lemma NoDup_omap_lookup {A} (f : A → option string) (l : list A) i j x y ip :
  NoDup (omap f l) → l !! i = Some x → l !! j = Some y → f x = Some ip → f y = Some ip → i = j.
Proof.
  revert i j. induction l as [|a l IH]; intros i j Hnd Hi Hj Hx Hy; [done|]. cbn in Hnd.
  assert (Hin : ∀ k z, l !! k = Some z → f z = Some ip → ip ∈ omap f l).
  { intros k z Hz Hf. apply list_elem_of_omap. exists z. split; [by eapply list_elem_of_lookup_2|done]. }
  destruct i as [|i], j as [|j]; cbn in Hi, Hj; simplify_eq; [done|..].
  - rewrite Hx in Hnd. apply NoDup_cons in Hnd as [Hni _]. by destruct Hni; eapply Hin.
  - rewrite Hy in Hnd. apply NoDup_cons in Hnd as [Hni _]. by destruct Hni; eapply Hin.
  - f_equal. apply IH; [|done..]. destruct (f a); [by apply NoDup_cons in Hnd as [_ ?]|done].
Qed.

(** A start that reaches the controllers has an IPAM that knows every virtual address, and has found no address twice. *)
Lemma Start_establishes `{RandLib} `{PodFinder} l s (w w' : W) s' : imports_listed w l → Start (Ret l) s w = (w', Ret s') →
  vips_ok w' ∧ si_imports w' = si_imports w ∧ is_Some (ipam_prefix (sy_IPAM s')) ∧ sy_import_ns s' = Some (RemoteNamespace (sy_conf s)).
Proof.
  intros [Hl Hf] E. unfold Start in E. destruct (InitNewCIDR _ _ _ _) as [[[w1 i] cidr]| | |] eqn:Ei; try done.
  apply proc_bind_Ret in E as (w2 & [] & Eu & [= <- <-]). pose proof (keeps_updateServiceCIDR cidr w1) as Hk. rewrite Eu in Hk.
  injection Hk as Hi2 Ht2. cbn in Hi2, Ht2.
  assert (Hini : is_Some (ipam_prefix i) ∧ si_imports w1 = si_imports w ∧ NoDup (omap virtual_ip l) ∧ ∀ ip, ip ∈ omap virtual_ip l → ip ∈ ipam_taken w1).
  { unfold InitNewCIDR in Ei. apply bind_Ret in Ei as ([c ips] & Eg & Ei). apply bind_Ret in Ei as (newCIDR & _ & Ei).
    assert (ips = omap virtual_ip l) as ->.
    { apply wrap_err_Ret in Eg. unfold GetServiceCIDR in Eg. cbn [wrap_err mbind outcome_bind] in Eg. destruct (omap virtual_ip l) as [|ip0 r];
        apply bind_Ret in Eg as (? & _ & Eg); by injection Eg. }
    unfold InitPrefix in Ei. pose proof (prefix_imports w newCIDR) as Hp. destruct (ipam_NewPrefix w newCIDR) as [w0 [pre|e]]; [|done]. cbn in Hp.
    unfold InitializeExistingIPs in Ei. destruct (omap virtual_ip l) as [|ip ips] eqn:Eo.
    - cbn in Ei. injection Ei as -> <- _. split_and!; [by eexists|done|constructor|by intros ? []%elem_of_nil].
    - cbn [ipam_prefix deref mbind outcome_bind] in Ei. destruct (acquire_each w0 pre (ip :: ips)) as [w3 [e|]] eqn:Ea; [done|].
      apply acquire_each_ok in Ea as (Hnd & _ & Hin & _ & Hs). injection Ei as -> <- _. split_and!; [by eexists|by rewrite Hs|done|done]. }
  destruct Hini as (Hpre & Hi1 & Hnd & Hin). split_and!; [|by rewrite Hi2|done|done].
  assert (Hlist : ∀ k si, si_imports w !! k = Some si → virtual_ip si = vip si ∧ si ∈ l).
  { intros k si Hk. split; [by apply virtual_ip_vip, (Hf k si Hk)|]. rewrite Hl. apply list_elem_of_fmap. exists (k, si). by rewrite elem_of_map_to_list. }
  split; rewrite Hi2, Hi1.
  - intros k si ip Hsi Hv. rewrite Ht2. destruct (Hlist k si Hsi) as [Heq Hel]. apply Hin, list_elem_of_omap. exists si. by rewrite Heq.
  - intros k k' si si' ip Hsi Hsi' Hv Hv'. destruct (Hlist k si Hsi) as [Heq _], (Hlist k' si' Hsi') as [Heq' _]. rewrite <- Heq in Hv. rewrite <- Heq' in Hv'.
    assert (Hnd' : NoDup (omap virtual_ip (map_to_list (si_imports w)).*2)) by (by rewrite <- Hl).
    rewrite <- elem_of_map_to_list in Hsi, Hsi'. apply list_elem_of_lookup in Hsi as [a Ha], Hsi' as [b Hb].
    assert (a = b) as ->; [|congruence]. eapply (NoDup_omap_lookup virtual_ip _ a b si si' ip Hnd'); [by rewrite list_lookup_fmap, Ha|by rewrite list_lookup_fmap, Hb|done..].
  - intros k si Hsi. by destruct (Hf k si Hsi) as (? & ? & _).
Qed.
End started.

Section reachable.
Context {W : Type} `{PodClient W} `{McsFrames W} `{!SyncerFrames W} `{PatchLib EndpointSlice} `{GoSched} `{ClientGo} `{RandLib} `{PodFinder}.
Hypothesis updates_succeed : ∀ (w : W) ns si, is_Some (si_imports w !! (ns, Name (sim_meta si))) → ∃ w' c, si_update w ns si = (w', inl c).

Definition vips_distinct (w : W) : Prop :=
  ∀ k k' si si' ip, si_imports w !! k = Some si → si_imports w !! k' = Some si' → vip si = Some ip → vip si' = Some ip → k = k'.

(** C34: virtual addresses are distinct.  When the syncer has started its controllers, whatever addresses the existing imports
    claimed, then through every sequence of runs of the import controller and actions of users no two imports hold
    the same address, as long as updates of imports succeed. *)
Theorem started_ips_distinct l s s' (w w' w'' : W) : imports_listed w l → Start (Ret l) s w = (w', Ret s') → rtc mcs_step w' w'' →
  vips_distinct w''.
Proof.
  intros Hl Hs Hrun. apply Start_establishes in Hs as [Hok _]; [|done]. apply (virtual_ips_distinct updates_succeed) in Hrun; [|done].
  exact (vo_distinct _ Hrun).
Qed.
End reachable.

(** A cluster with the imports of [dm_world0], whose IPAM is empty, and no pods. *)
Definition sy_pods : @PodClient demo_mcs demo_json := {|
  pods_get := λ _ _ _, inr (mkErr ReasonNotFound "not found"); pods_list := λ _ _ _, inl []; pods_update := λ w _, (w, None);
  pods_patch := λ w _ _ _, (w, None); nodes_get := λ _ _, inr (mkErr ReasonNotFound "not found") |}.
Definition sy_finder : PodFinder := {| findPods := λ _ _, Ret []; Getenv := λ _, EmptyString |}.
Lemma sy_frames : @SyncerFrames demo_mcs demo_json sy_pods (dm_mcs false) (dm_store false) dm_ipam dm_ipamlaws.
Proof. split; try done. intros w c ip. simpl. by case_bool_decide. Qed.

Definition sy_world0 : demo_mcs := mkDM ∅ (dm_imports (dm_world0 0)) ∅ 0.
Definition sy_syncer : Syncer := mkSyncer (mkSyncerConf "c1" "shared") (mkIPAM None) None None.
Definition sy_listed : list ServiceImport := (map_to_list (dm_imports sy_world0)).*2.
Definition sy_start : demo_mcs * outcome Syncer :=
  @Start _ demo_json sy_pods demo_clientgo dm_ipam demo_rand sy_finder (Ret sy_listed) sy_syncer sy_world0.
Definition sy_started : Syncer := mkSyncer (mkSyncerConf "c1" "shared") (mkIPAM (Some "10.0.0.0/24")) (Some "shared") (Some "shared").

Lemma sy_imports_listed : @imports_listed _ (dm_mcs false) (dm_store false) sy_world0 sy_listed.
Proof.
  split; [done|]. intros k si Hs%(dm_world0_lookup 0). rewrite !elem_of_cons, elem_of_nil in Hs.
  destruct Hs as [[= -> ->]|[[= -> ->]|[[= -> ->]|[]]]]; (split_and!; [done|by repeat constructor|by left]).
Qed.

Lemma started_ips_distinct_witness :
  let w := dm_runs false ["ns/b"; "ns/a"; "ns/c"] (fst sy_start) in
  snd sy_start = Ret sy_started ∧ dm_vip w "b" = Some "10.0.0.2" ∧ dm_vip w "c" = Some "10.0.0.1" ∧
  @vips_distinct _ (dm_mcs false) (dm_store false) w.
Proof.
  assert (E : sy_start = (fst sy_start, Ret sy_started)) by (vm_compute; reflexivity).
  split; [vm_compute; reflexivity|]. split; [vm_compute; reflexivity|]. split; [vm_compute; reflexivity|].
  apply (@started_ips_distinct _ demo_json sy_pods dm_client dm_reader (dm_mcs false) (dm_store false) dm_ipam dm_ipamlaws (dm_frames false) sy_frames
    demo_patch demo_sched demo_clientgo demo_rand sy_finder) with (l := sy_listed) (s := sy_syncer) (s' := sy_started) (w := sy_world0) (w' := fst sy_start).
  - intros w ns si _. simpl. eauto.
  - exact sy_imports_listed.
  - exact E.
  - apply (dm_runs_steps false). vm_compute. reflexivity.
Defined.
