(* ===== verification/CnfCommand.v ===== *)
(** * The command of the CNF pod

    [cmd/cnf/app/cnf.go] ([NewCNFCommand]) and [NewCNFManager] of [pkg/cnf/CNFManager.go]: the options are completed and
    checked, the tunnel device is created and brought up ([CreateAndUpTunnel], [pkg/tunnel/tunnel.go]), the hub is reached and the
    controllers are built.  What the libraries answer while the process comes up is the record [Boot];
    [klog.Fatalf] ends the process: [Panic]. *)
From stdpp Require Import prelude gmap strings list.
From S2P Require Import Prelude NetAddr NetUtil K8s HostPort Utils ServiceCIDR ApiOps Wireguard Tunnels HubConfig CnfManager Syncer.
Open Scope Z_scope.

(** [known.EnvConfig], read from the environment. *)
Record EnvConfig := mkEnv { env_PodName : string; env_NodeName : string; env_Endpoint : string; env_ClusterID : string; env_BootStrapToken : string }.

(** The options and the environment make the specification. *)
Definition with_env (o : Specification) (e : EnvConfig) : Specification :=
  mkSpec (Wireguard.HubSecretNamespace o) (Wireguard.HubSecretName o) (ShareNamespace o) (AsHub o) (AsCluster o) (spec_CIDR o) (HubURL o)
    (env_PodName e) (env_NodeName e) (env_Endpoint e) (env_ClusterID e).

Definition fatal {S A} (p : proc S A) : proc S A := λ s, match p s with (s, Err _) => (s, Panic) | r => r end.

(** The error of a call that only may fail. *)
Definition failing (e : option string) : outcome () := match e with Some e => Err e | None => Ret () end.
Definition answer {A} (r : A + string) : outcome A := match r with inl a => Ret a | inr e => Err e end.

(** [utilerrors.NewAggregate(errs).Error()] of a list with no repetition. *)
Definition aggregate (errs : list string) : string :=
  match errs with [e] => e | _ => "[" +:+ String.concat ", " errs +:+ "]" end.

Section command.
Context `{HubLib}.

Record Boot := mkBoot {
  boot_logs : option string;
  boot_localConfig : ClientConfigOf + string;
  boot_env : EnvConfig + string;
  boot_inner_handler : option string;
  boot_inter_handler : option string;
  boot_NewForConfig : ClientConfigOf → option string;
  boot_dynamic : option string;
  boot_IsDNS1123Label : string → list string }.

Context `{GoRuntime} `{WgTypes} {W : Type} `{WgKernel W} `{PodClient W} `{PeerClient W} `{ClientGo} `{Backoff} `{PatchLib Peer} `{!SecretClient W}.

Definition CreateAndUpTunnel (podName namespace : string) (agentSpec : Specification) : proc W Wireguard :=
  g ← fatal (NewTunnel agentSpec);
  fatal (λ w, let '((g, w), r) := Init podName namespace (g, w) in (w, match r with Ret _ => Ret g | Err e => Err e | Panic => Panic | Spin => Spin end)).

(** The manager and the controllers it has not started yet. *)
Record Built := mkBuilt { b_manager : Manager W; b_hubConfig : ClientConfigOf; b_syncer : Syncer }.

(** [podName] and [namespace] are those of the pod itself, from the environment. *)
Definition NewCNFManager (fuel : nat) (podName namespace : string) (b : Boot) (opts : Specification) : proc W Built :=
  localConfig ← lift (answer (boot_localConfig b));
  env ← lift (answer (boot_env b));
  let agentSpec := with_env opts env in
  g ← CreateAndUpTunnel podName namespace agentSpec;
  _ ← fatal (lift (failing (boot_inner_handler b)));
  hubConfig ← (if AsCluster agentSpec then fatal (GetHubConfig fuel (HubURL agentSpec) (env_BootStrapToken env)) else mret localConfig);
  _ ← fatal (lift (failing (boot_NewForConfig b hubConfig)));
  _ ← fatal (lift (failing (boot_inter_handler b)));
  _ ← fatal (lift (failing (boot_dynamic b)));
  serviceSyncer ← fatal (lift (New (boot_IsDNS1123Label b) agentSpec));
  w ← gets id;
  mret (mkBuilt (mkManager (mkInner g w ∅ [] EmptyString EmptyString EmptyString) ∅ EmptyString [] None false false false) hubConfig serviceSyncer).

(** [RunE]; what is left of it then is the election and the daemon. *)
Definition RunE (fuel : nat) (podName namespace : string) (b : Boot) (o : Specification) : proc W (Built * election) :=
  _ ← lift (failing (boot_logs b));
  let o := Complete o in
  match Validate o with
  | [] =>
      cm ← NewCNFManager fuel podName namespace b o;
      let (m, role) := Run (b_manager cm) in
      mret (mkBuilt m (b_hubConfig cm) (b_syncer cm), role)
  | errs => lift (Err (aggregate errs))
  end.

(** Arguments that are not empty are refused. *)
Definition Args (path : string) (shown : list string → string) (args : list string) : outcome () :=
  if existsb (λ arg, negb (bool_decide (arg = EmptyString))) args
  then Err (path +:+ " does not take any arguments, got " +:+ shown args) else Ret ().
End command.

(** The check of [--cidr] never fails: a hub without a range has got one before. *)
Lemma cidr_always_set o : "--cidr must be specified when run as hub" ∉ Validate (Complete o).
Proof.
  unfold Complete. destruct (AsHub o) eqn:Eh, (bool_decide (spec_CIDR o = EmptyString)) eqn:Ec; cbn [andb]; unfold Validate;
    cbn [AsHub spec_CIDR HubURL ShareNamespace AsCluster Wireguard.HubSecretNamespace Wireguard.HubSecretName]; rewrite ?Eh, ?Ec; cbn [andb negb];
    repeat case_match; set_solver.
Qed.

(** ** A command that comes up *)
Section up.
Context `{HubLib} `{GoRuntime} `{WgTypes} {W : Type} `{WgKernel W} `{PodServer W} `{PeerClient W} `{ClientGo} `{Backoff} `{PatchLib Peer} `{!SecretClient W}.

Lemma fatal_Ret {S A} (p : proc S A) s s' a : fatal p s = (s', Ret a) → p s = (s', Ret a).
Proof. unfold fatal. destruct (p s) as [? [| | |]]; naive_solver. Qed.

(** Secrets are not pods. *)
Class SecretFrames := {
  secrets_create_pods : ∀ w ns s, pods_view (fst (secrets_create w ns s)) = pods_view w;
  secrets_update_pods : ∀ w ns s, pods_view (fst (secrets_update w ns s)) = pods_view w
}.
Context `{!SecretFrames}.

Lemma keeps_store fuel secret : keeps pods_view (storeHubClusterCredentials fuel secret : proc W ()).
Proof.
  induction fuel as [|fuel IH]; intros w; [done|]. cbn [storeHubClusterCredentials].
  assert (Hs : pods_view (fst (store_once secret w)) = pods_view w); [|destruct (store_once secret w) as [w1 []]; [done|by rewrite IH]].
  unfold store_once. pose proof (secrets_create_pods w (sec_Namespace secret) (hub_secret_of secret)) as Hc.
  destruct (secrets_create w _ _) as [w1 [e|]]; [|done]. destruct (IsAlreadyExists e); [|done].
  pose proof (secrets_update_pods w1 (sec_Namespace secret) secret) as Hu. destruct (secrets_update w1 _ _) as [w2 [e'|]]; cbn in *; congruence.
Qed.

Lemma keeps_GetHubConfig fuel url token : keeps pods_view (GetHubConfig fuel url token : proc W _).
Proof.
  unfold GetHubConfig. apply keeps_bind; [|by intros]. intros w. unfold hub_credentials.
  destruct (secrets_get w _ _) as [s|e]; [done|]. destruct (IsNotFound e); [|done]. revert w.
  match goal with |- ∀ w, pods_view (fst (?p w)) = _ => change (keeps pods_view p) end.
  keep. apply keeps_store.
Qed.

(** The tunnel is made for the specification; no step of its making changes that. *)
Lemma keeps_sys_with msg (f : W → W * option SysError) : keeps spec_of (sys_with msg f).
Proof. intros [g w]. unfold sys_with. by repeat case_match. Qed.
Lemma keeps_gen_key msg : keeps spec_of (gen_key msg).
Proof. intros [g w]. unfold gen_key. by repeat case_match. Qed.
Lemma keeps_set_keys k : keeps spec_of (set_keys k : proc (Wireguard * W) ()).
Proof. by intros [g w]. Qed.
#[local] Hint Resolve keeps_sys_with keeps_sys keeps_gen_key keeps_set_keys : keeps.

Lemma NewTunnel_spec spec w w' g : NewTunnel spec w = (w', Ret g) → wg_Spec g = spec.
Proof.
  unfold NewTunnel. match goal with |- match ?p _ with _ => _ end = _ → _ => assert (K : keeps spec_of p) end.
  { unfold setWGLink, setKeyPair. keep. }
  specialize (K (mkWG ∅ ∅ spec (mkKeys [] [] []), w)). match type of K with spec_of (fst (?p ?s)) = _ => destruct (p s) as [[g0' w0] []] end; try done.
  by intros [= <- <-].
Qed.

Definition key_published (podName namespace : string) (g : Wireguard) (w : W) : Prop :=
  (∃ w0 e, pods_get w0 namespace podName = inr e ∧ IsNotFound e = true) ∨
  ∃ pod, pods_view w namespace !! podName = Some pod ∧ annotations pod !! PublicKeyAnnotation = Some (Key_String (PublicKey (wg_Keys g))).

Lemma Init_publishes podName namespace (g g' : Wireguard) (w w' : W) :
  Init podName namespace (g, w) = ((g', w'), Ret ()) → g' = g ∧ key_published podName namespace g w'.
Proof.
  intros (s1 & [] & E1 & (s2 & [] & E2 & (s3 & [] & E3 & (s4 & g4 & [= <- <-] & E)%proc_bind_Ret)%proc_bind_Ret)%proc_bind_Ret)%proc_bind_Ret.
  assert (Hg : fst s3 = g).
  { revert E1 E2 E3. unfold sys, sys_with. repeat case_match; naive_solver. }
  destruct s3 as [g3 w3]. cbn [fst] in Hg. subst g3. unfold on_world, on in E. cbn [fst snd] in E.
  destruct (AddAnnotationToSelf _ _ _ _ _ w3) as [w4 r] eqn:Ea. injection E as <- <- ->. split; [done|].
  apply AddAnnotationToSelf_writes in Ea as [(e & He & Hn & _)|(old & stored & _ & Hv & Ha)]; [left; eauto|right].
  exists stored. rewrite Hv, Ha, !lookup_insert. by rewrite !decide_True.
Qed.

Lemma CreateAndUpTunnel_ok podName namespace spec (w w' : W) g :
  CreateAndUpTunnel podName namespace spec w = (w', Ret g) → wg_Spec g = spec ∧ key_published podName namespace g w'.
Proof.
  intros (w1 & g1 & E1%fatal_Ret%NewTunnel_spec & E2%fatal_Ret)%proc_bind_Ret.
  cbv beta in E2. destruct (Init podName namespace (g1, w1)) as [[g2 w2] [[]| | |]] eqn:Ei; [|done..].
  injection E2 as <- <-. by apply Init_publishes in Ei as [-> Hk].
Qed.

Lemma fatal_lift_Ret {S A} (o : outcome A) (s s' : S) a : fatal (lift o) s = (s', Ret a) → o = Ret a ∧ s' = s.
Proof. by intros ?%fatal_Ret%lift_Ret. Qed.

Lemma answer_Ret {A} (r : A + string) a : answer r = Ret a → r = inl a.
Proof. destruct r; naive_solver. Qed.

(** A CNF that comes up has its specification from the completed options and the environment. *)
Lemma NewCNFManager_ok fuel podName namespace b opts (w w' : W) built :
  NewCNFManager fuel podName namespace b opts w = (w', Ret built) →
  ∃ env local, boot_env b = inl env ∧ boot_localConfig b = inl local ∧
    let spec := with_env opts env in
    let m := b_manager built in
    agent m = spec ∧ in_existingCIDR (m_inner m) = [] ∧ m_currentLeader m = EmptyString ∧
    (AsCluster spec = false → b_hubConfig built = local) ∧
    boot_IsDNS1123Label b (env_ClusterID env) = [] ∧ LocalClusterID (sy_conf (b_syncer built)) = env_ClusterID env ∧
    key_published podName namespace (in_wg (m_inner m)) w'.
Proof.
  intros (w1 & local & [Hl%answer_Ret ->]%lift_Ret & (w2 & env & [He%answer_Ret ->]%lift_Ret & E)%proc_bind_Ret)%proc_bind_Ret.
  apply proc_bind_Ret in E as (w3 & g & [Hs Hk]%CreateAndUpTunnel_ok & (w4 & [] & [_ ->]%fatal_lift_Ret & E)%proc_bind_Ret).
  apply proc_bind_Ret in E as (w5 & hubConfig & Eh & (w6 & [] & [_ ->]%fatal_lift_Ret & (w7 & [] & [_ ->]%fatal_lift_Ret & E)%proc_bind_Ret)%proc_bind_Ret).
  apply proc_bind_Ret in E as (w8 & [] & [_ ->]%fatal_lift_Ret & (w9 & sy & [Hn ->]%fatal_lift_Ret & E)%proc_bind_Ret).
  injection E as <- <-. exists env, local. cbn [b_manager b_hubConfig b_syncer m_inner in_wg in_existingCIDR m_currentLeader].
  assert (Hv : pods_view w5 = pods_view w3 ∧ (AsCluster (with_env opts env) = false → hubConfig = local)).
  { revert Eh. destruct (AsCluster (with_env opts env)).
    - intros E%fatal_Ret. split; [|done]. pose proof (keeps_GetHubConfig fuel (HubURL (with_env opts env)) (env_BootStrapToken env) w3) as K. by rewrite E in K.
    - by intros [= <- <-]. }
  destruct Hv as [Hv Hh]. unfold New in Hn. cbn [spec_ClusterID with_env] in Hn.
  destruct (boot_IsDNS1123Label b (env_ClusterID env)); [|done]. injection Hn as <-.
  split_and!; try done. unfold key_published in *. cbn. by rewrite Hv.
Qed.

(** A command that comes up.  When the command gets to the election, its completed options are valid and the specification is made of
    them and of the environment, the hub is reached with the local configuration where the pod runs as a hub, the name of the cluster is a valid
    label, no range is in use yet, and the public key of the tunnel is in the annotations of the pod, unless the pod does not exist. *)
Theorem command_comes_up fuel podName namespace b o (w w' : W) built role :
  RunE fuel podName namespace b o w = (w', Ret (built, role)) →
  ∃ env local, boot_env b = inl env ∧ boot_localConfig b = inl local ∧ Validate (Complete o) = [] ∧
    let spec := with_env (Complete o) env in
    let m := b_manager built in
    agent m = spec ∧ in_existingCIDR (m_inner m) = [] ∧ m_currentLeader m = EmptyString ∧
    (AsCluster spec = false → b_hubConfig built = local ∧ role = Candidate) ∧
    boot_IsDNS1123Label b (env_ClusterID env) = [] ∧ LocalClusterID (sy_conf (b_syncer built)) = env_ClusterID env ∧
    key_published podName namespace (in_wg (m_inner m)) w'.
Proof.
  intros E. unfold RunE in E. apply proc_bind_Ret in E as (? & [] & E0 & E). apply lift_Ret in E0 as [_ ->].
  destruct (Validate (Complete o)) as [|? ?] eqn:Ev; [|done].
  apply proc_bind_Ret in E as (w1 & cm & (env & local & He & Hl & Ha & Hr & Hc & Hh & Hd & Hi & Hk)%NewCNFManager_ok & E).
  exists env, local.
  assert (R : agent (fst (Run (b_manager cm))) = agent (b_manager cm) ∧
    m_inner (fst (Run (b_manager cm))) = m_inner (b_manager cm) ∧ m_currentLeader (fst (Run (b_manager cm))) = m_currentLeader (b_manager cm) ∧
    (AsCluster (agent (b_manager cm)) = false → snd (Run (b_manager cm)) = Candidate)).
  { unfold Run. by repeat case_match. }
  destruct (Run (b_manager cm)) as [m role']. injection E as <- <- <-. cbn [fst snd b_manager b_hubConfig b_syncer] in *.
  destruct R as (R1 & R2 & R3 & R4). rewrite R1, R2, R3. split_and!; try done. intros Hf. split; [by apply Hh|]. apply R4. by rewrite Ha.
Qed.
End up.
