(* ===== verification/CrossDNS.v ===== *)
(** * The DNS plugin for imported services

    [pkg/plugin/parse.go]: the parts of a query name; [pkg/plugin/crossdns.go]: the answer,
    from the service imports and the endpoint slices of the informer caches;
    [pkg/plugin/setup.go]: the block of the configuration file.  The
    functions of CoreDNS and [miekg/dns] that cut names are the class [DnsLib],
    the message that is written is the result. *)
From Stdlib Require Import Ascii.
From stdpp Require Import prelude gmap strings list.
From S2P Require Import Prelude NetAddr K8s ProxyEndpoints HostPort Utils SliceSync Mcs.
Open Scope Z_scope.

Definition Svc : string := "svc".
Definition Pod_ : string := "pod".
Definition defaultTTL : Z := 5.
Definition TypeA : Z := 1.
Definition TypeAAAA : Z := 28.
Definition TypeSRV : Z := 33.
Definition RcodeSuccess : Z := 0.
Definition RcodeServerFailure : Z := 2.
Definition errInvalidRequest : string := "invalid query name".

(** A question: [QName] as it was asked, [Name] in lower case. *)
Record Request := mkRequest { QName : string; req_Name : string; QType : Z; QClass : Z }.

Class DnsLib := {
  TrimZone : string → string → string;
  SplitDomainName : string → list string;
  Zones_Matches : list string → string → string
}.

(** ** [pkg/plugin/parse.go] *)
Record recordRequest := mkRR {
  rr_port : string; rr_protocol : string; rr_hostname : string; rr_cluster : string; rr_service : string; rr_namespace : string;
  rr_podOrSvc : string }.

Definition recordRequest_String (r : recordRequest) : string :=
  rr_hostname r +:+ ("." +:+ rr_cluster r) +:+ ("." +:+ rr_service r) +:+ ("." +:+ rr_namespace r) +:+ ("." +:+ rr_podOrSvc r).

(** [s[0]] panics on the empty string. *)
Definition stripUnderscore (s : string) : outcome string :=
  match s with
  | EmptyString => Panic
  | String c rest => if bool_decide (c = "_"%char) then Ret rest else Ret s
  end.

(** The request as far as it was filled, and the error. *)
Definition parsed : Type := recordRequest * option string.

Definition parseSegments (segs : list string) (count : nat) (r : recordRequest) (qType : Z) : outcome parsed :=
  let set_cluster c := mkRR (rr_port r) (rr_protocol r) (rr_hostname r) c (rr_service r) (rr_namespace r) (rr_podOrSvc r) in
  if qType =? TypeA then
    match count with
    | 0%nat => c ← index segs 0; Ret (set_cluster c, None)
    | 1%nat => c ← index segs 1; h ← index segs 0;
               Ret (mkRR (rr_port r) (rr_protocol r) h c (rr_service r) (rr_namespace r) (rr_podOrSvc r), None)
    | _ => Ret (r, Some errInvalidRequest)
    end
  else if qType =? TypeSRV then
    match count with
    | 0%nat => c ← index segs 0; Ret (set_cluster c, None)
    | 1%nat => s1 ← index segs 1; protocol ← stripUnderscore s1; s0 ← index segs 0; port ← stripUnderscore s0;
               Ret (mkRR port protocol (rr_hostname r) (rr_cluster r) (rr_service r) (rr_namespace r) (rr_podOrSvc r), None)
    | 2%nat => c ← index segs 2; s1 ← index segs 1; protocol ← stripUnderscore s1; s0 ← index segs 0; port ← stripUnderscore s0;
               Ret (mkRR port protocol (rr_hostname r) c (rr_service r) (rr_namespace r) (rr_podOrSvc r), None)
    | _ => Ret (r, Some errInvalidRequest)
    end
  else Ret (r, None).

Definition parseRequest `{DnsLib} (state : Request) (zone : string) : outcome parsed :=
  let e := EmptyString in
  let r0 := mkRR e e e e e e e in
  let base := TrimZone (req_Name state) zone in
  if bool_decide (base = EmptyString) || bool_decide (base = Svc) || bool_decide (base = Pod_) then Ret (r0, None)
  else
    let segs := SplitDomainName base in
    match reverse segs with
    | [] => Ret (r0, None)
    | podOrSvc :: rest =>
        let r := mkRR e e e e e e podOrSvc in
        if negb (bool_decide (podOrSvc = Pod_)) && negb (bool_decide (podOrSvc = Svc)) then Ret (r, Some errInvalidRequest)
        else match rest with
        | [] => Ret (r, None)
        | [namespace] => Ret (mkRR e e e e e namespace podOrSvc, None)
        | [namespace; service] => Ret (mkRR e e e e service namespace podOrSvc, None)
        | namespace :: service :: others =>
            parseSegments segs (pred (length others)) (mkRR e e e e service namespace podOrSvc) (QType state)
        end
    end.

(** ** [pkg/plugin/crossdns.go] *)
Record DNSRecord := mkDNSRecord { rec_IP : string; rec_HostName : string; rec_ClusterName : string }.
(** An A record: name, class, time to live and address. *)
Record A_RR := mkA { a_Name : string; a_Class : Z; a_Ttl : Z; a_A : IP }.

(** What [ServeDNS] does: pass the query on, or write an authoritative answer, and
    the code and error it returns. *)
Inductive Reply :=
  | NextOrFailure
  | Answered (answer : list A_RR) (rcode : Z) (err : option string)
  | NotAnswered (rcode : Z) (err : string).

Record DnsListers := mkDnsListers {
  si_Get : string → string → ServiceImport + ApiError;
  eps_List : string → gmap string string → list EndpointSlice + ApiError }.

Section serve.
Context `{DnsLib} (l : DnsListers) (zones : list string).

Definition endpoint_record (cluster : string) (endpoint : Endpoint) : outcome DNSRecord :=
  ip ← index (Addresses endpoint) 0; Ret (mkDNSRecord ip EmptyString cluster).
Fixpoint endpoint_records (cluster : string) (eps : list Endpoint) : outcome (list DNSRecord) :=
  match eps with
  | [] => Ret []
  | e :: rest => r ← endpoint_record cluster e; rs ← endpoint_records cluster rest; Ret (r :: rs)
  end.
Fixpoint getAllRecordsFromEndpointslice (slices : list EndpointSlice) : outcome (list DNSRecord) :=
  match slices with
  | [] => Ret []
  | s :: rest =>
      rs ← endpoint_records (mstr (Labels (es_meta s)) LabelClusterID) (es_Endpoints s);
      more ← getAllRecordsFromEndpointslice rest;
      Ret (rs ++ more)
  end.

Definition createARecords (dnsrecords : list DNSRecord) (state : Request) : list A_RR :=
  (λ r, mkA (QName state) (QClass state) defaultTTL (To4 (ParseIP (rec_IP r)))) <$> dnsrecords.

(** [written] tells whether the writer takes the message. *)
Definition respond (written : bool) (answer : list A_RR) : Reply :=
  if written then Answered answer RcodeSuccess None else NotAnswered RcodeServerFailure "failed to write response".
Definition emptyResponse (written : bool) : Reply := respond written [].

Definition service_selector (pReq : recordRequest) : gmap string string :=
  let sel := <[known_LabelServiceNameSpace := rr_namespace pReq]> {[known_LabelServiceName := rr_service pReq]} in
  if bool_decide (rr_cluster pReq = EmptyString) then sel else <[LabelClusterID := rr_cluster pReq]> sel.

Definition getDNSRecord (state : Request) (pReq : recordRequest) (written : bool) : outcome Reply :=
  match si_Get l (rr_namespace pReq) (rr_service pReq) with
  | inr _ => Ret (NotAnswered RcodeServerFailure "failed to write response")
  | inl si =>
      let found : outcome (list DNSRecord + Reply) :=
        if bool_decide (sim_Type si = ClusterSetIP) then
          Ret (inl (match sim_IPs si with [] => [] | ip :: _ => [mkDNSRecord ip EmptyString EmptyString] end))
        else match eps_List l (rr_namespace pReq) (service_selector pReq) with
        | inr _ => Ret (inr (NotAnswered RcodeServerFailure "failed to write response"))
        | inl srcEndpointSliceList => rs ← getAllRecordsFromEndpointslice srcEndpointSliceList; Ret (inl rs)
        end in
      found ← found;
      match found with
      | inr reply => Ret reply
      | inl [] => Ret (emptyResponse written)
      | inl dnsRecords => Ret (respond written (if QType state =? TypeA then createARecords dnsRecords state else []))
      end
  end.

(** The zone in the case of the query: the end of the name. *)
Definition zone_of (qname zone : string) : outcome string :=
  if (String.length qname <? String.length zone)%nat then Panic
  else Ret (String.substring (String.length qname - String.length zone) (String.length zone) qname).

Definition ServeDNS (state : Request) (written : bool) : outcome Reply :=
  let zone := Zones_Matches zones (QName state) in
  if bool_decide (zone = EmptyString) then Ret NextOrFailure
  else if negb (QType state =? TypeA) && negb (QType state =? TypeAAAA) && negb (QType state =? TypeSRV) then Ret NextOrFailure
  else
    zone ← zone_of (QName state) zone;
    '(pReq, pErr) ← parseRequest state zone;
    if bool_decide (pErr ≠ None) || negb (bool_decide (rr_podOrSvc pReq = Svc)) then Ret NextOrFailure
    else getDNSRecord state pReq written.
End serve.

(** ** Names that are built are parsed again *)

(** A label without dots and escapes, and names made of labels. *)
Definition plain_label (s : string) : bool :=
  negb (bool_decide (s = EmptyString)) && negb (has_char "." s) && negb (has_char "\" s).
Abbreviation dotted := (join ".").

Class DnsLaws `{DnsLib} := {
  TrimZone_ok : ∀ ls zs, ls ≠ [] → zs ≠ [] → Forall (λ s, plain_label s = true) (ls ++ zs) →
    TrimZone (dotted ls +:+ "." +:+ dotted zs +:+ ".") (dotted zs +:+ ".") = dotted ls;
  SplitDomainName_ok : ∀ ls, ls ≠ [] → Forall (λ s, plain_label s = true) ls → SplitDomainName (dotted ls) = ls
}.

(** The labels of a request: host and cluster only when they are there. *)
Definition opt_label (s : string) : list string := if bool_decide (s = EmptyString) then [] else [s].
Definition name_labels (r : recordRequest) : list string :=
  opt_label (rr_hostname r) ++ opt_label (rr_cluster r) ++ [rr_service r; rr_namespace r; rr_podOrSvc r].

(** The requests that an A query can make: a host comes with its cluster. *)
Definition a_request (r : recordRequest) : Prop :=
  rr_port r = EmptyString ∧ rr_protocol r = EmptyString ∧ (rr_podOrSvc r = Svc ∨ rr_podOrSvc r = Pod_) ∧
  (rr_hostname r ≠ EmptyString → rr_cluster r ≠ EmptyString) ∧ Forall (λ s, plain_label s = true) (name_labels r).

Lemma dotted_cons a b ls : dotted (a :: b :: ls) = a +:+ "." +:+ dotted (b :: ls).
Proof. done. Qed.

Lemma dotted_dot a b ls : has_char "." (dotted (a :: b :: ls)) = true.
Proof. by rewrite dotted_cons, !has_char_app, orb_true_r. Qed.

Lemma name_labels_dot r : has_char "." (dotted (name_labels r)) = true.
Proof. unfold name_labels, opt_label. repeat case_bool_decide; cbn [app]; apply dotted_dot. Qed.

Section names.
Context `{DnsLaws}.

Lemma parse_name r zs q cls :
  a_request r → zs ≠ [] → Forall (λ s, plain_label s = true) zs →
  parseRequest (mkRequest q (dotted (name_labels r) +:+ "." +:+ dotted zs +:+ ".") TypeA cls) (dotted zs +:+ ".") = Ret (r, None).
Proof.
  intros (Hp & Hpr & Hsvc & Hhost & Hpl) Hzs Hz. unfold parseRequest. cbn [req_Name QType].
  assert (name_labels r ≠ []) as Hne by (unfold name_labels; by destruct (opt_label _), (opt_label _)).
  rewrite TrimZone_ok by (done || by apply Forall_app). rewrite SplitDomainName_ok by done.
  pose proof (name_labels_dot r) as Hdot.
  rewrite !bool_decide_false by (intros E; rewrite E in Hdot; done). cbn [orb].
  assert (negb (bool_decide (rr_podOrSvc r = Pod_)) && negb (bool_decide (rr_podOrSvc r = Svc)) = false) as Hkind.
  { destruct Hsvc as [-> | ->]; reflexivity. }
  destruct r as [port proto host cluster service ns kind].
  cbn [rr_port rr_protocol rr_hostname rr_cluster rr_podOrSvc] in Hp, Hpr, Hhost, Hkind. subst port proto.
  unfold name_labels, opt_label. cbn [rr_hostname rr_cluster rr_service rr_namespace rr_podOrSvc].
  destruct (decide (host = EmptyString)) as [-> |Hh], (decide (cluster = EmptyString)) as [-> |Hc].
  - change (reverse _) with [kind; ns; service]. cbv zeta iota beta. by rewrite Hkind.
  - rewrite (bool_decide_false (cluster = _)) by done. change (reverse _) with [kind; ns; service; cluster]. cbv zeta iota beta. by rewrite Hkind.
  - by destruct (Hhost Hh).
  - rewrite (bool_decide_false (host = _)), (bool_decide_false (cluster = _)) by done.
    change (reverse _) with [kind; ns; service; cluster; host]. cbv zeta iota beta. by rewrite Hkind.
Qed.

(** C16: names are parsed as they are built.  A name [host.cluster.service.namespace.svc],
    or the same without host, or without host and cluster, in front of any zone,
    gives back exactly the parts it was built from; with all parts present this
    is the inverse of [String]. *)
Theorem name_roundtrip r zs q cls :
  a_request r → zs ≠ [] → Forall (λ s, plain_label s = true) zs →
  parseRequest (mkRequest q (dotted (name_labels r) +:+ "." +:+ dotted zs +:+ ".") TypeA cls) (dotted zs +:+ ".") = Ret (r, None) ∧
  (rr_hostname r ≠ EmptyString →
   parseRequest (mkRequest q (recordRequest_String r +:+ "." +:+ dotted zs +:+ ".") TypeA cls) (dotted zs +:+ ".") = Ret (r, None)).
Proof.
  intros Hr Hzs Hz. split; [by apply parse_name|]. intros Hh.
  replace (recordRequest_String r) with (dotted (name_labels r)); [by apply parse_name|].
  destruct Hr as (_ & _ & _ & Hc & _). unfold name_labels, opt_label, recordRequest_String.
  rewrite !bool_decide_false by auto. cbn [app join]. by rewrite <- !string_app_assoc.
Qed.
End names.

(** ** What a query answers *)
Section answers.
Context `{DnsLaws} (l : DnsListers) (zones : list string).

Lemma substring_app (a b : string) : String.substring (String.length a) (String.length b) (a +:+ b) = b.
Proof.
  induction a as [|c a IH].
  - change (EmptyString +:+ b) with b. induction b as [|c b IHb]; [done|]. cbn. by f_equal.
  - rewrite string_app_cons. apply IH.
Qed.

Lemma zone_of_app a z : zone_of (a +:+ z) z = Ret z.
Proof.
  unfold zone_of. rewrite string_length_app. destruct (Nat.ltb_spec (String.length a + String.length z) (String.length z)); [lia|].
  replace (String.length a + String.length z - String.length z)%nat with (String.length a) by lia. by rewrite substring_app.
Qed.

(** The first address of every endpoint. *)
Definition first_addresses (eps : list Endpoint) : list string := omap (λ e, head (Addresses e)) eps.
Definition addressed (slices : list EndpointSlice) : Prop := Forall (λ e, Addresses e ≠ []) (slices ≫= es_Endpoints).

Lemma endpoint_records_ok cluster eps :
  Forall (λ e, Addresses e ≠ []) eps →
  ∃ rs, endpoint_records cluster eps = Ret rs ∧ rec_IP <$> rs = first_addresses eps.
Proof.
  induction eps as [|e eps IH]; [by exists []|]. intros [Ha Hall]%Forall_cons. destruct (IH Hall) as (rs & E & Hrs).
  destruct (Addresses e) as [|a rest] eqn:Ea; [done|]. exists (mkDNSRecord a EmptyString cluster :: rs).
  cbn [endpoint_records]. unfold endpoint_record, index, deref. rewrite Ea, E. cbn. rewrite Ea. cbn. by rewrite Hrs.
Qed.

Lemma all_records_ok slices :
  addressed slices →
  ∃ rs, getAllRecordsFromEndpointslice slices = Ret rs ∧ rec_IP <$> rs = first_addresses (slices ≫= es_Endpoints).
Proof.
  unfold addressed. induction slices as [|s slices IH]; [by exists []|]. rewrite bind_cons. intros [H1' H2']%Forall_app.
  destruct (endpoint_records_ok (mstr (Labels (es_meta s)) LabelClusterID) _ H1') as (rs & E & Hrs).
  destruct (IH H2') as (more & E' & Hmore). exists (rs ++ more). cbn [getAllRecordsFromEndpointslice]. rewrite E, E'. cbn.
  split; [done|]. unfold first_addresses in *. by rewrite fmap_app, omap_app, Hrs, Hmore.
Qed.

(** What a name stands for: the virtual address of an import, or the first address of
    every endpoint of the slices of the service, in the cluster if it is named. *)
Definition resolved (si : ServiceImport) (slices : list EndpointSlice) (r : recordRequest) : list string :=
  if bool_decide (sim_Type si = ClusterSetIP) then take 1 (sim_IPs si)
  else first_addresses (filter (selects (service_selector r)) slices ≫= es_Endpoints).

(** C15: the answer to a query.  An A query for the name of an imported service, in front of
    a configured zone, is answered with success and one record of the name for
    each address the name stands for: the virtual address, or, for a headless
    service, the first addresses of all endpoints in the slices of the service
    (of one cluster when the name has a cluster).  A host name in front selects
    nothing further. *)
Theorem query_answered r zs cls si slices :
  a_request r → rr_podOrSvc r = Svc → zs ≠ [] → Forall (λ s, plain_label s = true) zs →
  let zone := dotted zs +:+ "." in
  let q := dotted (name_labels r) +:+ "." +:+ zone in
  Zones_Matches zones q = zone →
  si_Get l (rr_namespace r) (rr_service r) = inl si →
  (∀ sel, eps_List l (rr_namespace r) sel = inl (filter (selects sel) slices)) → addressed slices →
  ServeDNS l zones (mkRequest q q TypeA cls) true =
    Ret (Answered ((λ ip, mkA q cls 5 (To4 (ParseIP ip))) <$> resolved si slices r) RcodeSuccess None).
Proof.
  intros Hr Hsvc Hzs Hz zone q Hm Hsi Heps Haddr. unfold ServeDNS. cbn [QName QType]. rewrite Hm.
  rewrite bool_decide_false by (intros E; apply (f_equal (has_char ".")) in E; unfold zone in E; rewrite has_char_app, orb_true_r in E; done).
  assert (zone_of q zone = Ret zone) as ->.
  { replace q with ((dotted (name_labels r) +:+ ".") +:+ zone) by (unfold q; by rewrite <- string_app_assoc). apply zone_of_app. }
  assert (parseRequest (mkRequest q q TypeA cls) zone = Ret (r, None)) as Hparse by by apply parse_name.
  change (TypeA =? TypeA) with true. cbn [negb andb mbind outcome_bind]. rewrite Hparse.
  cbn [mbind outcome_bind]. rewrite bool_decide_false by tauto. rewrite Hsvc, bool_decide_true by done.
  cbn [orb negb]. unfold getDNSRecord. rewrite Hsi. cbn [QType]. unfold resolved. case_bool_decide as Ht.
  - cbn [mbind outcome_bind]. destruct (sim_IPs si) as [|ip ips]; done.
  - rewrite Heps. assert (addressed (filter (selects (service_selector r)) slices)) as Haddr'.
    { unfold addressed in *. rewrite Forall_forall in *. intros e (s & He & Hs)%list_elem_of_bind.
      apply Haddr, list_elem_of_bind. apply list_elem_of_filter in Hs as [_ Hs]. eauto. }
    destruct (all_records_ok _ Haddr') as (rs & -> & Hrs). cbn [mbind outcome_bind]. rewrite <- Hrs.
    destruct rs as [|x rs]; [done|]. change (TypeA =? TypeA) with true. do 2 f_equal. unfold createARecords. cbn [QName QClass].
    by rewrite <- list_fmap_compose.
Qed.
End answers.

(** ** A concrete library and a concrete zone, for examples *)
Definition demo_dns : DnsLib := {|
  TrimZone := λ q z, dotted (take (length (split_on "." q) - length (split_on "." z)) (split_on "." q));
  SplitDomainName := λ s, split_on "." s;
  Zones_Matches := λ zones _, default EmptyString (head zones) |}.

Lemma split_dotted ls : ls ≠ [] → Forall (λ s, plain_label s = true) ls → split_on "." (dotted ls) = ls.
Proof.
  intros Hne Hpl. induction Hpl as [|a ls Ha Hpl IH]; [done|]. unfold plain_label in Ha.
  apply andb_true_iff in Ha as [[_ Hd%negb_true_iff]%andb_true_iff _].
  destruct ls as [|b ls]; [by apply split_on_none|]. rewrite dotted_cons.
  change ("." +:+ dotted (b :: ls)) with (String "." (dotted (b :: ls))). by rewrite split_on_app, split_on_none, IH.
Qed.

Lemma split_zone ls : ls ≠ [] → Forall (λ s, plain_label s = true) ls → split_on "." (dotted ls +:+ ".") = ls ++ [EmptyString].
Proof. intros. change "." with (String "." EmptyString). by rewrite split_on_app, split_dotted. Qed.

#[export] Instance demo_dnslaws : @DnsLaws demo_dns.
Proof.
  split; simpl; [|apply split_dotted]. intros ls zs Hl Hz Hall. pose proof Hall as [Hls Hzs]%Forall_app.
  change ("." +:+ dotted zs +:+ ".") with (String "." (dotted zs +:+ ".")).
  rewrite split_on_app, split_dotted, split_zone by done. rewrite !length_app.
  replace (length ls + (length zs + length [EmptyString]) - (length zs + length [EmptyString]))%nat with (length ls) by lia.
  by rewrite take_app_length.
Qed.

Definition demo_request : recordRequest := mkRR EmptyString EmptyString EmptyString "c1" "web" "ns" "svc".

Lemma name_roundtrip_witness :
  @parseRequest demo_dns (mkRequest EmptyString "c1.web.ns.svc.clusterset.local." TypeA 1) "clusterset.local." = Ret (demo_request, None).
Proof.
  refine (proj1 (@name_roundtrip demo_dns demo_dnslaws demo_request ["clusterset"; "local"] EmptyString 1 _ _ _)).
  - repeat split; try reflexivity; [left; reflexivity|intros E; by destruct E|]. apply (bool_decide_unpack (Forall _ _)). vm_compute. exact I.
  - discriminate.
  - apply (bool_decide_unpack (Forall _ _)). vm_compute. exact I.
Defined.

Definition demo_slice_of (cluster : string) (ips : list string) : EndpointSlice :=
  mkSlice (mkMeta cluster EmptyString "ns" EmptyString EmptyString 0 0 None
      (Some (<[LabelClusterID := cluster]> (<[known_LabelServiceNameSpace := "ns"]> {[known_LabelServiceName := "web"]}))) None [] [])
    "IPv4" ((λ ip, mkEp [ip] (Some true) None None None None None None None) <$> ips) [].
Definition demo_cache : list EndpointSlice := [demo_slice_of "c1" ["10.0.0.1"; "10.0.0.2"]; demo_slice_of "c2" ["10.1.0.1"]].
Definition demo_dns_listers : DnsListers :=
  mkDnsListers (λ _ _, inl (mkSImport (mkMeta "web" EmptyString "ns" EmptyString EmptyString 0 0 None None None [] []) [] [] "Headless"))
    (λ _ sel, inl (filter (selects sel) demo_cache)).

Lemma query_answered_witness :
  let q := "c1.web.ns.svc.clusterset.local." in
  @ServeDNS demo_dns demo_dns_listers ["clusterset.local."] (mkRequest q q TypeA 1) true =
    Ret (Answered [mkA q 1 5 [10; 0; 0; 1]; mkA q 1 5 [10; 0; 0; 2]] RcodeSuccess None).
Proof.
  cbv zeta. etransitivity.
  - apply (@query_answered demo_dns demo_dnslaws demo_dns_listers ["clusterset.local."] demo_request ["clusterset"; "local"] 1
      (mkSImport (mkMeta "web" EmptyString "ns" EmptyString EmptyString 0 0 None None None [] []) [] [] "Headless") demo_cache).
    + repeat split; try reflexivity; [left; reflexivity|intros E; by destruct E|]. apply (bool_decide_unpack (Forall _ _)). vm_compute. exact I.
    + reflexivity.
    + discriminate.
    + apply (bool_decide_unpack (Forall _ _)). vm_compute. exact I.
    + vm_compute. reflexivity.
    + reflexivity.
    + reflexivity.
    + repeat constructor; discriminate.
  - vm_compute. reflexivity.
Defined.

(** ** [pkg/plugin/setup.go]

    The controller of caddy hands out the tokens of the configuration file. *)
Class Caddy (C : Type) := {
  Next : C → C * bool;
  NextBlock : C → C * bool;
  RemainingArgs : C → C * list string;
  Val : C → string;
  ServerBlockKeys : C → list string;
  Errf : C → string → string;
  Normalize : string → string
}.

(** The part of the plugin that is read from the file: its zones and [Fall], the arguments of
    the last [fallthrough], if there is one. *)
Record CrossDNSConf := mkConf { Zones : list string; Fall : option (list string) }.

Section setup.
Context {C : Type} `{Caddy C}.

Fixpoint parse_block (fuel : nat) (fall : option (list string)) : proc C (option (list string)) := λ c,
  match fuel with
  | O => (c, Spin)
  | S fuel =>
      match NextBlock c with
      | (c, false) => (c, Ret fall)
      | (c, true) =>
          if bool_decide (Val c = "fallthrough") then
            let (c, args) := RemainingArgs c in parse_block fuel (Some args) c
          else if bool_decide (Val c = "}") then parse_block fuel fall c
          else (c, Err (Errf c ("unknown property '" +:+ Val c +:+ "'")))
      end
  end.

(** [cfg] is the error of [buildKubeConfigFunc], if there is one. *)
Definition CrossDNSParse (fuel : nat) (cfg : option string) : proc C CrossDNSConf := λ c,
  match cfg with
  | Some err => (c, Err ("error building kubeconfig: " +:+ err))
  | None =>
      match Next c with
      | (c, false) => (c, Ret (mkConf [] None))
      | (c, true) =>
          let (c, args) := RemainingArgs c in
          let zones := match args with [] => ServerBlockKeys c | _ => args end in
          (fall ← parse_block fuel None; mret (mkConf (Normalize <$> zones) fall)) c
      end
  end.
Definition setup (fuel : nat) (cfg : option string) : proc C CrossDNSConf :=
  handle (CrossDNSParse fuel cfg) (λ r, match r with inl cd => mret cd | inr err => lift (Err ("plugin/crossdns: " +:+ err)) end).
End setup.

(** The controller reads a block line by line: [block] is what is left of it, a line its property and
    its arguments. *)
Class CaddyBlock (C : Type) `{Caddy C} := {
  block : C → list (string * list string);
  NextBlock_end : ∀ c, block c = [] → (NextBlock c).2 = false;
  NextBlock_line : ∀ c v args rest, block c = (v, args) :: rest → v ≠ "}" →
    (NextBlock c).2 = true ∧ Val (NextBlock c).1 = v ∧
    (RemainingArgs (NextBlock c).1).2 = args ∧ block (RemainingArgs (NextBlock c).1).1 = rest
}.

Section block.
Context {C : Type} `{CaddyBlock C}.
Implicit Type b : list (string * list string).

(** A block of [fallthrough] lines gives the arguments of the last; any other property is reported, the first of them. *)
Lemma parse_block_ok fuel fall c : (length (block c) < fuel)%nat → (∀ d, d ∈ block c → d.1 ≠ "}") →
  match list_find (λ d, d.1 ≠ "fallthrough") (block c) with
  | Some (_, d) => ∃ c', (parse_block fuel fall c).2 = Err (Errf c' ("unknown property '" +:+ d.1 +:+ "'"))
  | None => (parse_block fuel fall c).2 = Ret (match last (block c) with Some d => Some d.2 | None => fall end)
  end.
Proof.
  revert fall c. induction fuel as [|fuel IH]; intros fall c Hf Hb; [lia|]. cbn [parse_block].
  destruct (block c) as [|[v args] rest] eqn:E.
  - pose proof (NextBlock_end c E) as Hn. destruct (NextBlock c) as [c' r]. cbn in Hn. by subst r.
  - destruct (NextBlock_line c v args rest E) as (Hn & Hv & Ha & Hr); [by apply (Hb (v, args)); left|].
    destruct (NextBlock c) as [c1 r]. cbn in Hn, Hv, Ha, Hr. subst r. rewrite Hv.
    cbn [list_find]. destruct (decide (v = "fallthrough")) as [->|Hne].
    + rewrite (bool_decide_true (_ = _)) by done. rewrite (decide_False (P := "fallthrough" ≠ "fallthrough")) by naive_solver.
      destruct (RemainingArgs c1) as [c2 a]. cbn in Ha, Hr. subst a.
      specialize (IH (Some args) c2). rewrite Hr in IH. cbn in Hf.
      assert (IH' := IH ltac:(lia) ltac:(set_solver)). clear IH. destruct (list_find _ rest) as [[i d]|]; [done|].
      cbn [fmap option_fmap option_map]. rewrite IH', last_cons. by destruct (last rest).
    + rewrite !bool_decide_false by (try done; by apply (Hb (v, args)); left). cbn. rewrite decide_True by done. by exists c1.
Qed.

(** The plugin serves the zones it is given, or those of its server block, and falls through for the last such
    line; a block with any other property is refused. *)
Theorem CrossDNSParse_ok fuel c c1 c2 args : Next c = (c1, true) → RemainingArgs c1 = (c2, args) →
  (length (block c2) < fuel)%nat → (∀ d, d ∈ block c2 → d.1 ≠ "}") →
  ((∀ d, d ∈ block c2 → d.1 = "fallthrough") ∧
   (CrossDNSParse fuel None c).2 = Ret (mkConf (Normalize <$> match args with [] => ServerBlockKeys c2 | _ => args end) (snd <$> last (block c2)))) ∨
  ∃ d err, d ∈ block c2 ∧ d.1 ≠ "fallthrough" ∧ (CrossDNSParse fuel None c).2 = Err err.
Proof.
  intros En Er Hf Hb. unfold CrossDNSParse. rewrite En, Er. unfold mbind, proc_bind.
  pose proof (parse_block_ok fuel None c2 Hf Hb) as Hp. destruct (list_find _ (block c2)) as [[i d]|] eqn:El.
  - right. destruct Hp as [c' Hp]. apply list_find_Some in El as (Hi & Hd & _). exists d. eexists.
    split_and!; [by eapply list_elem_of_lookup_2|done|]. destruct (parse_block fuel None c2) as [c3 o]. cbn in Hp. by subst o.
  - left. apply list_find_None in El. split.
    + intros d Hd. rewrite Forall_forall in El. specialize (El d Hd). by apply dec_stable.
    + destruct (parse_block fuel None c2) as [c3 o]. cbn in Hp. by subst o.
Qed.
End block.
