(* ===== verification/Dedinic.v ===== *)
(** * The second interface of the pods

    [pkg/dedinic]: when the container runtime starts a pod, the daemon takes an address
    from the node's range, makes a veth pair between the pod and the bridge,
    configures the pod's end and records the address in the pod's annotations
    ([cni_handler.go], [netlink.go], [ipam.go]); [nri.go] routes the events of the
    runtime; [waitForCIDRReady] of [pkg/cnf/CNFManager.go] fills the globals.  The
    kernel is the class [NicKernel], in which every call names the network
    namespace it runs in; the host-local IPAM plugin is the class [HostLocal]. *)
From Stdlib Require Import Ascii.
From stdpp Require Import prelude gmap strings list.
From S2P Require Import Prelude NetAddr NetUtil K8s HostPort Utils ServiceCIDR ApiOps Wireguard.
Open Scope Z_scope.
Open Scope go_scope.

Definition DediNIC : string := "eth-fleet".
Definition CNFBridgeName : string := "fleetboard".
Definition CNIProviderName : string := "fleetboard".

(** ** [type.go] and the globals of [nri.go] *)
Record CniRoute := mkCniRoute { Destination : string; Gateway : string }.
Record CniRequest := mkCniRequest {
  rq_PodName : string; rq_PodNamespace : string; rq_ContainerID : string; rq_NetNs : string; rq_Routes : list CniRoute;
  rq_IfName : string; rq_Provider : string }.
Record Globals := mkGlobals {
  NodeCIDR : string; TunnelCIDR : string; g_ServiceCIDR : string; CNFPodName : string; CNFPodNamespace : string; CNFPodIP : string;
  CNFBridgeIP : string }.

(** ** The kernel *)
Inductive LinkKind := BridgeLink | VethLink (peer : string) | OtherLink.
Record Link := mkLink { link_Name : string; link_Kind : LinkKind; link_Up : bool; link_Index : Z }.
(** An address of a link: [IPNet.String()] and whether it is link-local. *)
Record Addr := mkAddr { addr_String : string; addr_LinkLocal : bool }.
#[export] Instance Addr_eq_dec : EqDecision Addr.
Proof. solve_decision. Defined.
#[export] Instance Addr_countable : Countable Addr.
Proof. refine (inj_countable' (λ a, (addr_String a, addr_LinkLocal a)) (λ p, mkAddr p.1 p.2) _). by intros []. Defined.
Record NicRoute := mkNicRoute { nr_Dst : option IPNet; nr_Gw : option IP; nr_LinkIndex : Z }.

(** The namespace of the daemon is the empty string, that of a pod its path. *)
Class NicKernel (W : Type) := {
  nl_LinkByName : W → string → string → Link + string;
  nl_LinkList : W → string → list Link + string;
  nl_LinkAddVeth : W → string → string → W * option string;
  nl_LinkAddBridge : W → string → W * option string;
  nl_LinkDel : W → string → string → W * option string;
  nl_LinkSetUp : W → string → string → W * option string;
  nl_LinkSetMaster : W → string → string → W * option string;
  nl_LinkSetAlias : W → string → string → W * option string;
  nl_LinkSetNs : W → string → string → W * option string;
  nl_LinkSetName : W → string → string → string → W * option string;
  nl_AddrList : W → string → string → list Addr + string;
  nl_AddrDel : W → string → string → Addr → W * option string;
  nl_AddrAdd : W → string → string → Addr → W * option string;
  nl_ParseAddr : string → Addr + string;
  nl_RouteReplace : W → string → NicRoute → W * option string;
  ns_Open : W → string → option string;
  ns_Get : W → option string;
  ns_Set : W → string → option string;
  ns_Enter : W → string → option string
}.

(** The configuration of the host-local plugin and its allocator, one per range. *)
Record IPAMConfig := mkIPAMConfig { ic_Name : string; ic_DataDir : string; ic_IPArgs : list IP; ic_Ranges : list string }.
(** An allocator of the store: the number of its range, its range. *)
Definition IPAllocator : Type := nat * string.
Class HostLocal (W : Type) := {
  LoadIPAMConfig : string → IPAMConfig + string;
  disk_New : W → string → string → option string;
  range_Contains : string → IP → bool;
  alloc_Get : W → IPAllocator → string → string → option IP → W * (string + string);
  alloc_Release : W → IPAllocator → string → string → W * option string
}.

(** A call that only can fail. *)
Definition act {W} (wrap : string → string) (f : W → W * option string) : proc W () := λ w,
  match f w with (w, None) => (w, Ret ()) | (w, Some e) => (w, Err (wrap e)) end.
Definition look {W A} (wrap : string → string) (f : W → A + string) : proc W A := λ w,
  match f w with inl a => (w, Ret a) | inr e => (w, Err (wrap e)) end.

(** Slicing of a string: out of range panics. *)
Definition slice_string (s : string) (a b : Z) : outcome string :=
  if (0 <=? a) && (a <=? b) && (b <=? Z.of_nat (String.length s))
  then Ret (String.substring (Z.to_nat a) (Z.to_nat (b - a)) s) else Panic.

(** ** [netlink.go] *)
Definition nic_pair (prefix : string) : string * string := (prefix +:+ "_h", prefix +:+ "_c").
Definition generateNicName (containerID ifname : string) : outcome (string * string) :=
  if bool_decide (ifname = "eth0") then
    id ← slice_string containerID 0 12; Ret (nic_pair id)
  else
    ifname ← (if String.prefix "pod" ifname && (String.length ifname =? 14)%nat
              then slice_string ifname 3 (Z.of_nat (String.length ifname) - 4) else Ret ifname);
    id ← slice_string containerID 0 (12 - Z.of_nat (String.length ifname));
    Ret (nic_pair (id +:+ "_" +:+ ifname)).

Definition GetSubNetMask (cidr : string) : outcome string :=
  match split_on "/" cidr with
  | _ :: mask :: _ => Ret mask
  | _ => Err "can not get subnet"
  end.

Section nic.
Context `{GoRuntime} {W : Type} `{NicKernel W}.

(** When the pair cannot be made, the link of that name is deleted. *)
Definition setupVethPair (containerID ifName : string) : proc W (string * string) :=
  '(hostNicName, containerNicName) ← lift (generateNicName containerID ifName);
  try act id (λ w, nl_LinkAddVeth w hostNicName containerNicName) as r in
  match r with
  | inl _ => mret (hostNicName, containerNicName)
  | inr _ => _ ← act id (λ w, nl_LinkDel w EmptyString hostNicName); lift (Err "failed to create veth for <nil>")
  end.

(** The addresses that [configureNic] removes: those the link has, less the wanted ones. *)
Definition present_addrs (addrs : list Addr) : gmap string Addr :=
  foldl (λ m a, if addr_LinkLocal a then m else <[addr_String a := a]> m) ∅ addrs.
Fixpoint wanted_addrs (ips : list string) (ipDelMap ipAddMap : gmap string Addr) : outcome (gmap string Addr * gmap string Addr) :=
  match ips with
  | [] => Ret (ipDelMap, ipAddMap)
  | ipStr :: rest =>
      if bool_decide (is_Some (ipDelMap !! ipStr)) then wanted_addrs rest (delete ipStr ipDelMap) ipAddMap
      else match nl_ParseAddr ipStr with
           | inl ipAddr => wanted_addrs rest ipDelMap (<[ipStr := ipAddr]> ipAddMap)
           | inr e => Err ("can not parse address " +:+ ipStr +:+ ": " +:+ e)
           end
  end.
Fixpoint each_addr (f : Addr → W → W * option string) (wrap : Addr → string → string) (l : list (string * Addr)) : proc W () :=
  match l with
  | [] => mret ()
  | (_, a) :: rest => _ ← act (wrap a) (f a); each_addr f wrap rest
  end.

Definition configureNic (ns link ip : string) : proc W () :=
  nodeLink ← look (λ e, "can not find nic " +:+ link +:+ ": " +:+ e) (λ w, nl_LinkByName w ns link);
  _ ← (if link_Up nodeLink then mret ()
       else act (λ e, "can not set node nic " +:+ link +:+ " up: " +:+ e) (λ w, nl_LinkSetUp w ns link));
  ipAddrs ← look (λ e, "can not get addr " +:+ link +:+ ": " +:+ e) (λ w, nl_AddrList w ns link);
  '(ipDelMap, ipAddMap) ← lift (wanted_addrs (split_on "," ip) (present_addrs ipAddrs) ∅);
  _ ← each_addr (λ a w, nl_AddrDel w ns link a) (λ a e, "delete address " +:+ addr_String a +:+ ": " +:+ e) (go_range ipDelMap);
  each_addr (λ a w, nl_AddrAdd w ns link a)
    (λ a e, "can not add address " +:+ addr_String a +:+ " to nic " +:+ link +:+ ": " +:+ e) (go_range ipAddMap).

(** The bridge gets the first address of the node's range; the global [CNFBridgeIP] is
    given back on success only, since the caller ends the process on an error. *)
Definition CreateBridge (g : Globals) (bridgeName : string) : proc W Globals :=
  _ ← (λ w, match nl_LinkByName w EmptyString bridgeName with
            | inl _ => act (λ e, "remove existing link failed: " +:+ e) (λ w, nl_LinkDel w EmptyString bridgeName) w
            | inr _ => (w, Ret ())
            end) : proc W ();
  _ ← act (λ e, "could not add " +:+ bridgeName +:+ ": " +:+ e) (λ w, nl_LinkAddBridge w bridgeName);
  _ ← look (λ e, "could not find bridge " +:+ bridgeName +:+ ": " +:+ e) (λ w, nl_LinkByName w EmptyString bridgeName);
  _ ← act (λ e, "could not set up " +:+ bridgeName +:+ ": " +:+ e) (λ w, nl_LinkSetUp w EmptyString bridgeName);
  bridgeIP ← lift (wrap_err "get index ip failed" (GetIndexIPFromCIDR (NodeCIDR g) 1));
  subNetMask ← lift (GetSubNetMask (NodeCIDR g));
  try configureNic EmptyString CNFBridgeName (bridgeIP +:+ "/" +:+ subNetMask) as r in
  match r with
  | inr e => lift (Err ("br add ip failed: " +:+ e))
  | inl _ => mret (mkGlobals (NodeCIDR g) (TunnelCIDR g) (g_ServiceCIDR g) (CNFPodName g) (CNFPodNamespace g) (CNFPodIP g) bridgeIP)
  end.

(** The type assertion on the bridge panics. *)
Definition addVethToBridge (vethName bridgeName : string) : proc W () :=
  _ ← act id (λ w, (w, ns_Get w));
  bridgeLink ← look (λ e, "could not find bridge " +:+ bridgeName +:+ ": " +:+ e) (λ w, nl_LinkByName w EmptyString bridgeName);
  _ ← look (λ e, "could not find veth " +:+ vethName +:+ ": " +:+ e) (λ w, nl_LinkByName w EmptyString vethName);
  _ ← lift (match link_Kind bridgeLink with BridgeLink => Ret () | _ => Panic end);
  _ ← act (λ e, "could not attach " +:+ vethName +:+ " to bridge " +:+ bridgeName +:+ ": " +:+ e)
        (λ w, nl_LinkSetMaster w vethName bridgeName);
  act (λ e, "could not set up " +:+ vethName +:+ ": " +:+ e) (λ w, nl_LinkSetUp w EmptyString vethName).

(** A destination or gateway that does not parse skips the route, an error of the
    kernel is logged. *)
Definition nic_route (idx : Z) (r : CniRoute) : option NicRoute :=
  let dst := if bool_decide (Destination r = EmptyString) then Some None
             else match ParseCIDR (Destination r) with Ret (_, dst) => Some (Some dst) | _ => None end in
  let gw := if bool_decide (Gateway r = EmptyString) then Some None
            else if bool_decide (ParseIP (Gateway r) = []) then None else Some (Some (ParseIP (Gateway r))) in
  match dst, gw with Some dst, Some gw => Some (mkNicRoute dst gw idx) | _, _ => None end.
Fixpoint nic_routes (ns : string) (idx : Z) (routes : list CniRoute) : proc W () :=
  match routes with
  | [] => mret ()
  | r :: rest =>
      _ ← match nic_route idx r with
          | Some route => ignore_err (act id (λ w, nl_RouteReplace w ns route))
          | None => mret ()
          end;
      nic_routes ns idx rest
  end.

Definition configureContainerNic (nicName ifName ipAddr : string) (routes : list CniRoute) (netns : string) : proc W () :=
  containerLink ← look (λ e, "can not find container nic " +:+ nicName +:+ ": " +:+ e) (λ w, nl_LinkByName w EmptyString nicName);
  _ ← act id (λ w, nl_LinkSetAlias w nicName nicName);
  _ ← act (λ e, "failed to move link to netns: " +:+ e) (λ w, nl_LinkSetNs w nicName netns);
  _ ← act id (λ w, (w, ns_Enter w netns));
  _ ← act id (λ w, nl_LinkSetName w netns nicName ifName);
  _ ← configureNic netns ifName ipAddr;
  nic_routes netns (link_Index containerLink) routes.
End nic.

(** ** [ipam.go] *)
Section ipam.
Context `{GoRuntime} {W : Type} `{HostLocal W}.

Fixpoint release_all (rq : CniRequest) (allocs : list IPAllocator) : proc W () :=
  match allocs with
  | [] => mret ()
  | a :: rest => _ ← ignore_err (act id (λ w, alloc_Release w a (rq_ContainerID rq) (rq_IfName rq))); release_all rq rest
  end.

Definition requested_ips (args : list IP) : gmap string IP := foldl (λ m ip, <[IP_String ip := ip]> m) ∅ args.

(** The first requested address, in the order of [range], that lies in the range. *)
Definition pick_requested (rangeSet : string) (requestedIPs : gmap string IP) : option (string * IP) :=
  list_find (λ e, range_Contains rangeSet e.2 = true) (go_range requestedIPs) ≫= λ f, Some f.2.

Fixpoint alloc_ranges (rq : CniRequest) (idx : nat) (ranges : list string) (requestedIPs : gmap string IP)
    (allocs : list IPAllocator) (ips : list string) : proc W (gmap string IP * list IPAllocator * list string) :=
  match ranges with
  | [] => mret (requestedIPs, allocs, ips)
  | rangeSet :: rest =>
      let picked := pick_requested rangeSet requestedIPs in
      let requestedIPs := match picked with Some (k, _) => delete k requestedIPs | None => requestedIPs end in
      try call id (λ w, alloc_Get w (idx, rangeSet) (rq_ContainerID rq) (rq_IfName rq) (snd <$> picked)) as r in
      match r with
      | inr err => _ ← release_all rq allocs; lift (Err ("failed to allocate for range " +:+ Itoa (Z.of_nat idx) +:+ ": " +:+ err))
      | inl ipConf => alloc_ranges rq (S idx) rest requestedIPs (allocs ++ [(idx, rangeSet)]) (ips ++ [ipConf])
      end
  end.

(** The addresses of the result; its routes are not used. *)
Definition GetIP (rq : CniRequest) (ipamConfStr : string) : proc W (list string) :=
  ipamConf ← look id (λ _, LoadIPAMConfig ipamConfStr);
  _ ← act id (λ w, (w, disk_New w (ic_Name ipamConf) (ic_DataDir ipamConf)));
  '(requestedIPs, allocs, ips) ← alloc_ranges rq 0 (ic_Ranges ipamConf) (requested_ips (ic_IPArgs ipamConf)) [] [];
  if bool_decide (requestedIPs = ∅) then mret ips
  else _ ← release_all rq allocs;
       lift (Err (foldl (λ errstr e, errstr +:+ " " +:+ IP_String e.2) "failed to allocate all requested IPs:" (go_range requestedIPs))).

Fixpoint release_ranges (rq : CniRequest) (idx : nat) (ranges : list string) (errorMesgs : list string) : proc W (list string) :=
  match ranges with
  | [] => mret errorMesgs
  | rangeset :: rest =>
      try act id (λ w, alloc_Release w (idx, rangeset) (rq_ContainerID rq) (rq_IfName rq)) as r in
      release_ranges rq (S idx) rest (match r with inl _ => errorMesgs | inr err => errorMesgs ++ [err] end)
  end.
Definition DelIP (rq : CniRequest) (ipamConfStr : string) : proc W () :=
  ipamConf ← look id (λ _, LoadIPAMConfig ipamConfStr);
  _ ← act id (λ w, (w, disk_New w (ic_Name ipamConf) (ic_DataDir ipamConf)));
  errorMesgs ← release_ranges rq 0 (ic_Ranges ipamConf) [];
  match errorMesgs with [] => mret () | _ => lift (Err (join ";" errorMesgs)) end.
End ipam.

(** ** [cni_handler.go] *)
(** [cniConf] with the node's range: the text around the [%s]. *)
Definition nl : string := String "010" EmptyString.
Definition dq : string := String "034" EmptyString.
Definition quoted (s : string) : string := dq +:+ s +:+ dq.
Definition cniConf (subnet : string) : string :=
  join nl ["{"; "    " +:+ quoted "cniVersion" +:+ ": " +:+ quoted "0.3.1" +:+ ",";
    "    " +:+ quoted "name" +:+ ": " +:+ quoted "dedicate-cni" +:+ ",";
    "    " +:+ quoted "ipam" +:+ ": {"; "        " +:+ quoted "type" +:+ ": " +:+ quoted "host-local" +:+ ",";
    "        " +:+ quoted "ranges" +:+ ": ["; "            ["; "                {";
    "                    " +:+ quoted "subnet" +:+ ": " +:+ quoted subnet;
    "                }"; "            ]"; "        ]"; "    }"; "}"; EmptyString].
Record cniHandler := mkCniHandler { cniConfStr : string }.
Definition createCniHandler (g : Globals) : cniHandler := mkCniHandler (cniConf (NodeCIDR g)).

Definition isCNFSelf (g : Globals) (podNamespace podName : string) : bool :=
  (bool_decide (podName = CNFPodName g) && bool_decide (podNamespace = CNFPodNamespace g))
  || (bool_decide (podNamespace = CNFPodNamespace g) && bool_decide (is_Some (String.index 0 "cnf" podName))).

Section handler.
Context `{GoRuntime} {W : Type} `{NicKernel W} `{HostLocal W} `{PodClient W}.

(** An error of [addVethToBridge] is only logged. *)
Definition handler_configureNic (netns containerID ifName ip : string) (routes : list CniRoute) : proc W () :=
  '(hostNicName, containerNicName) ← setupVethPair containerID ifName;
  if bool_decide (containerNicName = EmptyString) then mret ()
  else
    _ ← act (λ e, "failed to open netns " +:+ quoted netns +:+ ": " +:+ e) (λ w, (w, ns_Open w netns));
    _ ← ignore_err (addVethToBridge hostNicName CNFBridgeName);
    configureContainerNic containerNicName ifName ip routes netns.

Definition updateTheIPToPod (podName podNamespace ip : string) : proc W () :=
  pod ← call err_msg (λ w, (w, pods_get w podNamespace podName));
  act id (λ w, match pods_update w (with_annotations (<[FleetboardParallelIP := ip]> (annotations pod)) pod) with
               | (w, None) => (w, None) | (w, Some e) => (w, Some (err_msg e)) end).

(** [ip.IPs[0]] panics when [GetIP] gave no address: on an error [ip] is nil. *)
Definition handleAdd (g : Globals) (ch : cniHandler) (rq : CniRequest) : proc W () :=
  if isCNFSelf g (rq_PodNamespace rq) (rq_PodName rq) then mret ()
  else
    try GetIP rq (cniConfStr ch) as ip in
    match ip with
    | inl (ipStr :: _) =>
        let routes := [mkCniRoute (TunnelCIDR g) (CNFBridgeIP g); mkCniRoute (g_ServiceCIDR g) (CNFBridgeIP g)] in
        _ ← ignore_err (handler_configureNic (rq_NetNs rq) (rq_ContainerID rq) (rq_IfName rq) ipStr routes);
        updateTheIPToPod (rq_PodName rq) (rq_PodNamespace rq) (default EmptyString (head (split_on "/" ipStr)))
    | _ => lift Panic
    end.

(** What [deleteNic] does to the link: an error of [LinkDel] is logged. *)
Definition deleteNic (podPath ifName : string) : proc W () :=
  _ ← act id (λ w, (w, ns_Open w podPath));
  _ ← act id (λ w, (w, ns_Get w));
  _ ← act id (λ w, (w, ns_Set w podPath));
  links ← look id (λ w, nl_LinkList w podPath);
  match list_find (λ l, link_Name l = ifName) links with
  | None => mret ()
  | Some (_, iface) =>
      match link_Kind iface with
      | VethLink _ => ignore_err (act id (λ w, nl_LinkDel w podPath ifName))
      | _ => mret ()
      end
  end.

Definition handleDel (g : Globals) (ch : cniHandler) (rq : CniRequest) : proc W () :=
  if isCNFSelf g (rq_PodNamespace rq) (rq_PodName rq) then
    br ← look id (λ w, nl_LinkByName w EmptyString CNFBridgeName);
    act id (λ w, nl_LinkDel w EmptyString (link_Name br))
  else
    _ ← DelIP rq (cniConfStr ch);
    deleteNic (rq_NetNs rq) (rq_IfName rq).
End handler.

(** ** [nri.go] *)
Record LinuxNamespace := mkLinuxNamespace { lns_Type : string; lns_Path : string }.
Record PodSandbox := mkPodSandbox {
  sb_Id : string; sb_Name : string; sb_Namespace : string; sb_Linux : option (list LinuxNamespace) }.

(** The first network namespace; [pod.Linux] may be nil. *)
Definition GetNSPathFromPod (pod : PodSandbox) : outcome string :=
  match sb_Linux pod with
  | None => Panic
  | Some namespaces =>
      let nsPath := match list_find (λ ns, lns_Type ns = "network") namespaces with Some (_, ns) => lns_Path ns | None => EmptyString end in
      if bool_decide (nsPath = EmptyString)
      then Err ("nsPath is empty for pod: " +:+ sb_Namespace pod +:+ "/" +:+ sb_Name pod) else Ret nsPath
  end.

Definition sandbox_request (pod : PodSandbox) (nsPath provider : string) : CniRequest :=
  mkCniRequest (sb_Name pod) (sb_Namespace pod) (sb_Id pod) nsPath [] DediNIC provider.

Section nri.
Context `{GoRuntime} {W : Type} `{NicKernel W} `{HostLocal W} `{PodClient W}.
Variables (g : Globals) (csh : cniHandler).

(** The pods that already run when the plugin starts get a new interface. *)
Fixpoint Synchronize (pods : list PodSandbox) : proc W () :=
  match pods with
  | [] => mret ()
  | pod :: rest =>
      _ ← (if isCNFSelf g (sb_Namespace pod) (sb_Name pod) then mret ()
           else try lift (GetNSPathFromPod pod) as r in
                match r with
                | inr _ => mret ()
                | inl nsPath =>
                    _ ← ignore_err (handleDel g csh (sandbox_request pod nsPath EmptyString));
                    ignore_err (handleAdd g csh (sandbox_request pod nsPath EmptyString))
                end);
      Synchronize rest
  end.

Definition RunPodSandbox (pod : PodSandbox) : proc W () :=
  nsPath ← lift (GetNSPathFromPod pod); handleAdd g csh (sandbox_request pod nsPath CNIProviderName).
Definition StopPodSandbox (pod : PodSandbox) : proc W () :=
  nsPath ← lift (GetNSPathFromPod pod); handleDel g csh (sandbox_request pod nsPath EmptyString).
Definition RemovePodSandbox (_ : PodSandbox) : proc W () := mret ().
End nri.

(** ** [waitForCIDRReady] and [dedinicEngine] of [pkg/cnf/CNFManager.go] *)
Definition cidr_ready (g : Globals) : bool :=
  bool_decide (NodeCIDR g ≠ EmptyString) && bool_decide (TunnelCIDR g ≠ EmptyString)
  && bool_decide (CNFPodIP g ≠ EmptyString) && bool_decide (g_ServiceCIDR g ≠ EmptyString).
Definition read_pod (g : Globals) (pod : Pod) : Globals :=
  mkGlobals (mstr (Annotations (pod_meta pod)) FleetboardNodeCIDR) (mstr (Annotations (pod_meta pod)) FleetboardTunnelCIDR)
    (mstr (Annotations (pod_meta pod)) FleetboardServiceCIDR) (CNFPodName g) (CNFPodNamespace g) (pod_PodIP pod) (CNFBridgeIP g).

(** The answers of the server, one for each turn of the loop; the loop still waits
    ([Spin]) when they are used up. *)
Fixpoint waitForCIDRReady (answers : list (Pod + ApiError)) (g : Globals) : outcome Globals :=
  if cidr_ready g then Ret g
  else match answers with
       | [] => Spin
       | a :: rest => waitForCIDRReady rest (match a with inl pod => read_pod g pod | inr _ => g end)
       end.

(** [klog.Fatalf] ends the process: [Panic].  The globals and the handler with which the
    plugin then runs; [os.Getenv] gives the name and the namespace of the pod. *)
Definition dedinicEngine `{GoRuntime} {W : Type} `{NicKernel W} (podName podNamespace : string) (answers : list (Pod + ApiError)) (g : Globals) :
    proc W (Globals * cniHandler) :=
  if bool_decide (podName = EmptyString) || bool_decide (podNamespace = EmptyString) then lift Panic
  else
    g ← lift (waitForCIDRReady answers
                (mkGlobals (NodeCIDR g) (TunnelCIDR g) (g_ServiceCIDR g) podName podNamespace (CNFPodIP g) (CNFBridgeIP g)));
    try CreateBridge g CNFBridgeName as r in
    match r with
    | inr _ => lift Panic
    | inl g => mret (g, createCniHandler g)
    end.

(** ** What the kernel and the plugin do

    The addresses of a link are a set; the calls of [netlink] that succeed change
    them as their names say. *)
Class NicLaws (W : Type) `{NicKernel W} := {
  nic_addrs : W → string → string → gset Addr;
  AddrList_ok : ∀ w ns l addrs, nl_AddrList w ns l = inl addrs → nic_addrs w ns l = list_to_set addrs;
  AddrDel_ok : ∀ w ns l a w', nl_AddrDel w ns l a = (w', None) → nic_addrs w' ns l = nic_addrs w ns l ∖ {[a]};
  AddrAdd_ok : ∀ w ns l a w', nl_AddrAdd w ns l a = (w', None) → nic_addrs w' ns l = nic_addrs w ns l ∪ {[a]};
  LinkSetUp_ok : ∀ w ns l w', nl_LinkSetUp w ns l = (w', None) → nic_addrs w' ns l = nic_addrs w ns l
}.

(** The leases of the plugin's store: the allocator, the container and the interface. *)
Definition Lease : Type := IPAllocator * string * string.
Class HostLocalLaws (W : Type) `{HostLocal W} := {
  leases : W → gset Lease;
  Get_ok : ∀ w a c i rq w' ip, alloc_Get w a c i rq = (w', inl ip) → leases w' = leases w ∪ {[(a, c, i)]};
  Get_err : ∀ w a c i rq w' e, alloc_Get w a c i rq = (w', inr e) → leases w' = leases w;
  Release_ok : ∀ w a c i w', alloc_Release w a c i = (w', None) → leases w' = leases w ∖ {[(a, c, i)]}
}.

(** The leases of a request, one per range. *)
Fixpoint allocators (idx : nat) (ranges : list string) : list IPAllocator :=
  match ranges with [] => [] | r :: rest => (idx, r) :: allocators (S idx) rest end.
Definition leases_of (rq : CniRequest) (allocs : list IPAllocator) : gset Lease :=
  list_to_set ((λ a, (a, rq_ContainerID rq, rq_IfName rq)) <$> allocs).

Lemma act_Ret {W} wrap (f : W → W * option string) w w' : act wrap f w = (w', Ret ()) → f w = (w', None).
Proof. unfold act. destruct (f w) as [? [?|]]; naive_solver. Qed.
Lemma look_Ret {W A} wrap (f : W → A + string) w w' a : look wrap f w = (w', Ret a) → f w = inl a ∧ w' = w.
Proof. unfold look. destruct (f w); naive_solver. Qed.

(** Take a computation of the kernel that succeeded apart. *)
Ltac inv_proc H :=
  repeat match type of H with
  | (_ ≫= _) _ = (_, Ret _) =>
      let w := fresh "w" in let a := fresh "a" in let E := fresh "E" in apply proc_bind_Ret in H as (w & a & E & H)
  end;
  repeat match goal with
  | E : act _ _ _ = (_, Ret ?u) |- _ => destruct u; apply act_Ret in E
  | E : look _ _ _ = (_, Ret _) |- _ => apply look_Ret in E as [E ->]
  | E : lift _ _ = (_, Ret _) |- _ => apply lift_Ret in E as [E ->]
  end.

Section nic_theorems.
Context `{GoRuntime} {W : Type} `{NicLaws W}.

Lemma each_addr_del ns l wrap L w w' :
  each_addr (λ a w, nl_AddrDel w ns l a) wrap L w = (w', Ret ()) → nic_addrs w' ns l = nic_addrs w ns l ∖ list_to_set L.*2.
Proof.
  revert w. induction L as [|[k a] L IH]; intros w E; simpl in *.
  - injection E as <-. set_solver.
  - inv_proc E. rewrite (IH _ E), (AddrDel_ok _ _ _ _ _ E0). set_solver.
Qed.
Lemma each_addr_add ns l wrap L w w' :
  each_addr (λ a w, nl_AddrAdd w ns l a) wrap L w = (w', Ret ()) → nic_addrs w' ns l = nic_addrs w ns l ∪ list_to_set L.*2.
Proof.
  revert w. induction L as [|[k a] L IH]; intros w E; simpl in *.
  - injection E as <-. set_solver.
  - inv_proc E. rewrite (IH _ E), (AddrAdd_ok _ _ _ _ _ E0). set_solver.
Qed.

Lemma present_addrs_spec addrs k a :
  present_addrs addrs !! k = Some a ↔ a ∈ addrs ∧ addr_LinkLocal a = false ∧ addr_String a = k.
Proof.
  unfold present_addrs. induction addrs as [|b addrs IH] using rev_ind.
  - simpl. rewrite lookup_empty. set_solver.
  - rewrite foldl_snoc. destruct (addr_LinkLocal b) eqn:Eb.
    + rewrite IH, elem_of_app, list_elem_of_singleton. naive_solver congruence.
    + rewrite lookup_insert_Some, IH, elem_of_app, list_elem_of_singleton. split.
      * intros [[<- <-]|[? (?&?&?)]]; auto.
      * intros ([Ha| ->] & El & <-); [|by left].
        destruct (decide (addr_String b = addr_String a)) as [E|]; [left|right; auto].
        split; [done|]. destruct a, b; simpl in *; congruence.
Qed.

Lemma decide_cons {A} `{EqDecision A} {B} (k ip : A) (ips : list A) (x y : B) :
  (if decide (k ∈ ip :: ips) then x else y) = if decide (k = ip) then x else if decide (k ∈ ips) then x else y.
Proof.
  destruct (decide (k = ip)) as [->|Hne]; [by rewrite decide_True by left|].
  destruct (decide (k ∈ ips)) as [Hk|Hk]; [by rewrite decide_True by (by right)|].
  rewrite decide_False; [done|]. by intros [?|?]%elem_of_cons.
Qed.

(** What the two maps hold once the wanted addresses have been read. *)
Lemma wanted_addrs_spec ips del add del' add' :
  wanted_addrs ips del add = Ret (del', add') →
  (∀ k, del' !! k = if decide (k ∈ ips) then None else del !! k) ∧
  (∀ k a, add' !! k = Some a → add !! k = Some a ∨ (k ∈ ips ∧ nl_ParseAddr k = inl a)) ∧
  (∀ k, k ∈ ips → is_Some (del !! k) ∨ is_Some (add' !! k)) ∧
  (∀ k, is_Some (add !! k) → is_Some (add' !! k)).
Proof.
  revert del add. induction ips as [|ip ips IH]; intros del add; simpl.
  { intros [= <- <-]. repeat split; auto; set_solver. }
  case_bool_decide as Hd.
  - intros (Hdel & Hadd & Hin & Hmon)%IH. split_and!.
    + intros k. rewrite Hdel, decide_cons. destruct (decide (k = ip)) as [->|].
      * rewrite lookup_delete_eq. by case_decide.
      * by rewrite lookup_delete_ne.
    + intros k a [?|[??]]%Hadd; [by left|right]. split; [by right|done].
    + intros k [->|Hk]%elem_of_cons; [by left|]. destruct (Hin k Hk) as [Hk'|]; [left|by right].
      destruct (decide (ip = k)) as [->|]; [done|]. by rewrite lookup_delete_ne in Hk'.
    + done.
  - destruct (nl_ParseAddr ip) as [a0|] eqn:Ep; [|done]. intros (Hdel & Hadd & Hin & Hmon)%IH. split_and!.
    + intros k. rewrite Hdel, decide_cons. destruct (decide (k = ip)) as [->|]; [|done].
      case_decide; [done|]. by apply eq_None_not_Some.
    + intros k a [[[<- <-]|[? ?]]%lookup_insert_Some|[??]]%Hadd; [right|by left|right]; split; try done; set_solver.
    + intros k [->|Hk]%elem_of_cons; [right|by apply Hin]. apply Hmon. rewrite lookup_insert_eq. eauto.
    + intros k Hk. apply Hmon. destruct (decide (ip = k)) as [->|]; [rewrite lookup_insert_eq; eauto|by rewrite lookup_insert_ne].
Qed.

Lemma elem_of_range_values {A} (m : gmap string A) a : a ∈ (go_range m).*2 ↔ ∃ k, m !! k = Some a.
Proof.
  rewrite list_elem_of_fmap. split.
  - intros ([k b] & -> & E%elem_of_go_range). eauto.
  - intros [k E]. exists (k, a). by rewrite elem_of_go_range.
Qed.

Definition canonical_addrs (ips : list string) : Prop :=
  ∀ ip, ip ∈ ips → ∃ a, nl_ParseAddr ip = inl a ∧ addr_String a = ip ∧ addr_LinkLocal a = false.

Lemma addr_ext (a b : Addr) : addr_String a = addr_String b → addr_LinkLocal a = addr_LinkLocal b → a = b.
Proof. destruct a, b; simpl; congruence. Qed.

(** The two maps that are read off the present addresses and the wanted strings say
    which addresses the link has in the end. *)
Lemma wanted_addrs_final addrs ips del add a :
  wanted_addrs ips (present_addrs addrs) ∅ = Ret (del, add) → canonical_addrs ips →
  (a ∈ addrs ∧ a ∉ (go_range del).*2) ∨ a ∈ (go_range add).*2 ↔ if addr_LinkLocal a then a ∈ addrs else addr_String a ∈ ips.
Proof.
  intros (Hdel & Hadd & Hin & _)%wanted_addrs_spec Hc. rewrite !elem_of_range_values.
  assert (HD : (∃ k, del !! k = Some a) ↔ a ∈ addrs ∧ addr_LinkLocal a = false ∧ addr_String a ∉ ips).
  { split.
    - intros [k Hk]. rewrite Hdel in Hk. case_decide; [done|]. apply present_addrs_spec in Hk as (?&?&<-). done.
    - intros (?&?&?). exists (addr_String a). rewrite Hdel, decide_False by done. by apply present_addrs_spec. }
  assert (HA : ∀ k b, add !! k = Some b → k ∈ ips ∧ addr_String b = k ∧ addr_LinkLocal b = false).
  { intros k b [E|[Hk Hp]]%Hadd; [by rewrite lookup_empty in E|]. destruct (Hc k Hk) as (b' & ? & ? & ?).
    assert (b' = b) as -> by congruence. done. }
  rewrite HD. destruct (addr_LinkLocal a) eqn:El.
  - split; [|by left; naive_solver]. intros [[? _]|[k (_&_&?)%HA]]; congruence.
  - split.
    + intros [[Ha Hn]|[k (?&<-&_)%HA]]; [|done]. destruct (decide (addr_String a ∈ ips)); naive_solver.
    + intros Hs. destruct (Hin _ Hs) as [[b (?&?&?)%present_addrs_spec]|[b Hb]].
      * left. rewrite <- (addr_ext b a) by congruence. naive_solver congruence.
      * right. destruct (HA _ _ Hb) as (_&?&?). rewrite <- (addr_ext b a) by congruence. eauto.
Qed.

(** C36: [configureNic].  When it succeeds, the addresses of the link that are not
    link-local are exactly the wanted ones, those that were there for another
    reason are gone, and the link-local ones are untouched. *)
Theorem configureNic_exact ns link ip w w' :
  configureNic ns link ip w = (w', Ret ()) → canonical_addrs (split_on "," ip) →
  ∀ a, a ∈ nic_addrs w' ns link ↔
    if addr_LinkLocal a then a ∈ nic_addrs w ns link else addr_String a ∈ split_on "," ip.
Proof.
  intros E Hc a. unfold configureNic in E. inv_proc E.
  assert (nic_addrs w1 ns link = nic_addrs w ns link) as Hup.
  { destruct (link_Up a0); [by injection E1 as ->|]. destruct a1. apply act_Ret in E1. eauto using LinkSetUp_ok. }
  apply AddrList_ok in E2. destruct a3 as [del add]. inv_proc E.
  destruct a3. apply each_addr_del in E4. apply each_addr_add in E.
  apply (wanted_addrs_final _ _ _ _ a) in E3; [|done].
  destruct (addr_LinkLocal a); rewrite <- ?Hup, E, E4, elem_of_union, elem_of_difference, E2, !elem_of_list_to_set; exact E3.
Qed.
End nic_theorems.

Section ipam_theorems.
Context `{GoRuntime} {W : Type} `{HostLocalLaws W}.
Implicit Types (rq : CniRequest) (allocs : list IPAllocator) (w : W).

Lemma leases_of_app rq l1 l2 : leases_of rq (l1 ++ l2) = leases_of rq l1 ∪ leases_of rq l2.
Proof. unfold leases_of. by rewrite fmap_app, list_to_set_app_L. Qed.

(** Releases of the store that never fail. *)
Definition release_reliable : Prop := ∀ w a c i, ∃ w', alloc_Release w a c i = (w', None).

Lemma release_all_leases rq allocs w :
  release_reliable → ∃ w', release_all rq allocs w = (w', Ret ()) ∧ leases w' = leases w ∖ leases_of rq allocs.
Proof.
  intros Hr. revert w. induction allocs as [|a allocs IH]; intros w.
  { exists w. split; [done|]. set_solver. }
  destruct (Hr w a (rq_ContainerID rq) (rq_IfName rq)) as [w1 E]. destruct (IH w1) as (w' & Er & El).
  exists w'. split.
  - cbn [release_all]. unfold mbind, proc_bind, ignore_err, handle, act. by rewrite E.
  - rewrite El, (Release_ok _ _ _ _ _ E). set_solver.
Qed.

Lemma release_ranges_leases rq idx ranges errs w :
  release_reliable →
  ∃ w', release_ranges rq idx ranges errs w = (w', Ret errs) ∧ leases w' = leases w ∖ leases_of rq (allocators idx ranges).
Proof.
  intros Hr. revert idx w. induction ranges as [|r ranges IH]; intros idx w.
  { exists w. split; [done|]. set_solver. }
  destruct (Hr w (idx, r) (rq_ContainerID rq) (rq_IfName rq)) as [w1 E]. destruct (IH (S idx) w1) as (w' & Er & El).
  exists w'. split.
  - cbn [release_ranges]. unfold handle, act. by rewrite E.
  - rewrite El, (Release_ok _ _ _ _ _ E). set_solver.
Qed.

(** The loop over the ranges: all of them are leased, or every lease it took is given back. *)
Lemma alloc_ranges_leases rq idx ranges req allocs ips w w' r :
  release_reliable → alloc_ranges rq idx ranges req allocs ips w = (w', r) →
  match r with
  | Ret (_, allocs', ips') =>
      allocs' = allocs ++ allocators idx ranges ∧ length ips' = (length ips + length ranges)%nat ∧
      leases w' = leases w ∪ leases_of rq (allocators idx ranges)
  | Err _ => ∃ extra, leases w' = leases w ∖ leases_of rq (allocs ++ extra)
  | _ => False
  end.
Proof.
  intros Hr. revert idx req allocs ips w. induction ranges as [|rs ranges IH]; intros idx req allocs ips w; cbn [alloc_ranges allocators].
  { intros [= <- <-]. rewrite app_nil_r, Nat.add_0_r. split_and!; [done..|set_solver]. }
  unfold handle, call. destruct (alloc_Get _ _ _ _ _) as [w1 [ip|e]] eqn:Eg; intros E.
  - apply IH in E. apply Get_ok in Eg. destruct r as [[[? allocs'] ips']| | |]; try done.
    + destruct E as (-> & Hl & ->). rewrite <- app_assoc, Eg, Hl, length_app. split_and!; [done|simpl; lia|].
      unfold leases_of. simpl. set_solver.
    + destruct E as [extra ->]. exists ((idx, rs) :: extra). rewrite Eg, <- app_assoc. unfold leases_of.
      rewrite !fmap_app, !list_to_set_app_L. simpl. set_solver.
  - destruct (release_all_leases rq allocs w1 Hr) as (w2 & Er & El). revert E. unfold mbind, proc_bind. rewrite Er.
    intros [= <- <-]. exists []. by rewrite app_nil_r, El, (Get_err _ _ _ _ _ _ _ Eg).
Qed.

(** C39: [GetIP].  Where releases of the store do not fail, a request that had no lease gets
    one for every range and as many addresses, or an error and no lease at
    all: what was allocated before the failing range is given back. *)
Theorem GetIP_all_or_nothing rq conf w w' r :
  release_reliable → (∀ a, (a, rq_ContainerID rq, rq_IfName rq) ∉ leases w) → GetIP rq conf w = (w', r) →
  match r with
  | Ret ips => ∃ c, LoadIPAMConfig conf = inl c ∧ length ips = length (ic_Ranges c) ∧
                 leases w' = leases w ∪ leases_of rq (allocators 0 (ic_Ranges c))
  | Err _ => leases w' = leases w
  | _ => False
  end.
Proof.
  intros Hr Hn. unfold GetIP, mbind, proc_bind, look, act.
  assert (Hd : ∀ allocs, leases w ∖ leases_of rq allocs = leases w).
  { intros allocs. apply set_eq. intros l. rewrite elem_of_difference. split; [by intros [? _]|]. intros Hl. split; [done|].
    unfold leases_of. rewrite elem_of_list_to_set, list_elem_of_fmap. intros (a & -> & _). by apply (Hn a). }
  destruct (LoadIPAMConfig conf) as [c|e]; [|by intros [= <- <-]].
  destruct (disk_New _ _ _); [by intros [= <- <-]|].
  destruct (alloc_ranges _ _ _ _ _ _ _) as [w1 o] eqn:Ea. apply alloc_ranges_leases in Ea; [|done].
  destruct o as [[[req allocs] ips]|e| |]; try done.
  - destruct Ea as (-> & Hl & Hw). case_bool_decide.
    + intros [= <- <-]. eauto.
    + destruct (release_all_leases rq ([] ++ allocators 0 (ic_Ranges c)) w1 Hr) as (w2 & Er & El). rewrite Er.
      intros [= <- <-]. rewrite El, Hw. rewrite <- (Hd (allocators 0 (ic_Ranges c))) at 2. set_solver.
  - destruct Ea as [extra Hw]. intros [= <- <-]. by rewrite Hw, Hd.
Qed.
End ipam_theorems.

(** ** The names of the interfaces *)
Lemma length_substring n m s : (n + m ≤ String.length s)%nat → String.length (String.substring n m s) = m.
Proof.
  revert n m. induction s as [|c s IH]; intros n m; simpl.
  - intros. destruct n, m; simpl; lia.
  - destruct n as [|n]; [destruct m as [|m]; simpl; [done|]; intros; rewrite IH by lia; lia|]. intros. apply IH. lia.
Qed.

Lemma slice_string_ok s a b :
  0 ≤ a ≤ b → b ≤ Z.of_nat (String.length s) →
  slice_string s a b = Ret (String.substring (Z.to_nat a) (Z.to_nat (b - a)) s) ∧
  String.length (String.substring (Z.to_nat a) (Z.to_nat (b - a)) s) = Z.to_nat (b - a).
Proof.
  intros Ha Hb. unfold slice_string. split.
  - destruct (Z.leb_spec 0 a), (Z.leb_spec a b), (Z.leb_spec b (Z.of_nat (String.length s))); simpl; (done || lia).
  - apply length_substring. lia.
Qed.

Lemma length_append (a b : string) : String.length (a +:+ b) = (String.length a + String.length b)%nat.
Proof. induction a; simpl; auto. Qed.

Lemma nic_pair_neq p : (nic_pair p).1 ≠ (nic_pair p).2.
Proof. simpl. intros E. by apply (inj (String.append p)) in E. Qed.

(** [generateNicName].  For the identifier of a container, of 12 characters or more, and an
    interface name of at most 12 characters or in the form of KubeVirt, the
    two names exist, differ, and fit the 15 characters of a Linux interface. *)
Theorem generateNicName_fits containerID ifname :
  (12 ≤ String.length containerID)%nat →
  (String.length ifname ≤ 12 ∨ (String.prefix "pod" ifname = true ∧ String.length ifname = 14))%nat →
  ∃ host container, generateNicName containerID ifname = Ret (host, container) ∧ host ≠ container ∧
    (String.length host ≤ 15 ∧ String.length container ≤ 15)%nat.
Proof.
  intros Hc Hi. unfold generateNicName.
  assert (Hfit : ∀ p : string, (String.length p ≤ 13)%nat → ∃ host container, Ret (nic_pair p) = Ret (host, container) ∧ host ≠ container ∧
    (String.length host ≤ 15 ∧ String.length container ≤ 15)%nat).
  { intros p Hp. exists (nic_pair p).1, (nic_pair p).2. split; [done|]. split; [apply nic_pair_neq|].
    simpl. rewrite !length_append. simpl. lia. }
  case_bool_decide.
  { destruct (slice_string_ok containerID 0 12) as [-> Hl]; [lia..|]. apply Hfit. rewrite Hl. lia. }
  assert (Hs : ∃ s, (if String.prefix "pod" ifname && (String.length ifname =? 14)%nat
      then slice_string ifname 3 (Z.of_nat (String.length ifname) - 4) else Ret ifname) = Ret s ∧ (String.length s ≤ 12)%nat).
  { destruct (String.prefix "pod" ifname) eqn:Ep, (Nat.eqb_spec (String.length ifname) 14) as [El|El]; simpl;
      try (exists ifname; split; [done|]; naive_solver lia).
    destruct (slice_string_ok ifname 3 (Z.of_nat (String.length ifname) - 4)) as [-> Hl]; [lia..|]. eexists. split; [done|]. lia. }
  destruct Hs as (s & -> & Hs). cbn [mbind outcome_bind].
  destruct (slice_string_ok containerID 0 (12 - Z.of_nat (String.length s))) as [-> Hl]; [lia..|]. cbn [mbind outcome_bind].
  apply Hfit. rewrite !length_append, Hl. simpl. lia.
Qed.

Lemma generateNicName_fits_witness :
  ∃ host container, generateNicName "0123456789abcdef" "pod0123456789a" = Ret (host, container) ∧ host ≠ container ∧
    (String.length host ≤ 15 ∧ String.length container ≤ 15)%nat.
Proof. apply (generateNicName_fits "0123456789abcdef" "pod0123456789a"); [simpl; lia|right; split; reflexivity]. Defined.

Lemma append_inj_len (a b c d : string) : String.length a = String.length c → a +:+ b = c +:+ d → a = c.
Proof. revert c. induction a as [|x a IH]; intros [|y c]; simpl; try done. intros [= Hl] [= -> E]. f_equal. eauto. Qed.

Lemma generateNicName_DediNIC c : generateNicName c DediNIC = (id ← slice_string c 0 3; Ret (nic_pair (id +:+ "_" +:+ DediNIC))).
Proof. done. Qed.

(** The interface of the pods is [eth-fleet]: three characters of the identifier are
    left, and two containers that share them get the same names. *)
Theorem dedicated_names_collide c1 c2 :
  (3 ≤ String.length c1)%nat → (3 ≤ String.length c2)%nat →
  generateNicName c1 DediNIC = generateNicName c2 DediNIC ↔ String.substring 0 3 c1 = String.substring 0 3 c2.
Proof.
  intros H1 H2. destruct (slice_string_ok c1 0 3) as [E1 L1], (slice_string_ok c2 0 3) as [E2 L2]; [lia..|].
  change (Z.to_nat 0) with 0%nat in *. change (Z.to_nat (3 - 0)) with 3%nat in *.
  rewrite !generateNicName_DediNIC, E1, E2. cbn [mbind outcome_bind]. split; [|by intros ->].
  intros E%(inj Ret). apply (f_equal fst) in E. cbn [fst nic_pair] in E. rewrite <- !string_app_assoc in E.
  apply append_inj_len in E; [done|]. congruence.
Qed.

(** ** The wait for the ranges *)
(** [waitForCIDRReady] ends exactly when the server answers with a pod that carries the
    three ranges and an address, and then the globals are those of the
    first such pod. *)
Theorem waitForCIDRReady_first answers g g' :
  cidr_ready g = false →
  waitForCIDRReady answers g = Ret g' ↔
  ∃ before pod after, answers = before ++ inl pod :: after ∧ cidr_ready (read_pod g pod) = true ∧ g' = read_pod g pod ∧
    ∀ p, inl p ∈ before → cidr_ready (read_pod g p) = false.
Proof.
  revert g. induction answers as [|a answers IH]; intros g Hg; cbn [waitForCIDRReady]; rewrite Hg.
  { split; [done|]. intros (before & pod & after & E & _). by destruct before. }
  assert (Hrr : ∀ p q, read_pod (read_pod g q) p = read_pod g p) by done.
  destruct a as [q|e]; [destruct (cidr_ready (read_pod g q)) eqn:Eq|].
  - assert (waitForCIDRReady answers (read_pod g q) = Ret (read_pod g q)) as -> by (destruct answers; cbn; by rewrite Eq).
    split; [intros [= <-]; exists [], q, answers; split_and!; try done; set_solver|].
    intros (before & pod & after & E & Hp & -> & Hb). destruct before as [|b before]; simplify_eq/=; [done|].
    rewrite (Hb q) in Eq by left. done.
  - rewrite IH by done. split; intros (before & pod & after & E & Hp & Eg & Hb).
    + exists (inl q :: before), pod, after. subst answers g'. rewrite Hrr in *. split_and!; try done.
      intros p [[= ->]|Hin]%elem_of_cons; [done|]. by apply (Hb p).
    + destruct before as [|b before]; simplify_eq/=; [congruence|]. exists before, pod, after. split_and!; try done.
      intros p Hin. apply (Hb p). by right.
  - rewrite IH by done. split; intros (before & pod & after & E & Hp & Eg & Hb).
    + exists (inr e :: before), pod, after. subst answers. split_and!; try done.
      intros p [?|Hin]%elem_of_cons; [done|]. by apply Hb.
    + destruct before as [|b before]; simplify_eq/=. exists before, pod, after. split_and!; try done.
      intros p Hin. apply Hb. by right.
Qed.

(** ** A concrete node, for examples

    The links by namespace and name, the leases with their addresses (at most two) and
    the API server.  Deleting one end of a pair deletes the other. *)
Record demo_link := mkDemoLink { dl_kind : LinkKind; dl_idx : Z; dl_peer : option Z; dl_addrs : gset Addr }.
Record demo_node := mkDemoNode { dn_links : gmap (string * string) demo_link; dn_leases : gmap Lease string; dn_api : demo_api; dn_next : Z }.
Definition set_links (m : gmap (string * string) demo_link) (n : demo_node) : demo_node := mkDemoNode m (dn_leases n) (dn_api n) (dn_next n).
Definition set_leases (m : gmap Lease string) (n : demo_node) : demo_node := mkDemoNode (dn_links n) m (dn_api n) (dn_next n).
Definition demo_Link (n : string) (l : demo_link) : Link := mkLink n (dl_kind l) true (dl_idx l).
Definition set_dl_addrs (f : gset Addr → gset Addr) (l : demo_link) : demo_link := mkDemoLink (dl_kind l) (dl_idx l) (dl_peer l) (f (dl_addrs l)).
Definition on_link (w : demo_node) (ns n : string) (f : demo_link → demo_node) : demo_node * option string :=
  match dn_links w !! (ns, n) with Some l => (f l, None) | None => (w, Some "no such device") end.
Definition node_move (w : demo_node) (from to : string * string) : demo_node * option string :=
  match dn_links w !! from with
  | Some l => (set_links (<[to := l]> (delete from (dn_links w))) w, None)
  | None => (w, Some "no such device")
  end.

#[export] Instance demo_nickernel : NicKernel demo_node := {|
  nl_LinkByName := λ w ns n, match dn_links w !! (ns, n) with Some l => inl (demo_Link n l) | None => inr "no such device" end;
  nl_LinkList := λ w ns, inl ((λ e, demo_Link e.1.2 e.2) <$> filter (λ e, e.1.1 = ns) (map_to_list (dn_links w)));
  nl_LinkAddVeth := λ w a b,
    if bool_decide (is_Some (dn_links w !! (EmptyString, a))) then (w, Some "file exists")
    else (mkDemoNode (<[(EmptyString, a) := mkDemoLink (VethLink b) (dn_next w) (Some (dn_next w + 1)) ∅]>
                      (<[(EmptyString, b) := mkDemoLink (VethLink a) (dn_next w + 1) (Some (dn_next w)) ∅]> (dn_links w)))
            (dn_leases w) (dn_api w) (dn_next w + 2), None);
  nl_LinkAddBridge := λ w n,
    (mkDemoNode (<[(EmptyString, n) := mkDemoLink BridgeLink (dn_next w) None ∅]> (dn_links w)) (dn_leases w) (dn_api w) (dn_next w + 1), None);
  nl_LinkDel := λ w ns n, on_link w ns n (λ l,
    set_links (filter (λ e, dl_idx e.2 ≠ dl_idx l ∧ Some (dl_idx e.2) ≠ dl_peer l) (dn_links w)) w);
  nl_LinkSetUp := λ w ns n, (w, None);
  nl_LinkSetMaster := λ w _ _, (w, None);
  nl_LinkSetAlias := λ w _ _, (w, None);
  nl_LinkSetNs := λ w n ns, node_move w (EmptyString, n) (ns, n);
  nl_LinkSetName := λ w ns n n', node_move w (ns, n) (ns, n');
  nl_AddrList := λ w ns n, match dn_links w !! (ns, n) with Some l => inl (elements (dl_addrs l)) | None => inr "no such device" end;
  nl_AddrDel := λ w ns n a, on_link w ns n (λ l, set_links (<[(ns, n) := set_dl_addrs (.∖ {[a]}) l]> (dn_links w)) w);
  nl_AddrAdd := λ w ns n a, on_link w ns n (λ l, set_links (<[(ns, n) := set_dl_addrs (.∪ {[a]}) l]> (dn_links w)) w);
  nl_ParseAddr := λ s, if bool_decide (is_Some (String.index 0 "/" s)) then inl (mkAddr s false) else inr "invalid CIDR address";
  nl_RouteReplace := λ w _ _, (w, None);
  ns_Open := λ _ _, None; ns_Get := λ _, None; ns_Set := λ _ _, None; ns_Enter := λ _ _, None |}.

Definition demo_addrs (w : demo_node) (ns n : string) : gset Addr :=
  match dn_links w !! (ns, n) with Some l => dl_addrs l | None => ∅ end.
Lemma demo_addrs_set w ns n f w' :
  on_link w ns n (λ l, set_links (<[(ns, n) := set_dl_addrs f l]> (dn_links w)) w) = (w', None) → demo_addrs w' ns n = f (demo_addrs w ns n).
Proof.
  unfold on_link, demo_addrs. destruct (dn_links w !! (ns, n)) as [l|]; [|done].
  intros [= <-]. cbn [dn_links set_links]. by rewrite lookup_insert_eq.
Qed.
#[export] Program Instance demo_niclaws : NicLaws demo_node := {| nic_addrs := demo_addrs |}.
Next Obligation. simpl. unfold demo_addrs. intros w ns n l. case_match; [|done]. intros [= <-]. by rewrite list_to_set_elements_L. Qed.
Next Obligation. intros w ns n a w' E. exact (demo_addrs_set _ _ _ _ _ E). Qed.
Next Obligation. intros w ns n a w' E. exact (demo_addrs_set _ _ _ _ _ E). Qed.
Next Obligation. simpl. by intros w ns n w' [= <-]. Qed.

#[export] Instance demo_hostlocal : HostLocal demo_node := {|
  LoadIPAMConfig := λ s, inl (mkIPAMConfig "dedicate-cni" EmptyString [] [s]);
  disk_New := λ _ _ _, None;
  range_Contains := λ _ _, true;
  alloc_Get := λ w a c i _,
    if bool_decide (2 ≤ size (dn_leases w))%nat then (w, inr "no IP addresses available in range set")
    else let ip := "10.0.0." +:+ Itoa (Z.of_nat (size (dn_leases w)) + 2) +:+ "/24" in (set_leases (<[(a, c, i) := ip]> (dn_leases w)) w, inl ip);
  alloc_Release := λ w a c i, (set_leases (delete (a, c, i) (dn_leases w)) w, None) |}.
#[export] Program Instance demo_hostlocallaws : HostLocalLaws demo_node := {| leases := λ w, dom (dn_leases w) |}.
Next Obligation. simpl. intros w a c i rq w' ip. case_bool_decide; [done|]. intros [= <- <-]. simpl. rewrite dom_insert_L. set_solver. Qed.
Next Obligation. simpl. intros w a c i rq w' e. case_bool_decide; [|done]. by intros [= <- <-]. Qed.
Next Obligation. simpl. intros w a c i w' [= <-]. simpl. by rewrite dom_delete_L. Qed.

#[export] Instance demo_node_pods : PodClient demo_node := {|
  pods_get := λ w, pods_get (dn_api w);
  pods_list := λ w, pods_list (dn_api w);
  pods_update := λ w p, let '(a, e) := pods_update (dn_api w) p in (mkDemoNode (dn_links w) (dn_leases w) a (dn_next w), e);
  pods_patch := λ w ns n j, let '(a, e) := pods_patch (dn_api w) ns n j in (mkDemoNode (dn_links w) (dn_leases w) a (dn_next w), e);
  nodes_get := λ w, nodes_get (dn_api w) |}.

Section demo_runs.
#[local] Existing Instance list_runtime.

Definition demo_globals : Globals := mkGlobals "10.0.0.0/24" "20.112.0.0/16" "10.96.0.0/16" "cnf-1" "fleetboard-system" "172.17.0.2" "10.0.0.1".
Definition demo_handler : cniHandler := createCniHandler demo_globals.
Definition demo_pod (name : string) : Pod :=
  mkPod (mkMeta name EmptyString "default" EmptyString EmptyString 0 0 None None None [] [])
    "n1" EmptyString EmptyString "Always" [] "Running" EmptyString EmptyString [] [].
Definition demo_sandbox (id name : string) : PodSandbox :=
  mkPodSandbox id name "default" (Some [mkLinuxNamespace "pid" EmptyString; mkLinuxNamespace "network" ("/ns/" +:+ name)]).
Definition demo_node0 : demo_node :=
  mkDemoNode ∅ ∅ (mkDemoApi {["default" := {["a" := demo_pod "a"; "b" := demo_pod "b"; "c" := demo_pod "c"]}]} ∅ []) 1.
Definition demo_bridged : demo_node := fst (CreateBridge demo_globals CNFBridgeName demo_node0).
Definition demo_run (id name : string) (w : demo_node) : demo_node * outcome () :=
  RunPodSandbox demo_globals demo_handler (demo_sandbox id name) w.
Definition parallel_ip (w : demo_node) (name : string) : option string :=
  match pods_get (dn_api w) "default" name with inl p => annotations p !! FleetboardParallelIP | inr _ => None end.

Example demo_first_pod :
  let w := fst (demo_run "abc111" "a" demo_bridged) in
  snd (CreateBridge demo_globals CNFBridgeName demo_node0) = Ret demo_globals ∧
  demo_addrs demo_bridged EmptyString CNFBridgeName = {[mkAddr "10.0.0.1/24" false]} ∧
  demo_addrs w "/ns/a" DediNIC = {[mkAddr "10.0.0.2/24" false]} ∧ parallel_ip w "a" = Some "10.0.0.2".
Proof. repeat split; vm_compute; reflexivity. Qed.

(** A second pod whose identifier starts with the same three characters: its start
    reports success and records an address, but neither pod has an interface
    afterwards. *)
Theorem colliding_pod_removes_interface :
  let w1 := fst (demo_run "abc111" "a" demo_bridged) in
  let '(w2, r) := demo_run "abc222" "b" w1 in
  is_Some (dn_links w1 !! ("/ns/a", DediNIC)) ∧
  r = Ret () ∧ parallel_ip w2 "a" = Some "10.0.0.2" ∧ parallel_ip w2 "b" = Some "10.0.0.3" ∧
  dn_links w2 !! ("/ns/a", DediNIC) = None ∧ dn_links w2 !! ("/ns/b", DediNIC) = None.
Proof. vm_compute. split; [eexists; reflexivity|]. repeat split. Qed.

Lemma configureNic_exact_witness :
  let w := fst (configureNic EmptyString CNFBridgeName "10.0.0.7/24" demo_bridged) in
  mkAddr "10.0.0.7/24" false ∈ nic_addrs w EmptyString CNFBridgeName ∧ mkAddr "10.0.0.1/24" false ∉ nic_addrs w EmptyString CNFBridgeName.
Proof.
  cbv zeta.
  assert (E : configureNic EmptyString CNFBridgeName "10.0.0.7/24" demo_bridged =
    (fst (configureNic EmptyString CNFBridgeName "10.0.0.7/24" demo_bridged), Ret ())) by (vm_compute; reflexivity).
  assert (Hc : canonical_addrs (split_on "," "10.0.0.7/24")).
  { intros ip Hip. change (split_on "," "10.0.0.7/24") with ["10.0.0.7/24"] in Hip. apply list_elem_of_singleton in Hip as ->.
    exists (mkAddr "10.0.0.7/24" false). repeat split. }
  split.
  - apply (configureNic_exact _ _ _ _ _ E Hc). left.
  - intros Ha. apply (configureNic_exact _ _ _ _ _ E Hc) in Ha. apply list_elem_of_singleton in Ha. discriminate Ha.
Defined.

Definition demo_request : CniRequest := sandbox_request (demo_sandbox "abc111" "a") "/ns/a" EmptyString.
Lemma GetIP_all_or_nothing_witness :
  let r := GetIP demo_request "10.0.0.0/24" demo_node0 in
  snd r = Ret ["10.0.0.2/24"] ∧ leases (fst r) = leases demo_node0 ∪ leases_of demo_request [(0%nat, "10.0.0.0/24")].
Proof.
  cbv zeta. split; [vm_compute; reflexivity|].
  assert (E : GetIP demo_request "10.0.0.0/24" demo_node0 = (fst (GetIP demo_request "10.0.0.0/24" demo_node0), Ret ["10.0.0.2/24"]))
    by (vm_compute; reflexivity).
  assert (Hr : release_reliable (W := demo_node)) by (intros w a c i; eexists; reflexivity).
  destruct (GetIP_all_or_nothing _ _ _ _ _ Hr (λ a, not_elem_of_empty _) E) as (c & Hc & _ & Hl).
  injection Hc as <-. exact Hl.
Defined.

(** A node whose range is used up: the daemon itself panics at the next pod. *)
Theorem no_address_panics :
  let w := fst (demo_run "def222" "b" (fst (demo_run "abc111" "a" demo_bridged))) in
  snd (GetIP demo_request (cniConfStr demo_handler) w) = Err "failed to allocate for range 0: no IP addresses available in range set" ∧
  snd (demo_run "123333" "c" w) = Panic.
Proof. repeat split; vm_compute; reflexivity. Qed.

Lemma waitForCIDRReady_first_witness :
  let ready := mkPod (set_Annotations (Some {[FleetboardNodeCIDR := "10.0.0.0/24"; FleetboardTunnelCIDR := "20.112.0.0/16";
    FleetboardServiceCIDR := "10.96.0.0/16"]}) (pod_meta (demo_pod "cnf-1")))
    "n1" EmptyString EmptyString "Always" [] "Running" EmptyString "172.17.0.2" [] [] in
  let g := mkGlobals EmptyString EmptyString EmptyString "cnf-1" "fleetboard-system" EmptyString EmptyString in
  ∃ g', waitForCIDRReady [inr (mkErr ReasonNotFound "not found"); inl (demo_pod "cnf-1"); inl ready] g = Ret g' ∧ NodeCIDR g' = "10.0.0.0/24".
Proof.
  cbv zeta. eexists. split.
  - apply waitForCIDRReady_first; [reflexivity|].
    eexists [inr (mkErr ReasonNotFound "not found"); inl (demo_pod "cnf-1")], _, []. split; [reflexivity|].
    split; [vm_compute; reflexivity|]. split; [reflexivity|].
    intros p Hp. apply elem_of_cons in Hp as [Hp|Hp]; [discriminate|]. apply list_elem_of_singleton in Hp as [= ->]. vm_compute. reflexivity.
  - vm_compute. reflexivity.
Defined.
End demo_runs.

(** Every failure of [GetIP] is such a panic. *)
Theorem handleAdd_without_address `{GoRuntime} {W} `{NicKernel W} `{HostLocal W} `{PodClient W} g ch rq (w w' : W) e :
  isCNFSelf g (rq_PodNamespace rq) (rq_PodName rq) = false → GetIP rq (cniConfStr ch) w = (w', Err e) →
  handleAdd g ch rq w = (w', Panic).
Proof. intros Hs E. unfold handleAdd. rewrite Hs. unfold handle. by rewrite E. Qed.
