(* ===== verification/CniPlugin.v ===== *)
(** * The plugin of the container runtime

    [pkg/dedinic/nri.go]: [InitNRIPlugin] makes the stub of the runtime interface and serves its events with the handlers of
    [Dedinic.v].  [stub.New] and [api.ParseEventMask] are parameters; [Stub.Run] delivers the events one after the other, each handler's
    error goes back to the runtime, and a panic ends the daemon.  The theorem: over any run, a container has its leases exactly when
    the last event that concerns it started it. *)
From stdpp Require Import prelude gmap strings list.
From S2P Require Import Prelude NetAddr NetUtil K8s HostPort Utils ServiceCIDR ApiOps Wireguard Dedinic.
Open Scope Z_scope.
Open Scope go_scope.

Record CNIPlugin := mkCNIPlugin { Mask : Z; has_Stub : bool }.

Definition Configure (p : CNIPlugin) : Z := Mask p.

Inductive sandbox_event :=
| EvSynchronize (pods : list PodSandbox)
| EvRunPodSandbox (pod : PodSandbox)
| EvStopPodSandbox (pod : PodSandbox)
| EvRemovePodSandbox (pod : PodSandbox).

Section plugin.
Context `{GoRuntime} {W : Type} `{NicKernel W} `{HostLocal W} `{PodClient W}.
Variables (g : Globals) (csh : cniHandler).

Definition deliver (ev : sandbox_event) : proc W () :=
  match ev with
  | EvSynchronize pods => Synchronize g csh pods
  | EvRunPodSandbox pod => RunPodSandbox g csh pod
  | EvStopPodSandbox pod => StopPodSandbox g csh pod
  | EvRemovePodSandbox pod => RemovePodSandbox pod
  end.

(** What each event was answered. *)
Fixpoint serve (events : list sandbox_event) : proc W (list (() + string)) :=
  match events with
  | [] => mret []
  | ev :: rest => try deliver ev as r in (rs ← serve rest; mret (r :: rs))
  end.
End plugin.

(** An error of [stub.New] is logged, and the stub, which is nil then, is used. *)
Definition InitNRIPlugin `{GoRuntime} {W : Type} `{NicKernel W} `{HostLocal W} `{PodClient W}
    (ParseEventMask : string → Z * option string) (stub_New : option string) (g : Globals) (events : list sandbox_event) :
    proc W (CNIPlugin * list (() + string)) :=
  let p := mkCNIPlugin (fst (ParseEventMask "runpodsandbox,stoppodsandbox,removepodsandbox"))
             (match stub_New with None => true | Some _ => false end) in
  let csh := createCniHandler g in
  if has_Stub p then rs ← serve g csh events; mret (p, rs) else lift Panic.

(** ** Leases *)

(** The configuration of links and the annotations of pods do not touch the store of leases. *)
Class NodeFrames (W : Type) `{NicKernel W} `{HostLocalLaws W} `{PodClient W} := {
  fr_LinkAddVeth : ∀ w a b, leases (fst (nl_LinkAddVeth w a b)) = leases w;
  fr_LinkDel : ∀ w a b, leases (fst (nl_LinkDel w a b)) = leases w;
  fr_LinkSetUp : ∀ w a b, leases (fst (nl_LinkSetUp w a b)) = leases w;
  fr_LinkSetMaster : ∀ w a b, leases (fst (nl_LinkSetMaster w a b)) = leases w;
  fr_LinkSetAlias : ∀ w a b, leases (fst (nl_LinkSetAlias w a b)) = leases w;
  fr_LinkSetNs : ∀ w a b, leases (fst (nl_LinkSetNs w a b)) = leases w;
  fr_LinkSetName : ∀ w a b c, leases (fst (nl_LinkSetName w a b c)) = leases w;
  fr_AddrDel : ∀ w a b c, leases (fst (nl_AddrDel w a b c)) = leases w;
  fr_AddrAdd : ∀ w a b c, leases (fst (nl_AddrAdd w a b c)) = leases w;
  fr_RouteReplace : ∀ w a b, leases (fst (nl_RouteReplace w a b)) = leases w;
  fr_pods_update : ∀ w p, leases (fst (pods_update w p)) = leases w
}.

Section leases.
Context `{GoRuntime} {W : Type} `{NodeFrames W}.
Implicit Types (rq : CniRequest) (pod : PodSandbox) (w : W).

Lemma keeps_act wrap (f : W → W * option string) : (∀ w, leases (fst (f w)) = leases w) → keeps leases (act wrap f).
Proof. intros Hf w. specialize (Hf w). unfold act. by destruct (f w) as [w' []]. Qed.
Lemma keeps_look {A} wrap (f : W → A + string) : keeps leases (look wrap f).
Proof. intros w. unfold look. by destruct (f w). Qed.
Lemma keeps_call {A E} (msg : E → string) (f : W → A + E) : keeps leases (call msg (λ w, (w, f w))).
Proof. intros w. unfold call. by destruct (f w). Qed.
Ltac frames := repeat first
  [ progress keep
  | apply keeps_look | apply keeps_call
  | apply keeps_act; intros; cbn;
    first [ apply fr_LinkAddVeth | apply fr_LinkDel | apply fr_LinkSetUp | apply fr_LinkSetMaster | apply fr_LinkSetAlias
          | apply fr_LinkSetNs | apply fr_LinkSetName | apply fr_AddrDel | apply fr_AddrAdd | apply fr_RouteReplace | reflexivity ] ].

Lemma keeps_each_addr f wrap l : (∀ a w, leases (fst (f a w)) = leases w) → keeps leases (each_addr f wrap l : proc W ()).
Proof. intros Hf. induction l as [|[k a] l IH]; cbn [each_addr]; [by intros ?|]. apply keeps_bind; [by apply keeps_act|done]. Qed.

Lemma keeps_nic_routes ns idx routes : keeps leases (nic_routes ns idx routes : proc W ()).
Proof. induction routes as [|r routes IH]; cbn [nic_routes]; [by intros ?|]. frames. Qed.

Lemma keeps_configureNic ns link ip : keeps leases (configureNic ns link ip : proc W ()).
Proof. unfold configureNic. frames; apply keeps_each_addr; intros; [apply fr_AddrDel|apply fr_AddrAdd]. Qed.

#[local] Hint Resolve keeps_configureNic keeps_nic_routes : keeps.
Lemma keeps_handler_configureNic netns cid ifn ip routes : keeps leases (handler_configureNic netns cid ifn ip routes : proc W ()).
Proof.
  unfold handler_configureNic, setupVethPair, addVethToBridge, configureContainerNic. frames.
Qed.

Lemma keeps_deleteNic netns ifn : keeps leases (deleteNic netns ifn : proc W ()).
Proof. unfold deleteNic. frames. Qed.

Lemma keeps_updateTheIPToPod n ns ip : keeps leases (updateTheIPToPod n ns ip : proc W ()).
Proof.
  unfold updateTheIPToPod. frames. apply keeps_act. intros w. match goal with |- context [pods_update w ?p] => pose proof (fr_pods_update w p) as Hf end.
  by destruct (pods_update w _) as [w1 [e|]].
Qed.

(** What a request leases when its ranges are those of [c]. *)
Definition rq_leases (c : IPAMConfig) rq : gset Lease := leases_of rq (allocators 0 (ic_Ranges c)).

(** The store of the plugin: its configuration loads, it opens, and releases do not fail. *)
Definition store_works (conf : string) (c : IPAMConfig) : Prop :=
  LoadIPAMConfig conf = inl c ∧ (∀ w : W, disk_New w (ic_Name c) (ic_DataDir c) = None) ∧ release_reliable (W := W).

Lemma GetIP_leases rq conf c w w' ips : store_works conf c → GetIP rq conf w = (w', Ret ips) → leases w' = leases w ∪ rq_leases c rq.
Proof.
  intros (Hc & Hd & Hr). unfold GetIP. intros (w1 & c' & [Hc' ->]%look_Ret & (w2 & [] & Ho%act_Ret & E)%proc_bind_Ret)%proc_bind_Ret.
  simplify_eq. rewrite Hc in Hc'. simplify_eq. apply proc_bind_Ret in E as (w3 & [[req allocs] ips'] & Ea & E).
  apply alloc_ranges_leases in Ea as (-> & _ & Hw); [|done]. case_bool_decide.
  - injection E as <- <-. exact Hw.
  - apply proc_bind_Ret in E as (? & ? & _ & E). done.
Qed.

Lemma DelIP_leases rq conf c w : store_works conf c →
  ∃ w', DelIP rq conf w = (w', Ret ()) ∧ leases w' = leases w ∖ rq_leases c rq.
Proof.
  intros (Hc & Hd & Hr). unfold DelIP, mbind, proc_bind, look, act. rewrite Hc, Hd.
  destruct (release_ranges_leases rq 0 (ic_Ranges c) [] w Hr) as (w' & -> & Hw). by exists w'.
Qed.

Section handlers.
Variables (g : Globals) (csh : cniHandler) (c : IPAMConfig).
Hypothesis Hstore : store_works (cniConfStr csh) c.
Notation self pod := (isCNFSelf g (sb_Namespace pod) (sb_Name pod)).

(** A start that does not end the daemon has its leases, whatever it reports. *)
Lemma handleAdd_leases rq w w' r : handleAdd g csh rq w = (w', r) → r ≠ Panic → isCNFSelf g (rq_PodNamespace rq) (rq_PodName rq) = false →
  leases w' = leases w ∪ rq_leases c rq.
Proof.
  intros E Hp Hs. unfold handleAdd in E. rewrite Hs in E. unfold handle in E.
  destruct (GetIP rq _ w) as [w1 [[|ip ips]|e| |]] eqn:Eg; try (by injection E as <- <-).
  - apply (GetIP_leases _ _ c) in Eg; [|done]. rewrite <- Eg.
    match type of E with ?p w1 = _ => assert (K : keeps leases p) end.
    { apply keeps_bind; [|intros; apply keeps_updateTheIPToPod]. apply keeps_ignore_err, keeps_handler_configureNic. }
    specialize (K w1). rewrite E in K. exact K.
  - exfalso. revert Eg. unfold GetIP, mbind, proc_bind, look, act. destruct Hstore as (Hc & Hd & Hr). rewrite Hc, Hd.
    destruct (alloc_ranges _ _ _ _ _ _ _) as [w2 o] eqn:Ea. apply alloc_ranges_leases in Ea; [|done].
    destruct o as [[[req allocs] ips]|e| |]; try done. case_bool_decide; [done|].
    destruct (release_all_leases rq allocs w2 Hr) as (w3 & -> & _). done.
Qed.

Lemma handleDel_leases rq w w' r : handleDel g csh rq w = (w', r) → isCNFSelf g (rq_PodNamespace rq) (rq_PodName rq) = false →
  leases w' = leases w ∖ rq_leases c rq.
Proof.
  intros E Hs. unfold handleDel in E. rewrite Hs in E. destruct (DelIP_leases rq _ c w Hstore) as (w1 & Ed & Hw).
  unfold mbind, proc_bind in E. rewrite Ed in E. pose proof (keeps_deleteNic (rq_NetNs rq) (rq_IfName rq) w1) as K. rewrite E in K. by rewrite <- Hw.
Qed.

(** The handlers act on the pods with a network namespace that are not the daemon's own. *)
Definition handled_pod (id : string) pod : bool :=
  bool_decide (sb_Id pod = id) && negb (isCNFSelf g (sb_Namespace pod) (sb_Name pod)) && match GetNSPathFromPod pod with Ret _ => true | _ => false end.

(** Whether container [id] has its leases after an event, if [b] says so before. *)
Definition lease_after (id : string) (b : bool) (ev : sandbox_event) : bool :=
  match ev with
  | EvSynchronize pods => b || existsb (handled_pod id) pods
  | EvRunPodSandbox pod => b || handled_pod id pod
  | EvStopPodSandbox pod => b && negb (handled_pod id pod)
  | EvRemovePodSandbox _ => b
  end.

Definition leased (a : IPAllocator) (id : string) w : bool := bool_decide ((a, id, DediNIC) ∈ leases w).

Lemma rq_leases_elem a id pod nsPath provider :
  (a, id, DediNIC) ∈ rq_leases c (sandbox_request pod nsPath provider) ↔ a ∈ allocators 0 (ic_Ranges c) ∧ sb_Id pod = id.
Proof.
  unfold rq_leases, leases_of. rewrite elem_of_list_to_set, list_elem_of_fmap. cbn [rq_ContainerID rq_IfName sandbox_request]. naive_solver.
Qed.

Section one_container.
Variables (a : IPAllocator) (id : string).
Hypothesis Ha : a ∈ allocators 0 (ic_Ranges c).

Lemma add_leased pod nsPath provider w w' r : GetNSPathFromPod pod = Ret nsPath →
  handleAdd g csh (sandbox_request pod nsPath provider) w = (w', r) → r ≠ Panic → leased a id w' = leased a id w || handled_pod id pod.
Proof.
  intros Hp E Hr. unfold leased, handled_pod. rewrite Hp, andb_true_r. destruct (self pod) eqn:Hs; cbn [negb].
  { unfold handleAdd in E. cbn [rq_PodNamespace rq_PodName sandbox_request] in E. rewrite Hs in E. injection E as <- <-. by rewrite andb_false_r, orb_false_r. }
  rewrite andb_true_r, (handleAdd_leases _ _ _ _ E Hr Hs), <- bool_decide_or. apply bool_decide_ext.
  rewrite elem_of_union, rq_leases_elem. naive_solver.
Qed.

Lemma del_leased pod nsPath provider w w' r : GetNSPathFromPod pod = Ret nsPath →
  handleDel g csh (sandbox_request pod nsPath provider) w = (w', r) → leased a id w' = leased a id w && negb (handled_pod id pod).
Proof.
  intros Hp E. unfold leased, handled_pod. rewrite Hp, andb_true_r. destruct (self pod) eqn:Hs; cbn [negb].
  { unfold handleDel in E. cbn [rq_PodNamespace rq_PodName sandbox_request] in E. rewrite Hs in E. rewrite andb_false_r, andb_true_r.
    match type of E with ?p w = _ => assert (K : keeps leases p) by frames end. specialize (K w). rewrite E in K. cbn in K. by rewrite K. }
  rewrite andb_true_r, (handleDel_leases _ _ _ _ E Hs), <- bool_decide_not, <- bool_decide_and. apply bool_decide_ext.
  rewrite elem_of_difference, rq_leases_elem. naive_solver.
Qed.

(** One pod of [Synchronize]: its leases are given back and taken again. *)
Lemma sync_pod_leased pod w w' r :
  (if self pod then mret ()
   else try lift (GetNSPathFromPod pod) as n in
        match n with
        | inr _ => mret ()
        | inl nsPath =>
            _ ← ignore_err (handleDel g csh (sandbox_request pod nsPath EmptyString));
            ignore_err (handleAdd g csh (sandbox_request pod nsPath EmptyString))
        end : proc W ()) w = (w', r) → r ≠ Panic → r ≠ Spin →
  r = Ret () ∧ leased a id w' = leased a id w || handled_pod id pod.
Proof.
  destruct (self pod) eqn:Hself.
  { intros [= <- <-] _ _. unfold handled_pod. by rewrite Hself, andb_false_r, orb_false_r. }
  unfold handle at 1, lift. destruct (GetNSPathFromPod pod) as [nsPath|e| |] eqn:En; cbn beta iota.
  2-4: intros [= <- <-]; try done; intros _ _; unfold handled_pod; by rewrite En, andb_false_r, orb_false_r.
  unfold mbind, proc_bind, ignore_err, handle.
  destruct (handleDel _ _ _ w) as [w2 r2] eqn:Ed. apply (del_leased _ _ _ _ _ _ En) in Ed.
  assert (Hadd : ∀ w3 r3, handleAdd g csh (sandbox_request pod nsPath EmptyString) w2 = (w3, r3) → r3 ≠ Panic →
    leased a id w3 = leased a id w || handled_pod id pod).
  { intros w3 r3 E3 Hr3. rewrite (add_leased _ _ _ _ _ _ En E3 Hr3), Ed. by destruct (leased a id w), (handled_pod id pod). }
  destruct r2 as [|e| |]; cbn; try (intros [= <- <-]; done).
  all: destruct (handleAdd _ _ _ w2) as [w3 r3] eqn:E3; specialize (Hadd w3 r3 eq_refl).
  all: destruct r3; intros [= <- <-] ? ?; try done; (split; [done|]; by apply Hadd).
Qed.

Lemma Synchronize_leased pods w w' r : Synchronize g csh pods w = (w', r) → r ≠ Panic → r ≠ Spin →
  leased a id w' = leased a id w || existsb (handled_pod id) pods.
Proof.
  revert w. induction pods as [|pod pods IH]; intros w; cbn [Synchronize existsb].
  { intros [= <- <-] _ _. by rewrite orb_false_r. }
  unfold mbind at 1, proc_bind at 1.
  match goal with |- (let '(s', r) := ?p in _) = _ → _ => destruct p as [w1 r1] eqn:E1 end. intros E Hp Hs.
  apply sync_pod_leased in E1 as [-> H1']; [|by intros ->; injection E as <- <-..].
  by rewrite (IH _ E Hp Hs), H1', orb_assoc.
Qed.

Lemma deliver_leased ev w w' r : deliver g csh ev w = (w', r) → r ≠ Panic → r ≠ Spin → leased a id w' = lease_after id (leased a id w) ev.
Proof.
  destruct ev as [pods|pod|pod|pod]; cbn [deliver lease_after].
  - apply Synchronize_leased.
  - unfold RunPodSandbox, mbind, proc_bind, lift. destruct (GetNSPathFromPod pod) as [nsPath|e| |] eqn:En; cbn; intros E Hp Hs.
    { by apply (add_leased _ _ _ _ _ _ En E). }
    all: injection E as <- <-; unfold handled_pod; by rewrite En, andb_false_r, orb_false_r.
  - unfold StopPodSandbox, mbind, proc_bind, lift. destruct (GetNSPathFromPod pod) as [nsPath|e| |] eqn:En; cbn; intros E Hp Hs.
    { by apply (del_leased _ _ _ _ _ _ En E). }
    all: injection E as <- <-; unfold handled_pod; by rewrite En, andb_false_r, andb_true_r.
  - by intros [= <- <-] _ _.
Qed.

Lemma serve_leased events w w' rs : serve g csh events w = (w', Ret rs) →
  length rs = length events ∧ leased a id w' = foldl (lease_after id) (leased a id w) events.
Proof.
  revert w rs. induction events as [|ev events IH]; intros w rs; cbn [serve foldl]; [by intros [= <- <-]|].
  unfold handle. destruct (deliver g csh ev w) as [w1 r] eqn:Ed. intros E.
  assert (Hd : leased a id w1 = lease_after id (leased a id w) ev) by (apply (deliver_leased _ _ _ _ Ed); by intros ->).
  destruct r as [[]|e| |]; try done; apply proc_bind_Ret in E as (w2 & rs' & E & [= <- <-]); apply IH in E as [Hl Hw]; cbn [length]; rewrite <- Hd; auto.
Qed.
End one_container.
End handlers.
End leases.

(** C37: leases follow the pods.  Where the store of the plugin works, a plugin that has served its events answered every one of them,
    and a container holds an address of each range exactly when the last event that concerns it started it: [RunPodSandbox] and
    [Synchronize] take the addresses, whatever they report of the interface, [StopPodSandbox] gives them back, and the daemon's own
    pods and those of the host network are passed over. *)
Theorem leases_follow_pods `{GoRuntime} {W : Type} `{NodeFrames W} mask new g c events (w w' : W) p rs :
  store_works (W := W) (cniConf (NodeCIDR g)) c →
  InitNRIPlugin mask new g events w = (w', Ret (p, rs)) →
  new = None ∧ length rs = length events ∧
  ∀ a id, a ∈ allocators 0 (ic_Ranges c) → leased a id w' = foldl (lease_after g id) (leased a id w) events.
Proof.
  intros Hs. unfold InitNRIPlugin. destruct new; [done|]. cbn [has_Stub].
  intros (w1 & rs' & E & [= <- <- <-])%proc_bind_Ret.
  split; [done|]. split; [|intros a id Ha; exact (proj2 (serve_leased g (createCniHandler g) c Hs a id Ha _ _ _ _ E))].
  clear Hs. revert w rs' E. induction events as [|ev events IH]; intros w rs'; cbn [serve]; [by intros [= <- <-]|].
  unfold handle. destruct (deliver _ _ ev w) as [w2 [[]|e| |]]; try done; intros (w3 & rs & E & [= <- <-])%proc_bind_Ret; apply IH in E; cbn; by f_equal.
Qed.

(** ** A run on the concrete node *)
Section demo_plugin.
#[local] Existing Instance list_runtime.

#[local] Program Instance demo_nodeframes : NodeFrames demo_node.
Solve All Obligations with
  (intros; cbn; unfold node_move, on_link; repeat case_match; simplify_eq; try reflexivity).

Definition demo_own : PodSandbox := mkPodSandbox "cnf999" "cnf-1" "fleetboard-system" (Some [mkLinuxNamespace "network" "/ns/cnf"]).
Definition demo_events : list sandbox_event :=
  [EvRunPodSandbox (demo_sandbox "abc111" "a"); EvSynchronize [demo_sandbox "abc111" "a"; demo_own];
   EvStopPodSandbox (demo_sandbox "abc111" "a"); EvRunPodSandbox (demo_sandbox "def222" "b"); EvRemovePodSandbox (demo_sandbox "abc111" "a")].
Definition demo_config : IPAMConfig := mkIPAMConfig "dedicate-cni" EmptyString [] [cniConf "10.0.0.0/24"].
Definition demo_mask (_ : string) : Z * option string := (7, None).
Definition demo_served : demo_node := fst (InitNRIPlugin demo_mask None demo_globals demo_events demo_bridged).
Lemma demo_plugin_answers :
  snd (InitNRIPlugin demo_mask None demo_globals demo_events demo_bridged) = Ret (mkCNIPlugin 7 true, repeat (inl ()) 5).
Proof. vm_compute. reflexivity. Qed.
Lemma demo_plugin_runs :
  InitNRIPlugin demo_mask None demo_globals demo_events demo_bridged = (demo_served, Ret (mkCNIPlugin 7 true, repeat (inl ()) 5)).
Proof. rewrite <- demo_plugin_answers. apply surjective_pairing. Qed.
Lemma demo_store_works : store_works (W := demo_node) (cniConf (NodeCIDR demo_globals)) demo_config.
Proof. split; [reflexivity|]. split; [reflexivity|]. intros w a i c. eexists. reflexivity. Qed.

(** The first container has given its address back, the second one has it, the daemon's own has none. *)
Lemma leases_follow_pods_witness :
  let a := (0%nat, cniConf "10.0.0.0/24") in
  leased a "abc111" demo_served = false ∧ leased a "def222" demo_served = true ∧ leased a "cnf999" demo_served = false.
Proof.
  cbv zeta. destruct (leases_follow_pods demo_mask None demo_globals demo_config demo_events demo_bridged demo_served
    (mkCNIPlugin 7 true) (repeat (inl ()) 5) demo_store_works demo_plugin_runs) as (_ & _ & Hl).
  assert (Ha : (0%nat, cniConf "10.0.0.0/24") ∈ allocators 0 (ic_Ranges demo_config)) by (cbn [allocators ic_Ranges demo_config]; left).
  split; [|split]; [etransitivity; [exact (Hl _ "abc111" Ha)|]|etransitivity; [exact (Hl _ "def222" Ha)|]|etransitivity; [exact (Hl _ "cnf999" Ha)|]];
    vm_compute; reflexivity.
Defined.
End demo_plugin.

(** The pods that stop while the plugin is away are not known to it: their addresses are not given back. *)
Corollary unseen_stop_keeps_lease `{GoRuntime} {W : Type} `{NodeFrames W} mask new g c events (w w' : W) p rs a id :
  store_works (W := W) (cniConf (NodeCIDR g)) c → InitNRIPlugin mask new g events w = (w', Ret (p, rs)) → a ∈ allocators 0 (ic_Ranges c) →
  Forall (λ ev, ∀ pod, ev = EvStopPodSandbox pod → sb_Id pod ≠ id) events → leased a id w = true → leased a id w' = true.
Proof.
  intros Hs. unfold InitNRIPlugin. destruct new; [done|]. cbn [has_Stub]. intros (w1 & rs' & E & [= <- <- <-])%proc_bind_Ret Ha Hev Hl.
  apply (serve_leased g (createCniHandler g) c Hs a id Ha) in E as [_ ->]. rewrite Hl. clear -Hev.
  induction Hev as [|ev events Hev _ IH]; [done|]. cbn [foldl].
  assert (lease_after g id true ev = true) as ->; [|exact IH]. destruct ev as [| |pod|]; try done. cbn [lease_after].
  unfold handled_pod. rewrite bool_decide_false; [done|]. by apply Hev.
Qed.
